(* ===== verification/_CoqProject ===== *)
-Q . S2P
Prelude.v
Text.v
Bytes.v
Ident.v
Json.v
JmapEnvelope.v
JmapRefs.v
JmapDispatch.v
SmtpSession.v
SmtpFacts.v
Authn.v
Store.v
StoreFacts.v
Mail.v
MailQueries.v
MailFacts.v
UpdateFacts.v
History.v
MailQueryFacts.v
Spam.v
SpamFacts.v
Pgp.v
PgpFacts.v
Chat.v
Tokens.v
TokensFacts.v
Challenges.v
Interleave.v
Attributes.v
Oidc.v
OidcFacts.v
OidcSafety.v
OidcGrants.v
OidcWitness.v
Calendars.v
Sharing.v
FedStore.v
Scheduling.v
Limiter.v
Slots.v
SlotFacts.v
CalHistory.v
BookFacts.v
OfferFacts.v
CalWitness.v
FedSig.v
FedSync.v
FedSigFacts.v
FedVerify.v
FedPaging.v
FedSyncFacts.v
Queue.v
Delivery.v
Handler.v
JmapMail.v
Ics.v
Confirm.v
IcsFacts.v
JmapIsolation.v
JmapPatch.v
Ai.v
AiFacts.v
Mcp.v
JmapCalendar.v
JmapCalendarFacts.v
QueueFacts.v
DeliveryFacts.v
McpFacts.v
HandlerFacts.v
Blob.v
BlobFacts.v
MailWitness.v
JmapWitness.v
AiWitness.v
PgpWitness.v
DeliveryWitness.v
FedWitness.v
JmapCalWitness.v
