(* ===== verification/Prelude.v ===== *)
(** * owney: a verification library for the owney mail server

    owney is a self-hosted mail server in Rust: an inbound SMTP session, an
    encrypted content-addressed blob store, a SQLite store with per-type change
    counters, an outbound queue with its delivery workers, and a JMAP front end.
    It also serves calendars with
    sharing, federation and public booking pages.  This library models those parts as executable functions and proves what
    makes them correct.  File names below are under [src/crates/].

    ** How the parts interact

    [owney-smtp-in] receives a message and hands it to a handler, which resolves
    the recipients ([owney-storage] aliases and accounts) and ingests the message:
    the raw bytes go to the blob store, then one database transaction files the
    row, its thread and mailbox, advances the change counters, and publishes the
    change.  [owney-delivery] does the same for the sender's copy of a submitted
    message and queues one row per recipient; workers claim due rows, talk to the
    relays, and either finish the row, put it back for later, or file a bounce in
    the sender's inbox.  [jmap-core] runs the client's requests against handlers
    that read and update the store.

    ** Files

    - [Prelude]: results, the state-and-error monad [action], transactions,
      association-table operations ([update_where], [select_first], [order_by]),
      and the list and arithmetic lemmas the components share.
    - [Text]: ASCII case, trimming, splitting, decimal printing, bytewise order.
    - [Ident]: [owney-core/src/id.rs], [time.rs]: blob ids and their hex text,
      data types, the calendar and the two date formats.
    - [Json]: the [serde_json::Value] fragment the JMAP core computes with.
    - [JmapEnvelope], [JmapRefs], [JmapDispatch]: [jmap-core/src/envelope.rs],
      [refs.rs], [lib.rs] and [session.rs].
    - [SmtpSession], [SmtpFacts]: [owney-smtp-in/src/session.rs].
    - [Store], [StoreFacts]: the schema ([migrations.rs]) as a record of tables
      with its constraints, and the operations of [owney-storage/src/lib.rs] and
      [aliases.rs].
    - [Mail], [MailQueries]: [ingest.rs] and [mail_queries.rs]; [MailFacts],
      [UpdateFacts], [History], [MailQueryFacts] their lemmas and theorems.
    - [Queue], [QueueFacts] (with the workers): [queue.rs]; [Delivery], [DeliveryFacts]:
      [owney-delivery/src/lib.rs], [router.rs], [worker.rs].
    - [Blob], [BlobFacts]: [blob.rs].
    - [Bytes]: splitting and replacing in byte strings, and the lossy UTF-8 view.
    - [Authn]: [owney-authn/src/lib.rs], the verdicts of SPF, DKIM and DMARC, the
      [Authentication-Results] field and the resolver cache.
    - [Spam], [SpamFacts]: [owney-spam/src/lib.rs] and the token tables of
      [owney-storage/src/spam_store.rs].
    - [Pgp], [PgpFacts]: the crate [owney-pgp] (MIME wrapping, Autocrypt, the web key
      directory) and its use on both mail paths ([pgp_mail.rs], [pgp_store.rs]).
    - [Chat]: [owney-storage/src/chat_preferences.rs].
    - [Tokens], [TokensFacts]: [tokens.rs] and [oauth.rs] of [owney-storage] over
      [AuthDb], with the rotation of refresh families refined to a small
      specification.
    - [Challenges]: [owney-api/src/challenge_store.rs]; the passkey part of
      [owney-storage/src/passwordless.rs] and [owney-authn-v2/src/passkey.rs].
    - [Interleave]: programs of atomic steps and the proof rule for their
      interleavings, used by the endpoints.
    - [Oidc], [OidcFacts], [OidcSafety], [OidcGrants]: the endpoints of
      [owney-api/src/oidc/], their invariant, the consent theorem and the grants.
    - [Handler], [HandlerFacts]: the [SmtpHandler] of [bin/owneyd/src/main.rs], which
      composes authentication, spam, PGP and ingestion with the SMTP session.
    - [Calendars], [Sharing], [FedStore], [Scheduling]: [calendar.rs],
      [calendar_sharing.rs], [federation_store.rs] and [scheduling.rs] of
      [owney-storage] over one record of tables, [Calendars.CalDb].
    - [Limiter], [Slots]: [owney-api/src/schedule/]: the rate limiter, the slot
      computation and the booking endpoints; [SlotFacts], [CalHistory], [BookFacts],
      [OfferFacts] their theorems.
    - [FedSig], [FedSync]: the federation of [owney-api]: [fed_sig.rs] (signed
      requests, both sides), and [federation.rs], [fed_apply.rs], [calendar_sync.rs],
      [wellknown.rs] and [fed_worker.rs] as programs of atomic steps over [FedWorld];
      [FedSigFacts], [FedVerify], [FedSyncFacts], [FedPaging] their
      theorems.
    - [Attributes], [JmapMail]: [owney-storage/src/attributes.rs] and the methods of
      [owney-jmap-mail/src/lib.rs], as actions over the storage operations;
      [JmapIsolation], [JmapPatch] their theorems.
    - [Ics], [Confirm]: [owney-api/src/schedule/ics.rs] with its reader
      [owney-ai/src/ics.rs], and the confirmation mails of [schedule/mail.rs] and
      [schedule/mod.rs]; [IcsFacts] their theorems.
    - [Ai], [AiFacts]: [owney-storage/src/ai_store.rs] and the crate [owney-ai]: the
      skills, the pass over new mail, the providers and undo, over [AiState].
    - [Mcp], [McpFacts]: the crate [owney-mcp], an agent's tools over the same state.
    - [JmapCalendar], [JmapCalendarFacts]: [calendar_methods.rs] and
      [scheduling_methods.rs] of [owney-jmap-mail], as programs over [FedWorld].
    - The [*Witness] files apply the theorems to concrete runs.

    ** How the code is modelled

    A statement that changes the database is a function of type [action Db
    StorageError A], that is [Db -> result StorageError A * Db]; a closure run by
    [Db::write] inside [Transaction] is wrapped in [transaction], which restores
    the tables on an error.  One such action is atomic, since the source sends
    every write to one writer thread; interleavings are sequences of actions.
    Tables are lists of rows in rowid order, so that "first row", ORDER BY (stable
    insertion sort) and uniqueness constraints are those of SQLite.  Random ids
    and the clock are arguments.  Integers are [Z]; the casts between [u64] and
    SQLite's [i64], to [u32] and to [u8] are written out.  Strings are byte
    strings; the source's Unicode case mappings are the ASCII ones, which agree
    on the addresses and keywords the code compares.

    The code that is not in the repository is a parameter: the MIME parser, the
    wire parsers of SMTP, the UUID parser, the resolver and the SMTP client, the
    digest and cipher ([Blob.Primitives]), and serde's decoding of a result
    reference.  Where a theorem needs a law of such code, the law is a class or a
    hypothesis next to it ([Mail.BlobStoreLaws], [Blob.PrimitiveLaws], the
    receiver laws of [SmtpSession]) and a witness instantiates it.
    [BlobFacts.blob_store_laws] discharges [Mail.BlobStoreLaws] for the store of
    [blob.rs], so that the theorems about ingestion hold of the real store.

    ** What the theorems show

    - SMTP: only recipients the handler accepted reach delivery, within the
      configured limits; the loop over a read ends; the encrypted part of a
      connection owes nothing to what was said in the clear but the error count;
      header lines cannot be injected through EHLO.
    - Storage: an invariant of the tables (keys, references, counters at least as
      large as every row's modseq) that every operation keeps; ingestion is all or
      nothing; what is ingested is what is read back; updates are reported by
      [changes_since]; recipients resolve as documented.
    - Blob store: whatever the interleaving of writers, whichever call but the
      flush of the temporary file fails, and whatever a crash undoes, a file at a
      blob's path decodes to a plaintext that was stored under that digest.
    - Queue and delivery: a claim takes the most urgent due rows exactly once; two
      workers never hold the same row as long as no second worker starts while one
      is delivering; the retry policy is bounded; the report of a final failure is
      filed in the sender's inbox.
    - JMAP: a request is accepted exactly under the stated conditions, one answer
      per call, references resolved as RFC 8620 says, a panic confined to its call.
    - Handler: whatever a connection sends, the store changes only through the
      deliveries of accepted recipients, each delivered in order with the folder,
      keywords and headers the checks gave it.
    - Inbound authentication and spam: the header field the server adds reads back
      as the verdicts it computed; an untrained filter never acts.
    - OpenPGP: what is encrypted is the message without its inner headers, wrapping
      and unwrapping are inverse, keys are harvested only from the sender's own field.
    - Tokens: the operations of [oauth.rs] refine a two-state machine per family of
      refresh tokens (one live generation, or revoked); a rotation succeeds once.
    - OpenID Connect: for every interleaving of requests, a token exists only for a
      (person, client, scopes) that logged in and consented.
    - Calendars and booking: an invariant of the calendar tables (no account is ever
      booked twice at one time) that every sequence of calls keeps; the slots a page
      offers are exactly those of its weekly hours; what is offered can be booked,
      and what is booked was offered.
    - Federation: a request is accepted only with a fresh, unused signature of a pinned
      server, what the client signs is accepted once, and a pinned key is never
      replaced; a calendar is served only to the peer it was shared with, page by page
      without a gap; what a peer answers stays within its own mirror calendar.
    - JMAP methods: no method touches another account's mail, preferences or
      attributes, failed calls included; an update of [Email/set] does to a message
      exactly what its patch says, and every object of a call is answered once.  The
      calendar methods, discovery and invitation included, change only what the caller
      owns and keep the invariant of the calendar tables.
    - Invitations and confirmations: the reader of invitations reads back what the
      writer wrote, folded and escaped; the header of a confirmation is the server's
      own, whatever the visitor typed.
    - AI layer and agents: whatever the model answers, a pass loses no mail and stays
      in the account, and its cursor moves only at the end; undoing a recorded action
      restores the message; an agent reaches only its account, sends only with the
      right to, and the tools its catalog does not mark as writing write nothing.

    The definitions also showed defects: the theorems named in the manifest's
    findings are about what the code does, not what its comments say.

    ** Fuel and bounds

    [SmtpSession.drain] takes fuel, and [SmtpFacts.drain_all_terminates] shows
    that one more than the bytes read is enough.  [Json] recursion is structural.
    [Bytes.split_str] and [Text.count_matches] take the length of the text, and
    [Pgp.zbase32_emit] three, since at most twelve bits are pending.
    [Slots.walk] takes the minute the window ends, since every round adds a duration
    of at least one minute; [Slots.each_date] the number of days; [SlotFacts] proves
    that neither runs out.  A date past the last one chrono can represent is [None],
    as the panic it is.  [FedSync.pull] takes the number of pages, and ends as long as
    the peer's last page says so; the source loops for ever with a peer that never does.

    ** Not modelled

    Parameters, besides those named above: the resolver and mail-auth
    ([Authn.MailAuth]), Sequoia ([Pgp.Sequoia]), webauthn-rs ([Challenges.WebAuthn]),
    the hashes, encodings and JSON codecs of the provider ([Oidc.Crates]), chrono and
    its zones ([Slots.Chrono]), URLs and the HTTP exchange ([FedSig.FedCrates],
    [FedSig.Network], [FedSync.FedJson]), the JSON columns ([Calendars.Serde]), the
    logarithm and exponential of [f32], and the iteration order of a [HashSet].
    [OidcFacts] records approvals and logins in history variables that no operation
    reads.

    Socket and file-system loops (listeners, ACME, backup, update), command line
    and start-up, the wire codecs of third-party crates, static pages and discovery
    documents, routes that the router does not mount ([owney-api/src/auth.rs]),
    recovery codes and devices, and the parts the manifest lists as not modelled. *)
From stdpp Require Export base tactics gmap strings list sorting pretty.
From Stdlib Require Export ZArith Lia Ascii.

Declare Scope owney_scope.
Delimit Scope owney_scope with owney.

(** ** Results: Rust's [Result<A, E>] *)

Inductive result (E A : Type) : Type :=
  | Ok (a : A)
  | Err (e : E).
Arguments Ok {E A} _.
Arguments Err {E A} _.

Definition is_ok {E A} (r : result E A) : bool :=
  match r with Ok _ => true | Err _ => false end.

Definition result_bind {E A B} (r : result E A) (k : A -> result E B) : result E B :=
  match r with Ok a => k a | Err e => Err e end.

(** [Option::ok_or]. *)
Definition ok_or {E A} (o : option A) (e : E) : result E A :=
  match o with Some a => Ok a | None => Err e end.

Notation "x <-? m ;; k" := (result_bind m (fun x => k))
  (at level 100, m at next level, right associativity) : owney_scope.
Open Scope owney_scope.

(** [collect::<Result<Vec<_>, _>>()]: the first error wins. *)
Fixpoint collect_results {E A} (l : list (result E A)) : result E (list A) :=
  match l with
  | [] => Ok []
  | r :: l' => a <-? r ;; rest <-? collect_results l' ;; Ok (a :: rest)
  end.

Lemma collect_results_map_Ok {E A B} (f : A -> B) (l : list A) :
  @collect_results E _ (map (fun a => Ok (f a)) l) = Ok (map f l).
Proof. induction l as [|a l IH]; simpl; [done|]. by rewrite IH. Qed.

Lemma collect_results_elem {E A} (l : list (result E A)) r y :
  collect_results l = Ok r -> y ∈ r -> Ok y ∈ l.
Proof.
  revert r. induction l as [|x l IH]; intros r; simpl.
  - intros H Hy. injection H as <-. by apply elem_of_nil in Hy.
  - destruct x as [a|e]; simpl; [|done]. destruct (collect_results l) as [ys|e]; simpl; [|done].
    intros H Hy. injection H as <-. apply elem_of_cons in Hy as [->|Hy]; [by left|].
    right. by eapply IH.
Qed.

(** ** The state-and-error monad of the storage layer

    One closure handed to [Db::call] runs alone on the writer thread: it reads
    the state, may fail, and leaves a new state behind. *)

Definition action (S E A : Type) : Type := S -> result E A * S.

Definition ret {S E A} (a : A) : action S E A := fun s => (Ok a, s).
Definition fail {S E A} (e : E) : action S E A := fun s => (Err e, s).
Definition bind {S E A B} (m : action S E A) (k : A -> action S E B) : action S E B :=
  fun s => match m s with
           | (Ok a, s') => k a s'
           | (Err e, s') => (Err e, s')
           end.
Definition gets {S E A} (f : S -> A) : action S E A := fun s => (Ok (f s), s).
Definition modify {S E} (f : S -> S) : action S E unit := fun s => (Ok tt, f s).
Definition lift {S E A} (r : result E A) : action S E A := fun s => (r, s).

(** [conn.transaction()? ... tx.commit()?]: dropping the transaction on an
    early return rolls every write back. *)
Definition transaction {S E A} (m : action S E A) : action S E A :=
  fun s => match m s with
           | (Ok a, s') => (Ok a, s')
           | (Err e, _) => (Err e, s)
           end.

Notation "x <- m ;; k" := (bind m (fun x => k))
  (at level 100, m at next level, right associativity) : owney_scope.
Notation "m ;;; k" := (bind m (fun _ => k))
  (at level 100, right associativity) : owney_scope.

(** A [for] loop whose body may fail. *)
Fixpoint for_each {S E A} (l : list A) (f : A -> action S E unit) : action S E unit :=
  match l with
  | [] => ret tt
  | a :: l' => f a ;;; for_each l' f
  end.

(** ** What every run of an action keeps *)

Definition keeps {S E A} (R : S -> S -> Prop) (m : action S E A) : Prop :=
  forall s r s', m s = (r, s') -> R s s'.

Section Keeps.
Context {S : Type} (R : S -> S -> Prop) `{!PreOrder R}.

Lemma keeps_pure {E A} (m : action S E A) : (forall s, snd (m s) = s) -> keeps R m.
Proof. intros Hm s r s' E'. specialize (Hm s). rewrite E' in Hm. simpl in Hm. by subst s'. Qed.
Lemma keeps_ret {E A} (a : A) : keeps R (ret (E := E) a).
Proof. by apply keeps_pure. Qed.
Lemma keeps_fail {E A} (e : E) : keeps R (fail (A := A) e).
Proof. by apply keeps_pure. Qed.
Lemma keeps_lift {E A} (r : result E A) : keeps R (lift r).
Proof. by apply keeps_pure. Qed.
Lemma keeps_gets {E A} (f : S -> A) : keeps R (gets (E := E) f).
Proof. by apply keeps_pure. Qed.
Lemma keeps_modify {E} (f : S -> S) : (forall s, R s (f s)) -> keeps R (modify (E := E) f).
Proof. intros Hf s r s' [= _ <-]. apply Hf. Qed.
Lemma keeps_bind {E A B} (m : action S E A) (k : A -> action S E B) :
  keeps R m -> (forall a, keeps R (k a)) -> keeps R (bind m k).
Proof.
  intros Hm Hk s r s'. unfold bind. destruct (m s) as [[a|e] s1] eqn:E1.
  - intros H. etransitivity; [exact (Hm _ _ _ E1)|exact (Hk _ _ _ _ H)].
  - intros [= _ <-]. exact (Hm _ _ _ E1).
Qed.
Lemma keeps_transaction {E A} (m : action S E A) : keeps R m -> keeps R (transaction m).
Proof.
  intros Hm s r s'. unfold transaction. destruct (m s) as [[a|e] s1] eqn:E1; intros [= _ <-]; [|reflexivity].
  exact (Hm _ _ _ E1).
Qed.
Lemma keeps_for_each {E A} (l : list A) (f : A -> action S E unit) :
  (forall a, keeps R (f a)) -> keeps R (for_each l f).
Proof.
  intros Hf. induction l as [|a l IH]; simpl; [apply keeps_ret|]. by apply keeps_bind.
Qed.
End Keeps.

Create HintDb keeping.
#[export] Hint Resolve keeps_ret keeps_fail keeps_lift keeps_gets keeps_bind keeps_transaction keeps_for_each : keeping.

Lemma result_bind_Ok {E A B} (r : result E A) (k : A -> result E B) b :
  result_bind r k = Ok b -> exists a, r = Ok a /\ k a = Ok b.
Proof. destruct r; simpl; [eauto|done]. Qed.

Lemma transaction_err {S E A} (m : action S E A) s e s' :
  transaction m s = (Err e, s') -> s' = s.
Proof. unfold transaction. destruct (m s) as [[?|?] ?]; congruence. Qed.

Lemma transaction_ok {S E A} (m : action S E A) s a s' :
  transaction m s = (Ok a, s') <-> m s = (Ok a, s').
Proof. unfold transaction. destruct (m s) as [[?|?] ?]; split; congruence. Qed.

Lemma bind_ok {S E A B} (m : action S E A) (k : A -> action S E B) s b s'' :
  bind m k s = (Ok b, s'') ->
  exists a s', m s = (Ok a, s') /\ k a s' = (Ok b, s'').
Proof. unfold bind. destruct (m s) as [[a|e] s1]; [eauto|congruence]. Qed.

(** An invariant preserved by every iteration is preserved by the loop. *)
Lemma for_each_invariant {S E A} (P : S -> Prop) (f : A -> action S E unit) l :
  (forall a s, a ∈ l -> P s -> P (snd (f a s))) ->
  forall s, P s -> P (snd (for_each l f s)).
Proof.
  induction l as [|a l IH]; intros Hf s Hs; simpl; [done|].
  unfold bind. pose proof (Hf a s ltac:(set_solver) Hs) as Ha.
  destruct (f a s) as [[?|?] s1]; simpl in *; [|done].
  apply IH; [|done]. intros; apply Hf; set_solver.
Qed.

(** The writes of a loop that never fails are a fold over its list. *)
Lemma for_each_modify {S E A} (f : A -> S -> S) l (s : S) :
  for_each (E:=E) l (fun a => modify (f a)) s = (Ok tt, fold_left (fun s a => f a s) l s).
Proof. revert s. induction l as [|a l IH]; intros s; simpl; [done|]. apply IH. Qed.

(** Case analysis on the next computation the goal (or a hypothesis) matches on. *)
Ltac case_match_eqn :=
  match goal with
  | |- context [match ?x with _ => _ end] => destruct x eqn:?
  | H : context [match ?x with _ => _ end] |- _ => destruct x eqn:?
  end.

Ltac unfold_monad := unfold bind, ret, fail, gets, modify, lift, result_bind in *.

(** Runs a monadic hypothesis one bind at a time. *)
Ltac inv_bind H :=
  let a := fresh "a" in let s := fresh "s" in let E := fresh "E" in
  apply bind_ok in H; destruct H as (a & s & E & H).

(** [lia] with quotients and remainders. *)
Ltac zdiv := Z.to_euclidean_division_equations; lia.

(** [p] on every integer of [[z, z + n)], for properties of a bounded range
    that are settled by evaluation. *)
Fixpoint forall_range (n : nat) (z : Z) (p : Z -> bool) : bool :=
  match n with
  | O => true
  | S n' => p z && forall_range n' (z + 1)%Z p
  end.

Lemma forall_range_spec n z p :
  forall_range n z p = true ->
  forall x : Z, (z <= x < z + Z.of_nat n)%Z -> p x = true.
Proof.
  revert z. induction n as [|n IH]; intros z; [lia|].
  cbn [forall_range]. rewrite andb_true_iff. intros [Hz Hn] x Hx.
  destruct (decide (x = z)) as [->|Hne]; [done|]. apply (IH _ Hn). lia.
Qed.

(** Division of a successor: carry or no carry. *)
Lemma div_mod_succ (x n : Z) :
  (0 < n -> x mod n < n - 1 -> (x + 1) / n = x / n /\ (x + 1) mod n = x mod n + 1)%Z.
Proof.
  intros Hn Hx. pose proof (Z.div_mod x n ltac:(lia)) as Hdm.
  pose proof (Z.mod_pos_bound x n Hn) as Hb. split.
  - symmetry. apply Z.div_unique with (r := (x mod n + 1)%Z); lia.
  - symmetry. apply Z.mod_unique with (q := (x / n)%Z); lia.
Qed.

Lemma div_mod_succ_carry (x n : Z) :
  (0 < n -> x mod n = n - 1 -> (x + 1) / n = x / n + 1 /\ (x + 1) mod n = 0)%Z.
Proof.
  intros Hn Hx. pose proof (Z.div_mod x n ltac:(lia)) as Hdm. split.
  - symmetry. apply Z.div_unique with (r := 0%Z); lia.
  - symmetry. apply Z.mod_unique with (q := (x / n + 1)%Z); lia.
Qed.

(** ** Lists read by a test *)

Lemma find_Some_elem {A} (f : A -> bool) l x : List.find f l = Some x -> x ∈ l /\ f x = true.
Proof. intros H%find_some. by rewrite list_elem_of_In. Qed.

Lemma find_None_elem {A} (f : A -> bool) l x : List.find f l = None -> x ∈ l -> f x = false.
Proof. intros H Hx%list_elem_of_In. by apply (find_none f l). Qed.

Lemma find_is_Some {A} (f : A -> bool) l x : x ∈ l -> f x = true -> is_Some (List.find f l).
Proof.
  intros Hx Hf. destruct (List.find f l) eqn:E; [eauto|].
  by rewrite (find_None_elem _ _ _ E Hx) in Hf.
Qed.

Lemma existsb_elem {A} (f : A -> bool) l : existsb f l = true <-> exists x, x ∈ l /\ f x = true.
Proof. rewrite existsb_exists. by setoid_rewrite list_elem_of_In. Qed.

Lemma existsb_false_elem {A} (f : A -> bool) l x : existsb f l = false -> x ∈ l -> f x = false.
Proof.
  intros H Hx. destruct (f x) eqn:E; [|done].
  assert (existsb f l = true) by (apply existsb_elem; eauto). congruence.
Qed.

Lemma elem_of_filter_bool {A} (f : A -> bool) l x :
  x ∈ List.filter f l <-> x ∈ l /\ f x = true.
Proof. rewrite !list_elem_of_In. apply filter_In. Qed.

Lemma collect_results_Forall2 {E A B} (f : A -> result E B) l r :
  collect_results (map f l) = Ok r -> Forall2 (fun a b => f a = Ok b) l r.
Proof.
  revert r. induction l as [|a l IH]; intros r; simpl; [by intros [= <-]; constructor|].
  unfold result_bind. destruct (f a) as [b|] eqn:Ea; [|done].
  destruct (collect_results _) as [bs|]; [|done]. intros [= <-]. constructor; [done|by apply IH].
Qed.

Lemma filter_perm_length {A} (f : A -> bool) l k : l ≡ₚ k -> length (List.filter f l) = length (List.filter f k).
Proof.
  induction 1 as [|x l k _ IH|x y l|l k m _ IH1 _ IH2]; simpl; [done| | |by rewrite IH1].
  - destruct (f x); simpl; by rewrite IH.
  - by destruct (f x), (f y).
Qed.

Lemma filter_filter_bool {A} (f g : A -> bool) l :
  List.filter f (List.filter g l) = List.filter (fun x => g x && f x) l.
Proof.
  induction l as [|x l IH]; simpl; [done|]. destruct (g x); simpl; [|done]. by rewrite IH.
Qed.

Lemma filter_ext_elem {A} (f g : A -> bool) l : (forall x, x ∈ l -> f x = g x) -> List.filter f l = List.filter g l.
Proof. intros Hfg. apply filter_ext_in. intros x Hx. apply Hfg. by apply list_elem_of_In. Qed.

Lemma filter_none {A} (f : A -> bool) l : (forall x, x ∈ l -> f x = false) -> List.filter f l = [].
Proof.
  induction l as [|x l IH]; intros H; [done|]. simpl. rewrite (H x) by left. apply IH.
  intros y Hy. apply H. by right.
Qed.
Lemma filter_all {A} (f : A -> bool) l : (forall x, x ∈ l -> f x = true) -> List.filter f l = l.
Proof.
  induction l as [|x l IH]; intros H; [done|]. simpl. rewrite (H x) by left. f_equal. apply IH.
  intros y Hy. apply H. by right.
Qed.

Lemma elem_of_map {A B} (f : A -> B) l y : y ∈ map f l <-> exists x, x ∈ l /\ y = f x.
Proof.
  rewrite list_elem_of_In, in_map_iff. setoid_rewrite list_elem_of_In. naive_solver.
Qed.

Lemma elem_of_flat_map {A B} (f : A -> list B) l y :
  y ∈ flat_map f l <-> exists x, x ∈ l /\ y ∈ f x.
Proof. rewrite list_elem_of_In, in_flat_map. setoid_rewrite list_elem_of_In. done. Qed.

(** Two elements of a list that agree on a key without duplicates are equal. *)
Lemma NoDup_map_inj {A B} (f : A -> B) l x y :
  NoDup (map f l) -> x ∈ l -> y ∈ l -> f x = f y -> x = y.
Proof.
  induction l as [|a l IH]; simpl; [by intros _ ?%elem_of_nil|].
  intros [Ha Hnd]%NoDup_cons Hx Hy Hf. rewrite elem_of_cons in Hx, Hy.
  destruct Hx as [->|Hx], Hy as [->|Hy]; [done| | |by apply IH];
    exfalso; apply Ha; apply elem_of_map; eauto.
Qed.

Lemma NoDup_map_snoc {A B} (f : A -> B) l x :
  NoDup (map f l) -> (forall y, y ∈ l -> f y <> f x) -> NoDup (map f (l ++ [x])).
Proof.
  intros Hl Hx. rewrite map_app. apply NoDup_app. simpl. split; [done|]. split.
  - intros z (y & Hy & ->)%elem_of_map Hz%list_elem_of_singleton. by apply (Hx y).
  - apply NoDup_singleton.
Qed.

(** ** Sorted tables *)

(** [ORDER BY]: a stable insertion sort; [le a b] lets [a] stay before [b]. *)
Fixpoint insert_sorted {R} (le : R -> R -> bool) (x : R) (l : list R) : list R :=
  match l with
  | [] => [x]
  | y :: l' => if le x y then x :: l else y :: insert_sorted le x l'
  end.
Definition order_by {R} (le : R -> R -> bool) (l : list R) : list R :=
  fold_right (insert_sorted le) [] l.

Lemma insert_sorted_elem {R} le (x y : R) l :
  y ∈ insert_sorted le x l <-> y = x \/ y ∈ l.
Proof.
  induction l as [|z l IH]; simpl; [set_solver|].
  destruct (le x z); rewrite !elem_of_cons, ?IH; naive_solver.
Qed.

Lemma order_by_elem {R} le (l : list R) y : y ∈ order_by le l <-> y ∈ l.
Proof.
  induction l as [|x l IH]; simpl; [done|]. rewrite insert_sorted_elem, IH, elem_of_cons. done.
Qed.

Lemma insert_sorted_Permutation {R} le (x : R) l : insert_sorted le x l ≡ₚ x :: l.
Proof.
  induction l as [|y l IH]; simpl; [done|]. destruct (le x y); [done|].
  rewrite IH. apply Permutation_swap.
Qed.

Lemma order_by_Permutation {R} le (l : list R) : order_by le l ≡ₚ l.
Proof. induction l as [|x l IH]; simpl; [done|]. by rewrite insert_sorted_Permutation, IH. Qed.

Section Sorted.
Context {R : Type} (le : R -> R -> bool).
Hypothesis le_total : forall x y, le x y = true \/ le y x = true.
Hypothesis le_trans : forall x y z, le x y = true -> le y z = true -> le x z = true.

Lemma insert_sorted_Sorted x l :
  StronglySorted (fun a b => le a b = true) l ->
  StronglySorted (fun a b => le a b = true) (insert_sorted le x l).
Proof.
  induction l as [|y l IH]; intros Hl; simpl; [repeat constructor|].
  apply StronglySorted_inv in Hl as [Hl Hy]. destruct (le x y) eqn:E.
  - constructor; [by constructor|]. constructor; [done|].
    eapply Forall_impl; [exact Hy|]. intros z Hz. by eapply le_trans.
  - constructor; [by apply IH|]. apply Forall_forall. intros z Hz.
    apply insert_sorted_elem in Hz as [->|Hz].
    + destruct (le_total x y); congruence.
    + rewrite Forall_forall in Hy. by apply Hy.
Qed.

Lemma order_by_Sorted l : StronglySorted (fun a b => le a b = true) (order_by le l).
Proof. induction l as [|x l IH]; simpl; [constructor|]. by apply insert_sorted_Sorted. Qed.

(** Filtering commutes with the stable sort. *)
Lemma filter_insert_sorted f x l :
  StronglySorted (fun a b => le a b = true) l ->
  List.filter f (insert_sorted le x l)
  = if f x : bool then insert_sorted le x (List.filter f l) else List.filter f l.
Proof.
  induction l as [|y l IH]; intros Hl; simpl; [by destruct (f x)|].
  apply StronglySorted_inv in Hl as [Hl Hy]. destruct (le x y) eqn:E.
  - simpl. destruct (f x), (f y); simpl; rewrite ?E; try done.
    destruct (List.filter f l) as [|z k] eqn:Ek; [done|]. simpl.
    assert (z ∈ List.filter f l) as [Hz _]%elem_of_filter_bool by (rewrite Ek; left).
    rewrite Forall_forall in Hy. by rewrite (le_trans x y z E (Hy z Hz)).
  - simpl. rewrite IH by done. destruct (f x), (f y); simpl; rewrite ?E; done.
Qed.

Lemma filter_order_by f l : List.filter f (order_by le l) = order_by le (List.filter f l).
Proof.
  induction l as [|x l IH]; simpl; [done|]. rewrite filter_insert_sorted, IH by apply order_by_Sorted.
  by destruct (f x).
Qed.
End Sorted.
