(* ===== verification/Text.v ===== *)
(** Strings as the sources use them: UTF-8 byte strings ([string], one [ascii]
    per byte), with the [str] methods the crates call.  Case mapping and
    white space are those of the ASCII range, on which Rust's Unicode methods
    agree; bytes above 127 are left alone. *)
From S2P Require Import Prelude.

Open Scope string_scope.

Definition byte_of (c : ascii) : nat := nat_of_ascii c.

Definition lower_char (c : ascii) : ascii :=
  let n := byte_of c in
  if (65 <=? n)%nat && (n <=? 90)%nat then ascii_of_nat (n + 32) else c.

(** [char::is_whitespace] on ASCII: tab, LF, VT, FF, CR, space. *)
Definition is_ws (c : ascii) : bool :=
  let n := byte_of c in ((9 <=? n)%nat && (n <=? 13)%nat) || (n =? 32)%nat.

(** [u8::is_ascii_control] / [char::is_ascii_control]. *)
Definition is_control (c : ascii) : bool :=
  let n := byte_of c in (n <? 32)%nat || (n =? 127)%nat.

Definition is_digit (c : ascii) : bool :=
  let n := byte_of c in (48 <=? n)%nat && (n <=? 57)%nat.

Fixpoint str_map (f : ascii -> ascii) (s : string) : string :=
  match s with
  | EmptyString => EmptyString
  | String c s' => String (f c) (str_map f s')
  end.

Fixpoint str_all (f : ascii -> bool) (s : string) : bool :=
  match s with
  | EmptyString => true
  | String c s' => f c && str_all f s'
  end.

Fixpoint str_filter (f : ascii -> bool) (s : string) : string :=
  match s with
  | EmptyString => EmptyString
  | String c s' => if f c then String c (str_filter f s') else str_filter f s'
  end.

(** [str::to_lowercase]. *)
Definition to_lowercase (s : string) : string := str_map lower_char s.

(** [str::to_ascii_uppercase]; [str::to_uppercase] on ASCII. *)
Definition upper_char (c : ascii) : ascii :=
  if (Nat.leb 97 (byte_of c) && Nat.leb (byte_of c) 122)%bool then ascii_of_nat (byte_of c - 32) else c.
Definition to_uppercase (s : string) : string := str_map upper_char s.

Fixpoint trim_start_matches (f : ascii -> bool) (s : string) : string :=
  match s with
  | String c s' => if f c then trim_start_matches f s' else s
  | EmptyString => EmptyString
  end.

Fixpoint trim_end_matches (f : ascii -> bool) (s : string) : string :=
  match s with
  | EmptyString => EmptyString
  | String c s' =>
      match trim_end_matches f s' with
      | EmptyString => if f c then EmptyString else String c EmptyString
      | t => String c t
      end
  end.

(** [str::trim]. *)
Definition trim (s : string) : string := trim_end_matches is_ws (trim_start_matches is_ws s).

(** [str::strip_prefix]. *)
Fixpoint strip_prefix (p s : string) : option string :=
  match p, s with
  | EmptyString, _ => Some s
  | String a p', String b s' => if Ascii.eqb a b then strip_prefix p' s' else None
  | String _ _, EmptyString => None
  end.

Definition starts_with (p s : string) : bool :=
  match strip_prefix p s with Some _ => true | None => false end.

(** [str::find]: byte offset of the first occurrence, with the text after it. *)
Fixpoint find_after (needle s : string) : option string :=
  match strip_prefix needle s with
  | Some rest => Some rest
  | None => match s with
            | EmptyString => None
            | String _ s' => find_after needle s'
            end
  end.

(** [str::contains] with a string needle. *)
Definition contains (needle s : string) : bool :=
  match find_after needle s with Some _ => true | None => false end.

(** [str::rsplit_once] with a character separator. *)
Fixpoint rsplit_once (c : ascii) (s : string) : option (string * string) :=
  match s with
  | EmptyString => None
  | String a s' =>
      match rsplit_once c s' with
      | Some (l, r) => Some (String a l, r)
      | None => if Ascii.eqb a c then Some (EmptyString, s') else None
      end
  end.

(** [str::split] on a character: at least one piece, separators dropped. *)
Fixpoint split_on (c : ascii) (s : string) : list string :=
  match s with
  | EmptyString => [EmptyString]
  | String a s' =>
      if Ascii.eqb a c then EmptyString :: split_on c s'
      else match split_on c s' with
           | [] => [String a EmptyString]
           | w :: ws => String a w :: ws
           end
  end.

(** [str::split_whitespace]. *)
Definition split_whitespace (s : string) : list string :=
  filter (fun w => w <> EmptyString)
    (split_on " "%char (str_map (fun c => if is_ws c then " "%char else c) s)).

(** [str::matches(needle).count()]: non-overlapping occurrences.  [fuel] bounds
    the scan by the length of the text. *)
Fixpoint count_matches_go (fuel : nat) (needle s : string) : nat :=
  match fuel with
  | O => O
  | S fuel' => match find_after needle s with
               | Some rest => S (count_matches_go fuel' needle rest)
               | None => O
               end
  end.
Definition count_matches (needle s : string) : nat :=
  count_matches_go (String.length s) needle s.

Definition cr : ascii := "013"%char.
Definition lf : ascii := "010"%char.
Definition tab : ascii := "009"%char.
Definition quote : ascii := "034"%char.
Definition crlf : string := String cr (String lf EmptyString).

Definition str_of (c : ascii) : string := String c EmptyString.

(** [format!("{:0w$}")] for a non-negative and for a signed integer. *)
Fixpoint zeros (n : nat) : string :=
  match n with O => EmptyString | S n' => String "0"%char (zeros n') end.
Definition pad_dec (w : nat) (z : Z) : string :=
  let digits := pretty (Z.abs z) in
  if (z <? 0)%Z
  then "-" +:+ zeros (w - 1 - String.length digits) +:+ digits
  else zeros (w - String.length digits) +:+ digits.

(** ** Lemmas *)

Lemma append_cons c s t : String c s +:+ t = String c (s +:+ t).
Proof. reflexivity. Qed.

Lemma str_all_app f s t : str_all f (s +:+ t) = str_all f s && str_all f t.
Proof.
  induction s as [|c s IH]; [done|].
  rewrite append_cons. simpl. rewrite IH. apply andb_assoc.
Qed.

Lemma str_all_map f g s : str_all f (str_map g s) = str_all (fun c => f (g c)) s.
Proof. induction s as [|c s IH]; simpl; [done|]. by rewrite IH. Qed.

Lemma str_all_true f s : (forall c, f c = true) -> str_all f s = true.
Proof. intros Hf. induction s as [|c s IH]; simpl; [done|]. by rewrite Hf. Qed.

Lemma str_all_impl (f g : ascii -> bool) s :
  (forall c, f c = true -> g c = true) -> str_all f s = true -> str_all g s = true.
Proof.
  intros Hfg. induction s as [|c s IH]; simpl; [done|].
  rewrite !andb_true_iff. intros [Hc Hs]; auto.
Qed.

Lemma str_all_filter f s : str_all f (str_filter f s) = true.
Proof.
  induction s as [|c s IH]; simpl; [done|].
  destruct (f c) eqn:E; simpl; [|done]. by rewrite E.
Qed.

Lemma str_map_length f s : String.length (str_map f s) = String.length s.
Proof. induction s as [|c s IH]; simpl; [done|]. by rewrite IH. Qed.

(** Facts about one byte, checked on the 256 of them. *)
Lemma lower_char_idem c : lower_char (lower_char c) = lower_char c.
Proof. destruct c as [[] [] [] [] [] [] [] []]; reflexivity. Qed.

Lemma lower_char_ws c : is_ws (lower_char c) = is_ws c.
Proof. destruct c as [[] [] [] [] [] [] [] []]; reflexivity. Qed.

Lemma to_lowercase_idem s : to_lowercase (to_lowercase s) = to_lowercase s.
Proof.
  unfold to_lowercase.
  induction s as [|c s IH]; simpl; [done|]. by rewrite lower_char_idem, IH.
Qed.

(** A text no upper-case letter of which survives lower-casing is fixed by it. *)
Definition is_lower (s : string) : bool := String.eqb (to_lowercase s) s.

Lemma is_lower_to_lowercase s : is_lower (to_lowercase s) = true.
Proof. unfold is_lower. rewrite to_lowercase_idem. apply String.eqb_refl. Qed.

Lemma strip_prefix_app p s rest : strip_prefix p s = Some rest -> s = p +:+ rest.
Proof.
  revert s. induction p as [|a p IH]; intros s; simpl; [by intros [= ->]|].
  destruct s as [|b s]; [done|].
  destruct (Ascii.eqb a b) eqn:E; [|done].
  apply Ascii.eqb_eq in E as ->. intros H%IH. subst s. done.
Qed.

Lemma strip_prefix_self p s : strip_prefix p (p +:+ s) = Some s.
Proof.
  induction p as [|a p IH]; [done|].
  rewrite append_cons. simpl. by rewrite Ascii.eqb_refl.
Qed.

Lemma rsplit_once_spec c s l r :
  rsplit_once c s = Some (l, r) ->
  s = l +:+ String c r /\ rsplit_once c r = None.
Proof.
  revert l r. induction s as [|a s IH]; intros l r; simpl; [done|].
  destruct (rsplit_once c s) as [[l' r']|] eqn:E.
  - intros [= <- <-]. destruct (IH _ _ eq_refl) as [-> ?]. done.
  - destruct (Ascii.eqb a c) eqn:Ea; [|done]. apply Ascii.eqb_eq in Ea as ->.
    by intros [= <- <-].
Qed.

Create Rewrite HintDb text.
#[export] Hint Rewrite str_all_app str_all_map str_map_length
  to_lowercase_idem is_lower_to_lowercase : text.

(** ** [str::replace] of a two-byte pattern, and [str::parse::<usize>] *)

Fixpoint replace_pair (a b : ascii) (r : string) (s : string) : string :=
  match s with
  | String x ((String y s'') as s') =>
      if Ascii.eqb x a && Ascii.eqb y b then r +:+ replace_pair a b r s''
      else String x (replace_pair a b r s')
  | _ => s
  end.

Definition digit_value (c : ascii) : Z := (Z.of_nat (byte_of c) - 48)%Z.

Fixpoint parse_digits (acc : Z) (s : string) : option Z :=
  match s with
  | EmptyString => Some acc
  | String c s' => if is_digit c then parse_digits (acc * 10 + digit_value c)%Z s' else None
  end.

(** An optional plus sign, at least one digit, and a value that fits in 64 bits. *)
Definition parse_usize (s : string) : option nat :=
  let digits := match s with
                | String c s' => if Ascii.eqb c "+" then s' else s
                | EmptyString => s
                end in
  match digits with
  | EmptyString => None
  | _ => match parse_digits 0 digits with
         | Some z => if (z <? 2 ^ 64)%Z then Some (Z.to_nat z) else None
         | None => None
         end
  end.

(** [str::parse] at an integer type with values from [lo] to [hi]: an optional
    sign (minus only for a signed type), at least one digit, no overflow. *)
Definition parse_int (lo hi : Z) (s : string) : option Z :=
  let '(negative, digits) := match s with
    | String c s' => if Ascii.eqb c "+" then (false, s')
                     else if Ascii.eqb c "-" && (lo <? 0)%Z then (true, s') else (false, s)
    | EmptyString => (false, s)
    end in
  match digits with
  | EmptyString => None
  | _ => match parse_digits 0 digits with
         | Some z => let z := if negative : bool then (- z)%Z else z in
                     if (lo <=? z)%Z && (z <=? hi)%Z then Some z else None
         | None => None
         end
  end.
Definition parse_u32 : string -> option Z := parse_int 0 (2 ^ 32 - 1).
Definition parse_i32 : string -> option Z := parse_int (- 2 ^ 31) (2 ^ 31 - 1).
Definition parse_i64 : string -> option Z := parse_int (- 2 ^ 63) (2 ^ 63 - 1).

(** ** The byte order of text *)

Lemma str_leb_trans a b c :
  String.leb a b = true -> String.leb b c = true -> String.leb a c = true.
Proof.
  revert b c. induction a as [|x a IH]; intros [|y b] [|z c]; try done.
  unfold String.leb in *. cbn [String.compare]. unfold Ascii.compare.
  destruct (N.compare_spec (N_of_ascii x) (N_of_ascii y)) as [Exy|Exy|Exy],
    (N.compare_spec (N_of_ascii y) (N_of_ascii z)) as [Eyz|Eyz|Eyz]; try done;
    destruct (N.compare_spec (N_of_ascii x) (N_of_ascii z)); try done; try lia.
  apply IH.
Qed.

(** ** Decimal text is made of digits *)

Lemma pretty_N_go_digits x s :
  str_all is_digit s = true -> str_all is_digit (pretty_N_go x s) = true.
Proof.
  revert s. induction (N.lt_wf_0 x) as [x _ IH]. intros s Hs.
  destruct (decide (x = 0%N)) as [->|Hx]; [by rewrite pretty_N_go_0|].
  rewrite pretty_N_go_step by lia. apply IH; [apply N.div_lt; lia|].
  simpl. rewrite Hs, andb_true_r. pose proof (N.mod_lt x 10 ltac:(lia)) as Hd.
  destruct (x `mod` 10)%N as [|p]; [done|].
  do 4 (destruct p as [p|p|]; try done).
Qed.

Lemma pretty_N_digits (n : N) : str_all is_digit (pretty n) = true.
Proof. unfold pretty, pretty_N. case_decide; [done|]. by apply pretty_N_go_digits. Qed.

Lemma digit_not_control c : is_digit c = true -> is_control c = false.
Proof. destruct c as [[] [] [] [] [] [] [] []]; done. Qed.

(** No control character: what may be spliced into a header line. *)
Definition printable (s : string) : bool := str_all (fun c => negb (is_control c)) s.

Lemma printable_app s t : printable (s +:+ t) = printable s && printable t.
Proof. apply str_all_app. Qed.

Lemma printable_pretty (z : Z) : printable (pretty z) = true.
Proof.
  assert (forall n : N, printable (pretty n) = true) as HN.
  { intros n. eapply str_all_impl; [|apply pretty_N_digits].
    intros c Hc. by rewrite digit_not_control. }
  destruct z as [|p|p]; [done|exact (HN (N.pos p))|exact (HN (N.pos p))].
Qed.

Lemma printable_zeros n : printable (zeros n) = true.
Proof. induction n as [|n IH]; [done|]. simpl. exact IH. Qed.

Lemma printable_pad_dec w z : printable (pad_dec w z) = true.
Proof.
  unfold pad_dec. destruct (_ <? _)%Z; rewrite !printable_app, ?printable_zeros, printable_pretty; done.
Qed.

Lemma str_filter_app f s t : str_filter f (s +:+ t) = str_filter f s +:+ str_filter f t.
Proof.
  induction s as [|c s IH]; [done|]. rewrite append_cons. simpl. rewrite IH.
  by destruct (f c).
Qed.

Lemma printable_no_control s : printable s = true -> str_filter is_control s = "".
Proof.
  induction s as [|c s IH]; [done|]. unfold printable. simpl.
  rewrite andb_true_iff, negb_true_iff. intros [-> H]. by apply IH.
Qed.

Lemma str_map_app f s t : str_map f (s +:+ t) = str_map f s +:+ str_map f t.
Proof. induction s as [|c s IH]; [done|]. rewrite append_cons. simpl. by rewrite IH. Qed.

Lemma append_nil_r s : s +:+ "" = s.
Proof. induction s as [|c s IH]; [done|]. rewrite append_cons. by rewrite IH. Qed.

Lemma append_assoc s t u : (s +:+ t) +:+ u = s +:+ (t +:+ u).
Proof. induction s as [|c s IH]; [done|]. rewrite !append_cons. by rewrite IH. Qed.

Lemma append_length s t : String.length (s +:+ t) = (String.length s + String.length t)%nat.
Proof. induction s as [|c s IH]; [done|]. rewrite append_cons. simpl. by rewrite IH. Qed.

#[export] Hint Rewrite printable_app printable_pretty printable_zeros printable_pad_dec
  append_nil_r append_assoc append_length : text.

(** ** Numbers print and parse back *)

Lemma digit_step n : (n < 10)%N -> is_digit (pretty_N_char n) = true /\ digit_value (pretty_N_char n) = Z.of_N n.
Proof.
  intros Hn.
  assert (forall_range 10 0 (fun z => let c := pretty_N_char (Z.to_N z) in
            is_digit c && (digit_value c =? z)%Z) = true) as Hall by (by vm_compute).
  pose proof (forall_range_spec _ _ _ Hall (Z.of_N n) ltac:(lia)) as Hc. cbv beta zeta in Hc.
  rewrite N2Z.id, andb_true_iff, Z.eqb_eq in Hc. exact Hc.
Qed.

Lemma parse_pretty_go x s : parse_digits 0 (pretty_N_go x s) = parse_digits (Z.of_N x) s.
Proof.
  revert s. induction (N.lt_wf_0 x) as [x _ IH]. intros s.
  destruct (decide (x = 0)%N) as [->|Hx]; [done|].
  rewrite pretty_N_go_step by lia. rewrite IH by (apply N.div_lt; lia). cbn [parse_digits].
  destruct (digit_step (x `mod` 10)) as [-> ->]; [by apply N.mod_lt|]. f_equal.
  rewrite N2Z.inj_div, N2Z.inj_mod. pose proof (Z.div_mod (Z.of_N x) 10). lia.
Qed.

Lemma pretty_N_cons (n : N) : exists c s, pretty n = String c s /\ is_digit c = true.
Proof.
  pose proof (pretty_N_digits n) as Hd. destruct (pretty n) as [|c s] eqn:E.
  - exfalso. unfold pretty, pretty_N in E. case_decide; [done|].
    pose proof (parse_pretty_go n "") as Hp. rewrite E in Hp. simpl in Hp. injection Hp. lia.
  - exists c, s. split; [done|]. simpl in Hd. by apply andb_true_iff in Hd as [? _].
Qed.

Lemma parse_pretty_N n : parse_digits 0 (pretty n) = Some (Z.of_N n).
Proof.
  unfold pretty, pretty_N. case_decide as Hn; [subst n; by vm_compute|]. by rewrite parse_pretty_go.
Qed.

Lemma parse_int_pretty lo hi (z : Z) : (lo <= z <= hi)%Z -> parse_int lo hi (pretty z) = Some z.
Proof.
  intros Hz.
  assert (forall n : N, (lo <= Z.of_N n <= hi)%Z -> parse_int lo hi (pretty n) = Some (Z.of_N n)) as HN.
  { intros n Hn. destruct (pretty_N_cons n) as (c & s & E & Hc). unfold parse_int. rewrite E.
    assert (Ascii.eqb c "+" = false) as -> by (destruct (Ascii.eqb_spec c "+") as [->|]; done).
    assert (Ascii.eqb c "-" = false) as -> by (destruct (Ascii.eqb_spec c "-") as [->|]; done).
    cbn [andb]. rewrite <- E, parse_pretty_N.
    destruct (Z.leb_spec lo (Z.of_N n)), (Z.leb_spec (Z.of_N n) hi); try lia. done. }
  destruct z as [|p|p].
  - apply (HN 0%N). lia.
  - apply (HN (N.pos p)). lia.
  - change (pretty (Z.neg p)) with (String "-" (pretty (N.pos p))).
    destruct (pretty_N_cons (N.pos p)) as (c & s & E & _). pose proof (parse_pretty_N (N.pos p)) as Hp.
    rewrite E in Hp |- *. unfold parse_int. assert ((lo <? 0)%Z = true) as -> by lia. cbn -[parse_digits].
    rewrite Hp. destruct (Z.leb_spec lo (- Z.of_N (N.pos p))), (Z.leb_spec (- Z.of_N (N.pos p)) hi); try lia. done.
Qed.

(** ** A positive number as a text of bits, for the codecs of the concrete runs *)

Fixpoint bits (p : positive) : string :=
  match p with
  | xH => ""
  | xO p => String "0" (bits p)
  | xI p => String "1" (bits p)
  end.
Fixpoint unbits (s : string) : positive :=
  match s with
  | EmptyString => xH
  | String c s => if Ascii.eqb c "0" then xO (unbits s) else xI (unbits s)
  end.
Lemma unbits_bits p : unbits (bits p) = p.
Proof. induction p as [p IH|p IH|]; simpl; by rewrite ?IH. Qed.
