(* ===== verification/Bytes.v ===== *)
(** Bytes and text: [String::into_bytes], [String::from_utf8_lossy], and the
    searches of [str] that the message-level code uses. *)
From S2P Require Import Prelude Text.

Open Scope string_scope.

(** [String::into_bytes], and bytes read back as text without any check. *)
Fixpoint bytes_of (s : string) : list Z :=
  match s with
  | EmptyString => []
  | String c s' => Z.of_nat (byte_of c) :: bytes_of s'
  end.

Fixpoint string_of (l : list Z) : string :=
  match l with
  | [] => EmptyString
  | z :: l' => String (ascii_of_nat (Z.to_nat z)) (string_of l')
  end.

(** ** UTF-8 *)

Definition in_range (lo hi : nat) (c : ascii) : bool :=
  Nat.leb lo (byte_of c) && Nat.leb (byte_of c) hi.
Definition continuation (c : ascii) : bool := in_range 128 191 c.

(** The second byte a three- or four-byte lead admits. *)
Definition second_of_three (a b : ascii) : bool :=
  if Nat.eqb (byte_of a) 224 then in_range 160 191 b
  else if Nat.eqb (byte_of a) 237 then in_range 128 159 b
  else continuation b.
Definition second_of_four (a b : ascii) : bool :=
  if Nat.eqb (byte_of a) 240 then in_range 144 191 b
  else if Nat.eqb (byte_of a) 244 then in_range 128 143 b
  else continuation b.

Definition REPLACEMENT : string :=
  String "239"%char (String "191"%char (String "189"%char EmptyString)).

(** [String::from_utf8_lossy]: every maximal invalid prefix of a sequence is
    replaced by one U+FFFD. *)
Fixpoint utf8_lossy (s : string) : string :=
  match s with
  | EmptyString => EmptyString
  | String a s1 =>
      if Nat.ltb (byte_of a) 128 then String a (utf8_lossy s1)
      else if in_range 194 223 a then
        match s1 with
        | String b s2 => if continuation b then String a (String b (utf8_lossy s2))
                         else REPLACEMENT +:+ utf8_lossy s1
        | EmptyString => REPLACEMENT
        end
      else if in_range 224 239 a then
        match s1 with
        | String b s2 =>
            if second_of_three a b then
              match s2 with
              | String c s3 => if continuation c then String a (String b (String c (utf8_lossy s3)))
                               else REPLACEMENT +:+ utf8_lossy s2
              | EmptyString => REPLACEMENT
              end
            else REPLACEMENT +:+ utf8_lossy s1
        | EmptyString => REPLACEMENT
        end
      else if in_range 240 244 a then
        match s1 with
        | String b s2 =>
            if second_of_four a b then
              match s2 with
              | String c s3 =>
                  if continuation c then
                    match s3 with
                    | String d s4 =>
                        if continuation d
                        then String a (String b (String c (String d (utf8_lossy s4))))
                        else REPLACEMENT +:+ utf8_lossy s3
                    | EmptyString => REPLACEMENT
                    end
                  else REPLACEMENT +:+ utf8_lossy s2
              | EmptyString => REPLACEMENT
              end
            else REPLACEMENT +:+ utf8_lossy s1
        | EmptyString => REPLACEMENT
        end
      else REPLACEMENT +:+ utf8_lossy s1
  end.

Definition is_ascii (c : ascii) : bool := Nat.ltb (byte_of c) 128.

(** ** Searching *)

(** [str::split_once] with a character. *)
Fixpoint split_once (c : ascii) (s : string) : option (string * string) :=
  match s with
  | EmptyString => None
  | String a s' =>
      if Ascii.eqb a c then Some (EmptyString, s')
      else match split_once c s' with
           | Some (l, r) => Some (String a l, r)
           | None => None
           end
  end.

(** [str::find] with a text: what precedes the first occurrence, and what
    follows it. *)
Fixpoint find_split (needle s : string) : option (string * string) :=
  match strip_prefix needle s with
  | Some rest => Some (EmptyString, rest)
  | None => match s with
            | EmptyString => None
            | String a s' => match find_split needle s' with
                             | Some (l, r) => Some (String a l, r)
                             | None => None
                             end
            end
  end.

(** [str::split] with a non-empty text; the fuel is the length of the input. *)
Fixpoint split_str_go (fuel : nat) (sep s : string) : list string :=
  match fuel with
  | O => [s]
  | S fuel' => match find_split sep s with
               | Some (l, r) => l :: split_str_go fuel' sep r
               | None => [s]
               end
  end.
Definition split_str (sep s : string) : list string := split_str_go (String.length s) sep s.

(** [Vec::join]. *)
Fixpoint join (sep : string) (l : list string) : string :=
  match l with
  | [] => ""
  | [x] => x
  | x :: l' => x +:+ sep +:+ join sep l'
  end.

(** [str::replace] of one character. *)
Fixpoint replace_with (c : ascii) (r : string) (s : string) : string :=
  match s with
  | EmptyString => EmptyString
  | String a s' => (if Ascii.eqb a c then r else str_of a) +:+ replace_with c r s'
  end.

(** ** Lemmas *)

Lemma bytes_of_app a b : bytes_of (a +:+ b) = (bytes_of a ++ bytes_of b)%list.
Proof. induction a as [|c a IH]; [done|]. rewrite append_cons. simpl. by rewrite IH. Qed.

Lemma string_of_bytes_of s : string_of (bytes_of s) = s.
Proof.
  induction s as [|c s IH]; [done|]. simpl. rewrite IH. unfold byte_of.
  by rewrite Nat2Z.id, ascii_nat_embedding.
Qed.

Lemma string_of_app a b : string_of (a ++ b)%list = string_of a +:+ string_of b.
Proof. induction a as [|z a IH]; [done|]. simpl. rewrite IH. by rewrite append_cons. Qed.

Lemma utf8_lossy_ascii s : str_all is_ascii s = true -> utf8_lossy s = s.
Proof.
  induction s as [|c s IH]; simpl; [done|]. unfold is_ascii at 1.
  destruct (Nat.ltb (byte_of c) 128) eqn:E; simpl; [|done]. intros H. by rewrite IH.
Qed.

Lemma strip_prefix_Some p s rest : strip_prefix p s = Some rest <-> s = p +:+ rest.
Proof. split; [apply strip_prefix_app|]. intros ->. apply strip_prefix_self. Qed.

Lemma find_split_Some needle s l r :
  find_split needle s = Some (l, r) -> s = l +:+ needle +:+ r.
Proof.
  revert l r. induction s as [|a s IH]; intros l r; simpl.
  - destruct (strip_prefix needle "") as [rest|] eqn:E; [|done]. intros [= <- <-].
    by apply strip_prefix_Some in E.
  - destruct (strip_prefix needle (String a s)) as [rest|] eqn:E.
    + intros [= <- <-]. by apply strip_prefix_Some in E.
    + destruct (find_split needle s) as [[l0 r0]|]; [|done]. intros [= <- <-].
      rewrite append_cons. f_equal. by apply IH.
Qed.

(** A text without the character [c] occurs in [a c b] only within [a] or [b]. *)
Definition avoids (c : ascii) (n : string) : bool := str_all (fun x => negb (Ascii.eqb x c)) n.

Lemma strip_prefix_sep c n a b :
  avoids c n = true ->
  strip_prefix n (a +:+ String c b)
  = match strip_prefix n a with Some rest => Some (rest +:+ String c b) | None => None end.
Proof.
  revert a. induction n as [|y n IH]; intros a; [done|].
  unfold avoids. simpl. intros [Hy Hn]%andb_true_iff. destruct a as [|x a].
  - change ("" +:+ String c b) with (String c b). cbn [strip_prefix].
    by destruct (Ascii.eqb y c).
  - rewrite append_cons. cbn [strip_prefix]. destruct (Ascii.eqb y x); [|done]. by apply IH.
Qed.

Lemma find_split_sep c n a b :
  avoids c n = true -> n <> "" -> find_split n a = None ->
  find_split n (a +:+ String c b)
  = match find_split n b with Some (l, r) => Some (a +:+ String c l, r) | None => None end.
Proof.
  intros Hn Hne. induction a as [|x a IH]; intros Ha.
  - change ("" +:+ ?s) with s. destruct n as [|y n]; [done|].
    unfold avoids in Hn. simpl in Hn. apply andb_true_iff in Hn as [Hy _].
    cbn [find_split strip_prefix]. destruct (Ascii.eqb y c); [done|].
    by destruct (find_split (String y n) b) as [[l r]|].
  - rewrite append_cons. cbn [find_split] in *.
    rewrite <- (append_cons x a), strip_prefix_sep by done.
    destruct (strip_prefix n (String x a)) as [rest|]; [done|].
    destruct (find_split n a) as [[l r]|]; [done|]. rewrite IH by done.
    by destruct (find_split n b) as [[l r]|].
Qed.

Lemma find_split_sep_none c n a b :
  avoids c n = true -> n <> "" -> find_split n a = None -> find_split n b = None ->
  find_split n (a +:+ String c b) = None.
Proof. intros Hn Hne Ha Hb. by rewrite (find_split_sep c), Hb. Qed.

Lemma find_split_head n rest : find_split n (n +:+ rest) = Some ("", rest).
Proof.
  destruct n as [|y n]; [by destruct rest|].
  rewrite append_cons. cbn [find_split]. rewrite <- append_cons. by rewrite strip_prefix_self.
Qed.

(** Splitting at a character that the first piece does not have. *)
Lemma split_on_ne c s : split_on c s <> [].
Proof. destruct s as [|a s]; simpl; [done|]. destruct (Ascii.eqb a c); [done|]. by destruct (split_on c s). Qed.

Lemma split_on_avoids c w : str_all (fun x => negb (Ascii.eqb x c)) w = true -> split_on c w = [w].
Proof.
  induction w as [|a w IH]; simpl; [done|]. rewrite andb_true_iff, negb_true_iff. intros [-> Hw].
  by rewrite IH.
Qed.

Lemma split_on_app_sep c w s :
  str_all (fun x => negb (Ascii.eqb x c)) w = true ->
  split_on c (w +:+ String c s) = w :: split_on c s.
Proof.
  induction w as [|a w IH].
  - intros _. simpl. by rewrite Ascii.eqb_refl.
  - rewrite append_cons. simpl. rewrite andb_true_iff, negb_true_iff. intros [-> Hw]. by rewrite IH.
Qed.

Lemma split_once_avoids c a b : avoids c a = true -> split_once c (a +:+ String c b) = Some (a, b).
Proof.
  induction a as [|x a IH]; intros Ha.
  - change ("" +:+ String c b) with (String c b). cbn [split_once]. by rewrite Ascii.eqb_refl.
  - rewrite append_cons. cbn [split_once]. unfold avoids in Ha. simpl in Ha.
    apply andb_true_iff in Ha as [Hx Ha]. destruct (Ascii.eqb x c); [done|]. by rewrite (IH Ha).
Qed.

(** A text that has a character [s] avoids does not occur in [s]. *)
Lemma find_split_avoids c n s : avoids c n = false -> avoids c s = true -> find_split n s = None.
Proof.
  intros Hn Hs. destruct (find_split n s) as [[l r]|] eqn:E; [|done].
  apply find_split_Some in E as ->. unfold avoids in *. rewrite !str_all_app, Hn in Hs.
  by rewrite andb_false_r in Hs.
Qed.

(** What is found stays found when text is added behind. *)
Lemma strip_prefix_extend p s t rest :
  strip_prefix p s = Some rest -> strip_prefix p (s +:+ t) = Some (rest +:+ t).
Proof. rewrite !strip_prefix_Some. intros ->. by rewrite append_assoc. Qed.

Lemma strip_prefix_short p s t :
  (String.length p <= String.length s)%nat -> strip_prefix p s = None -> strip_prefix p (s +:+ t) = None.
Proof.
  revert s. induction p as [|x p IH]; intros s Hlen; [done|].
  destruct s as [|y s]; [simpl in Hlen; lia|]. rewrite append_cons. simpl in *.
  destruct (Ascii.eqb x y); [apply IH; lia|done].
Qed.

Lemma find_split_extend n s t l r :
  find_split n s = Some (l, r) -> find_split n (s +:+ t) = Some (l, r +:+ t).
Proof.
  revert l r. induction s as [|x s IH]; intros l r Hf.
  - destruct n as [|y n]; [|done]. simpl in Hf. injection Hf as <- <-. by destruct t.
  - pose proof (find_split_Some _ _ _ _ Hf) as Hs. apply (f_equal String.length) in Hs.
    rewrite !append_length in Hs. rewrite append_cons. cbn [find_split] in *.
    destruct (strip_prefix n (String x s)) as [rest|] eqn:E.
    + rewrite <- append_cons, (strip_prefix_extend _ _ _ _ E). congruence.
    + rewrite <- append_cons, strip_prefix_short by (done || lia).
      destruct (find_split n s) as [[l0 r0]|]; [|done]. injection Hf as <- <-. by rewrite (IH l0 r0).
Qed.

(** Lines, each with its CRLF. *)
Fixpoint lines_text (lines : list string) : string :=
  match lines with [] => "" | l :: rest => l +:+ crlf +:+ lines_text rest end.

Lemma find_split_lines n lines b :
  avoids cr n = true -> avoids lf n = true -> n <> "" ->
  Forall (fun l => find_split n l = None) lines ->
  find_split n (lines_text lines +:+ b)
  = match find_split n b with Some (l, r) => Some (lines_text lines +:+ l, r) | None => None end.
Proof.
  intros Hcr Hlf Hne Hall. induction Hall as [|a lines Ha _ IH]; simpl.
  - change ("" +:+ b) with b. destruct (find_split n b) as [[l r]|]; [|done]. done.
  - rewrite append_assoc. rewrite append_assoc.
    change (crlf +:+ lines_text lines +:+ b) with (String cr ("" +:+ String lf (lines_text lines +:+ b))).
    rewrite (find_split_sep cr), (find_split_sep lf), IH by (done || by destruct n).
    destruct (find_split n b) as [[l r]|]; [|done]. by rewrite !append_assoc.
Qed.
