(* ===== verification/Ident.v ===== *)
(** [crates/owney-core]: identifiers (src/id.rs) and dates (src/time.rs).

    A blob id is a 32-byte digest printed as 64 hex characters; a modseq is a
    [u64] whose successor is partial; [civil_from_days] is Hinnant's calendar
    algorithm, proved inverse to a reference day count over every era. *)
From S2P Require Import Prelude Text.


Open Scope string_scope.
Open Scope Z_scope.

(** ** Blob ids *)

(** [BlobId(pub [u8; 32])]: the bytes as integers in [0, 256). *)
Definition BlobId : Type := list Z.

Definition wf_blob_id (id : BlobId) : Prop :=
  length id = 32%nat /\ Forall (fun b => 0 <= b < 256) id.

Inductive InvalidBlobId :=
  | WrongLength (n : nat)
  | InvalidChar (offset : nat).

(** How [from_str] ends: Rust's slicing panics off a character boundary. *)
Inductive parse_outcome :=
  | Parsed (id : BlobId)
  | Rejected (e : InvalidBlobId)
  | Panicked.

Definition hex_digit (n : Z) : ascii :=
  if n <? 10 then ascii_of_nat (Z.to_nat (48 + n)) else ascii_of_nat (Z.to_nat (87 + n)).

(** [write!(s, "{b:02x}")]. *)
Definition hex_byte (b : Z) : string :=
  String (hex_digit (b / 16)) (String (hex_digit (b mod 16)) EmptyString).

Fixpoint to_hex (id : BlobId) : string :=
  match id with
  | [] => EmptyString
  | b :: id' => hex_byte b +:+ to_hex id'
  end.

(** [char::to_digit(16)]. *)
Definition hex_value (c : ascii) : option Z :=
  let n := Z.of_nat (byte_of c) in
  if (48 <=? n) && (n <=? 57) then Some (n - 48)
  else if (65 <=? n) && (n <=? 70) then Some (n - 55)
  else if (97 <=? n) && (n <=? 102) then Some (n - 87)
  else None.

(** [u8::from_str_radix(_, 16)] on two bytes: an optional leading plus sign,
    then digits; two digits never overflow a [u8]. *)
Definition u8_from_hex2 (a b : ascii) : option Z :=
  if Ascii.eqb a "+" then hex_value b
  else match hex_value a, hex_value b with
       | Some x, Some y => Some (16 * x + y)
       | _, _ => None
       end.

(** [str::is_char_boundary] at an offset inside the string: the byte there is
    not a UTF-8 continuation byte (10xxxxxx). *)
Definition is_continuation (c : ascii) : bool :=
  let n := byte_of c in (128 <=? n)%nat && (n <? 192)%nat.

(** The loop over the 32 bytes; [i] is the byte index. *)
Fixpoint parse_bytes (i : nat) (s : string) : parse_outcome :=
  match s with
  | String a (String b s') =>
      if is_continuation a
         || match s' with String c _ => is_continuation c | EmptyString => false end
      then Panicked
      else match u8_from_hex2 a b with
           | None => Rejected (InvalidChar (i * 2))
           | Some v => match parse_bytes (S i) s' with
                       | Parsed id => Parsed (v :: id)
                       | other => other
                       end
           end
  | _ => Parsed []
  end.

(** [impl FromStr for BlobId]. *)
Definition from_str (s : string) : parse_outcome :=
  if negb (String.length s =? 64)%nat then Rejected (WrongLength (String.length s))
  else parse_bytes 0 s.

(** ** Modification sequence numbers *)

Definition u64_max : Z := 2 ^ 64 - 1.

(** [ModSeq::next]: [checked_add]. *)
Definition modseq_next (m : Z) : option Z :=
  if m + 1 <=? u64_max then Some (m + 1) else None.

(** ** Synchronizable data types *)

Inductive DataType := Email | Mailbox | Thread | EmailSubmission.

#[export] Instance DataType_eq_dec : EqDecision DataType.
Proof. solve_decision. Defined.

Definition data_type_as_str (d : DataType) : string :=
  match d with
  | Email => "Email"
  | Mailbox => "Mailbox"
  | Thread => "Thread"
  | EmailSubmission => "EmailSubmission"
  end.

Definition data_type_all : list DataType := [Email; Mailbox; Thread; EmailSubmission].

(** ** Dates *)

(** [civil_from_days]: days since 1970-01-01 to (year, month, day). *)
Definition civil_from_days (z0 : Z) : Z * Z * Z :=
  let z := z0 + 719468 in
  let era := z / 146097 in
  let doe := z mod 146097 in
  let yoe := (doe - doe / 1460 + doe / 36524 - doe / 146096) / 365 in
  let y := yoe + era * 400 in
  let doy := doe - (365 * yoe + yoe / 4 - yoe / 100) in
  let mp := (5 * doy + 2) / 153 in
  let d := doy - (153 * mp + 2) / 5 + 1 in
  let m := if mp <? 10 then mp + 3 else mp - 9 in
  (if m <=? 2 then y + 1 else y, m, d).

Definition weekdays : list string := ["Sun"; "Mon"; "Tue"; "Wed"; "Thu"; "Fri"; "Sat"].
Definition months : list string :=
  ["Jan"; "Feb"; "Mar"; "Apr"; "May"; "Jun"; "Jul"; "Aug"; "Sep"; "Oct"; "Nov"; "Dec"].

Definition weekday_index (days : Z) : Z := (days + 4) mod 7.

(** Array indexing panics out of range; [None] is that panic. *)
Definition rfc2822_utc (unix : Z) : option string :=
  let days := unix / 86400 in
  let secs := unix mod 86400 in
  let '(year, month, day) := civil_from_days days in
  match weekdays !! Z.to_nat (weekday_index days), months !! Z.to_nat (month - 1) with
  | Some wd, Some mo =>
      Some (wd +:+ ", " +:+ pad_dec 2 day +:+ " " +:+ mo +:+ " " +:+ pretty year
            +:+ " " +:+ pad_dec 2 (secs / 3600) +:+ ":"
            +:+ pad_dec 2 (secs mod 3600 / 60) +:+ ":"
            +:+ pad_dec 2 (secs mod 60) +:+ " +0000")
  | _, _ => None
  end.

Definition iso8601_utc (unix : Z) : string :=
  let days := unix / 86400 in
  let secs := unix mod 86400 in
  let '(year, month, day) := civil_from_days days in
  pad_dec 4 year +:+ "-" +:+ pad_dec 2 month +:+ "-" +:+ pad_dec 2 day +:+ "T"
  +:+ pad_dec 2 (secs / 3600) +:+ ":" +:+ pad_dec 2 (secs mod 3600 / 60) +:+ ":"
  +:+ pad_dec 2 (secs mod 60) +:+ "Z".

(** ** Properties of blob ids *)

Lemma hex_digits_checked :
  forall_range 16 0 (fun n => bool_decide (hex_value (hex_digit n) = Some n)
                              && negb (Ascii.eqb (hex_digit n) "+")
                              && negb (is_continuation (hex_digit n))) = true.
Proof. vm_compute. reflexivity. Qed.

Lemma hex_value_digit n : 0 <= n < 16 -> hex_value (hex_digit n) = Some n.
Proof.
  intros Hn. pose proof (forall_range_spec _ _ _ hex_digits_checked n ltac:(lia)) as H.
  rewrite !andb_true_iff in H. destruct H as [[H _] _]. by apply bool_decide_eq_true in H.
Qed.

(** The printed digits are ASCII: no sign, no continuation byte. *)
Lemma hex_digit_plain n :
  0 <= n < 16 ->
  Ascii.eqb (hex_digit n) "+" = false /\ is_continuation (hex_digit n) = false.
Proof.
  intros Hn. pose proof (forall_range_spec _ _ _ hex_digits_checked n ltac:(lia)) as H.
  rewrite !andb_true_iff, !negb_true_iff in H. tauto.
Qed.

Lemma nibbles b : 0 <= b < 256 -> 0 <= b / 16 < 16 /\ 0 <= b mod 16 < 16.
Proof. zdiv. Qed.

Lemma u8_from_hex2_byte b :
  0 <= b < 256 -> u8_from_hex2 (hex_digit (b / 16)) (hex_digit (b mod 16)) = Some b.
Proof.
  intros Hb. destruct (nibbles b Hb) as [Hh Hl]. unfold u8_from_hex2.
  destruct (hex_digit_plain _ Hh) as [-> _].
  rewrite (hex_value_digit _ Hh), (hex_value_digit _ Hl). f_equal. zdiv.
Qed.

Lemma to_hex_cons b id :
  to_hex (b :: id) =
  String (hex_digit (b / 16)) (String (hex_digit (b mod 16)) (to_hex id)).
Proof. reflexivity. Qed.

Lemma to_hex_length id : String.length (to_hex id) = (2 * length id)%nat.
Proof. induction id as [|b id IH]; [done|]. rewrite to_hex_cons. simpl. rewrite IH. lia. Qed.

(** The first byte of a printed tail is never a continuation byte. *)
Lemma to_hex_boundary id :
  Forall (fun b => 0 <= b < 256) id ->
  match to_hex id with String c _ => is_continuation c | EmptyString => false end = false.
Proof.
  intros [|b id' Hb _]; [done|]. rewrite to_hex_cons.
  apply (hex_digit_plain (b / 16)). by apply nibbles.
Qed.

Lemma parse_bytes_to_hex id i :
  Forall (fun b => 0 <= b < 256) id -> parse_bytes i (to_hex id) = Parsed id.
Proof.
  intros Hid. revert i. induction Hid as [|b id Hb Hid IH]; intros i; [done|].
  rewrite to_hex_cons. cbn [parse_bytes]. rewrite (to_hex_boundary _ Hid).
  destruct (hex_digit_plain (b / 16)) as [_ ->]; [by apply nibbles|].
  cbn [orb]. by rewrite u8_from_hex2_byte, IH.
Qed.

Lemma hex_value_range c v : hex_value c = Some v -> 0 <= v < 16.
Proof. destruct c as [[] [] [] [] [] [] [] []]; vm_compute; intros [=]; subst; done. Qed.

Lemma u8_from_hex2_range a b v : u8_from_hex2 a b = Some v -> 0 <= v < 256.
Proof.
  unfold u8_from_hex2. destruct (Ascii.eqb a "+").
  - intros H%hex_value_range. lia.
  - destruct (hex_value a) eqn:Ha; [|done]. destruct (hex_value b) eqn:Hb; [|done].
    apply hex_value_range in Ha, Hb. intros [= <-]. lia.
Qed.

(** Whatever the text, an accepted id has one byte per two characters. *)
Lemma parse_bytes_wf n : forall s i id,
  String.length s = (2 * n)%nat -> parse_bytes i s = Parsed id ->
  length id = n /\ Forall (fun b => 0 <= b < 256) id.
Proof.
  induction n as [|n IH]; intros s i id Hlen.
  - destruct s; [|done]. by intros [= <-].
  - destruct s as [|a [|b s]]; [simpl in Hlen; lia..|].
    cbn [parse_bytes]. destruct (_ || _); [done|].
    destruct (u8_from_hex2 a b) as [v|] eqn:Hv; [|done].
    destruct (parse_bytes (S i) s) as [id'| |] eqn:Hp; [|done..].
    intros [= <-]. destruct (IH s (S i) id') as [Hl Hf]; [simpl in Hlen; lia|done|].
    split; [simpl; lia|]. constructor; [|done]. by eapply u8_from_hex2_range.
Qed.

Lemma from_str_to_hex (id : BlobId) : wf_blob_id id -> from_str (to_hex id) = Parsed id.
Proof.
  intros [Hlen Hbytes]. unfold from_str.
  rewrite to_hex_length, Hlen. simpl. by apply parse_bytes_to_hex.
Qed.

(** A blob id prints as 64 characters and parsing them gives the id back, so
    distinct blobs have distinct file names and database keys. *)
Lemma blob_id_hex_roundtrip (id : BlobId) :
  wf_blob_id id ->
  from_str (to_hex id) = Parsed id /\ String.length (to_hex id) = 64%nat
  /\ (forall id', wf_blob_id id' -> to_hex id' = to_hex id -> id' = id).
Proof.
  intros Hid. split_and!; [by apply from_str_to_hex|by rewrite to_hex_length, (proj1 Hid)|].
  intros id' Hid' Heq. apply from_str_to_hex in Hid, Hid'. congruence.
Qed.

(** The parser is not the inverse the other way: it accepts a sign where a
    hex digit should be, so one id has several texts and "non-hex" text passes. *)
Lemma blob_id_parse_accepts_sign :
  exists s id, from_str s = Parsed id /\ wf_blob_id id /\ to_hex id <> s
               /\ contains "+" s = true.
Proof.
  exists ("+f" +:+ to_hex (repeat 171 31)), (15 :: repeat 171 31).
  split; [vm_compute; reflexivity|]. split.
  - split; [done|]. by repeat constructor; cbv.
  - split; [by vm_compute | vm_compute; reflexivity].
Qed.

(** Every accepted text denotes a well-formed 32-byte id. *)
Lemma blob_id_from_str_wf (s : string) (id : BlobId) :
  from_str s = Parsed id -> wf_blob_id id.
Proof.
  unfold from_str. destruct (String.length s =? 64)%nat eqn:Hlen; [|done].
  apply Nat.eqb_eq in Hlen. simpl. intros H. by apply (parse_bytes_wf 32 s 0).
Qed.

(** ** The calendar, as a specification

    The Gregorian calendar stated day by day, with the leap-year rule and the
    month lengths; nothing of Hinnant's arithmetic. *)
Module Calendar.

Definition leap (y : Z) : bool :=
  (y mod 4 =? 0) && (negb (y mod 100 =? 0) || (y mod 400 =? 0)).

Definition month_length (y m : Z) : Z :=
  if m =? 2 then if leap y then 29 else 28
  else if (m =? 4) || (m =? 6) || (m =? 9) || (m =? 11) then 30
  else 31.

Definition next_day (date : Z * Z * Z) : Z * Z * Z :=
  let '(y, m, d) := date in
  if d <? month_length y m then (y, m, d + 1)
  else if m <? 12 then (y, m + 1, 1)
  else (y + 1, 1, 1).

Definition valid (date : Z * Z * Z) : bool :=
  let '(y, m, d) := date in
  (1 <=? m) && (m <=? 12) && (1 <=? d) && (d <=? month_length y m).

(** Shifting a date by whole 400-year cycles. *)
Definition shift (k : Z) (date : Z * Z * Z) : Z * Z * Z :=
  let '(y, m, d) := date in (y + 400 * k, m, d).

Lemma leap_shift y k : leap (y + 400 * k) = leap y.
Proof.
  unfold leap.
  assert (forall c n, c * n = 400 -> (y + 400 * k) mod n = y mod n) as Hmod.
  { intros c n Hn. rewrite <- Hn. replace (y + c * n * k) with (y + c * k * n) by ring.
    apply Z_mod_plus_full. }
  by rewrite (Hmod 100 4), (Hmod 4 100), (Hmod 1 400).
Qed.

Lemma month_length_shift y k m : month_length (y + 400 * k) m = month_length y m.
Proof. unfold month_length. by rewrite leap_shift. Qed.

Lemma next_day_shift k date : next_day (shift k date) = shift k (next_day date).
Proof.
  destruct date as [[y m] d]. simpl. rewrite month_length_shift.
  destruct (d <? _); [done|]. destruct (m <? 12); simpl; [done|].
  by replace (y + 400 * k + 1) with (y + 1 + 400 * k) by ring.
Qed.

Lemma valid_shift k date : valid (shift k date) = valid date.
Proof. destruct date as [[y m] d]. simpl. by rewrite month_length_shift. Qed.

(** One era of [civil_from_days], on the day of era. *)
Definition civil_of_doe (doe : Z) : Z * Z * Z := civil_from_days (doe - 719468).

Lemma civil_from_days_era z :
  civil_from_days z =
  shift ((z + 719468) / 146097) (civil_of_doe ((z + 719468) mod 146097)).
Proof.
  unfold civil_of_doe, civil_from_days, shift.
  set (doe := (z + 719468) mod 146097). set (era := (z + 719468) / 146097).
  assert (0 <= doe < 146097) by (apply Z.mod_pos_bound; lia).
  replace (doe - 719468 + 719468) with doe by lia.
  rewrite (Z.div_small doe 146097), (Z.mod_small doe 146097) by lia.
  f_equal. f_equal. destruct (_ <=? 2); ring.
Qed.

(** *** One era, year by year and day by day

    [yoe_of] is monotone, so checking it at the first and last day of each of
    the 400 years of the cycle settles every day between them; the day-of-year
    part is the same in all years but for 29 February. *)

Definition yoe_of (doe : Z) : Z := (doe - doe / 1460 + doe / 36524 - doe / 146096) / 365.
Definition start (y : Z) : Z := 365 * y + y / 4 - y / 100.
Definition last_day (y : Z) : Z := if y =? 399 then 146096 else start (y + 1) - 1.

Definition mp_of (doy : Z) : Z := (5 * doy + 2) / 153.
Definition month_of (doy : Z) : Z := if mp_of doy <? 10 then mp_of doy + 3 else mp_of doy - 9.
Definition day_of (doy : Z) : Z := doy - (153 * mp_of doy + 2) / 5 + 1.
Definition carry_of (doy : Z) : Z := if month_of doy <=? 2 then 1 else 0.
Definition date_of (y doy : Z) : Z * Z * Z := (y + carry_of doy, month_of doy, day_of doy).

(** [month_length] with the leap-year test as an argument. *)
Definition length_with (lp : bool) (m : Z) : Z :=
  if m =? 2 then if lp then 29 else 28
  else if (m =? 4) || (m =? 6) || (m =? 9) || (m =? 11) then 30
  else 31.

Lemma civil_of_doe_split doe :
  0 <= doe < 146097 ->
  civil_of_doe doe = date_of (yoe_of doe) (doe - start (yoe_of doe)).
Proof.
  intros H. unfold civil_of_doe, civil_from_days, date_of.
  replace (doe - 719468 + 719468) with doe by lia.
  rewrite (Z.div_small doe 146097), (Z.mod_small doe 146097) by lia.
  unfold carry_of, month_of, day_of, mp_of, start, yoe_of.
  f_equal. f_equal. rewrite Z.mul_0_l, Z.add_0_r. destruct (_ <=? 2); lia.
Qed.

Lemma yoe_of_mono a b : 0 <= a <= b -> b <= 146096 -> yoe_of a <= yoe_of b.
Proof. intros. unfold yoe_of. apply Z.div_le_mono; [lia|]. zdiv. Qed.

Lemma years_checked :
  forall_range 400 0
    (fun y => (yoe_of (start y) =? y) && (yoe_of (last_day y) =? y)
              && (last_day y - start y =? if leap (y + 1) then 365 else 364)
              && (0 <=? start y) && (last_day y <=? 146096)) = true.
Proof. vm_compute. reflexivity. Qed.

Lemma year_facts y : 0 <= y < 400 ->
  yoe_of (start y) = y /\ yoe_of (last_day y) = y
  /\ last_day y - start y = (if leap (y + 1) then 365 else 364)
  /\ 0 <= start y /\ last_day y <= 146096.
Proof.
  intros Hy. pose proof (forall_range_spec _ _ _ years_checked y ltac:(lia)) as H.
  rewrite !andb_true_iff, !Z.eqb_eq, !Z.leb_le in H. tauto.
Qed.

Lemma year_length y : 0 <= y < 400 -> start y <= last_day y.
Proof. intros Hy. destruct (year_facts y Hy) as (_ & _ & H & _). destruct (leap _); lia. Qed.

(** Every day of the era lies in the year [yoe_of] names. *)
Lemma yoe_of_bounds doe : 0 <= doe <= 146096 ->
  0 <= yoe_of doe < 400 /\ start (yoe_of doe) <= doe <= last_day (yoe_of doe).
Proof.
  intros Hd.
  assert (0 <= yoe_of doe < 400) as Hy.
  { pose proof (yoe_of_mono 0 doe ltac:(lia) ltac:(lia)) as H0.
    pose proof (yoe_of_mono doe 146096 ltac:(lia) ltac:(lia)) as H1.
    change (yoe_of 0) with 0 in H0. change (yoe_of 146096) with 399 in H1. lia. }
  split; [done|]. destruct (year_facts _ Hy) as (Hs & Hl & _ & Hpos & Hmax). split.
  - destruct (decide (start (yoe_of doe) <= doe)) as [|Hlt]; [done|exfalso].
    destruct (decide (yoe_of doe = 0)) as [H0|Hne].
    { rewrite H0 in Hlt. change (start 0) with 0 in Hlt. lia. }
    destruct (year_facts (yoe_of doe - 1) ltac:(lia)) as (_ & Hl' & _ & _ & Hm').
    assert (doe <= last_day (yoe_of doe - 1)).
    { unfold last_day. destruct (Z.eqb_spec (yoe_of doe - 1) 399); [lia|].
      replace (yoe_of doe - 1 + 1) with (yoe_of doe) by lia. lia. }
    pose proof (yoe_of_mono doe (last_day (yoe_of doe - 1)) ltac:(lia) Hm'). lia.
  - destruct (decide (doe <= last_day (yoe_of doe))) as [|Hlt]; [done|exfalso].
    unfold last_day in Hlt. destruct (Z.eqb_spec (yoe_of doe) 399); [lia|].
    destruct (year_facts (yoe_of doe + 1) ltac:(lia)) as (Hs' & _ & _ & Hp' & _).
    pose proof (yoe_of_mono (start (yoe_of doe + 1)) doe ltac:(lia) ltac:(lia)). lia.
Qed.

Lemma yoe_of_between y doe :
  0 <= y < 400 -> start y <= doe <= last_day y -> yoe_of doe = y.
Proof.
  intros Hy Hd. destruct (year_facts y Hy) as (Hs & Hl & _ & Hp & Hm).
  pose proof (yoe_of_mono (start y) doe ltac:(lia) ltac:(lia)).
  pose proof (yoe_of_mono doe (last_day y) ltac:(lia) ltac:(lia)). lia.
Qed.

(** Days of a year that starts in March, by evaluation. *)
Definition next_within (lp : bool) (doy : Z) : bool :=
  let m := month_of doy in
  let '(c, m', d') :=
    if day_of doy <? length_with lp m then (carry_of doy, m, day_of doy + 1)
    else if m <? 12 then (carry_of doy, m + 1, 1)
    else (carry_of doy + 1, 1, 1) in
  (c =? carry_of (doy + 1)) && (m' =? month_of (doy + 1)) && (d' =? day_of (doy + 1)).

Definition valid_within (lp : bool) (doy : Z) : bool :=
  (1 <=? month_of doy) && (month_of doy <=? 12) && (1 <=? day_of doy)
  && (day_of doy <=? length_with lp (month_of doy))
  && (negb (month_of doy =? 2) || (carry_of doy =? 1)).

Definition year_checked (lp : bool) : bool :=
  let last := if lp then 365 else 364 in
  forall_range (Z.to_nat last) 0 (next_within lp)
  && forall_range (Z.to_nat (last + 1)) 0 (valid_within lp).

Lemma year_checked_true lp : year_checked lp = true.
Proof. by destruct lp; vm_compute. Qed.

Lemma day_facts lp doy :
  0 <= doy <= (if lp : bool then 365 else 364) ->
  valid_within lp doy = true /\
  (doy < (if lp then 365 else 364) -> next_within lp doy = true).
Proof.
  intros Hd. pose proof (year_checked_true lp) as H.
  apply andb_prop in H as [Hnext Hvalid]. split; intros.
  - apply (forall_range_spec _ _ _ Hvalid). destruct lp; lia.
  - apply (forall_range_spec _ _ _ Hnext). destruct lp; lia.
Qed.

(** Only February reads the leap flag, and then it is next year's. *)
Lemma month_length_date y doy :
  valid_within (leap (y + 1)) doy = true ->
  month_length (y + carry_of doy) (month_of doy) = length_with (leap (y + 1)) (month_of doy).
Proof.
  unfold valid_within, month_length, length_with. rewrite !andb_true_iff. intros [_ H].
  destruct (month_of doy =? 2) eqn:E; [|done]. simpl in H. apply Z.eqb_eq in H. by rewrite H.
Qed.

Lemma next_day_within y doy :
  0 <= doy < (if leap (y + 1) then 365 else 364) ->
  next_day (date_of y doy) = date_of y (doy + 1).
Proof.
  intros Hd. destruct (day_facts (leap (y + 1)) doy ltac:(lia)) as [Hv Hn].
  specialize (Hn ltac:(lia)). unfold date_of, next_day.
  rewrite (month_length_date _ _ Hv). unfold next_within in Hn.
  destruct (day_of doy <? _); [|destruct (month_of doy <? 12)];
    rewrite !andb_true_iff, !Z.eqb_eq in Hn; destruct Hn as [[<- <-] <-]; f_equal; f_equal; ring.
Qed.

Lemma next_day_last y :
  next_day (date_of y (if leap (y + 1) then 365 else 364)) = date_of (y + 1) 0.
Proof.
  destruct (day_facts (leap (y + 1)) (if leap (y + 1) then 365 else 364)) as [Hv _].
  { destruct (leap _); lia. }
  unfold date_of, next_day. rewrite (month_length_date _ _ Hv).
  change (carry_of 0) with 0. replace (y + 1 + 0) with (y + 1) by ring.
  destruct (leap (y + 1)); reflexivity.
Qed.

Lemma era_valid doe : 0 <= doe <= 146096 -> valid (civil_of_doe doe) = true.
Proof.
  intros Hd. rewrite civil_of_doe_split by lia.
  destruct (yoe_of_bounds doe Hd) as [Hy Hb].
  destruct (year_facts _ Hy) as (_ & _ & Hlen & _).
  destruct (day_facts (leap (yoe_of doe + 1)) (doe - start (yoe_of doe))) as [Hv _].
  { destruct (leap _); lia. }
  unfold valid, date_of. rewrite (month_length_date _ _ Hv).
  unfold valid_within in Hv. rewrite !andb_true_iff in *. tauto.
Qed.

Lemma era_step doe : 0 <= doe < 146096 ->
  civil_of_doe (doe + 1) = next_day (civil_of_doe doe).
Proof.
  intros Hd. rewrite !civil_of_doe_split by lia.
  destruct (yoe_of_bounds doe ltac:(lia)) as [Hy Hb].
  destruct (year_facts _ Hy) as (_ & _ & Hlen & _).
  destruct (decide (doe = last_day (yoe_of doe))) as [Hlast|Hne].
  - assert (yoe_of doe <> 399) as H399.
    { intros H. rewrite H in Hlast. change (last_day 399) with 146096 in Hlast. lia. }
    assert (doe + 1 = start (yoe_of doe + 1)) as Hnext.
    { unfold last_day in Hlast. destruct (Z.eqb_spec (yoe_of doe) 399); lia. }
    destruct (year_facts (yoe_of doe + 1) ltac:(lia)) as (Hy' & _).
    rewrite Hnext, Hy', Z.sub_diag, <- next_day_last. do 2 f_equal. lia.
  - rewrite (yoe_of_between (yoe_of doe) (doe + 1)) by lia.
    rewrite next_day_within by lia. f_equal. lia.
Qed.

Lemma era_wraps : next_day (civil_of_doe 146096) = shift 1 (civil_of_doe 0).
Proof. reflexivity. Qed.

Lemma shift_shift j k date : shift j (shift k date) = shift (j + k) date.
Proof. destruct date as [[y m] d]. simpl.
  by replace (y + 400 * k + 400 * j) with (y + 400 * (j + k)) by ring. Qed.

Lemma civil_valid z : valid (civil_from_days z) = true.
Proof.
  rewrite civil_from_days_era, valid_shift.
  apply era_valid. pose proof (Z.mod_pos_bound (z + 719468) 146097). lia.
Qed.

(** [civil_from_days] is the Gregorian calendar: day 0 is 1970-01-01 and the
    date of each day is the calendar successor of the previous one, over all
    of [Z], before and after the epoch. *)
Lemma civil_from_days_gregorian :
  civil_from_days 0 = (1970, 1, 1) /\
  forall z, civil_from_days (z + 1) = next_day (civil_from_days z)
            /\ valid (civil_from_days z) = true.
Proof.
  split; [reflexivity|]. intros z. split; [|apply civil_valid].
  rewrite (civil_from_days_era z), (civil_from_days_era (z + 1)), next_day_shift.
  replace (z + 1 + 719468) with (z + 719468 + 1) by ring.
  pose proof (Z.mod_pos_bound (z + 719468) 146097 ltac:(lia)) as Hb.
  destruct (decide ((z + 719468) mod 146097 = 146096)) as [Hlast|Hne].
  - destruct (div_mod_succ_carry (z + 719468) 146097) as [-> ->]; [lia..|].
    by rewrite Hlast, era_wraps, shift_shift, Z.add_comm.
  - destruct (div_mod_succ (z + 719468) 146097) as [-> ->]; [lia..|].
    f_equal. apply era_step. lia.
Qed.

End Calendar.

(** [rfc2822_utc] never indexes its tables out of range. *)
Lemma rfc2822_utc_total (unix : Z) : is_Some (rfc2822_utc unix).
Proof.
  unfold rfc2822_utc.
  pose proof (Calendar.civil_valid (unix / 86400)) as Hv.
  destruct (civil_from_days (unix / 86400)) as [[y m] d].
  unfold Calendar.valid in Hv. rewrite !andb_true_iff, !Z.leb_le in Hv.
  assert (is_Some (weekdays !! Z.to_nat (weekday_index (unix / 86400)))) as [wd ->].
  { apply lookup_lt_is_Some. unfold weekday_index. simpl. zdiv. }
  assert (is_Some (months !! Z.to_nat (m - 1))) as [mo ->].
  { apply lookup_lt_is_Some. simpl. lia. }
  eauto.
Qed.

(** The dates of the crate's own tests. *)
Example known_dates :
  rfc2822_utc 0 = Some "Thu, 01 Jan 1970 00:00:00 +0000"
  /\ rfc2822_utc 1783137275 = Some "Sat, 04 Jul 2026 03:54:35 +0000"
  /\ rfc2822_utc (-86400) = Some "Wed, 31 Dec 1969 00:00:00 +0000".
Proof. repeat split; vm_compute; reflexivity. Qed.

(** A modseq advances by exactly one inside [u64] or reports overflow; it
    never wraps. *)
Lemma modseq_next_spec (m : Z) :
  0 <= m <= u64_max ->
  (m < u64_max /\ modseq_next m = Some (m + 1)) \/ (m = u64_max /\ modseq_next m = None).
Proof.
  intros Hm. unfold modseq_next. destruct (m + 1 <=? u64_max) eqn:E.
  - apply Z.leb_le in E. left. split; [lia|done].
  - apply Z.leb_gt in E. right. split; [lia|done].
Qed.

(** Dates are safe to splice into a header line. *)
Lemma rfc2822_utc_printable unix d : rfc2822_utc unix = Some d -> printable d = true.
Proof.
  unfold rfc2822_utc. destruct (civil_from_days _) as [[y m] day].
  destruct (weekdays !! _) as [wd|] eqn:Hw; [|done].
  destruct (months !! _) as [mo|] eqn:Hm; [|done].
  assert (forall l i x, Forall (fun s => printable s = true) l ->
            l !! i = Some x -> printable x = true) as Htable.
  { intros l i x Hl Hi. by eapply Forall_lookup_1 in Hl. }
  intros [= <-]. autorewrite with text.
  rewrite (Htable weekdays _ _ ltac:(repeat constructor) Hw).
  by rewrite (Htable months _ _ ltac:(repeat constructor) Hm).
Qed.
