(* ===== verification/Json.v ===== *)
(** JSON values and the ordered string maps under them.

    [serde_json::Map] is a [BTreeMap<String, Value>] here (the workspace does
    not enable [preserve_order]): an association list kept in key order.  The
    sources only build integer numbers and never look inside one. *)
From S2P Require Import Prelude Text.

Open Scope string_scope.

(** ** Ordered maps: [BTreeMap<String, V>] *)
Section OrderedMap.
Context {V : Type}.
Implicit Types (m : list (string * V)) (k : string) (v : V).

Fixpoint map_get k m : option V :=
  match m with
  | [] => None
  | (k', v') :: m' => if String.eqb k k' then Some v' else map_get k m'
  end.

Definition map_contains_key k m : bool :=
  match map_get k m with Some _ => true | None => false end.

Fixpoint map_insert k v m : list (string * V) :=
  match m with
  | [] => [(k, v)]
  | (k', v') :: m' =>
      match String.compare k k' with
      | Lt => (k, v) :: m
      | Eq => (k, v) :: m'
      | Gt => (k', v') :: map_insert k v m'
      end
  end.

(** [Map::remove]: the value taken out and the map without it. *)
Fixpoint map_remove k m : option (V * list (string * V)) :=
  match m with
  | [] => None
  | (k', v') :: m' =>
      if String.eqb k k' then Some (v', m')
      else match map_remove k m' with
           | Some (v, m'') => Some (v, (k', v') :: m'')
           | None => None
           end
  end.

Definition map_keys m : list string := map fst m.
Definition map_of_list (l : list (string * V)) : list (string * V) :=
  fold_left (fun m kv => map_insert (fst kv) (snd kv) m) l [].

(** Keys strictly increasing: the invariant of a B-tree map. *)
Definition key_lt (a b : string) : Prop := String.compare a b = Lt.
Definition wf_map m : Prop := StronglySorted key_lt (map_keys m).

Lemma compare_eq_eqb a b : String.compare a b = Eq <-> a = b.
Proof.
  split; [apply String.compare_eq_iff|]. intros <-.
  induction a as [|c a IH]; simpl; [done|]. unfold Ascii.compare. by rewrite N.compare_refl.
Qed.

Lemma key_lt_ne a b : key_lt a b -> a <> b.
Proof. intros H <-. assert (String.compare a a = Eq) by (by apply compare_eq_eqb). congruence. Qed.

Lemma map_get_insert_eq k v m : map_get k (map_insert k v m) = Some v.
Proof.
  induction m as [|[k' v'] m IH]; simpl; [by rewrite String.eqb_refl|].
  destruct (String.compare k k') eqn:E; simpl; rewrite ?String.eqb_refl; try done.
  destruct (String.eqb_spec k k') as [->|]; [|done].
  exfalso. assert (String.compare k' k' = Eq) by (by apply compare_eq_eqb). congruence.
Qed.

Lemma map_get_insert_ne k k' v m :
  k <> k' -> map_get k' (map_insert k v m) = map_get k' m.
Proof.
  intros Hne. apply String.eqb_neq in Hne as Hb. rewrite String.eqb_sym in Hb.
  induction m as [|[k1 v1] m IH]; simpl; [by rewrite Hb|].
  destruct (String.compare k k1) eqn:E; simpl; rewrite ?Hb, ?IH; try done.
  by apply compare_eq_eqb in E as <-; rewrite Hb.
Qed.

Lemma map_get_insert k k' v m :
  map_get k' (map_insert k v m) = if String.eqb k k' then Some v else map_get k' m.
Proof.
  destruct (String.eqb_spec k k') as [->|].
  - apply map_get_insert_eq.
  - by apply map_get_insert_ne.
Qed.

Lemma map_get_elem k v m : map_get k m = Some v -> (k, v) ∈ m.
Proof.
  induction m as [|[k' v'] m IH]; simpl; [done|].
  destruct (String.eqb_spec k k') as [->|].
  - intros [= ->]. apply elem_of_cons. by left.
  - intros H%IH. apply elem_of_cons. by right.
Qed.

Lemma map_get_keys k m : is_Some (map_get k m) <-> k ∈ map_keys m.
Proof.
  unfold map_keys. induction m as [|[k' v'] m IH]; simpl.
  - split; [by intros [? ?]|]. by intros ?%elem_of_nil.
  - rewrite elem_of_cons. destruct (String.eqb_spec k k') as [->|].
    + split; [by left | eauto].
    + rewrite IH. naive_solver.
Qed.

Lemma elem_map_keys k v m : (k, v) ∈ m -> k ∈ map_keys m.
Proof. unfold map_keys. rewrite !list_elem_of_In. apply (in_map fst m (k, v)). Qed.

Lemma elem_map_keys_inv k m : k ∈ map_keys m -> exists v, (k, v) ∈ m.
Proof.
  unfold map_keys. rewrite list_elem_of_In, in_map_iff. intros ([k' v] & <- & H).
  exists v. by apply list_elem_of_In.
Qed.

Lemma map_contains_key_iff k m : map_contains_key k m = true <-> is_Some (map_get k m).
Proof. unfold map_contains_key. destruct (map_get k m); split; eauto; [done|by intros []]. Qed.

Lemma map_insert_keys k v m k' :
  k' ∈ map_keys (map_insert k v m) <-> k' = k \/ k' ∈ map_keys m.
Proof.
  rewrite <- !map_get_keys, map_get_insert.
  destruct (String.eqb_spec k k') as [->|]; naive_solver.
Qed.

Lemma map_remove_get k m v : map_get k m = Some v -> exists m', map_remove k m = Some (v, m').
Proof.
  induction m as [|[k' v'] m IH]; simpl; [done|].
  destruct (String.eqb k k'); [naive_solver|].
  intros H. destruct (IH H) as [m' ->]. eauto.
Qed.

Lemma map_remove_get_inv k m v m' :
  map_remove k m = Some (v, m') -> map_get k m = Some v.
Proof.
  revert m'. induction m as [|[k' v'] m IH]; simpl; intros m'; [done|].
  destruct (String.eqb k k'); [naive_solver|].
  destruct (map_remove k m) as [[? ?]|]; [|done]. intros [= <- _]. eauto.
Qed.

Lemma map_remove_other k k' m v m' :
  map_remove k m = Some (v, m') -> k <> k' -> map_get k' m' = map_get k' m.
Proof.
  intros H Hne. revert m' H. induction m as [|[k1 v1] m IH]; simpl; intros m'; [done|].
  destruct (String.eqb_spec k k1) as [->|].
  - intros [= -> ->]. destruct (String.eqb_spec k' k1); [congruence|done].
  - destruct (map_remove k m) as [[v2 m2]|]; [|done]. intros [= -> <-]. simpl.
    destruct (String.eqb k' k1); [done|]. by apply IH.
Qed.

Lemma key_lt_gt a b : String.compare a b = Gt -> key_lt b a.
Proof.
  unfold key_lt. intros H. rewrite String.compare_antisym, H. done.
Qed.

Lemma key_lt_trans a b c : key_lt a b -> key_lt b c -> key_lt a c.
Proof.
  unfold key_lt. revert b c. induction a as [|x a IH]; intros [|y b] [|z c]; simpl; try done.
  destruct (Ascii.compare x y) eqn:Exy; try done.
  - apply Ascii.compare_eq_iff in Exy as ->. destruct (Ascii.compare y z); [|done..]. apply IH.
  - destruct (Ascii.compare y z) eqn:Eyz; try done.
    + apply Ascii.compare_eq_iff in Eyz as ->. by rewrite Exy.
    + unfold Ascii.compare in *. rewrite N.compare_lt_iff in *.
      assert (N.compare (N_of_ascii x) (N_of_ascii z) = Lt) as ->; [|done].
      apply N.compare_lt_iff. lia.
Qed.

Lemma wf_map_insert k v m : wf_map m -> wf_map (map_insert k v m).
Proof.
  unfold wf_map. induction m as [|[k' v'] m IH]; simpl; [repeat constructor|].
  intros [Hm Hk]%StronglySorted_inv. destruct (String.compare k k') eqn:E; simpl.
  - apply compare_eq_eqb in E as ->. by constructor.
  - constructor; [by constructor|]. constructor; [done|].
    eapply Forall_impl; [exact Hk|]. intros ? ?. by eapply key_lt_trans.
  - constructor; [by apply IH|]. apply Forall_forall. intros x Hx.
    apply map_insert_keys in Hx as [->|Hx]; [by apply key_lt_gt|].
    rewrite Forall_forall in Hk. by apply Hk.
Qed.

Lemma wf_map_NoDup m : wf_map m -> NoDup (map_keys m).
Proof.
  unfold wf_map. induction 1 as [|k l Hl IH Hk]; constructor; [|done].
  intros Hin. rewrite Forall_forall in Hk. by apply (key_lt_ne k k); [apply Hk|].
Qed.

Lemma wf_map_of_list l : wf_map (map_of_list l).
Proof.
  unfold map_of_list. assert (wf_map []) as H by constructor. revert H.
  generalize (@nil (string * V)) as m. induction l as [|[k v] l IH]; simpl; [done|].
  intros m Hm. apply IH. by apply wf_map_insert.
Qed.
End OrderedMap.

#[export] Hint Resolve wf_map_insert wf_map_of_list : core.

(** ** Values *)

Inductive Value : Type :=
  | Null
  | Bool (b : bool)
  | Number (n : Z)
  | Str (s : string)
  | Array (items : list Value)
  | Object (fields : list (string * Value)).

(** Induction that goes under arrays and objects. *)
Section ValueInd.
Variable P : Value -> Prop.
Hypothesis HNull : P Null.
Hypothesis HBool : forall b, P (Bool b).
Hypothesis HNumber : forall n, P (Number n).
Hypothesis HStr : forall s, P (Str s).
Hypothesis HArray : forall items, Forall P items -> P (Array items).
Hypothesis HObject : forall fields, Forall (fun kv => P (snd kv)) fields -> P (Object fields).

Fixpoint value_nested_ind (v : Value) : P v :=
  match v with
  | Null => HNull
  | Bool b => HBool b
  | Number n => HNumber n
  | Str s => HStr s
  | Array items =>
      HArray items
        ((fix go (l : list Value) : Forall P l :=
            match l with
            | [] => @List.Forall_nil _ P
            | x :: l' => @List.Forall_cons _ P x l' (value_nested_ind x) (go l')
            end) items)
  | Object fields =>
      HObject fields
        ((fix go (l : list (string * Value)) : Forall (fun kv => P (snd kv)) l :=
            match l with
            | [] => @List.Forall_nil _ _
            | x :: l' =>
                @List.Forall_cons _ (fun kv => P (snd kv)) x l' (value_nested_ind (snd x)) (go l')
            end) fields)
  end.
End ValueInd.

(** [serde_json::json!({...})]. *)
Definition json_object (l : list (string * Value)) : Value := Object (map_of_list l).

(** [value["key"] = v] on an object (serde panics on other values; the sources
    only use it on objects they just built). *)
Definition set_field (k : string) (v : Value) (obj : Value) : Value :=
  match obj with Object m => Object (map_insert k v m) | other => other end.
