(* ===== verification/JmapEnvelope.v ===== *)
(** [crates/jmap-core/src/envelope.rs]: requests, responses and the two error
    levels of RFC 8620 sec. 3. *)
From S2P Require Import Prelude Text Json.

Open Scope string_scope.

(** [Invocation(name, arguments, callId)]. *)
Record Invocation := mk_invocation {
  inv_name : string;
  inv_arguments : Value;
  inv_call_id : string
}.

Record Request := mk_request {
  req_using : list string;
  method_calls : list Invocation;
  req_created_ids : option (list (string * string))
}.

Record Response := mk_response {
  method_responses : list Invocation;
  resp_created_ids : option (list (string * string));
  session_state : string
}.

Inductive RequestError :=
  | UnknownCapability (urn : string)
  | NotRequest
  | Limit (which : string).

Definition request_error_urn (e : RequestError) : string :=
  match e with
  | UnknownCapability _ => "urn:ietf:params:jmap:error:unknownCapability"
  | NotRequest => "urn:ietf:params:jmap:error:notRequest"
  | Limit _ => "urn:ietf:params:jmap:error:limit"
  end.

Definition request_error_to_string (e : RequestError) : string :=
  match e with
  | UnknownCapability urn => "unknown capability: " +:+ urn
  | NotRequest => "the request did not parse as a valid JMAP request"
  | Limit which => "request exceeds a server limit: " +:+ which
  end.

Definition problem_details (e : RequestError) : Value :=
  let details := json_object [("type", Str (request_error_urn e));
                              ("status", Number 400);
                              ("detail", Str (request_error_to_string e))] in
  match e with
  | Limit which => set_field "limit" (Str which) details
  | _ => details
  end.

Inductive MethodError :=
  | UnknownMethod
  | InvalidArguments (msg : string)
  | InvalidResultReference (msg : string)
  | Forbidden
  | AccountNotFound
  | AccountNotSupportedByMethod
  | AccountReadOnly
  | CannotCalculateChanges
  | StateMismatch
  | ServerFail (msg : string).

Definition type_name (e : MethodError) : string :=
  match e with
  | UnknownMethod => "unknownMethod"
  | InvalidArguments _ => "invalidArguments"
  | InvalidResultReference _ => "invalidResultReference"
  | Forbidden => "forbidden"
  | AccountNotFound => "accountNotFound"
  | AccountNotSupportedByMethod => "accountNotSupportedByMethod"
  | AccountReadOnly => "accountReadOnly"
  | CannotCalculateChanges => "cannotCalculateChanges"
  | StateMismatch => "stateMismatch"
  | ServerFail _ => "serverFail"
  end.

Definition method_error_to_string (e : MethodError) : string :=
  match e with
  | UnknownMethod => "unknown method"
  | InvalidArguments msg => "invalid arguments: " +:+ msg
  | InvalidResultReference msg => "invalid result reference: " +:+ msg
  | Forbidden => "forbidden"
  | AccountNotFound => "account not found"
  | AccountNotSupportedByMethod => "account does not support this method"
  | AccountReadOnly => "account is read-only"
  | CannotCalculateChanges => "cannot calculate changes from the given state"
  | StateMismatch => "requested state does not match current state"
  | ServerFail msg => "server failure: " +:+ msg
  end.

(** [MethodError::invocation]: the ["error"] triple of a failed call. *)
Definition error_invocation (e : MethodError) (call_id : string) : Invocation :=
  let args := json_object [("type", Str (type_name e))] in
  let args :=
    match e with
    | InvalidArguments _ | InvalidResultReference _ | ServerFail _ =>
        set_field "description" (Str (method_error_to_string e)) args
    | _ => args
    end in
  mk_invocation "error" args call_id.

Lemma error_invocation_name e call_id : inv_name (error_invocation e call_id) = "error".
Proof. reflexivity. Qed.

Lemma error_invocation_call_id e call_id : inv_call_id (error_invocation e call_id) = call_id.
Proof. reflexivity. Qed.

(** The type member survives the optional description. *)
Lemma error_invocation_type e call_id :
  match inv_arguments (error_invocation e call_id) with
  | Object m => map_get "type" m = Some (Str (type_name e))
  | _ => False
  end.
Proof. by destruct e. Qed.

Lemma type_name_inj_kind e e' :
  type_name e = type_name e' ->
  match e, e' with
  | UnknownMethod, UnknownMethod | InvalidArguments _, InvalidArguments _
  | InvalidResultReference _, InvalidResultReference _ | Forbidden, Forbidden
  | AccountNotFound, AccountNotFound
  | AccountNotSupportedByMethod, AccountNotSupportedByMethod
  | AccountReadOnly, AccountReadOnly | CannotCalculateChanges, CannotCalculateChanges
  | StateMismatch, StateMismatch | ServerFail _, ServerFail _ => True
  | _, _ => False
  end.
Proof. destruct e, e'; done. Qed.
