(* ===== verification/JmapRefs.v ===== *)
(** [crates/jmap-core/src/refs.rs]: result references (RFC 8620 sec. 3.7).

    [resolve_references] replaces every [#key] argument by a value taken from
    an earlier response of the same request. *)
From S2P Require Import Prelude Text Json JmapEnvelope.

Open Scope string_scope.

Record ResultReference := mk_reference {
  result_of : string;
  ref_name : string;
  path : string
}.

(** JSON pointer escapes, in the order the code applies them. *)
Definition unescape (token : string) : string :=
  replace_pair "~" "0" "~" (replace_pair "~" "1" "/" token).

(** One level of flattening: [Vec::extend] for an array, [push] otherwise. *)
Definition flatten_one (v : Value) : list Value :=
  match v with Array inner => inner | other => [other] end.

(** The loop of a [*] token: stops at the first element the rest of the path
    does not resolve in. *)
Fixpoint eval_each (eval : Value -> option Value) (items : list Value) : option (list Value) :=
  match items with
  | [] => Some []
  | item :: items' =>
      match eval item with
      | None => None
      | Some v => match eval_each eval items' with
                  | None => None
                  | Some rest => Some (flatten_one v ++ rest)%list
                  end
      end
  end.

Fixpoint eval_tokens (tokens : list string) (value : Value) : option Value :=
  match tokens with
  | [] => Some value
  | raw :: rest =>
      let token := unescape raw in
      match value with
      | Array items =>
          if String.eqb token "*"
          then option_map Array (eval_each (eval_tokens rest) items)
          else match parse_usize token with
               | None => None
               | Some index => match items !! index with
                               | Some item => eval_tokens rest item
                               | None => None
                               end
               end
      | Object fields =>
          if String.eqb token "*"
          then option_map Array (eval_each (eval_tokens rest) (map snd fields))
          else match map_get token fields with
               | Some item => eval_tokens rest item
               | None => None
               end
      | _ => None
      end
  end.

Definition path_tokens (p : string) : list string :=
  split_on "/" (match strip_prefix "/" p with Some p' => p' | None => p end).

Definition eval_path (value : Value) (p : string) : option Value :=
  eval_tokens (path_tokens p) value.

(** [resolve_references] needs [serde_json::from_value::<ResultReference>],
    code derived by serde: a parameter, with the error text it reports. *)
Section Resolve.
Variable reference_from_value : Value -> result string ResultReference.

Definition find_source (prior : list Invocation) (r : ResultReference) : option Invocation :=
  List.find (fun inv => String.eqb (inv_call_id inv) (result_of r)
                        && String.eqb (inv_name inv) (ref_name r)) prior.

(** One [#key] argument. *)
Definition resolve_one (prior : list Invocation) (value : Value)
  : result MethodError Value :=
  match reference_from_value value with
  | Err msg => Err (InvalidResultReference msg)
  | Ok r =>
      source <-? ok_or (find_source prior r)
                   (InvalidResultReference
                      ("no prior response " +:+ ref_name r +:+ " with callId " +:+ result_of r)) ;;
      ok_or (eval_path (inv_arguments source) (path r))
        (InvalidResultReference ("path " +:+ path r +:+ " not found"))
  end.

(** The first loop: the resolved value of every [#key]. *)
Fixpoint resolve_loop (whole : list (string * Value)) (prior : list Invocation)
    (entries : list (string * Value)) (resolved : list (string * Value))
  : result MethodError (list (string * Value)) :=
  match entries with
  | [] => Ok resolved
  | (key, value) :: entries' =>
      match strip_prefix "#" key with
      | None => resolve_loop whole prior entries' resolved
      | Some plain_key =>
          if map_contains_key plain_key whole
          then Err (InvalidArguments ("both " +:+ key +:+ " and " +:+ plain_key +:+ " present"))
          else extracted <-? resolve_one prior value ;;
               resolve_loop whole prior entries' (map_insert plain_key extracted resolved)
      end
  end.

(** The second loop rebuilds the arguments; [None] is the panic of the
    [expect("resolved above for every # key")]. *)
Fixpoint rebuild_loop (entries resolved out : list (string * Value))
  : option (list (string * Value)) :=
  match entries with
  | [] => Some out
  | (key, value) :: entries' =>
      match strip_prefix "#" key with
      | Some plain_key =>
          match map_remove plain_key resolved with
          | None => None
          | Some (v, resolved') => rebuild_loop entries' resolved' (map_insert plain_key v out)
          end
      | None => rebuild_loop entries' resolved (map_insert key value out)
      end
  end.

Definition resolve_references (arguments : Value) (prior : list Invocation)
  : option (result MethodError Value) :=
  match arguments with
  | Object m =>
      match resolve_loop m prior m [] with
      | Err e => Some (Err e)
      | Ok resolved => match rebuild_loop m resolved [] with
                       | None => None
                       | Some out => Some (Ok (Object out))
                       end
      end
  | _ => Some (Err (InvalidArguments "arguments must be an object"))
  end.

(** ** Correctness *)

(** The plain name an argument ends up under. *)
Definition plain_name (key : string) : string :=
  match strip_prefix "#" key with Some p => p | None => key end.

Lemma strip_hash_inj k k' p :
  strip_prefix "#" k = Some p -> strip_prefix "#" k' = Some p -> k = k'.
Proof. intros H%strip_prefix_app H'%strip_prefix_app. congruence. Qed.

(** What the first loop computes when it succeeds: for every [#key] entry its
    resolved value, and nothing new besides. *)
Lemma resolve_loop_ok whole prior entries resolved resolved' :
  NoDup (map_keys entries) ->
  resolve_loop whole prior entries resolved = Ok resolved' ->
  (forall key value p, (key, value) ∈ entries -> strip_prefix "#" key = Some p ->
     map_get p whole = None
     /\ exists v, resolve_one prior value = Ok v /\ map_get p resolved' = Some v)
  /\ (forall p, (forall key, key ∈ map_keys entries -> strip_prefix "#" key <> Some p) ->
        map_get p resolved' = map_get p resolved).
Proof.
  revert resolved. induction entries as [|[key value] entries IH]; intros resolved Hnd.
  { intros [= <-]. split; [|done]. by intros ? ? ? ?%elem_of_nil. }
  apply NoDup_cons in Hnd as [Hkey Hnd]. cbn [resolve_loop].
  destruct (strip_prefix "#" key) as [p|] eqn:Hp.
  - destruct (map_contains_key p whole) eqn:Hc; [done|].
    destruct (resolve_one prior value) as [v|e] eqn:Hv; [|done]. cbn [result_bind].
    intros Hloop. destruct (IH _ Hnd Hloop) as [IH1 IH2].
    assert (forall key', key' ∈ map_keys entries -> strip_prefix "#" key' <> Some p) as Hfresh.
    { intros key' Hin Hp'. apply Hkey. by rewrite (strip_hash_inj key key' p). }
    split.
    + intros key' value' p' [[= -> ->]|Hin]%elem_of_cons Hp'; [|by eapply IH1].
      assert (p' = p) as -> by congruence. split.
      * destruct (map_get p whole) eqn:E; [|done].
        unfold map_contains_key in Hc. by rewrite E in Hc.
      * exists v. split; [done|]. rewrite IH2 by done. apply map_get_insert_eq.
    + intros p' Hne. rewrite IH2; [|intros; apply Hne; by right].
      apply map_get_insert_ne. intros ->. by apply (Hne key); [left|].
  - intros Hloop. destruct (IH _ Hnd Hloop) as [IH1 IH2]. split.
    + intros key' value' p' [[= -> ->]|Hin]%elem_of_cons Hp'; [congruence|by eapply IH1].
    + intros p' Hne. apply IH2. intros key' Hin. apply Hne. by right.
Qed.

(** The second loop always finds the value it removes, and the output holds
    each entry under its plain name. *)
Lemma rebuild_loop_ok entries resolved out :
  NoDup (map_keys entries) ->
  (forall key p, key ∈ map_keys entries -> strip_prefix "#" key = Some p ->
     is_Some (map_get p resolved) /\ p ∉ map_keys entries) ->
  exists out', rebuild_loop entries resolved out = Some out'
    /\ (forall key value, (key, value) ∈ entries ->
          map_get (plain_name key) out' =
          match strip_prefix "#" key with Some p => map_get p resolved | None => Some value end)
    /\ (forall k, (forall key, key ∈ map_keys entries -> plain_name key <> k) ->
          map_get k out' = map_get k out).
Proof.
  revert resolved out. induction entries as [|[key value] entries IH]; intros resolved out Hnd Hres.
  { exists out. split; [done|]. split; [by intros ? ? ?%elem_of_nil|done]. }
  apply NoDup_cons in Hnd as [Hkey Hnd]. cbn [rebuild_loop].
  assert (forall key', key' ∈ map_keys entries -> plain_name key' <> plain_name key) as Hfresh.
  { intros key' Hin Heq. unfold plain_name in Heq.
    destruct (strip_prefix "#" key') as [p'|] eqn:Hp', (strip_prefix "#" key) as [p|] eqn:Hp;
      simplify_eq.
    - by rewrite (strip_hash_inj key key' p) in Hkey.
    - destruct (Hres key' key) as [_ []]; [by right|done|by left].
    - destruct (Hres key p) as [_ []]; [by left|done|by right].
    - done. }
  destruct (strip_prefix "#" key) as [p|] eqn:Hp.
  - destruct (Hres key p ltac:(by left) Hp) as [[v Hv] Hnotin].
    destruct (map_remove_get _ _ _ Hv) as [resolved' Hrem]. rewrite Hrem.
    assert (forall key' p', key' ∈ map_keys entries -> strip_prefix "#" key' = Some p' -> p' <> p)
      as Hother.
    { intros key' p' Hin Hp' ->. by rewrite (strip_hash_inj key key' p) in Hkey. }
    destruct (IH resolved' (map_insert p v out) Hnd) as (out' & -> & H1 & H2).
    { intros key' p' Hin Hp'. destruct (Hres key' p') as [Hs Hn]; [by right|done|].
      split; [|by intros ?; apply Hn; right].
      rewrite (map_remove_other p p' _ _ _ Hrem); [done|]. intros Heq. by eapply Hother. }
    exists out'. split; [done|]. split.
    + intros key' value' [[= -> ->]|Hin]%elem_of_cons.
      * rewrite Hp. unfold plain_name in *. rewrite Hp in *.
        rewrite H2 by done. by rewrite map_get_insert_eq, Hv.
      * rewrite (H1 _ _ Hin). destruct (strip_prefix "#" key') as [p'|] eqn:Hp'; [|done].
        apply (map_remove_other p p' _ _ _ Hrem). intros Heq.
        eapply (Hother key' p'); [by eapply elem_map_keys|done..].
    + intros k Hk. rewrite H2; [|intros; apply Hk; by right].
      apply map_get_insert_ne. intros ->. apply (Hk key); [by left|].
      unfold plain_name. by rewrite Hp.
  - destruct (IH resolved (map_insert key value out) Hnd) as (out' & -> & H1 & H2).
    { intros key' p' Hin Hp'. destruct (Hres key' p') as [Hs Hn]; [by right|done|].
      split; [done|]. intros ?. apply Hn. by right. }
    exists out'. split; [done|]. split.
    + intros key' value' [[= -> ->]|Hin]%elem_of_cons; [|by apply H1].
      rewrite Hp. unfold plain_name in *. rewrite Hp in *. rewrite H2 by done.
      apply map_get_insert_eq.
    + intros k Hk. rewrite H2; [|intros; apply Hk; by right].
      apply map_get_insert_ne. intros <-. apply (Hk key); [by left|].
      unfold plain_name. by rewrite Hp.
Qed.

End Resolve.

(** Both loops on one argument object. *)
Lemma loops_spec from_value prior m resolved :
  wf_map m -> resolve_loop from_value m prior m [] = Ok resolved ->
  exists out, rebuild_loop m resolved [] = Some out
    /\ (forall key value, (key, value) ∈ m ->
         match strip_prefix "#" key with
         | Some p => exists v, resolve_one from_value prior value = Ok v /\ map_get p out = Some v
         | None => map_get key out = Some value
         end)
    /\ (forall k, k ∈ map_keys out -> exists key, key ∈ map_keys m /\ plain_name key = k).
Proof.
  intros Hwf Hloop. pose proof (wf_map_NoDup _ Hwf) as Hnd.
  destruct (resolve_loop_ok _ _ _ _ _ _ Hnd Hloop) as [Hres _].
  destruct (rebuild_loop_ok m resolved [] Hnd) as (out & Hout & H1 & H2).
  { intros key p Hin Hp. apply elem_map_keys_inv in Hin as [value Hin].
    destruct (Hres _ _ _ Hin Hp) as (Hnone & v & _ & Hv). split; [eauto|].
    rewrite <- map_get_keys, Hnone. by intros []. }
  exists out. split; [done|]. split.
  - intros key value Hin. specialize (H1 _ _ Hin). unfold plain_name in H1.
    destruct (strip_prefix "#" key) as [p|] eqn:Hp; [|done].
    destruct (Hres _ _ _ Hin Hp) as (_ & v & Hv & Hget). exists v. by rewrite H1.
  - intros k Hk. destruct (decide (Exists (fun key => plain_name key = k) (map_keys m))) as [He|Hn].
    + apply Exists_exists in He. naive_solver.
    + rewrite <- map_get_keys, H2 in Hk; [by destruct Hk|].
      intros key Hin Heq. apply Hn. apply Exists_exists. eauto.
Qed.

Lemma resolve_references_total from_value (m : list (string * Value)) prior :
  wf_map m -> resolve_references from_value (Object m) prior <> None.
Proof.
  intros Hwf. unfold resolve_references.
  destruct (resolve_loop from_value m prior m []) as [resolved|e] eqn:Hloop; [|done].
  destruct (loops_spec _ _ _ _ Hwf Hloop) as (out & -> & _). done.
Qed.

(** Resolving the references of an argument object never reaches the
    [expect] in its second loop, whatever the prior responses hold. *)
Lemma resolve_references_no_panic from_value (m : list (string * Value)) prior :
  wf_map m -> resolve_references from_value (Object m) prior <> None.
Proof. apply resolve_references_total. Qed.

(** C39: On success the handler sees every plain argument unchanged, every
    [#key] under its plain name with the value its reference resolves to, and
    no other argument. *)
Theorem resolve_references_spec from_value (m : list (string * Value)) prior v :
  wf_map m ->
  resolve_references from_value (Object m) prior = Some (Ok v) ->
  exists out, v = Object out
    /\ (forall key value, (key, value) ∈ m ->
         match strip_prefix "#" key with
         | Some p => exists x, resolve_one from_value prior value = Ok x /\ map_get p out = Some x
         | None => map_get key out = Some value
         end)
    /\ (forall k, k ∈ map_keys out -> exists key, key ∈ map_keys m /\ plain_name key = k).
Proof.
  intros Hwf. unfold resolve_references.
  destruct (resolve_loop from_value m prior m []) as [resolved|e] eqn:Hloop; [|done].
  destruct (loops_spec _ _ _ _ Hwf Hloop) as (out & -> & H1 & H2). intros [= <-]. eauto.
Qed.

(** *** Paths *)

Lemma eval_each_Forall2 f items l :
  eval_each f items = Some l <->
  exists vs, Forall2 (fun item v => f item = Some v) items vs /\ l = concat (map flatten_one vs).
Proof.
  revert l. induction items as [|item items IH]; intros l; simpl.
  - split; [intros [= <-]; by exists []|]. intros (vs & H%Forall2_nil_inv_l & ->). by subst.
  - destruct (f item) as [v|] eqn:Hv.
    + destruct (eval_each f items) as [rest|] eqn:Hr.
      * destruct (proj1 (IH rest) eq_refl) as (vs & Hvs & ->). split.
        -- intros [= <-]. exists (v :: vs). by split; [constructor|].
        -- intros (vs' & H & ->). apply Forall2_cons_inv_l in H as (v' & vs'' & Hv' & H' & ->).
           simplify_eq. assert (vs'' = vs) as ->; [|done].
           clear -Hvs H'. revert vs'' H'. induction Hvs; intros vs'' H'.
           ++ by apply Forall2_nil_inv_l in H'.
           ++ apply Forall2_cons_inv_l in H' as (? & ? & ? & ? & ->). f_equal; [congruence|auto].
      * split; [done|]. intros (vs & H & ->).
        apply Forall2_cons_inv_l in H as (v' & vs' & _ & H' & ->).
        assert (Some (concat (map flatten_one vs')) = None) by (symmetry; apply IH; eauto). done.
    + split; [done|]. intros (vs & H & _).
      apply Forall2_cons_inv_l in H as (v' & vs' & ? & _). congruence.
Qed.

(** A wildcard over an array (RFC 8620 sec. 3.7): the rest of the path must
    resolve in every item, and the results are joined with exactly one level
    of arrays flattened, in order. *)
Lemma wildcard_flattens_one_level (rest : list string) (items l : list Value) :
  eval_tokens ("*" :: rest) (Array items) = Some (Array l) <->
  exists vs, Forall2 (fun item v => eval_tokens rest item = Some v) items vs
             /\ l = concat (map flatten_one vs).
Proof.
  cbn [eval_tokens]. change (String.eqb (unescape "*") "*") with true. cbv iota.
  rewrite <- eval_each_Forall2. destruct (eval_each _ _); simpl; naive_solver.
Qed.

(** Away from wildcards a path is walked compositionally: resolving a
    concatenation is resolving the tail in what the head resolves to. *)
Lemma eval_tokens_app (ts1 ts2 : list string) (v : Value) :
  Forall (fun t => unescape t <> "*") ts1 ->
  eval_tokens (ts1 ++ ts2) v = eval_tokens ts1 v ≫= eval_tokens ts2.
Proof.
  intros Hts. revert v. induction Hts as [|t ts1 Ht _ IH]; intros v; [done|].
  apply String.eqb_neq in Ht. cbn [app eval_tokens]. rewrite Ht.
  destruct v as [| | | |items|fields]; try done.
  - destruct (parse_usize _) as [i|]; [|done]. by destruct (items !! i).
  - by destruct (map_get _ fields).
Qed.

(** The examples of the module documentation. *)
Definition doc_prior : Value :=
  json_object [("accountId", Str "a1");
               ("ids", Array [Str "id1"; Str "id2"; Str "id3"]);
               ("list", Array [json_object [("id", Str "t1"); ("emailIds", Array [Str "e1"; Str "e2"])];
                               json_object [("id", Str "t2"); ("emailIds", Array [Str "e3"])]])].

Example doc_wildcard :
  eval_path doc_prior "/list/*/emailIds" = Some (Array [Str "e1"; Str "e2"; Str "e3"]).
Proof. reflexivity. Qed.

Example escapes :
  eval_path (json_object [("a/b", Number 1); ("c~d", Number 2)]) "/a~1b" = Some (Number 1)
  /\ eval_path (json_object [("a/b", Number 1); ("c~d", Number 2)]) "/c~0d" = Some (Number 2).
Proof. split; reflexivity. Qed.

(** *** Witnesses: a derived deserializer, read off serde's documentation of
    [deny_unknown_fields] on a three-field struct. *)
Definition sample_from_value (v : Value) : result string ResultReference :=
  match v with
  | Object [("name", Str n); ("path", Str p); ("resultOf", Str r)] => Ok (mk_reference r n p)
  | _ => Err "invalid type"
  end.

Definition sample_args : list (string * Value) :=
  map_of_list [("accountId", Str "a1");
               ("#ids", json_object [("resultOf", Str "c0"); ("name", Str "Foo/query");
                                     ("path", Str "/list/*/emailIds")])].

Definition sample_prior : list Invocation := [mk_invocation "Foo/query" doc_prior "c0"].

Lemma resolve_references_no_panic_witness :
  wf_map sample_args
  /\ resolve_references sample_from_value (Object sample_args) sample_prior <> None.
Proof.
  assert (wf_map sample_args) as H by apply wf_map_of_list.
  split; [exact H|]. apply (resolve_references_no_panic sample_from_value sample_args sample_prior H).
Defined.

Lemma resolve_references_spec_witness :
  exists out,
    resolve_references sample_from_value (Object sample_args) sample_prior = Some (Ok (Object out))
    /\ map_get "ids" out = Some (Array [Str "e1"; Str "e2"; Str "e3"])
    /\ forall k, k ∈ map_keys out -> exists key, key ∈ map_keys sample_args /\ plain_name key = k.
Proof.
  exists [("accountId", Str "a1"); ("ids", Array [Str "e1"; Str "e2"; Str "e3"])].
  split; [reflexivity|]. split; [reflexivity|].
  destruct (resolve_references_spec sample_from_value sample_args sample_prior
              (Object [("accountId", Str "a1"); ("ids", Array [Str "e1"; Str "e2"; Str "e3"])])
              (wf_map_of_list _) eq_refl) as (out & [= <-] & _ & H).
  exact H.
Defined.

Lemma eval_tokens_app_witness :
  eval_tokens (["list"; "0"] ++ ["emailIds"; "1"]) doc_prior = Some (Str "e2")
  /\ eval_tokens (["list"; "0"] ++ ["emailIds"; "1"]) doc_prior
     = eval_tokens ["list"; "0"] doc_prior ≫= eval_tokens ["emailIds"; "1"].
Proof.
  split; [reflexivity|]. apply (eval_tokens_app ["list"; "0"] ["emailIds"; "1"]).
  repeat constructor; discriminate.
Defined.
