(* ===== verification/JmapDispatch.v ===== *)
(** [crates/jmap-core/src/lib.rs] and [session.rs]: the method registry, request
    processing and the session object.

    A handler is code of the embedder: a function of its arguments and of the
    state [St] behind [Arc<Ctx>], whose execution takes some time (or never
    ends), ends in a value, a method error or a panic, and leaves a state
    behind, also when it is dropped at a deadline. *)
From S2P Require Import Prelude Text Json JmapEnvelope JmapRefs.

Open Scope string_scope.

Definition CORE_CAPABILITY : string := "urn:ietf:params:jmap:core".

Record Limits := mk_limits {
  max_size_upload : Z;
  max_concurrent_upload : Z;
  max_size_request : Z;
  max_concurrent_requests : Z;
  max_calls_in_request : nat;
  max_objects_in_get : nat;
  max_objects_in_set : nat;
  max_call_duration : option Z
}.

Definition default_limits : Limits :=
  mk_limits 50000000 4 10000000 4 16 500 500 None.

Definition core_capability (l : Limits) : Value :=
  json_object
    [("maxSizeUpload", Number (max_size_upload l));
     ("maxConcurrentUpload", Number (max_concurrent_upload l));
     ("maxSizeRequest", Number (max_size_request l));
     ("maxConcurrentRequests", Number (max_concurrent_requests l));
     ("maxCallsInRequest", Number (Z.of_nat (max_calls_in_request l)));
     ("maxObjectsInGet", Number (Z.of_nat (max_objects_in_get l)));
     ("maxObjectsInSet", Number (Z.of_nat (max_objects_in_set l)));
     ("collationAlgorithms",
       Array [Str "i;ascii-numeric"; Str "i;ascii-casemap"; Str "i;unicode-casemap"])].

(** A panic payload: the two shapes the dispatcher downcasts to, or another. *)
Inductive payload := StaticStr (s : string) | OwnedString (s : string) | Opaque.

Inductive completion :=
  | Returned (r : result MethodError Value)
  | Panicked (p : payload).

(** One run of a handler: how long it takes ([None]: it never completes), how
    it ends, and the state it leaves at its end ([None]) or when dropped at a
    given time. *)
Record execution (St : Type) := mk_execution {
  takes : option Z;
  ending : completion;
  left_at : option Z -> St
}.
Arguments mk_execution {St} _ _ _.
Arguments takes {St} _.
Arguments ending {St} _.
Arguments left_at {St} _ _.

Definition Handler (St : Type) : Type := Value -> St -> execution St.

Record Dispatcher (St : Type) := mk_dispatcher {
  limits : Limits;
  capabilities : list (string * Value);
  methods : gmap string (string * Handler St);
  disp_session_state : string
}.
Arguments mk_dispatcher {St} _ _ _ _.
Arguments limits {St} _.
Arguments capabilities {St} _.
Arguments methods {St} _.
Arguments disp_session_state {St} _.

Section Dispatcher.
Context {St : Type}.
Implicit Types (d : Dispatcher St) (s : St).

(** [Dispatcher::register]; [entry(cap).or_insert(empty object)]. *)
Definition register (method capability : string) (handler : Handler St) d : Dispatcher St :=
  let caps :=
    if negb (String.eqb capability CORE_CAPABILITY)
       && negb (map_contains_key capability (capabilities d))
    then map_insert capability (Object []) (capabilities d)
    else capabilities d in
  mk_dispatcher (limits d) caps (<[method := (capability, handler)]> (methods d))
    (disp_session_state d).

Definition add_capability (urn : string) (object : Value) d : Dispatcher St :=
  mk_dispatcher (limits d) (map_insert urn object (capabilities d)) (methods d)
    (disp_session_state d).

Definition with_limits (l : Limits) d : Dispatcher St :=
  mk_dispatcher l (map_insert CORE_CAPABILITY (core_capability l) (capabilities d))
    (methods d) (disp_session_state d).

Definition set_session_state (state : string) d : Dispatcher St :=
  mk_dispatcher (limits d) (capabilities d) (methods d) state.

Definition echo : Handler St :=
  fun args s => mk_execution (Some 0%Z) (Returned (Ok args)) (fun _ => s).

Definition new_dispatcher (state : string) : Dispatcher St :=
  register "Core/echo" CORE_CAPABILITY echo
    (mk_dispatcher default_limits
       (map_insert CORE_CAPABILITY (core_capability default_limits) []) ∅ state).

Definition panic_message (p : payload) : string :=
  match p with
  | StaticStr msg => msg
  | OwnedString msg => msg
  | Opaque => "handler panicked"
  end.

(** Awaiting the handler under [catch_unwind] and, if configured, [timeout].
    [None]: it never completes and nothing cuts it off. *)
Definition run_handler (limit : option Z) (e : execution St)
  : option (result MethodError Value * St) :=
  let finish := match ending e with
                | Returned r => r
                | Panicked p => Err (ServerFail (panic_message p))
                end in
  match limit, takes e with
  | Some l, Some t => if (t <=? l)%Z then Some (finish, left_at e None)
                      else Some (Err (ServerFail "timeout"), left_at e (Some l))
  | Some l, None => Some (Err (ServerFail "timeout"), left_at e (Some l))
  | None, Some _ => Some (finish, left_at e None)
  | None, None => None
  end.

Section Process.
Variable reference_from_value : Value -> result string ResultReference.

(** [Dispatcher::call].  [None]: no answer (see [run_handler]). *)
Definition call d (name : string) (arguments : Value) (prior : list Invocation)
    (using_ : list string) s : option (result MethodError Value * St) :=
  match (methods d !! name : option (string * Handler St)) with
  | None => Some (Err UnknownMethod, s)
  | Some (capability, handler) =>
      if negb (String.eqb capability CORE_CAPABILITY)
         && negb (existsb (fun u => String.eqb u capability) using_)
      then Some (Err UnknownMethod, s)
      else match resolve_references reference_from_value arguments prior with
           | None => None
           | Some (Err e) => Some (Err e, s)
           | Some (Ok resolved) => run_handler (max_call_duration (limits d)) (handler resolved s)
           end
  end.

(** The response pushed for one outcome. *)
Definition respond (inv : Invocation) (outcome : result MethodError Value) : Invocation :=
  match outcome with
  | Ok v => mk_invocation (inv_name inv) v (inv_call_id inv)
  | Err e => error_invocation e (inv_call_id inv)
  end.

Fixpoint run_calls d (using_ : list string) (calls responses : list Invocation) s
  : option (list Invocation * St) :=
  match calls with
  | [] => Some (responses, s)
  | inv :: calls' =>
      match call d (inv_name inv) (inv_arguments inv) responses using_ s with
      | None => None
      | Some (outcome, s') =>
          run_calls d using_ calls' (responses ++ [respond inv outcome])%list s'
      end
  end.

(** The loop over [using]: [HashSet::insert] refuses a second occurrence. *)
Fixpoint check_using d (seen using_ : list string) : result RequestError unit :=
  match using_ with
  | [] => Ok tt
  | c :: rest =>
      if bool_decide (c ∈ seen) then Err NotRequest
      else if negb (map_contains_key c (capabilities d)) then Err (UnknownCapability c)
      else check_using d (c :: seen) rest
  end.

Definition check_request d (request : Request) : result RequestError unit :=
  match req_using request with
  | [] => Err NotRequest
  | _ =>
      _unit <-? check_using d [] (req_using request) ;;
      if (max_calls_in_request (limits d) <? length (method_calls request))%nat
      then Err (Limit "maxCallsInRequest")
      else Ok tt
  end.

(** [Dispatcher::process]. *)
Definition process d (request : Request) s : option (result RequestError Response * St) :=
  match check_request d request with
  | Err e => Some (Err e, s)
  | Ok _ =>
      match run_calls d (req_using request) (method_calls request) [] s with
      | None => None
      | Some (responses, s') =>
          Some (Ok (mk_response responses (req_created_ids request) (disp_session_state d)), s')
      end
  end.

(** ** Lemmas *)

Lemma respond_call_id inv outcome : inv_call_id (respond inv outcome) = inv_call_id inv.
Proof. by destruct outcome. Qed.

Lemma run_calls_responses d using_ calls responses s responses' s' :
  run_calls d using_ calls responses s = Some (responses', s') ->
  exists outcomes, length outcomes = length calls
    /\ responses' = (responses ++ zip_with respond calls outcomes)%list.
Proof.
  revert responses s. induction calls as [|inv calls IH]; intros responses s; simpl.
  - intros [= <- <-]. exists []. by rewrite app_nil_r.
  - destruct (call _ _ _ _ _ _) as [[outcome s1]|]; [|done].
    intros H%IH. destruct H as (outcomes & Hlen & ->).
    exists (outcome :: outcomes). simpl. split; [by f_equal|]. by rewrite <- app_assoc.
Qed.

Lemma run_calls_app d using_ l1 l2 responses s :
  run_calls d using_ (l1 ++ l2) responses s =
  match run_calls d using_ l1 responses s with
  | Some (responses', s') => run_calls d using_ l2 responses' s'
  | None => None
  end.
Proof.
  revert responses s. induction l1 as [|inv l1 IH]; intros responses s; simpl; [done|].
  destruct (call _ _ _ _ _ _) as [[outcome s1]|]; [|done]. apply IH.
Qed.

Definition wf_arguments (v : Value) : Prop :=
  match v with Object m => wf_map m | _ => True end.

(** Past the gate and the references, a call is its handler's run. *)
Lemma call_runs_handler d (name : string) arguments prior using_ s capability
    (handler : Handler St) args :
  methods d !! name = Some (capability, handler) ->
  (capability = CORE_CAPABILITY \/ capability ∈ using_) ->
  resolve_references reference_from_value arguments prior = Some (Ok args) ->
  call d name arguments prior using_ s =
  run_handler (max_call_duration (limits d)) (handler args s).
Proof.
  intros Hm Hcap Hres. unfold call. rewrite Hm, Hres.
  replace (negb _ && negb _) with false; [done|]. symmetry.
  destruct Hcap as [->|Hin]; [by rewrite String.eqb_refl|].
  apply andb_false_intro2, negb_false_iff, existsb_exists. exists capability.
  rewrite String.eqb_refl. split; [by apply list_elem_of_In|done].
Qed.

(** With a call deadline every call is answered. *)
Lemma call_answers d name arguments prior using_ s :
  wf_arguments arguments -> is_Some (max_call_duration (limits d)) ->
  is_Some (call d name arguments prior using_ s).
Proof.
  intros Hwf [l Hl]. unfold call. destruct (methods d !! name) as [[cap h]|]; [|eauto].
  destruct (_ && _); [eauto|].
  destruct (resolve_references _ _ _) as [[r|e]|] eqn:Hr; [|eauto|].
  - unfold run_handler. rewrite Hl.
    destruct (takes _) as [t|]; [|eauto]. destruct (t <=? l)%Z; eauto.
  - destruct arguments; try done. by apply resolve_references_total in Hr.
Qed.

Lemma check_using_ok d seen using_ :
  check_using d seen using_ = Ok tt <->
  NoDup using_ /\ (forall c, c ∈ using_ -> c ∉ seen /\ is_Some (map_get c (capabilities d))).
Proof.
  revert seen. induction using_ as [|c rest IH]; intros seen; simpl.
  - split; [|done]. intros _. split; [constructor|]. by intros c ?%elem_of_nil.
  - rewrite NoDup_cons. case_bool_decide as Hseen.
    { split; [done|]. intros [_ H]. destruct (H c); [by left|done]. }
    destruct (map_contains_key c (capabilities d)) eqn:Hc; simpl.
    + apply map_contains_key_iff in Hc. rewrite IH. setoid_rewrite elem_of_cons. naive_solver.
    + split; [done|]. intros [_ H]. destruct (H c) as [_ Hs]; [by left|].
      apply map_contains_key_iff in Hs. congruence.
Qed.

(** *** Request validation *)

(** A request is refused as a whole exactly when its [using] list is empty,
    repeats a capability or names one that is not declared, or when it holds
    more calls than the server allows; a refusal runs no handler. *)
Lemma process_accepts_iff d (request : Request) s :
  (exists e, process d request s = Some (Err e, s)) <->
  ~ (req_using request <> [] /\ NoDup (req_using request)
     /\ (forall c, c ∈ req_using request -> is_Some (map_get c (capabilities d)))
     /\ (length (method_calls request) <= max_calls_in_request (limits d))%nat).
Proof.
  unfold process. destruct (check_request d request) as [[]|e] eqn:Hc.
  - split.
    + intros [e He]. by destruct (run_calls _ _ _ _ _) as [[? ?]|].
    + intros Hn. exfalso. apply Hn. unfold check_request in Hc.
      destruct (req_using request) as [|c rest] eqn:Hu; [done|].
      destruct (check_using d [] (c :: rest)) as [[]|] eqn:Hcu; [|done]. unfold result_bind in Hc.
      apply check_using_ok in Hcu as [Hnd Hin].
      destruct (_ <? _)%nat eqn:Hlt; [done|]. apply Nat.ltb_ge in Hlt.
      split; [done|]. split; [done|]. split; [|lia]. intros c' Hc'. by apply Hin.
  - split; [|eauto]. intros _ (Hne & Hnd & Hin & Hlen). unfold check_request in Hc.
    assert (check_using d [] (req_using request) = Ok tt) as Hcu.
    { apply check_using_ok. split; [done|]. intros c Hci. split; [apply not_elem_of_nil|by apply Hin]. }
    destruct (req_using request) as [|c rest]; [done|]. rewrite Hcu in Hc. unfold result_bind in Hc.
    destruct (_ <? _)%nat eqn:Hlt; [|done]. apply Nat.ltb_lt in Hlt. lia.
Qed.

(** An accepted request gets exactly one response per method call, in the
    order of the calls and under their call ids; each carries the method's
    name or ["error"], and [createdIds] is echoed. *)
Lemma process_one_response_per_call d (request : Request) s resp s' :
  process d request s = Some (Ok resp, s') ->
  map inv_call_id (method_responses resp) = map inv_call_id (method_calls request)
  /\ Forall2 (fun inv r => inv_name r = inv_name inv \/ inv_name r = "error")
       (method_calls request) (method_responses resp)
  /\ resp_created_ids resp = req_created_ids request
  /\ session_state resp = disp_session_state d.
Proof.
  unfold process. destruct (check_request d request) as [[]|e]; [|done].
  destruct (run_calls _ _ _ _ _) as [[responses s1]|] eqn:Hrun; [|done].
  intros [= <- <-]. simpl. apply run_calls_responses in Hrun as (outcomes & Hlen & ->). simpl.
  split; [|split; [|done]].
  - revert outcomes Hlen. induction (method_calls request) as [|inv l IH]; intros [|o os];
      simpl; try done. intros [= Hlen]. by rewrite respond_call_id, IH.
  - revert outcomes Hlen. induction (method_calls request) as [|inv l IH]; intros [|o os];
      simpl; try done. intros [= Hlen]. constructor; [|auto]. destruct o; [by left|by right].
Qed.

(** With [max_call_duration] set, every request is answered: no handler,
    however slow or broken, can keep [process] from returning. *)
Lemma process_answers d (request : Request) s :
  is_Some (max_call_duration (limits d)) ->
  Forall (fun inv => wf_arguments (inv_arguments inv)) (method_calls request) ->
  is_Some (process d request s).
Proof.
  intros Hl Hwf. unfold process. destruct (check_request d request) as [_|e]; [|eauto].
  enough (is_Some (run_calls d (req_using request) (method_calls request) [] s)) as [[? ?] ->];
    [eauto|].
  generalize (@nil Invocation) as responses. revert s.
  induction Hwf as [|inv l Hinv _ IH]; intros s responses; simpl; [eauto|].
  destruct (call_answers d (inv_name inv) (inv_arguments inv) responses (req_using request) s)
    as [[outcome s1] ->]; [done..|]. apply IH.
Qed.

(** A call whose method belongs to a capability the request did not list
    (other than core) reaches no handler: the state is untouched and the
    answer is [unknownMethod]. *)
Lemma call_requires_capability d (name : string) arguments prior using_ s capability handler :
  methods d !! name = Some (capability, handler) ->
  capability <> CORE_CAPABILITY -> capability ∉ using_ ->
  call d name arguments prior using_ s = Some (Err UnknownMethod, s).
Proof.
  intros Hm Hcore Hu. unfold call. rewrite Hm.
  apply String.eqb_neq in Hcore as ->.
  destruct (existsb (fun u => String.eqb u capability) using_) eqn:He; [|done].
  apply existsb_exists in He as (u & Hin & ->%String.eqb_eq).
  by apply list_elem_of_In in Hin.
Qed.

(** A handler that panics costs its own call only: the client sees
    [serverFail] there and the calls after it still run, on the state the
    handler left. *)
Lemma panic_is_isolated d using_ inv rest responses s capability (handler : Handler St) args t p :
  methods d !! inv_name inv = Some (capability, handler) ->
  (capability = CORE_CAPABILITY \/ capability ∈ using_) ->
  resolve_references reference_from_value (inv_arguments inv) responses = Some (Ok args) ->
  max_call_duration (limits d) = None ->
  takes (handler args s) = Some t -> ending (handler args s) = Panicked p ->
  run_calls d using_ (inv :: rest) responses s =
  run_calls d using_ rest
    (responses ++ [error_invocation (ServerFail (panic_message p)) (inv_call_id inv)])%list
    (left_at (handler args s) None).
Proof.
  intros Hm Hcap Hres Hlim Ht Hp. cbn [run_calls].
  rewrite (call_runs_handler _ _ _ _ _ _ _ _ _ Hm Hcap Hres).
  unfold run_handler. by rewrite Hlim, Ht, Hp.
Qed.
End Process.

(** ** The registry *)

(** Every registered method belongs to a declared capability, so a client that
    lists what the session advertises can reach every method. *)
Definition registry_ok d : Prop :=
  is_Some (map_get CORE_CAPABILITY (capabilities d))
  /\ map_Forall (fun _ m => is_Some (map_get (fst m) (capabilities d))) (methods d).

Lemma insert_keeps_declared k v c caps :
  is_Some (map_get c caps) -> is_Some (@map_get Value c (map_insert k v caps)).
Proof. intros H. rewrite map_get_insert. destruct (String.eqb k c); [eauto|done]. Qed.

Lemma register_ok method capability handler d :
  registry_ok d -> registry_ok (register method capability handler d).
Proof.
  intros [Hcore Hm]. unfold registry_ok, register. simpl.
  set (caps := if _ && _ then _ else _).
  assert (forall c, is_Some (map_get c (capabilities d)) -> is_Some (map_get c caps)) as Hmono.
  { intros c Hc. subst caps. destruct (_ && _); [by apply insert_keeps_declared|done]. }
  assert (is_Some (map_get capability caps)) as Hcap.
  { subst caps. destruct (String.eqb_spec capability CORE_CAPABILITY) as [->|Hne]; [done|]. simpl.
    destruct (map_contains_key capability (capabilities d)) eqn:E; simpl.
    - by apply map_contains_key_iff.
    - rewrite map_get_insert_eq. eauto. }
  split; [by apply Hmono|]. apply map_Forall_insert_2; [done|].
  eapply map_Forall_impl; [exact Hm|]. intros ? m Hmm. by apply Hmono.
Qed.

Lemma add_capability_ok urn object d : registry_ok d -> registry_ok (add_capability urn object d).
Proof.
  intros [Hcore Hm]. split; [by apply insert_keeps_declared|].
  eapply map_Forall_impl; [exact Hm|]. intros ? m Hmm. by apply insert_keeps_declared.
Qed.

Lemma with_limits_ok l d : registry_ok d -> registry_ok (with_limits l d).
Proof.
  intros [Hcore Hm]. split; [by apply insert_keeps_declared|].
  eapply map_Forall_impl; [exact Hm|]. intros ? m Hmm. by apply insert_keeps_declared.
Qed.

Lemma new_dispatcher_ok state : registry_ok (new_dispatcher state).
Proof.
  apply register_ok. split; [simpl; eauto|]. intros ? ? ?. simplify_map_eq.
Qed.

(** Anything an embedder builds with the public constructors. *)
Inductive built : Dispatcher St -> Prop :=
  | built_new state : built (new_dispatcher state)
  | built_register method capability handler d :
      built d -> built (register method capability handler d)
  | built_capability urn object d : built d -> built (add_capability urn object d)
  | built_limits l d : built d -> built (with_limits l d)
  | built_state state d : built d -> built (set_session_state state d).

(** In every dispatcher the public operations can build, each method's
    capability is advertised, and the core capability object always states the
    limits in force. *)
Lemma built_registry_ok d : built d -> registry_ok d.
Proof.
  induction 1; eauto using new_dispatcher_ok, register_ok, add_capability_ok, with_limits_ok.
Qed.
End Dispatcher.

(** ** The session object ([session.rs]) *)

Record SessionAccount := mk_session_account {
  acct_name : string;
  is_personal : bool;
  is_read_only : bool;
  account_capabilities : list (string * Value)
}.

Record Session := mk_session {
  sess_capabilities : list (string * Value);
  accounts : list (string * SessionAccount);
  primary_accounts : list (string * string);
  username : string;
  api_url : string;
  download_url : string;
  upload_url : string;
  event_source_url : string;
  state : string
}.

(** [Session::for_account]. *)
Definition for_account (base_url user account_id : string)
    (caps : list (string * Value)) (st : string) : Session :=
  let base := trim_end_matches (fun c => Ascii.eqb c "/") base_url in
  let account_caps :=
    map_of_list (map (fun urn => (urn, Object []))
                   (filter (fun urn => urn <> CORE_CAPABILITY) (map_keys caps))) in
  let primary := map_of_list (map (fun urn => (urn, account_id)) (map_keys account_caps)) in
  mk_session caps
    (map_insert account_id (mk_session_account user true false account_caps) [])
    primary user
    (base +:+ "/jmap/api")
    (base +:+ "/jmap/download/{accountId}/{blobId}/{name}?type={type}")
    (base +:+ "/jmap/upload/{accountId}")
    (base +:+ "/jmap/eventsource?types={types}&closeafter={closeafter}&ping={ping}")
    st.

Lemma map_of_list_const_keys {V} (v : V) l k :
  map_get k (map_of_list (map (fun u => (u, v)) l)) = if decide (k ∈ l) then Some v else None.
Proof.
  unfold map_of_list.
  assert (forall m : list (string * V),
    map_get k (fold_left (fun m kv => map_insert (fst kv) (snd kv) m) (map (fun u => (u, v)) l) m)
    = if decide (k ∈ l) then Some v else map_get k m) as H; [|apply (H [])].
  induction l as [|u l IH]; intros m; simpl.
  - by destruct (decide (k ∈ [])) as [?%elem_of_nil|].
  - rewrite IH, map_get_insert. destruct (decide (k ∈ u :: l)) as [Hd|Hd];
      rewrite elem_of_cons in Hd; destruct (String.eqb_spec u k), (decide (k ∈ l)); naive_solver.
Qed.

(** A single-account session makes the account primary for exactly the
    advertised capabilities other than core, and lists it for no other. *)
Lemma for_account_primary base user account_id caps st urn :
  map_get urn (primary_accounts (for_account base user account_id caps st)) =
  (if decide (urn ∈ map_keys caps /\ urn <> CORE_CAPABILITY) then Some account_id else None)
  /\ map_keys (accounts (for_account base user account_id caps st)) = [account_id].
Proof.
  split; [|done]. unfold for_account. simpl. rewrite map_of_list_const_keys.
  assert (forall l, urn ∈ map_keys (map_of_list (map (fun u => (u, Object [])) l)) <-> urn ∈ l) as Hk.
  { intros l. rewrite <- map_get_keys, map_of_list_const_keys.
    destruct (decide (urn ∈ l)); split; intros Hx; [done|eauto|by destruct Hx|done]. }
  match goal with |- (if ?a then _ else _) = (if ?b then _ else _) => destruct a as [H|H], b end;
    rewrite Hk, list_elem_of_filter in H; tauto.
Qed.

(** ** Witnesses: a server with a counting handler and a broken one *)

Definition bump_handler : Handler nat :=
  fun args s => mk_execution (Some 5%Z) (Returned (Ok args)) (fun _ => S s).
Definition broken_handler : Handler nat :=
  fun _ s => mk_execution (Some 3%Z) (Panicked (StaticStr "boom")) (fun _ => S s).

Definition sample_dispatcher : Dispatcher nat :=
  register "Broken/go" CORE_CAPABILITY broken_handler
    (register "Mail/bump" "urn:ietf:params:jmap:mail" bump_handler (new_dispatcher "s0")).

Definition sample_timed : Dispatcher nat :=
  with_limits (mk_limits 1 1 1 1 16 1 1 (Some 10%Z)) sample_dispatcher.

Definition sample_calls : list Invocation :=
  [mk_invocation "Broken/go" (Object []) "c0"; mk_invocation "Core/echo" (Object []) "c1"].
Definition sample_request : Request := mk_request [CORE_CAPABILITY] sample_calls None.

Definition sample_responses : list Invocation :=
  [error_invocation (ServerFail "boom") "c0"; mk_invocation "Core/echo" (Object []) "c1"].

Lemma process_one_response_per_call_witness :
  process sample_from_value sample_dispatcher sample_request 0
  = Some (Ok (mk_response sample_responses None "s0"), 1)
  /\ map inv_call_id sample_responses = ["c0"; "c1"].
Proof.
  assert (process sample_from_value sample_dispatcher sample_request 0
          = Some (Ok (mk_response sample_responses None "s0"), 1)) as H by reflexivity.
  split; [exact H|].
  exact (proj1 (process_one_response_per_call sample_from_value sample_dispatcher
                  sample_request 0 _ 1 H)).
Defined.

Lemma process_answers_witness :
  is_Some (process sample_from_value sample_timed sample_request 0).
Proof.
  apply (process_answers sample_from_value sample_timed sample_request 0).
  - exists 10%Z. reflexivity.
  - repeat constructor.
Defined.

Lemma call_requires_capability_witness :
  call sample_from_value sample_dispatcher "Mail/bump" (Object []) [] [CORE_CAPABILITY] 0
  = Some (Err UnknownMethod, 0).
Proof.
  apply (call_requires_capability sample_from_value sample_dispatcher "Mail/bump" (Object []) []
           [CORE_CAPABILITY] 0 "urn:ietf:params:jmap:mail" bump_handler).
  - reflexivity.
  - discriminate.
  - intros H. apply list_elem_of_singleton in H. discriminate.
Defined.

Lemma panic_is_isolated_witness :
  run_calls sample_from_value sample_dispatcher [CORE_CAPABILITY] sample_calls [] 0
  = Some (sample_responses, 1).
Proof.
  unfold sample_calls.
  rewrite (panic_is_isolated sample_from_value sample_dispatcher [CORE_CAPABILITY]
             (mk_invocation "Broken/go" (Object []) "c0")
             [mk_invocation "Core/echo" (Object []) "c1"] [] 0 CORE_CAPABILITY broken_handler
             (Object []) 3 (StaticStr "boom")); try reflexivity.
  left. reflexivity.
Defined.

Lemma built_registry_ok_witness : registry_ok sample_timed.
Proof.
  apply (built_registry_ok sample_timed). unfold sample_timed, sample_dispatcher.
  repeat constructor.
Defined.
