(* ===== verification/SmtpSession.v ===== *)
(** [crates/owney-smtp-in]: the inbound SMTP session (src/session.rs), its
    policy interface (src/lib.rs) and the connection cap (src/server.rs).

    The line and DATA parsers belong to the [smtp_proto] crate: they are the
    operations of the class [Receivers], and what the session relies on about
    them is the class [ReceiverLaws].  The mail handler is an argument with its
    own state; the peer is a script of reads. *)
From S2P Require Import Prelude Text Ident.

Open Scope string_scope.

(** ** The policy interface (src/lib.rs) *)

Inductive RcptVerdict := Accept | UnknownUser | NotLocal | TryAgainLater.

Record InboundMail := mk_mail {
  mail_remote : string;
  mail_helo : string;
  mail_sender : string;
  mail_recipients : list string;
  mail_raw : string
}.

Inductive DeliverError := Temporary (msg : string) | Permanent (msg : string).

Record SmtpParams := mk_params {
  hostname : string;
  max_message_size : Z;
  max_recipients : nat;
  max_errors : nat;
  tls : bool
}.

(** [trait MailHandler], over the handler's own state. *)
Record MailHandler (H : Type) := mk_handler {
  rcpt : string -> H -> RcptVerdict * H;
  deliver : InboundMail -> H -> result DeliverError unit * H
}.
Arguments rcpt {H} _ _ _.
Arguments deliver {H} _ _ _.

(** ** What [smtp_proto] provides *)

(** [smtp_proto::Request]; the fields the session reads. *)
Inductive Request :=
  | Ehlo (host : string)
  | Helo (host : string)
  | Mail (address : string) (size : Z)
  | Rcpt (address : string)
  | Data
  | Rset
  | Noop
  | Quit
  | Vrfy
  | Expn
  | StartTls
  | Auth
  | Bdat
  | Lhlo
  | Help
  | Etrn
  | Atrn
  | Burl.

(** [smtp_proto::Error]; the kinds the session tells apart. *)
Inductive SmtpError :=
  | NeedsMoreData
  | ResponseTooLong
  | UnknownCommand
  | InvalidSenderAddress
  | InvalidRecipientAddress
  | OtherError.

#[export] Instance SmtpError_eq_dec : EqDecision SmtpError.
Proof. solve_decision. Defined.

(** [ingest] takes the bytes that are left and returns its result, the bytes it
    did not consume and its next state.  The DATA receiver also returns the
    bytes it appends to the message and whether it met the final dot. *)
Class Receivers := {
  RR : Type;
  DR : Type;
  rr_default : RR;
  dr_new : DR;
  rr_ingest : RR -> string -> result SmtpError Request * string * RR;
  dr_ingest : DR -> string -> bool * string * string * DR
}.

(** A receiver that gives a result has consumed input. *)
Class ReceiverLaws {RC : Receivers} := {
  rr_progress r a res rest r' :
    rr_ingest r a = (res, rest, r') -> res <> Err NeedsMoreData ->
    (String.length rest < String.length a)%nat;
  dr_progress r a data rest r' :
    dr_ingest r a = (true, data, rest, r') -> (String.length rest < String.length a)%nat
}.

(** ** Session state *)

Section Session.
Context {RC : Receivers} {HS : Type}.
Variables (params : SmtpParams) (remote : string) (handler : MailHandler HS).
(** [unix_now()] while the session runs. *)
Variable clock : Z.

Inductive Mode :=
  | CommandMode
  | DataMode (receiver : DR) (data : string) (discarding : bool).

Record Session := mk_session {
  mode : Mode;
  helo : string;
  mail_from : option string;
  recipients : list string;
  errors : nat;
  tls_active : bool
}.

(** What the session acts on besides itself: the responses not yet written,
    the handler's state, and the messages handed to [deliver], in order. *)
Record World := mk_world {
  out : string;
  hstate : HS;
  handed : list InboundMail
}.

Definition new_session : Session := mk_session CommandMode "" None [] 0 false.

Definition set_mode (m : Mode) (s : Session) : Session :=
  mk_session m (helo s) (mail_from s) (recipients s) (errors s) (tls_active s).
Definition set_helo (h : string) (s : Session) : Session :=
  mk_session (mode s) h (mail_from s) (recipients s) (errors s) (tls_active s).
Definition set_mail_from (f : option string) (s : Session) : Session :=
  mk_session (mode s) (helo s) f (recipients s) (errors s) (tls_active s).
Definition set_recipients (r : list string) (s : Session) : Session :=
  mk_session (mode s) (helo s) (mail_from s) r (errors s) (tls_active s).
Definition set_errors (n : nat) (s : Session) : Session :=
  mk_session (mode s) (helo s) (mail_from s) (recipients s) n (tls_active s).
Definition set_tls (b : bool) (s : Session) : Session :=
  mk_session (mode s) (helo s) (mail_from s) (recipients s) (errors s) b.

Definition reset_transaction (s : Session) : Session :=
  set_recipients [] (set_mail_from None s).

Definition emit (text : string) (w : World) : World :=
  mk_world (out w +:+ text) (hstate w) (handed w).

(** [reply]: one line and its CRLF. *)
Definition reply (line : string) (w : World) : World := emit (line +:+ crlf) w.

Inductive Flow := Continue | QuitFlow | StartTlsFlow.

Definition ehlo_text (s : Session) : string :=
  "250-" +:+ hostname params +:+ " greets you" +:+ crlf
  +:+ "250-PIPELINING" +:+ crlf
  +:+ "250-SIZE " +:+ pretty (max_message_size params) +:+ crlf
  +:+ (if tls params && negb (tls_active s) then "250-STARTTLS" +:+ crlf else "")
  +:+ "250-8BITMIME" +:+ crlf +:+ "250-ENHANCEDSTATUSCODES" +:+ crlf
  +:+ "250 SMTPUTF8" +:+ crlf.

(** [Session::apply]. *)
Definition apply (request : Request) (s : Session) (w : World) : Flow * Session * World :=
  match request with
  | Ehlo host =>
      (Continue, reset_transaction (set_helo host s), emit (ehlo_text s) w)
  | Helo host =>
      (Continue, reset_transaction (set_helo host s),
       emit ("250 " +:+ hostname params +:+ crlf) w)
  | Mail address size =>
      match mail_from s with
      | Some _ => (Continue, s, reply "503 5.5.1 nested MAIL command" w)
      | None =>
          if negb (size =? 0)%Z && (max_message_size params <? size)%Z
          then (Continue, s, reply "552 5.3.4 message size exceeds limit" w)
          else (Continue, set_mail_from (Some address) s, reply "250 2.1.0 OK" w)
      end
  | Rcpt address =>
      match mail_from s with
      | None => (Continue, s, reply "503 5.5.1 MAIL first" w)
      | Some _ =>
          if (max_recipients params <=? length (recipients s))%nat
          then (Continue, s, reply "452 4.5.3 too many recipients" w)
          else
            let '(verdict, h') := rcpt handler address (hstate w) in
            let w' := mk_world (out w) h' (handed w) in
            match verdict with
            | Accept => (Continue, set_recipients (recipients s ++ [address])%list s,
                         reply "250 2.1.5 OK" w')
            | UnknownUser => (Continue, s, reply "550 5.1.1 no such user here" w')
            | NotLocal => (Continue, s, reply "550 5.7.1 relaying denied" w')
            | TryAgainLater =>
                (Continue, s, reply "451 4.3.0 temporary lookup failure, try again" w')
            end
      end
  | Data =>
      match recipients s with
      | [] => (Continue, s, reply "503 5.5.1 RCPT first" w)
      | _ => (Continue, set_mode (DataMode dr_new "" false) s,
              reply "354 go ahead, end with <CRLF>.<CRLF>" w)
      end
  | Rset => (Continue, reset_transaction s, reply "250 2.0.0 OK" w)
  | Noop => (Continue, s, reply "250 2.0.0 OK" w)
  | Quit => (QuitFlow, s, reply "221 2.0.0 bye" w)
  | Vrfy | Expn =>
      (Continue, s, reply "252 2.5.2 cannot verify, send some mail and find out" w)
  | StartTls =>
      if tls_active s then (Continue, s, reply "503 5.5.1 already in TLS" w)
      else if tls params then (StartTlsFlow, s, reply "220 2.0.0 ready to start TLS" w)
      else (Continue, s, reply "502 5.5.1 STARTTLS not available" w)
  | Auth | Bdat | Lhlo | Help | Etrn | Atrn | Burl =>
      (Continue, s, reply "502 5.5.1 command not implemented" w)
  end.

(** [Session::protocol_error]: [false] drops the connection. *)
Definition protocol_error (err : SmtpError) (s : Session) (w : World)
  : bool * Session * World :=
  match err with
  | ResponseTooLong => (false, s, reply "500 5.5.2 line too long, closing" w)
  | _ =>
      let s := set_errors (S (errors s)) s in
      if (max_errors params <=? errors s)%nat
      then (false, s, reply "421 4.7.0 too many errors, closing" w)
      else (true, s,
            match err with
            | UnknownCommand => reply "500 5.5.2 command not recognized" w
            | InvalidSenderAddress => reply "501 5.1.7 invalid sender address" w
            | InvalidRecipientAddress => reply "501 5.1.3 invalid recipient address" w
            | _ => reply "501 5.5.4 syntax error" w
            end)
  end.

Definition sanitize_char (c : ascii) : ascii :=
  if Ascii.eqb c cr || Ascii.eqb c lf || is_control c then " "%char else c.

(** The date of [rfc2822_utc] (which is total: [rfc2822_utc_total]). *)
Definition header_date : string :=
  match rfc2822_utc clock with Some d => d | None => "" end.

(** [Session::received_header]. *)
Definition received_header (s : Session) : string :=
  let name := if String.eqb (helo s) "" then "unknown" else str_map sanitize_char (helo s) in
  "Received: from " +:+ name +:+ " ([" +:+ remote +:+ "])" +:+ crlf
  +:+ str_of tab +:+ "by " +:+ hostname params +:+ " with "
  +:+ (if tls_active s then "ESMTPS" else "ESMTP") +:+ ";" +:+ crlf
  +:+ str_of tab +:+ header_date +:+ crlf.

(** [Session::finish_data]. *)
Definition finish_data (s : Session) (w : World) : Session * World :=
  match mode s with
  | CommandMode => (s, reply "451 4.3.0 internal error" w)
  | DataMode _ data discarding =>
      let s := set_mode CommandMode s in
      if discarding
      then (reset_transaction s, reply "552 5.3.4 message size exceeds limit" w)
      else
        let mail := mk_mail remote (helo s) (default "" (mail_from s)) (recipients s)
                      (received_header s +:+ data) in
        let s := reset_transaction s in
        let '(res, h') := deliver handler mail (hstate w) in
        let w := mk_world (out w) h' (handed w ++ [mail])%list in
        (s, match res with
            | Ok _ => reply "250 2.0.0 accepted for delivery" w
            | Err (Temporary _) =>
                reply "451 4.3.0 temporary delivery failure, try again" w
            | Err (Permanent _) => reply "550 5.7.1 message rejected" w
            end)
  end.

(** ** Draining what one read returned *)

Inductive drained :=
  | Waiting (r : RR) (s : Session) (w : World)
  | Closing (s : Session) (w : World)
  | Upgrading (s : Session) (w : World)
  | OutOfFuel.

(** The bytes one DATA ingest leaves in the buffer, and the discarding flag. *)
Definition absorb (data added : string) (discarding : bool) : string * bool :=
  let data := data +:+ added in
  if discarding then ("", true)
  else if (max_message_size params <? Z.of_nat (String.length data))%Z then ("", true)
  else (data, false).

(** The inner loop of [run_protocol]; [fuel] bounds the iterations. *)
Fixpoint drain (fuel : nat) (r : RR) (iter : string) (s : Session) (w : World) : drained :=
  match fuel with
  | O => OutOfFuel
  | S fuel' =>
      match mode s with
      | CommandMode =>
          let '(res, iter', r') := rr_ingest r iter in
          match res with
          | Ok request =>
              match apply request s w with
              | (Continue, s', w') => drain fuel' r' iter' s' w'
              | (QuitFlow, s', w') => Closing s' w'
              | (StartTlsFlow, s', w') => Upgrading s' w'
              end
          | Err NeedsMoreData => Waiting r' s w
          | Err err =>
              match protocol_error err s w with
              | (true, s', w') => drain fuel' r' iter' s' w'
              | (false, s', w') => Closing s' w'
              end
          end
      | DataMode receiver data discarding =>
          let '(don, added, iter', receiver') := dr_ingest receiver iter in
          let '(data', discarding') := absorb data added discarding in
          let s' := set_mode (DataMode receiver' data' discarding') s in
          if don then
            let '(s'', w') := finish_data s' w in
            drain fuel' r iter' s'' w'
          else Waiting r s' w
      end
  end.

(** The fuel one read needs: an iteration that goes on has consumed a byte. *)
Definition drain_all (r : RR) (iter : string) (s : Session) (w : World) : drained :=
  drain (S (String.length iter)) r iter s w.

(** ** The connection loop *)

(** One turn of the outer loop: the time since the session started, what the
    read gives, and whether the write of the responses succeeds. *)
Inductive read_result :=
  | Eof
  | Bytes (chunk : string)
  | SocketError
  | IdleTimeout.

Record turn := mk_turn { elapsed : Z; read : read_result; write_ok : bool }.

Definition session_budget : Z := 5 * 60.

Inductive End := Closed | EndStartTls | Pending.

(** [run_protocol] over a script of turns; [written] lists what was
    handed to [write_all].
    [Pending]: the script ran out while the connection waits for a read. *)
Fixpoint run_protocol (script : list turn) (r : RR) (s : Session) (w : World)
    (written : list string) : End * Session * World * list string * list turn :=
  match script with
  | [] => (Pending, s, w, written, [])
  | t :: script' =>
      if (session_budget <? elapsed t)%Z
      then (Closed, s, w,
            (written ++ ["421 4.4.2 session expired, closing" +:+ crlf])%list, script')
      else
        match read t with
        | Eof => (Closed, s, w, written, script')
        | SocketError => (Closed, s, w, written, script')
        | IdleTimeout =>
            (Closed, s, w, (written ++ ["421 4.4.2 idle timeout, closing" +:+ crlf])%list, script')
        | Bytes chunk =>
            let w := mk_world "" (hstate w) (handed w) in
            match drain_all r chunk s w with
            | Closing s' w' => (Closed, s', w', (written ++ [out w'])%list, script')
            | Upgrading s' w' =>
                if write_ok t then (EndStartTls, s', w', (written ++ [out w'])%list, script')
                else (Closed, s', w', (written ++ [out w'])%list, script')
            | Waiting r' s' w' =>
                if String.eqb (out w') "" then run_protocol script' r' s' w' written
                else if write_ok t
                then run_protocol script' r' s' w' (written ++ [out w'])%list
                else (Closed, s', w', (written ++ [out w'])%list, script')
            | OutOfFuel => (Closed, s, w, written, script')
            end
        end
  end.

(** After the handshake: all knowledge gained before TLS is discarded. *)
Definition after_tls (s : Session) : Session :=
  set_tls true (set_mode CommandMode (reset_transaction (set_helo "" s))).

(** [serve_connection]: the greeting, one run, and after a successful TLS
    handshake a second one on the encrypted stream. *)
Definition serve_connection (greeting_ok handshake_ok : bool)
    (plain encrypted : list turn) (h : HS) : End * Session * World * list string :=
  let w := mk_world "" h [] in
  let greeting := "220 " +:+ hostname params +:+ " ESMTP ready" +:+ crlf in
  if negb greeting_ok then (Closed, new_session, w, [])
  else
    let '(e, s, w, written, _) := run_protocol plain rr_default new_session w [greeting] in
    match e with
    | Closed => (Closed, s, w, written)
    | Pending => (Pending, s, w, written)
    | EndStartTls =>
        if negb (tls params) then (Closed, s, w, written)
        else if handshake_ok then
          let '(e', s', w', written', _) :=
            run_protocol encrypted rr_default (after_tls s) w written in
          (e', s', w', written')
        else (Closed, s, w, written)
    end.
End Session.
