(* ===== verification/SmtpFacts.v ===== *)
(** Correctness of the inbound SMTP session: the transaction invariant, what is
    handed to delivery, the trace header, termination, the TLS upgrade and the
    error budget. *)
From stdpp Require Import relations.
From S2P Require Import Prelude Text Bytes Ident SmtpSession.

Open Scope string_scope.

Section Facts.
Context {RC : Receivers} {HS : Type}.
Variables (params : SmtpParams) (remote : string) (handler : MailHandler HS) (clock : Z).

Abbreviation apply := (apply params handler).
Abbreviation protocol_error := (protocol_error params).
Abbreviation finish_data := (finish_data params remote handler clock).
Abbreviation absorb := (absorb params).
Abbreviation drain := (drain params remote handler clock).
Abbreviation drain_all := (drain_all params remote handler clock).
Abbreviation run_protocol := (run_protocol params remote handler clock).
Abbreviation received_header := (received_header params remote clock).

(** ** The session as a step relation *)

Inductive step : Session * World (HS:=HS) -> Session * World (HS:=HS) -> Prop :=
  | step_command request s w flow s' w' :
      mode s = CommandMode -> apply request s w = (flow, s', w') -> step (s, w) (s', w')
  | step_error err s w keep s' w' :
      mode s = CommandMode -> protocol_error err s w = (keep, s', w') -> step (s, w) (s', w')
  | step_data s w receiver data discarding receiver' added :
      mode s = DataMode receiver data discarding ->
      step (s, w)
        (set_mode (DataMode receiver' (fst (absorb data added discarding))
                     (snd (absorb data added discarding))) s, w)
  | step_finish s w receiver data discarding s' w' :
      mode s = DataMode receiver data discarding ->
      finish_data s w = (s', w') -> step (s, w) (s', w')
  | step_flush s w : step (s, w) (s, mk_world "" (hstate w) (handed w))
  | step_tls s w : step (s, w) (after_tls s, w).

Definition steps : relation (Session * World) := rtc step.

(** Where a drain ends. *)
Definition drained_state (d : drained) : option (Session * World (HS:=HS)) :=
  match d with
  | Waiting _ s w | Closing s w | Upgrading s w => Some (s, w)
  | OutOfFuel => None
  end.

Lemma drain_steps fuel r iter s w s' w' :
  drained_state (drain fuel r iter s w) = Some (s', w') -> steps (s, w) (s', w').
Proof.
  revert r iter s w. induction fuel as [|fuel IH]; intros r iter s w; simpl; [done|].
  destruct (mode s) as [|receiver data discarding] eqn:Hm.
  - destruct (rr_ingest r iter) as [[res iter'] r'] eqn:Hr. destruct res as [request|err].
    + destruct (apply request s w) as [[flow s1] w1] eqn:Ha.
      assert (step (s, w) (s1, w1)) as Hstep by (by econstructor).
      destruct flow; simpl; [intros Hd; eapply rtc_l; [done|by eapply IH]|intros [= <- <-]..];
        by apply rtc_once.
    + destruct (decide (err = NeedsMoreData)) as [->|Hne]; [intros [= <- <-]; apply rtc_refl|].
      destruct (protocol_error err s w) as [[keep s1] w1] eqn:Hp.
      assert (step (s, w) (s1, w1)) as Hstep by (by eapply step_error).
      intros Hd. assert (drained_state (if keep then drain fuel r' iter' s1 w1 else Closing s1 w1)
                         = Some (s', w')) as Hd' by (destruct err; done).
      destruct keep; [eapply rtc_l; [done|by eapply IH]|]. simplify_eq/=. by apply rtc_once.
  - destruct (dr_ingest receiver iter) as [[[don added] iter'] receiver'].
    destruct (absorb data added discarding) as [data' discarding'] eqn:Hab.
    assert (step (s, w) (set_mode (DataMode receiver' data' discarding') s, w)) as Hstep.
    { pose proof (step_data s w receiver data discarding receiver' added Hm) as Hs.
      by rewrite Hab in Hs. }
    destruct don; [|intros [= <- <-]; by apply rtc_once].
    destruct (finish_data _ _) as [s2 w2] eqn:Hf. intros Hd.
    eapply rtc_l; [exact Hstep|]. eapply rtc_l; [by eapply step_finish|]. by eapply IH.
Qed.

Lemma run_protocol_steps script r s w written e s' w' written' rest :
  run_protocol script r s w written = (e, s', w', written', rest) -> steps (s, w) (s', w').
Proof.
  revert r s w written. induction script as [|t script IH]; intros r s w written; simpl.
  { intros [= <- <- <- <- <-]. apply rtc_refl. }
  destruct (_ <? _)%Z; [intros [= <- <- <- <- <-]; apply rtc_refl|].
  destruct (read t) as [|chunk| |]; try (intros [= <- <- <- <- <-]; apply rtc_refl).
  set (w0 := mk_world "" (hstate w) (handed w)).
  assert (step (s, w) (s, w0)) as Hflush by constructor.
  destruct (drain_all r chunk s w0) as [r1 s1 w1|s1 w1|s1 w1|] eqn:Hd;
    try (assert (steps (s, w0) (s1, w1)) as Hds
           by (eapply drain_steps; unfold drain_all in Hd; by rewrite Hd)).
  - destruct (String.eqb _ _); [|destruct (write_ok t)]; intros Hr;
      [apply IH in Hr..|]; simplify_eq; (eapply rtc_l; [exact Hflush|]); by etrans.
  - intros [= <- <- <- <- <-]. by eapply rtc_l.
  - destruct (write_ok t); intros [= <- <- <- <- <-]; by eapply rtc_l.
  - intros [= <- <- <- <- <-]. by apply rtc_once.
Qed.

(** An invariant of the steps is an invariant of every connection. *)
Lemma steps_invariant (I : Session * World -> Prop) :
  (forall x y, I x -> step x y -> I y) -> forall x y, steps x y -> I x -> I y.
Proof. intros Hstep x y Hxy. induction Hxy; eauto. Qed.

Lemma serve_connection_steps greeting_ok handshake_ok plain encrypted h e s w written :
  serve_connection params remote handler clock greeting_ok handshake_ok plain encrypted h
  = (e, s, w, written) ->
  steps (new_session, mk_world "" h []) (s, w).
Proof.
  unfold serve_connection. destruct greeting_ok; simpl; [|intros [= <- <- <- <-]; apply rtc_refl].
  destruct (run_protocol plain _ _ _ _) as [[[[e1 s1] w1] wr1] rest1] eqn:H1.
  apply run_protocol_steps in H1.
  destruct e1; [by intros [= <- <- <- <-]| |by intros [= <- <- <- <-]].
  destruct (negb _); [by intros [= <- <- <- <-]|].
  destruct handshake_ok; [|by intros [= <- <- <- <-]].
  destruct (run_protocol encrypted _ _ _ _) as [[[[e2 s2] w2] wr2] rest2] eqn:H2.
  apply run_protocol_steps in H2. intros [= <- <- <- <-].
  etrans; [exact H1|]. eapply rtc_l; [|exact H2]. constructor.
Qed.

(** An invariant of the handler's state and the messages it was given holds
    through the connection if each call keeps it. *)
Lemma step_handler (I : HS -> list InboundMail -> Prop) :
  (forall a h l, I h l -> I (snd (rcpt handler a h)) l) ->
  (forall m h l, I h l -> I (snd (deliver handler m h)) (l ++ [m])%list) ->
  forall x y, I (hstate (snd x)) (handed (snd x)) -> step x y -> I (hstate (snd y)) (handed (snd y)).
Proof.
  intros Hrcpt Hdeliver x y Hx Hstep. destruct Hstep as [request s w flow s' w' Hm Ha
    |err s w keep s' w' Hm Hp|s w receiver data discarding receiver' added Hm
    |s w receiver data discarding s' w' Hm Hf| |]; simpl in *; try done.
  - destruct request; simpl in Ha; repeat case_match; simplify_eq/=; try done;
      match goal with Hr : rcpt handler ?a ?h = _ |- _ =>
        pose proof (Hrcpt a h _ Hx) as Hk; by rewrite Hr in Hk end.
  - unfold SmtpSession.protocol_error in Hp. repeat case_match; by simplify_eq/=.
  - unfold SmtpSession.finish_data in Hf. rewrite Hm in Hf.
    destruct discarding; [by simplify_eq/=|].
    match type of Hf with context [deliver handler ?m ?h] =>
      pose proof (Hdeliver m h _ Hx) as Hk; destruct (deliver handler m h) as [res h'] end.
    destruct res as [?|[?|?]]; by simplify_eq/=.
Qed.

Lemma connection_handler (I : HS -> list InboundMail -> Prop) greeting_ok handshake_ok plain encrypted
    h e s w written :
  (forall a h l, I h l -> I (snd (rcpt handler a h)) l) ->
  (forall m h l, I h l -> I (snd (deliver handler m h)) (l ++ [m])%list) ->
  serve_connection params remote handler clock greeting_ok handshake_ok plain encrypted h
  = (e, s, w, written) ->
  I h [] -> I (hstate w) (handed w).
Proof.
  intros Hrcpt Hdeliver Hserve%serve_connection_steps Hh.
  exact (steps_invariant (fun c => I (hstate (snd c)) (handed (snd c)))
           (step_handler I Hrcpt Hdeliver) _ _ Hserve Hh).
Qed.

(** ** The transaction invariant *)

Section Transaction.
(** Any property that acceptance by the handler establishes. *)
Variable P : string -> Prop.
Hypothesis accepted : forall a h h', rcpt handler a h = (Accept, h') -> P a.
Hypothesis size_limit : (0 <= max_message_size params)%Z.

Definition session_ok (s : Session) : Prop :=
  Forall P (recipients s)
  /\ (length (recipients s) <= max_recipients params)%nat
  /\ (recipients s <> [] -> is_Some (mail_from s))
  /\ match mode s with
     | CommandMode => True
     | DataMode _ data _ =>
         recipients s <> []
         /\ (Z.of_nat (String.length data) <= max_message_size params)%Z
     end.

Definition mail_ok (m : InboundMail) : Prop :=
  mail_recipients m <> []
  /\ Forall P (mail_recipients m)
  /\ (length (mail_recipients m) <= max_recipients params)%nat
  /\ exists s data, mail_raw m = received_header s +:+ data
       /\ (Z.of_nat (String.length data) <= max_message_size params)%Z.

Definition conn_ok (c : Session * World (HS:=HS)) : Prop :=
  session_ok (fst c) /\ Forall mail_ok (handed (snd c)).

Ltac session_split :=
  unfold session_ok; simpl; split_and!; simpl; try done; try apply Forall_nil_2; try lia.

Lemma new_session_ok : session_ok new_session.
Proof. session_split. Qed.

Lemma reset_ok s : session_ok (reset_transaction (set_mode CommandMode s)).
Proof. session_split. Qed.

Lemma reset_command_ok s : mode s = CommandMode -> session_ok (reset_transaction s).
Proof. intros Hm. unfold session_ok. simpl. rewrite Hm. session_split. Qed.

Lemma apply_ok request s w flow s' w' :
  mode s = CommandMode -> apply request s w = (flow, s', w') ->
  conn_ok (s, w) -> conn_ok (s', w').
Proof.
  intros Hm Ha [Hs Hw]. simpl in Hs, Hw.
  assert (forall h, session_ok (reset_transaction (set_helo h s))) as Hreset.
  { intros h. by apply reset_command_ok. }
  destruct Hs as (Hall & Hlen & Hfrom & Hmode). rewrite Hm in Hmode.
  assert (session_ok s) as Hs by (split_and!; rewrite ?Hm; done).
  revert Ha. destruct request as [host|host|address size|address| | | | | | | | | | | | | |];
    simpl; try (intros; simplify_eq; split; [done || apply Hreset|done]).
  - destruct (mail_from s) eqn:Hf; [intros; simplify_eq; by split|].
    destruct (_ && _); intros; simplify_eq; split; try done.
    unfold session_ok. simpl. rewrite Hm. eauto.
  - destruct (mail_from s) eqn:Hf; [|intros; simplify_eq; by split].
    destruct (_ <=? _)%nat eqn:Hmax; [intros; simplify_eq; by split|]. apply Nat.leb_gt in Hmax.
    destruct (rcpt handler address (hstate w)) as [verdict h'] eqn:Hv.
    destruct verdict; intros; simplify_eq; split; try done.
    unfold session_ok. simpl. rewrite Hm, Hf, length_app. simpl.
    assert (P address) by (by eapply accepted).
    split_and!; [by apply Forall_app_2; [|apply Forall_singleton]|lia|eauto|done].
  - destruct (recipients s) eqn:Hr; intros; simplify_eq; split; try done.
    unfold session_ok. simpl. rewrite Hr. split_and!; try done.
  - repeat case_match; intros; simplify_eq; by split.
Qed.

Lemma protocol_error_ok err s w keep s' w' :
  protocol_error err s w = (keep, s', w') -> conn_ok (s, w) -> conn_ok (s', w').
Proof.
  unfold SmtpSession.protocol_error. intros Hp [Hs Hw].
  assert (session_ok (set_errors (S (errors s)) s)) by exact Hs.
  destruct err; repeat case_match; simplify_eq; by split.
Qed.

Lemma absorb_bound data added discarding :
  (Z.of_nat (String.length (fst (absorb data added discarding))) <= max_message_size params)%Z.
Proof.
  unfold SmtpSession.absorb. destruct discarding; [done|].
  destruct (_ <? _)%Z eqn:E; [done|]. apply Z.ltb_ge in E. done.
Qed.

Lemma finish_data_ok s w receiver data discarding s' w' :
  mode s = DataMode receiver data discarding ->
  finish_data s w = (s', w') -> conn_ok (s, w) -> conn_ok (s', w').
Proof.
  intros Hm Hf [(Hall & Hlen & Hfrom & Hmode) Hw]. simpl in *. rewrite Hm in Hmode.
  destruct Hmode as [Hne Hsize]. unfold SmtpSession.finish_data in Hf. rewrite Hm in Hf.
  destruct discarding; [simplify_eq; split; [apply reset_ok|done]|].
  destruct (deliver _ _ _) as [res h'] eqn:Hd. simplify_eq. split; [apply reset_ok|].
  assert (forall text, handed (emit (HS:=HS) text w) = handed w) by done.
  assert (mail_ok (mk_mail remote (helo s) (default "" (mail_from s)) (recipients s)
                     (received_header (set_mode CommandMode s) +:+ data))) as Hmail.
  { split_and!; simpl; eauto. }
  destruct res as [?|[?|?]]; simpl; apply Forall_app; (split; [done|by constructor]).
Qed.

Lemma step_ok x y : conn_ok x -> step x y -> conn_ok y.
Proof.
  intros Hx Hstep. destruct Hstep.
  - by eapply apply_ok.
  - by eapply protocol_error_ok.
  - destruct Hx as [(Hall & Hlen & Hfrom & Hmode) Hw]. simpl in *. rewrite H in Hmode.
    split; [|done]. unfold session_ok. simpl. destruct Hmode. split_and!; try done. apply absorb_bound.
  - by eapply finish_data_ok.
  - done.
  - destruct Hx as [_ Hw]. split; [|done]. session_split.
Qed.
End Transaction.

Lemma connection_mail_ok (P : string -> Prop) greeting_ok handshake_ok
    plain encrypted h e s w written :
  (forall a h h', rcpt handler a h = (Accept, h') -> P a) ->
  (0 <= max_message_size params)%Z ->
  serve_connection params remote handler clock greeting_ok handshake_ok plain encrypted h
  = (e, s, w, written) ->
  Forall (mail_ok P) (handed w) /\ (recipients s <> [] -> is_Some (mail_from s)).
Proof.
  intros HP Hsize Hserve. apply serve_connection_steps in Hserve.
  assert (conn_ok P (s, w)) as [(_ & _ & Hfrom & _) Hw]; [|done].
  eapply (steps_invariant _ (step_ok P HP Hsize) _ _ Hserve).
  split; [by apply new_session_ok|constructor].
Qed.

(** C1: Whatever a peer sends over a connection, in whatever pieces and through
    a TLS upgrade, every message handed to delivery has at least one and at
    most [max_recipients] recipients, each of them accepted by the handler, and
    consists of the trace header followed by at most [max_message_size] bytes. *)
Theorem only_accepted_mail_is_delivered (P : string -> Prop) greeting_ok handshake_ok
    plain encrypted h e s w written :
  (forall a h h', rcpt handler a h = (Accept, h') -> P a) ->
  (0 <= max_message_size params)%Z ->
  serve_connection params remote handler clock greeting_ok handshake_ok plain encrypted h
  = (e, s, w, written) ->
  Forall (mail_ok P) (handed w) /\ (recipients s <> [] -> is_Some (mail_from s)).
Proof. apply connection_mail_ok. Qed.

(** ** The error budget *)

Lemma apply_errors request s w flow s' w' :
  apply request s w = (flow, s', w') -> errors s' = errors s.
Proof. destruct request; simpl; intros; repeat case_match; by simplify_eq. Qed.

Lemma step_errors x y : step x y -> (errors (fst x) <= errors (fst y))%nat.
Proof.
  destruct 1; simpl; try done.
  - match goal with Ha : apply _ _ _ = _ |- _ => rewrite (apply_errors _ _ _ _ _ _ Ha) end. done.
  - unfold SmtpSession.protocol_error in *. repeat case_match; simplify_eq/=; lia.
  - unfold SmtpSession.finish_data in *. repeat case_match; simplify_eq/=; done.
Qed.

(** The error count of a connection never goes down: a successful command
    leaves it unchanged and so does a delivered message, so the limit is on
    the errors of the whole connection, not on consecutive ones. *)
Lemma error_count_never_resets s w s' w' :
  steps (s, w) (s', w') ->
  (errors s <= errors s')%nat
  /\ forall request flow t x, apply request s' w' = (flow, t, x) -> errors t = errors s'.
Proof.
  intros Hs. split; [|intros; by eapply apply_errors].
  change ((fun x => errors s <= errors (fst x))%nat (s', w')).
  eapply (steps_invariant (fun x => errors s <= errors (fst x))%nat); [|exact Hs|done].
  intros x y Hx Hxy%step_errors. lia.
Qed.

(** A protocol error keeps the connection exactly when the line was not too
    long and the count stays below [max_errors]; each kept error counts once
    and answers with one 5xx line. *)
Lemma protocol_error_spec err s (w : World (HS:=HS)) :
  let '(keep, s', w') := protocol_error err s w in
  (keep = true <-> err <> ResponseTooLong /\ (S (errors s) < max_errors params)%nat)
  /\ (err <> ResponseTooLong -> s' = set_errors (S (errors s)) s)
  /\ (err = ResponseTooLong -> s' = s)
  /\ handed w' = handed w /\ exists line, out w' = out w +:+ (line +:+ crlf).
Proof.
  assert (forall line, exists l, out (reply line w) = out w +:+ (l +:+ crlf)) as Hline by eauto.
  destruct (decide (err = ResponseTooLong)) as [->|Hne].
  { simpl. split_and!; try done; [naive_solver|apply (Hline "500 5.5.2 line too long, closing")]. }
  unfold SmtpSession.protocol_error. simpl.
  destruct (Nat.leb_spec (max_errors params) (S (errors s))) as [Hmax|Hmax].
  - destruct err; try done; split_and!; try done; try apply Hline;
      (split; [done|intros [_ ?]; lia]).
  - destruct err; try done; split_and!; try done; try apply Hline; split; done || lia.
Qed.

(** ** The trace header *)

Lemma sanitize_char_printable c : is_control (sanitize_char c) = false.
Proof. destruct c as [[] [] [] [] [] [] [] []]; reflexivity. Qed.

Lemma header_date_printable : printable (header_date clock) = true.
Proof.
  unfold header_date. destruct (rfc2822_utc clock) as [d|] eqn:Hd; [|done].
  by eapply rfc2822_utc_printable.
Qed.

(** No header injection: the only control characters of the [Received]
    header are the line breaks and tabs of its own template, whatever the peer
    sent as its greeting. *)
Lemma received_header_no_injection (s : Session) :
  printable remote = true -> printable (hostname params) = true ->
  str_filter is_control (received_header s)
  = crlf +:+ str_of tab +:+ crlf +:+ str_of tab +:+ crlf.
Proof.
  intros Hremote Hhost. unfold SmtpSession.received_header.
  set (name := if String.eqb (helo s) "" then _ else _).
  assert (printable name = true) as Hname.
  { subst name. destruct (String.eqb _ _); [done|]. unfold printable. rewrite str_all_map.
    apply str_all_true. intros c. by rewrite sanitize_char_printable. }
  rewrite !str_filter_app.
  rewrite (printable_no_control _ Hname), (printable_no_control _ Hremote),
    (printable_no_control _ Hhost), (printable_no_control _ header_date_printable).
  by destruct (tls_active s).
Qed.
End Facts.

(** ** Termination and the TLS upgrade *)

Section Streaming.
Context {RC : Receivers} {RL : ReceiverLaws} {HS : Type}.
Variables (params : SmtpParams) (remote : string) (handler : MailHandler HS) (clock : Z).

Abbreviation drain := (drain params remote handler clock).
Abbreviation drain_all := (drain_all params remote handler clock).
Abbreviation run_protocol := (run_protocol params remote handler clock).

(** One iteration of the loop, over what it does next. *)
Definition iteration (next : RR -> string -> Session -> World -> drained (HS:=HS))
    (r : RR) (iter : string) (s : Session) (w : World) : drained :=
  match mode s with
  | CommandMode =>
      let '(res, iter', r') := rr_ingest r iter in
      match res with
      | Ok request =>
          match apply params handler request s w with
          | (Continue, s', w') => next r' iter' s' w'
          | (QuitFlow, s', w') => Closing s' w'
          | (StartTlsFlow, s', w') => Upgrading s' w'
          end
      | Err NeedsMoreData => Waiting r' s w
      | Err err =>
          match protocol_error params err s w with
          | (true, s', w') => next r' iter' s' w'
          | (false, s', w') => Closing s' w'
          end
      end
  | DataMode receiver data discarding =>
      let '(don, added, iter', receiver') := dr_ingest receiver iter in
      let '(data', discarding') := absorb params data added discarding in
      let s' := set_mode (DataMode receiver' data' discarding') s in
      if don then
        let '(s'', w') := finish_data params remote handler clock s' w in
        next r iter' s'' w'
      else Waiting r s' w
  end.

Lemma drain_S fuel r iter s w : drain (S fuel) r iter s w = iteration (drain fuel) r iter s w.
Proof. reflexivity. Qed.

(** An iteration passes on strictly less input than it got. *)
Lemma iteration_ext next next' r iter s w :
  (forall r' iter' s' w', (String.length iter' < String.length iter)%nat ->
     next r' iter' s' w' = next' r' iter' s' w') ->
  iteration next r iter s w = iteration next' r iter s w.
Proof.
  intros Hn. unfold iteration. destruct (mode s) as [|receiver data discarding].
  - destruct (rr_ingest r iter) as [[res iter'] r'] eqn:Hr.
    destruct res as [request|err].
    + destruct (apply params handler request s w) as [[[] s1] w1]; try done.
      apply Hn. by eapply rr_progress in Hr.
    + destruct (decide (err = NeedsMoreData)) as [->|Hne]; [done|].
      assert (String.length iter' < String.length iter)%nat by
        (eapply rr_progress in Hr; [done|congruence]).
      destruct (protocol_error params err s w) as [[[] s1] w1]; destruct err; auto.
  - destruct (dr_ingest receiver iter) as [[[don added] iter'] receiver'] eqn:Hd.
    destruct (absorb _ _ _ _) as [data' discarding']. destruct don; [|done].
    destruct (finish_data _ _ _ _ _ _) as [s1 w1]. apply Hn. by eapply dr_progress in Hd.
Qed.

(** Any fuel above the length of the input gives the same result. *)
Lemma drain_fuel f1 f2 r iter s w :
  (String.length iter < f1)%nat -> (String.length iter < f2)%nat ->
  drain f1 r iter s w = drain f2 r iter s w.
Proof.
  revert f2 r iter s w. induction f1 as [|f1 IH]; intros f2 r iter s w H1 H2; [lia|].
  destruct f2 as [|f2]; [lia|]. rewrite !drain_S. apply iteration_ext.
  intros r' iter' s' w' Hlt. apply IH; lia.
Qed.

Lemma drain_all_unfold r iter s w :
  drain_all r iter s w = iteration drain_all r iter s w.
Proof.
  unfold SmtpSession.drain_all at 1. rewrite drain_S. apply iteration_ext.
  intros r' iter' s' w' Hlt. apply drain_fuel; lia.
Qed.

(** The inner loop terminates: the fuel [drain_all] gives it, one more than
    the bytes read, is always enough. *)
Lemma drain_all_terminates r iter s w : drain_all r iter s w <> OutOfFuel.
Proof.
  remember (String.length iter) as n eqn:Hn. revert r iter s w Hn.
  induction (lt_wf n) as [n _ IH]. intros r iter s w ->. rewrite drain_all_unfold.
  unfold iteration. destruct (mode s) as [|receiver data discarding].
  - destruct (rr_ingest r iter) as [[res iter'] r'] eqn:Hr. destruct res as [request|err].
    + destruct (apply params handler request s w) as [[[] s1] w1]; try done.
      eapply IH; [|done]. by eapply rr_progress in Hr.
    + destruct (decide (err = NeedsMoreData)) as [->|Hne]; [done|].
      assert (String.length iter' < String.length iter)%nat by
        (eapply rr_progress in Hr; [done|congruence]).
      destruct (protocol_error params err s w) as [[[] s1] w1]; destruct err; try done; eauto.
  - destruct (dr_ingest receiver iter) as [[[don added] iter'] receiver'] eqn:Hd.
    destruct (absorb _ _ _ _) as [data' discarding']. destruct don; [|done].
    destruct (finish_data _ _ _ _ _ _) as [s1 w1].
    eapply IH; [|done]. by eapply dr_progress in Hd.
Qed.

(** *** At most one upgrade *)

Lemma apply_tls request s (w : World (HS:=HS)) flow s' w' :
  apply params handler request s w = (flow, s', w') ->
  tls_active s' = tls_active s /\ (tls_active s = true -> flow <> StartTlsFlow).
Proof. destruct request; simpl; intros; repeat case_match; by simplify_eq/=. Qed.

Lemma finish_data_tls s (w : World (HS:=HS)) s' w' :
  finish_data params remote handler clock s w = (s', w') -> tls_active s' = tls_active s.
Proof. unfold finish_data. intros; repeat case_match; by simplify_eq/=. Qed.

Lemma protocol_error_tls err s (w : World (HS:=HS)) keep s' w' :
  protocol_error params err s w = (keep, s', w') -> tls_active s' = tls_active s.
Proof. unfold protocol_error. intros; repeat case_match; by simplify_eq/=. Qed.

Lemma drain_tls fuel r iter s w :
  tls_active s = true ->
  match drain fuel r iter s w with
  | Waiting _ s' _ => tls_active s' = true
  | Upgrading _ _ => False
  | _ => True
  end.
Proof.
  revert r iter s w. induction fuel as [|fuel IH]; intros r iter s w Htls; [done|].
  rewrite drain_S. unfold iteration. destruct (mode s) as [|receiver data discarding].
  - destruct (rr_ingest r iter) as [[res iter'] r']. destruct res as [request|err].
    + destruct (apply params handler request s w) as [[flow s1] w1] eqn:Ha.
      apply apply_tls in Ha as [Hs1 Hflow]. rewrite Htls in Hs1.
      destruct flow; [by apply IH|done|by destruct (Hflow Htls)].
    + destruct (protocol_error params err s w) as [[keep s1] w1] eqn:Hp.
      apply protocol_error_tls in Hp. rewrite Htls in Hp.
      destruct keep, err; try done; by apply IH.
  - destruct (dr_ingest receiver iter) as [[[don added] iter'] receiver'].
    destruct (absorb _ _ _ _) as [data' discarding']. destruct don; [|done].
    destruct (finish_data _ _ _ _ _ _) as [s1 w1] eqn:Hf.
    apply finish_data_tls in Hf. apply IH. by rewrite Hf.
Qed.

Lemma run_protocol_tls script r s w written :
  tls_active s = true ->
  let '(e, _, _, _, _) := run_protocol script r s w written in e <> EndStartTls.
Proof.
  revert r s w written. induction script as [|t script IH]; intros r s w written Htls; simpl; [done|].
  destruct (_ <? _)%Z; [done|]. destruct (read t) as [|chunk| |]; try done.
  pose proof (drain_tls (S (String.length chunk)) r chunk s
                (mk_world "" (hstate w) (handed w)) Htls) as Hd.
  unfold SmtpSession.drain_all.
  destruct (drain _ _ _ _ _) as [r1 s1 w1|s1 w1|s1 w1|]; try done.
  destruct (String.eqb _ _); [by apply IH|]. destruct (write_ok t); [by apply IH|done].
Qed.

(** *** What of a connection survives the upgrade *)

(** A world with other messages handed over before. *)
Definition after_mail (l : list InboundMail) (w : World (HS:=HS)) : World :=
  mk_world (out w) (hstate w) (l ++ handed w)%list.

Lemma apply_after_mail l request s (w : World (HS:=HS)) :
  apply params handler request s (after_mail l w)
  = let '(flow, s', w') := apply params handler request s w in (flow, s', after_mail l w').
Proof.
  destruct request; simpl; repeat case_match; simplify_eq; done.
Qed.

Lemma protocol_error_after_mail l err s (w : World (HS:=HS)) :
  protocol_error params err s (after_mail l w)
  = let '(keep, s', w') := protocol_error params err s w in (keep, s', after_mail l w').
Proof. unfold protocol_error. repeat case_match; by simplify_eq. Qed.

Lemma finish_data_after_mail l s (w : World (HS:=HS)) :
  finish_data params remote handler clock s (after_mail l w)
  = let '(s', w') := finish_data params remote handler clock s w in (s', after_mail l w').
Proof.
  unfold finish_data. destruct (mode s) as [|r data discarding]; [done|]. destruct discarding; [done|].
  simpl. destruct (deliver _ _ _) as [res h']. destruct res as [?|[?|?]]; unfold after_mail; simpl;
    by rewrite app_assoc.
Qed.

Lemma drain_after_mail l fuel r iter s (w : World (HS:=HS)) :
  drain fuel r iter s (after_mail l w)
  = match drain fuel r iter s w with
    | Waiting r' s' w' => Waiting r' s' (after_mail l w')
    | Closing s' w' => Closing s' (after_mail l w')
    | Upgrading s' w' => Upgrading s' (after_mail l w')
    | OutOfFuel => OutOfFuel
    end.
Proof.
  revert r iter s w. induction fuel as [|fuel IH]; intros r iter s w; [done|].
  rewrite !drain_S. unfold iteration. destruct (mode s) as [|receiver data discarding].
  - destruct (rr_ingest r iter) as [[res iter'] r']. destruct res as [request|err].
    + rewrite apply_after_mail. destruct (apply params handler request s w) as [[[] s1] w1]; [apply IH|done..].
    + rewrite protocol_error_after_mail.
      destruct (protocol_error params err s w) as [[[] s1] w1]; destruct err; done || apply IH.
  - destruct (dr_ingest receiver iter) as [[[don added] iter'] receiver'].
    destruct (absorb _ _ _ _) as [data' discarding']. destruct don; [|done].
    rewrite finish_data_after_mail. destruct (finish_data _ _ _ _ _ _) as [s1 w1]. apply IH.
Qed.

(** Neither what was written nor the mail handed over before matters to a run. *)
Lemma run_protocol_prefix l before script r s (w : World (HS:=HS)) written :
  run_protocol script r s (after_mail l w) (before ++ written)%list
  = let '(e, s', w', written', rest) := run_protocol script r s w written in
    (e, s', after_mail l w', (before ++ written')%list, rest).
Proof.
  revert r s w written. induction script as [|t script IH]; intros r s w written; simpl; [done|].
  destruct (_ <? _)%Z; [by rewrite app_assoc|]. destruct (read t) as [|chunk| |]; [done| |done|by rewrite app_assoc].
  unfold SmtpSession.drain_all.
  change (mk_world "" (hstate w) (l ++ handed w)%list) with (after_mail l (mk_world "" (hstate w) (handed w))).
  rewrite drain_after_mail. destruct (drain _ r chunk s _) as [r1 s1 w1|s1 w1|s1 w1|]; cbn [out after_mail].
  - destruct (String.eqb (out w1) ""); [apply IH|].
    destruct (write_ok t); [rewrite <- app_assoc; apply IH|by rewrite app_assoc].
  - by rewrite app_assoc.
  - destruct (write_ok t); by rewrite app_assoc.
  - done.
Qed.

(** C38: STARTTLS leaves nothing behind that plaintext could have planted.  When
    a connection upgrades, its encrypted part is exactly a session begun afresh
    (no greeting, sender, recipients or unfinished message, an empty parser, none
    of the bytes that followed the STARTTLS command) over the mail handler as the
    plaintext part left it: the same answers, the same messages handed to
    delivery, the same end, whatever was said in plaintext.  Only the count of
    protocol errors carries over.  And there is no second upgrade. *)
Theorem starttls_forgets plain encrypted h s1 w1 written1 rest1 :
  tls params = true ->
  run_protocol plain rr_default new_session (mk_world "" h [])
    ["220 " +:+ hostname params +:+ " ESMTP ready" +:+ crlf] = (EndStartTls, s1, w1, written1, rest1) ->
  let fresh := mk_session CommandMode "" None [] (errors s1) true in
  let '(e, s, w, written, _) :=
    run_protocol encrypted rr_default fresh (mk_world (out w1) (hstate w1) []) [] in
  serve_connection params remote handler clock true true plain encrypted h
    = (e, s, mk_world (out w) (hstate w) (handed w1 ++ handed w)%list, (written1 ++ written)%list)
  /\ e <> EndStartTls.
Proof.
  intros Htls Hplain fresh.
  pose proof (run_protocol_tls encrypted rr_default fresh (mk_world (out w1) (hstate w1) []) [] eq_refl) as Hend.
  pose proof (run_protocol_prefix (handed w1) written1 encrypted rr_default fresh
                (mk_world (out w1) (hstate w1) []) []) as Hpre.
  destruct (run_protocol encrypted rr_default fresh _ []) as [[[[e s] w] written] rest].
  split; [|exact Hend]. unfold serve_connection. cbv zeta. cbn [negb]. rewrite Hplain, Htls. cbn [negb].
  unfold after_mail in Hpre. cbn [out hstate handed] in Hpre. rewrite !app_nil_r in Hpre.
  replace (mk_world (out w1) (hstate w1) (handed w1)) with w1 in Hpre by (by destruct w1).
  change (after_tls s1) with fresh. by rewrite Hpre.
Qed.
End Streaming.

(** * Concrete receivers for the inbound SMTP session, with the laws they satisfy,
    and the session's theorems applied to them.

    The receivers are a toy line protocol (one letter per command, LF ends a
    line, a dot ends DATA); they show that the laws of [ReceiverLaws] can hold
    and let sessions be evaluated. *)

Lemma split_once_shorter c a l r :
  split_once c a = Some (l, r) -> (String.length r < String.length a)%nat.
Proof.
  revert l r. induction a as [|x a IH]; intros l r; [done|]. simpl. destruct (Ascii.eqb x c).
  - intros [= <- <-]. lia.
  - destruct (split_once c a) as [[l' r']|]; [|done]. intros [= <- <-]. specialize (IH _ _ eq_refl). lia.
Qed.

Definition toy_parse (line : string) : result SmtpError Request :=
  match line with
  | String "E" host => Ok (Ehlo host)
  | String "M" address => Ok (Mail address 0)
  | String "R" address => Ok (Rcpt address)
  | String "D" _ => Ok Data
  | String "T" _ => Ok StartTls
  | String "Q" _ => Ok Quit
  | String "L" _ => Err ResponseTooLong
  | _ => Err UnknownCommand
  end.

Definition toy_rr_ingest (buffer iter : string) : result SmtpError Request * string * string :=
  match split_once lf iter with
  | Some (line, rest) => (toy_parse (buffer +:+ line), rest, "")
  | None => (Err NeedsMoreData, "", buffer +:+ iter)
  end.

Definition toy_dr_ingest (_ : unit) (iter : string) : bool * string * string * unit :=
  match split_once "." iter with
  | Some (body, rest) => (true, body, rest, tt)
  | None => (false, iter, "", tt)
  end.

#[export] Instance toy_receivers : Receivers := {
  RR := string;
  DR := unit;
  rr_default := "";
  dr_new := tt;
  rr_ingest := toy_rr_ingest;
  dr_ingest := toy_dr_ingest
}.

#[export] Instance toy_laws : ReceiverLaws.
Proof.
  split; simpl; unfold toy_rr_ingest, toy_dr_ingest.
  - intros r a res rest r'. destruct (split_once lf a) as [[l t]|] eqn:E; [|by intros [= <- _ _]].
    intros [= _ <- _] _. by eapply split_once_shorter.
  - intros r a data rest r'. destruct (split_once "." a) as [[l t]|] eqn:E; [|done].
    intros [= _ <- _]. by eapply split_once_shorter.
Qed.

(** A handler that knows one user and files mail. *)
Definition toy_handler : MailHandler (list string) :=
  mk_handler _
    (fun a h => (if String.eqb a "alice" then Accept else UnknownUser, h))
    (fun m h => (Ok tt, (h ++ [mail_raw m])%list)).

Definition toy_params : SmtpParams := mk_params "mx.test" 100 2 3 true.

Definition line (s : string) : string := s +:+ str_of lf.

Definition toy_script : list turn :=
  [mk_turn 1 (Bytes (line "Epeer" +:+ line "Mbob" +:+ line "Ralice" +:+ line "Rcarol"
                     +:+ line "D" +:+ "hel")) true;
   mk_turn 2 (Bytes ("lo." +:+ line "T" +:+ line "Mevil")) true].

Definition toy_run :=
  serve_connection toy_params "192.0.2.1" toy_handler 0 true true toy_script
    [mk_turn 3 (Bytes (line "Ralice" +:+ line "Q")) true] [].

Definition toy_final := let '(_, s, w, _) := toy_run in (s, w).

Lemma only_accepted_mail_is_delivered_witness :
  map mail_recipients (handed (snd toy_final)) = [["alice"]]
  /\ Forall (mail_ok toy_params "192.0.2.1" 0 (fun a => a = "alice")) (handed (snd toy_final)).
Proof.
  split; [vm_compute; reflexivity|].
  refine (proj1 (only_accepted_mail_is_delivered toy_params "192.0.2.1" toy_handler 0
            (fun a => a = "alice") true true toy_script
            [mk_turn 3 (Bytes (line "Ralice" +:+ line "Q")) true] []
            (fst (fst (fst toy_run))) (fst toy_final) (snd toy_final) (snd toy_run) _ _ _)).
  - intros a h h'. simpl. destruct (String.eqb_spec a "alice"); [done|discriminate].
  - vm_compute. discriminate.
  - vm_compute. reflexivity.
Defined.

(** A receiver holding an unfinished line. *)
Definition buffered (s : string) : @RR toy_receivers := s.

Definition busy : Session := mk_session CommandMode "peer" (Some "bob") ["alice"] 1 false.
Definition idle_world : World (HS:=list string) := mk_world "" [] [].

Lemma error_count_never_resets_witness :
  (errors busy <= errors (set_errors 2 busy))%nat.
Proof.
  refine (proj1 (error_count_never_resets toy_params "192.0.2.1" toy_handler 0 busy idle_world
            (set_errors 2 busy)
            (snd (protocol_error toy_params UnknownCommand busy idle_world)) _)).
  apply relations.rtc_once. eapply step_error with (err := UnknownCommand) (keep := true);
    vm_compute; reflexivity.
Defined.

Lemma received_header_no_injection_witness :
  str_filter is_control
    (received_header toy_params "192.0.2.1" 0 (set_helo ("x" +:+ crlf +:+ "Bcc: v") busy))
  = crlf +:+ str_of tab +:+ crlf +:+ str_of tab +:+ crlf.
Proof.
  apply (received_header_no_injection toy_params "192.0.2.1" 0
           (set_helo ("x" +:+ crlf +:+ "Bcc: v") busy)); reflexivity.
Defined.

Lemma drain_all_terminates_witness :
  drain_all toy_params "192.0.2.1" toy_handler 0 (buffered "") (line "D" +:+ "x.") busy idle_world
  <> OutOfFuel.
Proof.
  apply (drain_all_terminates toy_params "192.0.2.1" toy_handler 0 (buffered "") (line "D" +:+ "x.")
           busy idle_world).
Defined.

Definition greeted := run_protocol toy_params "192.0.2.1" toy_handler 0 toy_script rr_default new_session
  (mk_world "" [] []) ["220 " +:+ hostname toy_params +:+ " ESMTP ready" +:+ crlf].

Lemma starttls_forgets_witness :
  map mail_recipients (handed (snd toy_final)) = [["alice"]] /\ (let '(e, _, _, _) := toy_run in e <> EndStartTls).
Proof.
  split; [vm_compute; reflexivity|].
  destruct greeted as [[[[e1 s1] w1] written1] rest1] eqn:E.
  assert (e1 = EndStartTls) as ->.
  { change e1 with (fst (fst (fst (fst (e1, s1, w1, written1, rest1))))). rewrite <- E. vm_compute. reflexivity. }
  pose proof (starttls_forgets toy_params "192.0.2.1" toy_handler 0 toy_script
    [mk_turn 3 (Bytes (line "Ralice" +:+ line "Q")) true] [] s1 w1 written1 rest1 eq_refl E) as H.
  cbv zeta in H. destruct (run_protocol _ _ _ _ _ _ _ _ _) as [[[[e s] w] written] rest] eqn:E2.
  destruct H as [Hrun Hend]. unfold toy_run. by rewrite Hrun.
Defined.
