(* ===== verification/Authn.v ===== *)
(** [crates/owney-authn]: what the server records about a message's
    authentication (src/lib.rs), and the DNS cache behind it (src/cache.rs).

    The checks themselves are [mail_auth]'s: the class [MailAuth].  The result
    types are its enumerations, with the error payloads as text. *)
From S2P Require Import Prelude Text Bytes.

Open Scope string_scope.

(** ** [mail_auth] *)

Inductive SpfResult := SpfPass | SpfFail | SpfSoftFail | SpfNeutral | SpfTempError | SpfPermError | SpfNone.
Inductive DkimResult :=
  | DkimPass | DkimNeutral (e : string) | DkimFail (e : string) | DkimPermError (e : string)
  | DkimTempError (e : string) | DkimNone.
Inductive IprevResult :=
  | IprevPass | IprevFail (e : string) | IprevTempError (e : string) | IprevPermError (e : string)
  | IprevNone.
Inductive DmarcResult :=
  | DmarcPass | DmarcFail (e : string) | DmarcTempError (e : string) | DmarcPermError (e : string)
  | DmarcNone.
Inductive Policy := PolicyNone | PolicyQuarantine | PolicyReject | PolicyUnspecified.

Record Signature := mk_signature { sig_d : string; sig_s : string; sig_t : Z; sig_x : Z }.
Record DkimOutput := mk_dkim_output { signature : option Signature; dkim_output_result : DkimResult }.
Record DmarcOutput := mk_dmarc_output {
  spf_result : DmarcResult;
  dkim_result : DmarcResult;
  policy : Policy
}.

Class MailAuth := {
  Message : Type;
  verify_iprev : string -> IprevResult;                               (* remote ip *)
  verify_spf_ehlo : string -> string -> string -> SpfResult;          (* ip, helo, host *)
  verify_spf_mail_from : string -> string -> string -> string -> SpfResult;
  message_parse : list Z -> option Message;
  verify_dkim : Message -> list DkimOutput;
  verify_arc : Message -> DkimResult;
  verify_dmarc : Message -> list DkimOutput -> string -> SpfResult -> DmarcOutput
}.

(** ** Verdicts *)

Record AuthInput := mk_auth_input {
  remote_ip : string;
  helo : string;
  mail_from : string;
  raw : list Z
}.

Record DkimSummary := mk_dkim_summary {
  domain : string;
  selector : string;
  result_ : string;
  signature_at : Z;
  expires_at : Z
}.

Record AuthVerdict := mk_verdict {
  iprev : string;
  spf : string;
  dkim : list DkimSummary;
  arc : string;
  dmarc : string;
  dmarc_policy : string
}.

(** [DkimSummary::expired_at]. *)
Definition expired_at (d : DkimSummary) (now : Z) : bool :=
  negb (expires_at d =? 0)%Z && (expires_at d <=? now)%Z.

Inductive SpfStatus := SPass | SFail | SSoftFail | SNeutral | STempError | SPermError | SNone.

Definition spf_parse (token : string) : SpfStatus :=
  if String.eqb token "pass" then SPass
  else if String.eqb token "fail" then SFail
  else if String.eqb token "softfail" then SSoftFail
  else if String.eqb token "neutral" then SNeutral
  else if String.eqb token "temperror" then STempError
  else if String.eqb token "permerror" then SPermError
  else SNone.

Definition spf_as_str (s : SpfStatus) : string :=
  match s with
  | SPass => "pass" | SFail => "fail" | SSoftFail => "softfail" | SNeutral => "neutral"
  | STempError => "temperror" | SPermError => "permerror" | SNone => "none"
  end.

Inductive DkimStatus := DPass | DNeutral | DFail | DTempError | DPermError | DNone.

Definition dkim_parse (token : string) : DkimStatus :=
  if String.eqb token "pass" then DPass
  else if String.eqb token "neutral" then DNeutral
  else if String.eqb token "fail" then DFail
  else if String.eqb token "temperror" then DTempError
  else if String.eqb token "permerror" then DPermError
  else DNone.

Definition dkim_as_str (s : DkimStatus) : string :=
  match s with
  | DPass => "pass" | DNeutral => "neutral" | DFail => "fail" | DTempError => "temperror"
  | DPermError => "permerror" | DNone => "none"
  end.

Inductive DmarcFailReason := Unaligned | NotPermitted | MismatchedIdentifiers | OtherReason.
Inductive DmarcStatus :=
  | MPass | MFail (reason : DmarcFailReason) | MTempError | MPermError | MNone.

Definition dmarc_parse (token : string) : DmarcStatus :=
  if String.eqb token "pass" then MPass
  else if String.eqb token "fail" then MFail OtherReason
  else if String.eqb token "temperror" then MTempError
  else if String.eqb token "permerror" then MPermError
  else MNone.

Definition dmarc_as_str (s : DmarcStatus) : string :=
  match s with
  | MPass => "pass" | MFail _ => "fail" | MTempError => "temperror" | MPermError => "permerror"
  | MNone => "none"
  end.

(** [AuthVerdict::timeout_verdict]. *)
Definition timeout_verdict : AuthVerdict :=
  mk_verdict "temperror" "temperror" [] "temperror" "temperror" "none".

Definition spf_status (v : AuthVerdict) : SpfStatus := spf_parse (spf v).
Definition dmarc_status (v : AuthVerdict) : DmarcStatus := dmarc_parse (dmarc v).
Definition arc_status (v : AuthVerdict) : DkimStatus := dkim_parse (arc v).
Definition dkim_statuses (v : AuthVerdict) : list DkimStatus :=
  map (fun d => dkim_parse (result_ d)) (dkim v).

(** [AuthVerdict::summary]. *)
Definition summary (v : AuthVerdict) : string :=
  let shown := match dkim v with
               | [] => "none"
               | l => join ", " (map (fun d => result_ d +:+ " (" +:+ domain d +:+ ")") l)
               end in
  "iprev=" +:+ iprev v +:+ " spf=" +:+ spf v +:+ " dkim=" +:+ shown +:+ " arc=" +:+ arc v
  +:+ " dmarc=" +:+ dmarc v +:+ " (policy=" +:+ dmarc_policy v +:+ ")".

Definition quoted_id (authserv_id : string) : string :=
  if negb (str_all (fun c => negb (Ascii.eqb c ";" || is_ws c || is_control c)) authserv_id)
  then str_of quote +:+ replace_with quote ("\" +:+ str_of quote) authserv_id +:+ str_of quote
  else authserv_id.

(** [AuthVerdict::authentication_results]: its parts, then the folded value. *)
Definition auth_parts (v : AuthVerdict) (authserv_id : string) : list string :=
  ([quoted_id authserv_id; "iprev=" +:+ iprev v; "spf=" +:+ spf v]
   ++ match dkim v with [] => ["dkim=none"] | _ => [] end
   ++ map (fun d => "dkim=" +:+ result_ d +:+ " header.d=" +:+ domain d
                    +:+ " header.s=" +:+ selector d) (dkim v)
   ++ ["arc=" +:+ arc v; "dmarc=" +:+ dmarc v +:+ " policy.dmarc=" +:+ dmarc_policy v])%list.

Definition fold_sep : string := ";" +:+ crlf +:+ str_of tab.
Definition authentication_results (v : AuthVerdict) (authserv_id : string) : string :=
  join fold_sep (auth_parts v authserv_id).

(** ** Result names *)

Definition spf_result_str (r : SpfResult) : string :=
  match r with
  | SpfPass => "pass" | SpfFail => "fail" | SpfSoftFail => "softfail" | SpfNeutral => "neutral"
  | SpfTempError => "temperror" | SpfPermError => "permerror" | SpfNone => "none"
  end.
Definition dkim_result_str (r : DkimResult) : string :=
  match r with
  | DkimPass => "pass" | DkimNeutral _ => "neutral" | DkimFail _ => "fail"
  | DkimPermError _ => "permerror" | DkimTempError _ => "temperror" | DkimNone => "none"
  end.
Definition iprev_result_str (r : IprevResult) : string :=
  match r with
  | IprevPass => "pass" | IprevFail _ => "fail" | IprevTempError _ => "temperror"
  | IprevPermError _ => "permerror" | IprevNone => "none"
  end.
Definition dmarc_result_str (r : DmarcResult) : string :=
  match r with
  | DmarcPass => "pass" | DmarcFail _ => "fail" | DmarcTempError _ => "temperror"
  | DmarcPermError _ => "permerror" | DmarcNone => "none"
  end.
Definition policy_str (p : Policy) : string :=
  match p with
  | PolicyNone => "none" | PolicyQuarantine => "quarantine" | PolicyReject => "reject"
  | PolicyUnspecified => "unspecified"
  end.

(** [strongest_dmarc]. *)
Definition strongest_dmarc (output : DmarcOutput) : string :=
  match spf_result output, dkim_result output with
  | DmarcPass, _ => "pass"
  | _, DmarcPass => "pass"
  | DmarcNone, DmarcNone => "none"
  | s, DmarcNone => dmarc_result_str s
  | _, d => dmarc_result_str d
  end.

(** ** Verification *)

Section Verify.
Context `{MailAuth}.
(** [Authenticator::hostname]. *)
Variable hostname : string.

Definition dkim_summary (output : DkimOutput) : DkimSummary :=
  mk_dkim_summary (match signature output with Some s => sig_d s | None => "" end)
    (match signature output with Some s => sig_s s | None => "" end)
    (dkim_result_str (dkim_output_result output))
    (match signature output with Some s => sig_t s | None => 0%Z end)
    (match signature output with Some s => sig_x s | None => 0%Z end).

(** [Authenticator::verify_inner]. *)
Definition verify_inner (input : AuthInput) : AuthVerdict :=
  let ip := verify_iprev (remote_ip input) in
  let spf := if String.eqb (mail_from input) ""
             then verify_spf_ehlo (remote_ip input) (helo input) hostname
             else verify_spf_mail_from (remote_ip input) (helo input) hostname (mail_from input) in
  match message_parse (raw input) with
  | Some message =>
      let outputs := verify_dkim message in
      let mail_from_domain := match rsplit_once "@" (mail_from input) with
                              | Some (_, d) => d
                              | None => helo input
                              end in
      let dmarc := verify_dmarc message outputs mail_from_domain spf in
      mk_verdict (iprev_result_str ip) (spf_result_str spf) (map dkim_summary outputs)
        (dkim_result_str (verify_arc message)) (strongest_dmarc dmarc) (policy_str (policy dmarc))
  | None =>
      mk_verdict (iprev_result_str ip) (spf_result_str spf) [] "none" "none" "none"
  end.

(** [Authenticator::verify]: [elapsed] says that the ten seconds ran out. *)
Definition verify (elapsed : bool) (input : AuthInput) : AuthVerdict :=
  if elapsed then timeout_verdict else verify_inner input.
End Verify.

(** ** The DNS cache *)

Section Cache.
Context {V : Type}.

Record MemoryCache := mk_cache {
  entries : gmap string (V * Z);
  capacity : nat
}.

Definition cache_new (capacity : nat) : MemoryCache := mk_cache ∅ capacity.

(** [get]: an expired entry is removed. *)
Definition cache_get (now : Z) (name : string) (c : MemoryCache) : option V * MemoryCache :=
  match entries c !! name with
  | Some (value, valid_until) =>
      if (now <? valid_until)%Z then (Some value, c)
      else (None, mk_cache (delete name (entries c)) (capacity c))
  | None => (None, c)
  end.

Definition cache_remove (name : string) (c : MemoryCache) : option V * MemoryCache :=
  (option_map fst (entries c !! name), mk_cache (delete name (entries c)) (capacity c)).

Definition cache_insert (key : string) (value : V) (valid_until : Z) (c : MemoryCache) : MemoryCache :=
  let kept := if (capacity c <=? size (entries c))%nat then ∅ else entries c in
  mk_cache (<[key := (value, valid_until)]> kept) (capacity c).
End Cache.
Arguments MemoryCache : clear implicits.

(** ** Lemmas *)

Definition no_break (s : string) : bool :=
  str_all (fun c => negb (Ascii.eqb c cr || Ascii.eqb c lf)) s.

Lemma no_break_app a b : no_break (a +:+ b) = no_break a && no_break b.
Proof. apply str_all_app. Qed.

Lemma find_fold_sep l r :
  no_break l = true -> find_split fold_sep (l +:+ fold_sep +:+ r) = Some (l, r).
Proof.
  induction l as [|a l IH]; intros Hl; [done|].
  rewrite append_cons. change (no_break (String a l)) with
    (negb (Ascii.eqb a cr || Ascii.eqb a lf) && no_break l) in Hl.
  apply andb_true_iff in Hl as [Ha Hl]. cbn [find_split].
  assert (strip_prefix fold_sep (String a (l +:+ fold_sep +:+ r)) = None) as ->.
  { change fold_sep with (String ";" (String cr (String lf (str_of tab)))) at 1.
    cbn [strip_prefix]. destruct (Ascii.eqb ";" a); [|done].
    destruct l as [|b l]; [done|]. rewrite append_cons.
    change (no_break (String b l)) with (negb (Ascii.eqb b cr || Ascii.eqb b lf) && no_break l) in Hl.
    apply andb_true_iff in Hl as [Hb _]. rewrite Ascii.eqb_sym.
    by destruct (Ascii.eqb b cr). }
  by rewrite IH.
Qed.
Lemma find_fold_sep_none l : no_break l = true -> find_split fold_sep l = None.
Proof.
  intros Hl. destruct (find_split fold_sep l) as [[x y]|] eqn:E; [|done].
  apply find_split_Some in E. subst. rewrite !no_break_app in Hl.
  by rewrite andb_false_r in Hl.
Qed.

Lemma split_folded parts :
  parts <> [] -> Forall (fun p => no_break p = true) parts ->
  forall fuel, (length parts <= fuel)%nat ->
  split_str_go fuel fold_sep (join fold_sep parts) = parts.
Proof.
  induction parts as [|p parts IH]; [done|]. intros _ Hall fuel Hfuel.
  apply Forall_cons in Hall as [Hp Hall]. destruct fuel as [|fuel]; [simpl in Hfuel; lia|].
  destruct parts as [|q parts].
  - simpl. by rewrite find_fold_sep_none.
  - change (join fold_sep (p :: q :: parts)) with (p +:+ fold_sep +:+ join fold_sep (q :: parts)).
    cbn [split_str_go]. rewrite find_fold_sep by done. f_equal. apply IH; [done..|].
    simpl in *. lia.
Qed.

Lemma join_length parts : (4 * length parts <= String.length (join fold_sep parts) + 4)%nat.
Proof.
  induction parts as [|p [|q parts] IH]; [simpl; lia..|].
  change (join fold_sep (p :: q :: parts)) with (p +:+ fold_sep +:+ join fold_sep (q :: parts)).
  rewrite !append_length. simpl in *. lia.
Qed.

Lemma no_break_quoted_id s : no_break s = true -> no_break (quoted_id s) = true.
Proof.
  intros Hs. unfold quoted_id. destruct (negb _); [|done]. rewrite !no_break_app.
  assert (no_break (replace_with quote ("\" +:+ str_of quote) s) = true) as ->; [|done].
  induction s as [|a s IH]; [done|]. unfold no_break in Hs. simpl in Hs.
  apply andb_true_iff in Hs as [Ha Hs]. cbn [replace_with]. rewrite no_break_app.
  fold (no_break s) in Hs. rewrite (IH Hs), andb_true_r.
  destruct (Ascii.eqb a quote); [done|]. unfold no_break, str_of. simpl. by rewrite Ha.
Qed.

(** The words the server writes: no line break in any of them. *)
Lemma result_words_plain :
  (forall r, no_break (spf_result_str r) = true) /\ (forall r, no_break (dkim_result_str r) = true)
  /\ (forall r, no_break (iprev_result_str r) = true) /\ (forall r, no_break (dmarc_result_str r) = true)
  /\ (forall p, no_break (policy_str p) = true).
Proof. by split_and!; intros []. Qed.

Lemma strongest_dmarc_word o : exists r, strongest_dmarc o = dmarc_result_str r.
Proof.
  destruct o as [s d p]. unfold strongest_dmarc. simpl.
  destruct s, d; simpl; first [by exists DmarcPass | by exists DmarcNone | by exists (DmarcFail "")
                              | by exists (DmarcTempError "") | by exists (DmarcPermError "")].
Qed.

Section Facts.
Context `{MailAuth}.

(** The identifiers of every signature are free of line breaks (they are
    tag values, which [mail_auth] ends at folding whitespace). *)
Definition plain_signatures : Prop :=
  forall message o s, o ∈ verify_dkim message -> signature o = Some s ->
  no_break (sig_d s) = true /\ no_break (sig_s s) = true.

Lemma auth_parts_plain host elapsed input id :
  plain_signatures -> no_break id = true ->
  Forall (fun p => no_break p = true) (auth_parts (verify host elapsed input) id).
Proof.
  intros Hsig Hid.
  destruct result_words_plain as (Hspf & Hdkim & Hip & Hdmarc & Hpol).
  pose proof (no_break_quoted_id _ Hid) as Hq.
  assert (forall message, Forall (fun d => no_break (domain d) = true /\ no_break (selector d) = true
                                           /\ no_break (result_ d) = true)
                            (map dkim_summary (verify_dkim message))) as Hall.
  { intros message. apply Forall_forall. intros d (o & Ho & ->)%elem_of_map. unfold dkim_summary. simpl.
    specialize (Hsig message o). destruct (signature o) as [s|]; [|naive_solver].
    destruct (Hsig s Ho eq_refl). naive_solver. }
  unfold verify, verify_inner, auth_parts.
  destruct elapsed; [by repeat constructor|].
  destruct (message_parse (raw input)) as [message|]; simpl.
  - repeat (apply Forall_cons; split; [rewrite ?no_break_app, ?Hip, ?Hspf; done|]).
    apply Forall_app. split; [by destruct (map _ _); repeat constructor|].
    apply Forall_app. split.
    + apply Forall_forall. intros p (d & Hd & ->)%elem_of_map.
      specialize (Hall message). rewrite Forall_forall in Hall.
      destruct (Hall d Hd) as (H1 & H2 & H3). rewrite !no_break_app, H1, H2, H3. done.
    + destruct (strongest_dmarc_word (verify_dmarc message (verify_dkim message)
        match rsplit_once "@" (mail_from input) with Some (_, d) => d | None => helo input end
        (if String.eqb (mail_from input) ""
         then verify_spf_ehlo (remote_ip input) (helo input) host
         else verify_spf_mail_from (remote_ip input) (helo input) host (mail_from input)))) as [r ->].
      repeat (apply Forall_cons; split; [rewrite ?no_break_app, ?Hdkim, ?Hdmarc, ?Hpol; done|]).
      done.
  - repeat (apply Forall_cons; split; [rewrite ?no_break_app, ?Hip, ?Hspf; done|]). done.
Qed.

(** The Authentication-Results value unfolds into exactly the server's own
    statements, in order: nothing a sender puts into a signature's tags, and no
    configured host name, adds, removes or splits one. *)
Lemma authentication_results_unfold host elapsed input id :
  plain_signatures -> no_break id = true ->
  split_str fold_sep (authentication_results (verify host elapsed input) id)
  = auth_parts (verify host elapsed input) id.
Proof.
  intros Hsig Hid. unfold split_str, authentication_results.
  pose proof (join_length (auth_parts (verify host elapsed input) id)) as Hlen.
  assert (2 <= length (auth_parts (verify host elapsed input) id))%nat as Htwo by (simpl; lia).
  apply split_folded; [intros E; rewrite E in Htwo; simpl in Htwo; lia|by apply auth_parts_plain|lia].
Qed.

(** The typed views of a stored verdict give back what the checks found: the
    SPF result, a DMARC pass exactly when an aligned identifier passed, one DKIM
    status per signature, and only temporary errors when the time ran out. *)
Lemma verdict_views host input :
  spf_status (verify host false input)
  = match (if String.eqb (mail_from input) ""
           then verify_spf_ehlo (remote_ip input) (helo input) host
           else verify_spf_mail_from (remote_ip input) (helo input) host (mail_from input)) with
    | SpfPass => SPass | SpfFail => SFail | SpfSoftFail => SSoftFail | SpfNeutral => SNeutral
    | SpfTempError => STempError | SpfPermError => SPermError | SpfNone => SNone
    end
  /\ (dmarc_status (verify host false input) = MPass <->
      exists message d spf, message_parse (raw input) = Some message
        /\ d = verify_dmarc message (verify_dkim message)
                 match rsplit_once "@" (mail_from input) with Some (_, d) => d | None => helo input end
                 spf
        /\ spf_status (verify host false input) = spf_parse (spf_result_str spf)
        /\ (spf_result d = DmarcPass \/ dkim_result d = DmarcPass))
  /\ (forall message, message_parse (raw input) = Some message ->
      dkim_statuses (verify host false input)
      = map (fun o => dkim_parse (dkim_result_str (dkim_output_result o))) (verify_dkim message))
  /\ spf_status (verify host true input) = STempError
  /\ dmarc_status (verify host true input) = MTempError
  /\ arc_status (verify host true input) = DTempError
  /\ dkim_statuses (verify host true input) = [].
Proof.
  unfold verify, verify_inner. set (spf := if String.eqb (mail_from input) "" then _ else _).
  assert (forall r r', spf_parse (spf_result_str r) = spf_parse (spf_result_str r') -> r = r') as Hinj
    by (by intros [] []).
  split_and!; try done.
  - destruct (message_parse _); unfold spf_status; simpl; by destruct spf.
  - destruct (message_parse (raw input)) as [message|]; unfold dmarc_status, spf_status; simpl.
    + split.
      * intros Hp. exists message, (verify_dmarc message (verify_dkim message)
          match rsplit_once "@" (mail_from input) with Some (_, d) => d | None => helo input end spf), spf.
        split_and!; try done. revert Hp. unfold strongest_dmarc.
        destruct (spf_result _), (dkim_result _); simpl; try done; auto.
      * intros (m & d & spf' & [= <-] & -> & Hs & Hor). apply Hinj in Hs as <-.
        unfold strongest_dmarc. destruct Hor as [-> | ->]; [done|].
        by destruct (spf_result _).
    + split; [done|]. naive_solver.
  - intros message ->. unfold dkim_statuses. simpl. by rewrite map_map.
Qed.
End Facts.

(** Tokens are stable: parsing what a status prints gives the status back (the
    reason of a DMARC failure is not kept). *)
Lemma status_roundtrip :
  (forall s, spf_parse (spf_as_str s) = s) /\ (forall s, dkim_parse (dkim_as_str s) = s)
  /\ (forall s, dmarc_parse (dmarc_as_str s) = match s with MFail _ => MFail OtherReason | _ => s end).
Proof. by split_and!; intros []. Qed.

(** ** The cache *)
Section CacheFacts.
Context {V : Type}.
Implicit Types (c : MemoryCache V).

Inductive cache_step (now : Z) : MemoryCache V -> MemoryCache V -> Prop :=
  | step_get name c : cache_step now c (snd (cache_get now name c))
  | step_remove name c : cache_step now c (snd (cache_remove name c))
  | step_insert key v until c : cache_step now c (cache_insert key v until c).

Inductive cache_reachable (cap : nat) : Z -> MemoryCache V -> Prop :=
  | reach_new now : cache_reachable cap now (cache_new cap)
  | reach_step now now' c c' :
      cache_reachable cap now c -> (now <= now')%Z -> cache_step now' c c' ->
      cache_reachable cap now' c'.

(** However the cache is used, it never holds more entries than its capacity
    (one, if that is zero), and a lookup returns only a value that is still
    valid. *)
Lemma cache_bounded cap now c :
  cache_reachable cap now c ->
  (size (entries c) <= Nat.max 1 cap)%nat
  /\ forall name v, fst (cache_get now name c) = Some v ->
     exists until, entries c !! name = Some (v, until) /\ (now < until)%Z.
Proof.
  intros Hr. split.
  - assert ((size (entries c) <= Nat.max 1 cap)%nat /\ capacity c = cap) as [? _]; [|done].
    induction Hr as [|now now' c c' Hr [IH Hcap] Hle Hstep].
    + simpl. rewrite map_size_empty. split; [lia|done].
    + destruct Hstep as [name c|name c|key v until c]; simpl.
      * unfold cache_get. destruct (entries c !! name) as [[v u]|]; [|done].
        destruct (now' <? u)%Z; simpl; [done|]. split; [|done].
        rewrite map_size_delete. destruct (entries c !! name); unfold Datatypes.id; simpl; lia.
      * split; [|done].
        rewrite map_size_delete. destruct (entries c !! name); unfold Datatypes.id; simpl; lia.
      * split; [|done]. rewrite map_size_insert.
        destruct (Nat.leb_spec (capacity c) (size (entries c))).
        -- rewrite lookup_empty, map_size_empty. simpl. lia.
        -- destruct (entries c !! key); unfold Datatypes.id; simpl; lia.
  - intros name v. unfold cache_get. destruct (entries c !! name) as [[w u]|]; [|done].
    destruct (Z.ltb_spec now u); [|done]. intros [= ->]. eauto.
Qed.
End CacheFacts.
