(* ===== verification/Store.v ===== *)
(** [crates/owney-storage]: the database, accounts and modseqs (src/lib.rs), and
    aliases (src/aliases.rs).

    SQLite runs one closure at a time on the writer thread (src/db.rs), so each
    operation is one [action] on the tables; a table is the list of its rows in
    insertion order and a SQL statement the list operation it denotes.  The
    constraints are those of src/migrations.rs: primary keys, UNIQUE columns
    (NOCASE where declared) and foreign keys, which are enforced
    ([PRAGMA foreign_keys = ON]).  Ids are the text of a UUID; fresh ids and the
    time are arguments.  Publishing an event appends it to [published]. *)
From S2P Require Import Prelude Text Ident.

Open Scope string_scope.

(** ** Errors ([src/error.rs]); an underlying error is kept as its text *)

Inductive StorageError :=
  | Io (path : string)
  | Sqlite (what : string)
  | Database (what : string)
  | Crypto (what : string)
  | Corrupt (what : string)
  | BadInput (what : string)
  | BlobNotFound (hex : string)
  | AccountNotFound
  | NotAuthorized
  | Conflict (what : string)
  | Closed
  | WriterPanicked (what : string).

(** ** Events ([crates/owney-events]) *)

Inductive DeliveryStatus :=
  | Queued
  | Delivered (recipient : string)
  | TemporaryFailure (recipient reply : string)
  | PermanentFailure (recipient reply : string).

Inductive SecurityEventKind :=
  | PeerKeyChanged (email_id : string)
  | AuthFailure
  | OtherKind.

Inductive Event :=
  | StateChange (account_id : string) (changed : list (DataType * Z))
  | Delivery (account_id submission_id : string) (status : DeliveryStatus)
  | Ai (account_id skill action_id summary : string)
  | Security (account_id : option string) (kind : SecurityEventKind) (detail : string)
  | DoctorCheck (check_name status message : string) (checked_at : Z).

(** ** Rows *)

Record AccountRow := mk_account {
  a_id : string;
  a_email : string;
  a_display_name : option string;
  a_created_at : Z;
  a_disabled_at : option Z
}.

Record MailboxRow := mk_mailbox {
  m_id : string;
  m_account : string;
  m_parent : option string;
  m_name : string;
  m_role : option string;
  m_sort_order : Z;
  m_created : Z;
  m_updated : Z
}.

Record ThreadRow := mk_thread {
  t_id : string;
  t_account : string;
  t_created : Z;
  t_updated : Z
}.

Record EmailRow := mk_email {
  e_id : string;
  e_account : string;
  e_thread : string;
  e_blob : string;
  e_message_id : option string;
  e_subject : option string;
  e_from : option string;
  e_received_at : Z;
  e_size : Z;
  e_created : Z;
  e_updated : Z;
  e_auth_results : option string;
  e_pgp_status : option string;
  e_chat_mode : bool
}.

Record BlobRow := mk_blob {
  b_id : string;
  b_size : Z;
  b_refcount : Z;
  b_created_at : Z
}.

Record QueueRow := mk_queue_row {
  q_id : string;
  q_account : string;
  q_blob : string;
  q_mail_from : string;
  q_recipient : string;
  q_domain : string;
  q_attempts : Z;
  q_next_attempt : Z;
  q_status : string;
  q_last_error : option string;
  q_priority : Z;
  q_created_at : Z;
  q_updated_at : Z
}.

Record Alias := mk_alias {
  al_id : string;
  al_account : string;
  al_email : string;
  al_label : option string;
  al_created_at : Z;
  al_expires_at : option Z;
  al_active : bool
}.

Record ContactRow := mk_contact {
  c_id : string;
  c_account : string;
  c_email : string;
  c_created_at : Z;
  c_updated_at : Z
}.

Record SpamTokenRow := mk_spam_token {
  s_account : string;
  s_token : string;
  s_spam : Z;
  s_ham : Z
}.

Record Db := mk_db {
  accounts : list AccountRow;
  mailboxes : list MailboxRow;
  threads : list ThreadRow;
  emails : list EmailRow;
  email_mailbox : list (string * string);
  email_keyword : list (string * string);
  blobs : list BlobRow;
  states : gmap (string * string) Z;
  queue : list QueueRow;
  aliases : list Alias;
  contacts : list ContactRow;
  spam_tokens : list SpamTokenRow;
  published : list Event
}.

Definition empty_db : Db := mk_db [] [] [] [] [] [] [] ∅ [] [] [] [] [].

(** Field updates, one per table. *)
Definition on_accounts f (d : Db) : Db :=
  mk_db (f (accounts d)) (mailboxes d) (threads d) (emails d) (email_mailbox d) (email_keyword d)
    (blobs d) (states d) (queue d) (aliases d) (contacts d) (spam_tokens d) (published d).
Definition on_mailboxes f (d : Db) : Db :=
  mk_db (accounts d) (f (mailboxes d)) (threads d) (emails d) (email_mailbox d) (email_keyword d)
    (blobs d) (states d) (queue d) (aliases d) (contacts d) (spam_tokens d) (published d).
Definition on_threads f (d : Db) : Db :=
  mk_db (accounts d) (mailboxes d) (f (threads d)) (emails d) (email_mailbox d) (email_keyword d)
    (blobs d) (states d) (queue d) (aliases d) (contacts d) (spam_tokens d) (published d).
Definition on_emails f (d : Db) : Db :=
  mk_db (accounts d) (mailboxes d) (threads d) (f (emails d)) (email_mailbox d) (email_keyword d)
    (blobs d) (states d) (queue d) (aliases d) (contacts d) (spam_tokens d) (published d).
Definition on_email_mailbox f (d : Db) : Db :=
  mk_db (accounts d) (mailboxes d) (threads d) (emails d) (f (email_mailbox d)) (email_keyword d)
    (blobs d) (states d) (queue d) (aliases d) (contacts d) (spam_tokens d) (published d).
Definition on_email_keyword f (d : Db) : Db :=
  mk_db (accounts d) (mailboxes d) (threads d) (emails d) (email_mailbox d) (f (email_keyword d))
    (blobs d) (states d) (queue d) (aliases d) (contacts d) (spam_tokens d) (published d).
Definition on_blobs f (d : Db) : Db :=
  mk_db (accounts d) (mailboxes d) (threads d) (emails d) (email_mailbox d) (email_keyword d)
    (f (blobs d)) (states d) (queue d) (aliases d) (contacts d) (spam_tokens d) (published d).
Definition on_states f (d : Db) : Db :=
  mk_db (accounts d) (mailboxes d) (threads d) (emails d) (email_mailbox d) (email_keyword d)
    (blobs d) (f (states d)) (queue d) (aliases d) (contacts d) (spam_tokens d) (published d).
Definition on_queue f (d : Db) : Db :=
  mk_db (accounts d) (mailboxes d) (threads d) (emails d) (email_mailbox d) (email_keyword d)
    (blobs d) (states d) (f (queue d)) (aliases d) (contacts d) (spam_tokens d) (published d).
Definition on_aliases f (d : Db) : Db :=
  mk_db (accounts d) (mailboxes d) (threads d) (emails d) (email_mailbox d) (email_keyword d)
    (blobs d) (states d) (queue d) (f (aliases d)) (contacts d) (spam_tokens d) (published d).
Definition on_contacts f (d : Db) : Db :=
  mk_db (accounts d) (mailboxes d) (threads d) (emails d) (email_mailbox d) (email_keyword d)
    (blobs d) (states d) (queue d) (aliases d) (f (contacts d)) (spam_tokens d) (published d).
Definition on_spam_tokens f (d : Db) : Db :=
  mk_db (accounts d) (mailboxes d) (threads d) (emails d) (email_mailbox d) (email_keyword d)
    (blobs d) (states d) (queue d) (aliases d) (contacts d) (f (spam_tokens d)) (published d).
Definition on_published f (d : Db) : Db :=
  mk_db (accounts d) (mailboxes d) (threads d) (emails d) (email_mailbox d) (email_keyword d)
    (blobs d) (states d) (queue d) (aliases d) (contacts d) (spam_tokens d) (f (published d)).

Abbreviation SM A := (action Db StorageError A).

(** [EventBus::publish]. *)
Definition publish (e : Event) : SM unit := modify (on_published (fun l => (l ++ [e])%list)).

(** A constraint: the statement fails unless the test holds. *)
Definition require (test : Db -> bool) (what : string) : SM unit :=
  fun d => if test d then (Ok tt, d) else (Err (Sqlite what), d).

(** ** Shared SQL *)

(** Column comparison under NOCASE. *)
Definition nocase_eqb (a b : string) : bool := String.eqb (to_lowercase a) (to_lowercase b).

Definition account_exists (id : string) (d : Db) : bool :=
  existsb (fun a => String.eqb (a_id a) id) (accounts d).

Definition opt_eqb (a b : option string) : bool :=
  match a, b with
  | Some x, Some y => String.eqb x y
  | None, None => true
  | _, _ => false
  end.

(** [UPDATE t SET ... WHERE test]: the number of rows is not used by the callers. *)
Definition update_where {R} (test : R -> bool) (f : R -> R) (rows : list R) : list R :=
  map (fun r => if test r then f r else r) rows.

(** [SELECT ... WHERE test] with [query_row(...).optional()]: the first row. *)
Definition select_first {R} (test : R -> bool) (rows : list R) : option R := List.find test rows.

(** [x as i64] for a [u64] or a 64-bit [usize]. *)
Definition as_i64 (z : Z) : Z := if (z <? 2 ^ 63)%Z then z else (z - 2 ^ 64)%Z.

(** [LIMIT n OFFSET k]: a negative limit is no limit, a negative offset none. *)
Definition sql_limit {R} (n : Z) (rows : list R) : list R :=
  if (n <? 0)%Z then rows else take (Z.to_nat n) rows.
Definition sql_offset {R} (k : Z) (rows : list R) : list R := drop (Z.to_nat k) rows.

(** ** Modseqs *)

Definition i64_max : Z := 2 ^ 63 - 1.

Definition state_of (account : string) (t : DataType) (d : Db) : Z :=
  default 0%Z (states d !! (account, data_type_as_str t)).

(** [bump]: insert 1 or add one, and return the new value.  The column is a
    64-bit INTEGER of a STRICT table: past its maximum the update fails. *)
Definition bump (account : string) (t : DataType) : SM Z :=
  require (account_exists account) "FOREIGN KEY constraint failed" ;;;
  require (fun d => (state_of account t d <? i64_max)%Z) "cannot store REAL value in INTEGER column" ;;;
  (fun d => let m := (state_of account t d + 1)%Z in
            (Ok m, on_states (fun s => <[(account, data_type_as_str t) := m]> s) d)).

(** [Storage::state]. *)
Definition state (account : string) (t : DataType) : SM Z := gets (state_of account t).

(** ** Accounts *)

Record Account := mk_account_view {
  id : string;
  email : string;
  display_name : option string;
  created_at : Z
}.

Definition DEFAULT_MAILBOXES : list (string * string * Z) :=
  [("Inbox", "inbox", 0%Z); ("Screener", "screener", 1%Z); ("Drafts", "drafts", 2%Z);
   ("Sent", "sent", 3%Z); ("Archive", "archive", 4%Z); ("Junk", "junk", 5%Z);
   ("Trash", "trash", 6%Z)].

Definition insert_account (row : AccountRow) : SM unit :=
  require (fun d => negb (existsb (fun a => String.eqb (a_id a) (a_id row)
                                            || nocase_eqb (a_email a) (a_email row)) (accounts d)))
    "UNIQUE constraint failed: accounts" ;;;
  modify (on_accounts (fun l => (l ++ [row])%list)).

Definition mailbox_conflict (row m : MailboxRow) : bool :=
  String.eqb (m_id m) (m_id row)
  || (String.eqb (m_account m) (m_account row)
      && String.eqb (default "" (m_parent m)) (default "" (m_parent row))
      && String.eqb (m_name m) (m_name row))
  || (String.eqb (m_account m) (m_account row)
      && match m_role m, m_role row with
         | Some r, Some r' => String.eqb r r'
         | _, _ => false
         end).

Definition insert_mailbox (row : MailboxRow) : SM unit :=
  require (account_exists (m_account row)) "FOREIGN KEY constraint failed" ;;;
  require (fun d => negb (existsb (mailbox_conflict row) (mailboxes d)))
    "UNIQUE constraint failed: mailboxes" ;;;
  modify (on_mailboxes (fun l => (l ++ [row])%list)).

Section Accounts.
(** Parsing the text of a UUID read back from the database ([uuid] crate). *)
Variable parse_uuid : string -> option string.

(** [row_to_account]. *)
Definition row_to_account (row : AccountRow) : result StorageError Account :=
  match parse_uuid (a_id row) with
  | None => Err (Sqlite "conversion failure")
  | Some i => Ok (mk_account_view i (a_email row) (a_display_name row) (a_created_at row))
  end.

(** [query_row(..., row_to_account).optional()]. *)
Definition optional_account (row : option AccountRow) : result StorageError (option Account) :=
  match row with
  | None => Ok None
  | Some r => a <-? row_to_account r ;; Ok (Some a)
  end.

(** [Storage::account]. *)
Definition account (i : string) : SM (option Account) :=
  fun d => (optional_account (select_first (fun a => String.eqb (a_id a) i) (accounts d)), d).

(** [Storage::account_by_email]: active accounts only. *)
Definition account_by_email (mail : string) : SM (option Account) :=
  let mail := to_lowercase (trim mail) in
  fun d => (optional_account
              (select_first (fun a => nocase_eqb (a_email a) mail
                                      && match a_disabled_at a with None => true | _ => false end)
                 (accounts d)), d).

(** [Storage::account_by_email_any_state]. *)
Definition account_by_email_any_state (mail : string) : SM (option Account) :=
  let mail := to_lowercase (trim mail) in
  fun d => (optional_account (select_first (fun a => nocase_eqb (a_email a) mail) (accounts d)), d).

(** [Storage::accounts], in order of creation. *)
Definition list_accounts : SM (list Account) :=
  fun d => (collect_results
              (map row_to_account
                 (order_by (fun a b => (a_created_at a <=? a_created_at b)%Z) (accounts d))), d).

(** The inner loop of [create_account]: the default mailboxes, under fresh ids. *)
Definition insert_default_mailboxes (acct : string) (fresh : nat -> string) (modseq : Z) : SM unit :=
  for_each (zip (seq 0 7) DEFAULT_MAILBOXES)
    (fun '(n, (name, role, sort_order)) =>
       insert_mailbox (mk_mailbox (fresh n) acct None name (Some role) sort_order modseq modseq)).

(** [Storage::create_account]. *)
Definition create_account (account_id : string) (fresh : nat -> string) (now : Z)
    (mail : string) (name : option string) : SM Account :=
  changed <- transaction
    (insert_account (mk_account account_id (to_lowercase (trim mail)) name now None) ;;;
     modseq <- bump account_id Mailbox ;;
     insert_default_mailboxes account_id fresh modseq ;;;
     ret [(Mailbox, modseq)]) ;;
  publish (StateChange account_id changed) ;;;
  found <- account account_id ;;
  lift (ok_or found AccountNotFound).

Definition set_disabled (v : option Z) (a : AccountRow) : AccountRow :=
  mk_account (a_id a) (a_email a) (a_display_name a) (a_created_at a) v.

(** [Storage::disable_account] and [Storage::enable_account].  The statement of the
    second names [?2] and is given one value, which rusqlite refuses before running it. *)
Definition disable_account (now : Z) (i : string) : SM unit :=
  modify (on_accounts (update_where (fun a => String.eqb (a_id a) i) (set_disabled (Some now)))).
Definition enable_account (i : string) : SM unit :=
  fail (Sqlite "Wrong number of parameters passed to query. Got 1, needed 2").

(** ** Aliases *)

(** [Storage::create_alias]. *)
Definition create_alias (fresh : string) (now : Z) (account_id alias_email : string)
    (label : option string) (expires_at : option Z) : SM Alias :=
  let row := mk_alias fresh account_id (to_lowercase (trim alias_email)) label now expires_at true in
  require (account_exists account_id) "FOREIGN KEY constraint failed" ;;;
  require (fun d => negb (existsb (fun a => String.eqb (al_id a) fresh
                                            || nocase_eqb (al_email a) (al_email row)) (aliases d)))
    "UNIQUE constraint failed: aliases" ;;;
  modify (on_aliases (fun l => (l ++ [row])%list)) ;;;
  ret row.

(** [active = 1 AND (expires_at IS NULL OR expires_at > now)]. *)
Definition alias_live (now : Z) (a : Alias) : bool :=
  al_active a && match al_expires_at a with None => true | Some t => (now <? t)%Z end.

(** [row_to_alias]: an unparsable account id is replaced by a fresh one. *)
Definition row_to_alias (fresh : string) (a : Alias) : Alias :=
  mk_alias (al_id a) (default fresh (parse_uuid (al_account a))) (al_email a) (al_label a)
    (al_created_at a) (al_expires_at a) (al_active a).

(** [Storage::list_aliases_for_account]. *)
Definition list_aliases_for_account (fresh : string) (now : Z) (account_id : string)
  : SM (list Alias) :=
  gets (fun d =>
    map (row_to_alias fresh)
      (order_by (fun a b => (al_created_at b <=? al_created_at a)%Z)
         (List.filter (fun a => String.eqb (al_account a) account_id && alias_live now a)
            (aliases d)))).

(** The INNER JOIN of [alias_target_account]. *)
Definition alias_join (now : Z) (mail : string) (d : Db) : list AccountRow :=
  flat_map (fun al =>
    if nocase_eqb (al_email al) mail && alias_live now al
    then List.filter (fun a => String.eqb (a_id a) (al_account al)
                               && match a_disabled_at a with None => true | _ => false end)
           (accounts d)
    else []) (aliases d).

(** [Storage::alias_target_account]. *)
Definition alias_target_account (now : Z) (alias_email : string) : SM (option Account) :=
  fun d => (optional_account (head (alias_join now (to_lowercase (trim alias_email)) d)), d).

(** [Storage::deactivate_alias]. *)
Definition deactivate_alias (i : string) : SM unit :=
  modify (on_aliases (update_where (fun a => String.eqb (al_id a) i)
    (fun a => mk_alias (al_id a) (al_account a) (al_email a) (al_label a) (al_created_at a)
                (al_expires_at a) false))).

(** [Storage::resolve_recipient]: an error of the direct lookup is not
    reported; the alias lookup decides then. *)
Definition resolve_recipient (now : Z) (mail : string) : SM (option Account) :=
  fun d => match account_by_email mail d with
           | (Ok (Some a), d') => (Ok (Some a), d')
           | (_, d') => alias_target_account now mail d'
           end.

(** [Storage::find_alias_id]. *)
Definition find_alias_id (mail : string) : SM (option string) :=
  gets (fun d => option_map al_id
    (select_first (fun a => nocase_eqb (al_email a) (to_lowercase (trim mail))) (aliases d))).
End Accounts.

(** ** Queue statistics *)

(** [Storage::queue_stats]: the counts come back as [u32]. *)
Definition queue_stats : SM (nat * nat) :=
  gets (fun d =>
    (length (List.filter (fun q => String.eqb (q_status q) "queued"
                                   || String.eqb (q_status q) "failed") (queue d)),
     length (List.filter (fun q => String.eqb (q_status q) "failed") (queue d)))).
