(* ===== verification/StoreFacts.v ===== *)
(** Correctness of the account and alias operations of [Store]: modseqs, account
    creation as one atomic step, and recipient resolution. *)
From S2P Require Import Prelude Text Ident Store.

Open Scope string_scope.

(** ** Modseqs *)

Lemma data_type_as_str_inj t t' : data_type_as_str t = data_type_as_str t' -> t = t'.
Proof. by destruct t, t'. Qed.

Lemma require_ok test what d r d' :
  require test what d = (Ok r, d') <-> test d = true /\ d' = d /\ r = tt.
Proof. unfold require. destruct (test d), r; naive_solver. Qed.

Lemma bump_ok acct t d m d' :
  bump acct t d = (Ok m, d') ->
  m = (state_of acct t d + 1)%Z /\ (m <= i64_max)%Z
  /\ d' = on_states (fun s => <[(acct, data_type_as_str t) := m]> s) d.
Proof.
  unfold bump. intros H. inv_bind H. apply require_ok in E as (_ & -> & _).
  inv_bind H. apply require_ok in E as (Hlt & -> & _). apply Z.ltb_lt in Hlt.
  simplify_eq. split_and!; [done|lia|done].
Qed.

Lemma bump_iff acct t d m d' :
  bump acct t d = (Ok m, d') <->
  account_exists acct d = true /\ (state_of acct t d < i64_max)%Z /\ m = (state_of acct t d + 1)%Z
  /\ d' = on_states (fun s => <[(acct, data_type_as_str t) := m]> s) d.
Proof.
  split.
  - intros H. pose proof (bump_ok _ _ _ _ _ H) as (-> & ? & ->). unfold bump in H. inv_bind H.
    apply require_ok in E as (? & _ & _). split_and!; [done|lia|done|done].
  - intros (Ha & Hlt & -> & ->). unfold bump, bind, require.
    apply Z.ltb_lt in Hlt. by rewrite Ha, Hlt.
Qed.

Lemma state_of_bumped acct t acct' t' m d :
  state_of acct' t' (on_states (fun s => <[(acct, data_type_as_str t) := m]> s) d) =
  if bool_decide (acct = acct' /\ t = t') then m else state_of acct' t' d.
Proof.
  unfold state_of. simpl. case_bool_decide as H.
  - destruct H as [-> ->]. by rewrite lookup_insert_eq.
  - rewrite lookup_insert_ne; [done|]. intros [= -> Ht%data_type_as_str_inj]. naive_solver.
Qed.

(** A bump returns the next value of exactly one (account, type) counter,
    never wraps, and [state] reads it back; every other counter and every
    table keeps its contents. *)
Lemma bump_spec acct t d m d' :
  bump acct t d = (Ok m, d') ->
  (m = state_of acct t d + 1 /\ m <= i64_max)%Z
  /\ state acct t d' = (Ok m, d')
  /\ (forall acct' t', (acct', t') <> (acct, t) -> state_of acct' t' d' = state_of acct' t' d)
  /\ on_states (fun _ => states d) d' = d.
Proof.
  intros H%bump_ok. destruct H as (-> & Hle & ->). split; [done|]. split_and!.
  - unfold state, gets. rewrite state_of_bumped. by rewrite bool_decide_true.
  - intros acct' t' Hne. rewrite state_of_bumped. rewrite bool_decide_false; [done|]. naive_solver.
  - by destruct d.
Qed.

(** ** Well-formed account and alias tables *)

Record tables_ok (d : Db) : Prop := {
  ok_account_ids : NoDup (map a_id (accounts d));
  ok_account_emails : NoDup (map (fun a => to_lowercase (a_email a)) (accounts d));
  ok_alias_ids : NoDup (map al_id (aliases d));
  ok_alias_emails : NoDup (map (fun a => to_lowercase (al_email a)) (aliases d));
  ok_alias_accounts : Forall (fun al => account_exists (al_account al) d = true) (aliases d);
  ok_mailboxes : Forall (fun m => account_exists (m_account m) d = true) (mailboxes d)
}.

Lemma nocase_eqb_eq a b : nocase_eqb a b = true <-> to_lowercase a = to_lowercase b.
Proof. apply String.eqb_eq. Qed.

Lemma update_where_map {R B} (g : R -> B) test f (l : list R) :
  (forall r, g (f r) = g r) -> map g (update_where test f l) = map g l.
Proof.
  intros Hg. unfold update_where. rewrite map_map. apply map_ext. intros r.
  destruct (test r); [apply Hg|done].
Qed.

Lemma account_exists_elem i d : account_exists i d = true <-> exists a, a ∈ accounts d /\ a_id a = i.
Proof. unfold account_exists. rewrite existsb_elem. by setoid_rewrite String.eqb_eq. Qed.

(** *** Recipient resolution *)

Section Resolution.
Variable parse_uuid : string -> option string.

(** Every stored account id reads back as itself. *)
Definition ids_parse (d : Db) : Prop := Forall (fun a => parse_uuid (a_id a) = Some (a_id a)) (accounts d).

Definition view (a : AccountRow) : Account :=
  mk_account_view (a_id a) (a_email a) (a_display_name a) (a_created_at a).

Lemma row_to_account_view d a :
  ids_parse d -> a ∈ accounts d -> row_to_account parse_uuid a = Ok (view a).
Proof.
  intros Hids Ha. unfold ids_parse in Hids. rewrite Forall_forall in Hids.
  unfold row_to_account. by rewrite (Hids _ Ha).
Qed.

(** An active account under an address. *)
Definition owns (d : Db) (mail : string) (a : AccountRow) : Prop :=
  a ∈ accounts d /\ a_disabled_at a = None /\ to_lowercase (a_email a) = to_lowercase (trim mail).

(** An alias that is switched on and whose expiry, if any, is in the future. *)
Definition usable (now : Z) (al : Alias) : Prop :=
  al_active al = true /\ forall t, al_expires_at al = Some t -> (now < t)%Z.

Lemma alias_live_usable now al : alias_live now al = true <-> usable now al.
Proof.
  unfold alias_live, usable. rewrite andb_true_iff.
  destruct (al_expires_at al) as [t|]; [rewrite Z.ltb_lt|]; naive_solver.
Qed.

(** An active account reached through a live alias. *)
Definition aliased (d : Db) (now : Z) (mail : string) (a : AccountRow) : Prop :=
  a ∈ accounts d /\ a_disabled_at a = None
  /\ exists al, al ∈ aliases d /\ al_account al = a_id a /\ usable now al
               /\ to_lowercase (al_email al) = to_lowercase (trim mail).

Lemma account_by_email_spec d mail :
  tables_ok d -> ids_parse d ->
  exists o, account_by_email parse_uuid mail d = (Ok o, d)
    /\ forall v, o = Some v <-> exists a, owns d mail a /\ v = view a.
Proof.
  intros Hd Hids. unfold account_by_email, select_first.
  set (test := fun a : AccountRow => _).
  assert (forall a, a ∈ accounts d -> test a = true <-> owns d mail a) as Htest.
  { intros a Ha. unfold test, owns. rewrite andb_true_iff, nocase_eqb_eq, to_lowercase_idem.
    destruct (a_disabled_at a); naive_solver. }
  destruct (List.find test (accounts d)) as [a|] eqn:E; simpl.
  - apply find_Some_elem in E as [Ha Ht]. apply Htest in Ht; [|done].
    rewrite (row_to_account_view _ _ Hids Ha). simpl.
    exists (Some (view a)). split; [done|]. intros v. split; [intros [= <-]; eauto|].
    intros (a' & (Ha' & Hdis' & Hm') & ->). f_equal. f_equal.
    apply (NoDup_map_inj _ _ _ _ (ok_account_emails _ Hd)); [done..|].
    destruct Ht as (_ & _ & Hm). congruence.
  - exists None. split; [done|]. intros v. split; [done|]. intros (a & Ho & ->).
    assert (a ∈ accounts d) as Ha by apply Ho. apply (find_None_elem _ _ _ E) in Ha as Hf.
    apply Htest in Ho; [congruence|done].
Qed.

Lemma alias_join_elem d now mail a :
  a ∈ alias_join now (to_lowercase (trim mail)) d <-> aliased d now mail a.
Proof.
  unfold alias_join, aliased. rewrite elem_of_flat_map. split.
  - intros (al & Hal & Ha). destruct (nocase_eqb _ _ && _) eqn:E; [|by apply elem_of_nil in Ha].
    apply andb_true_iff in E as [Hm Hlive%alias_live_usable]. apply nocase_eqb_eq in Hm.
    rewrite to_lowercase_idem in Hm. apply elem_of_filter_bool in Ha as [Ha Hc].
    apply andb_true_iff in Hc as [Hi%String.eqb_eq Hdis].
    split; [done|]. split; [by destruct (a_disabled_at a)|]. exists al. naive_solver.
  - intros (Ha & Hdis & al & Hal & Hacct & Hlive & Hm). exists al. split; [done|].
    assert (nocase_eqb (al_email al) (to_lowercase (trim mail)) = true) as ->.
    { apply nocase_eqb_eq. by rewrite to_lowercase_idem. }
    apply alias_live_usable in Hlive as ->. simpl. apply elem_of_filter_bool. split; [done|].
    by rewrite Hacct, String.eqb_refl, Hdis.
Qed.

Lemma aliased_unique d now mail a a' :
  tables_ok d -> aliased d now mail a -> aliased d now mail a' -> a = a'.
Proof.
  intros Hd (Ha & _ & al & Hal & Hi & _ & Hm) (Ha' & _ & al' & Hal' & Hi' & _ & Hm').
  assert (al = al') as ->.
  { apply (NoDup_map_inj _ _ _ _ (ok_alias_emails _ Hd)); [done..|]. congruence. }
  apply (NoDup_map_inj _ _ _ _ (ok_account_ids _ Hd)); [done..|]. congruence.
Qed.

Lemma alias_target_account_spec d now mail :
  tables_ok d -> ids_parse d ->
  exists o, alias_target_account parse_uuid now mail d = (Ok o, d)
    /\ forall v, o = Some v <-> exists a, aliased d now mail a /\ v = view a.
Proof.
  intros Hd Hids. unfold alias_target_account.
  destruct (alias_join now (to_lowercase (trim mail)) d) as [|a l] eqn:E; simpl.
  - exists None. split; [done|]. intros v. split; [done|]. intros (a & Ha & ->).
    apply alias_join_elem in Ha. rewrite E in Ha. by apply elem_of_nil in Ha.
  - assert (aliased d now mail a) as Ha by (apply alias_join_elem; rewrite E; by left).
    rewrite (row_to_account_view _ _ Hids (proj1 Ha)). simpl. exists (Some (view a)).
    split; [done|]. intros v. split; [intros [= <-]; eauto|].
    intros (a' & Ha' & ->). by rewrite (aliased_unique _ _ _ _ _ Hd Ha Ha').
Qed.

Lemma resolve_recipient_run d now mail :
  tables_ok d -> ids_parse d ->
  exists o, resolve_recipient parse_uuid now mail d = (Ok o, d)
    /\ forall v, o = Some v <->
         exists a, v = view a /\
           (owns d mail a \/ ((forall a', ~ owns d mail a') /\ aliased d now mail a)).
Proof.
  intros Hd Hids. unfold resolve_recipient.
  destruct (account_by_email_spec d mail Hd Hids) as ([v0|] & -> & Hdirect).
  - exists (Some v0). split; [done|]. intros v.
    destruct (proj1 (Hdirect v0) eq_refl) as (a0 & Ho & Hv). split.
    + intros [= <-]. eauto.
    + intros (a & -> & [Ha|[Hno _]]); [|by apply Hno in Ho].
      symmetry. rewrite <- (proj2 (Hdirect (view a))); [done|]. eauto.
  - destruct (alias_target_account_spec d now mail Hd Hids) as (o & -> & Halias).
    exists o. split; [done|]. intros v. rewrite Halias.
    assert (forall a, ~ owns d mail a) as Hno.
    { intros a Ha. assert (None = Some (view a)); [|done]. apply Hdirect. eauto. }
    split; [naive_solver|]. intros (a & -> & [Ha|[_ Ha]]); [by apply Hno in Ha|eauto].
Qed.

(** C37: An address resolves to an account exactly when an active account has
    that address, or none has and a live alias of an active account has it;
    disabled accounts, inactive aliases and expired aliases never receive. *)
Theorem resolve_recipient_spec d now mail :
  tables_ok d -> ids_parse d ->
  exists o, resolve_recipient parse_uuid now mail d = (Ok o, d)
    /\ forall v, o = Some v <->
         exists a, v = view a /\
           (owns d mail a \/ ((forall a', ~ owns d mail a') /\ aliased d now mail a)).
Proof. apply resolve_recipient_run. Qed.

(** Disabling an account cuts off its mail, direct or through aliases;
    enabling it again fails, whatever the account. *)
Lemma disable_account_blocks d now i mail d' r :
  tables_ok d -> ids_parse d ->
  disable_account now i d = (r, d') ->
  (exists o, resolve_recipient parse_uuid now mail d' = (Ok o, d')
             /\ forall v, o = Some v -> id v <> i)
  /\ exists e, enable_account i d' = (Err e, d').
Proof.
  intros Hd Hids [= <- <-]. unfold modify.
  set (test := fun a => String.eqb (a_id a) i).
  split; [|by eexists].
  - set (d' := on_accounts _ d).
    assert (tables_ok d') as Hd'.
    { assert (forall j, account_exists j d' = account_exists j d) as He.
      { intros j. unfold account_exists, d'. simpl. unfold update_where.
        induction (accounts d) as [|a l IH]; simpl; [done|].
        rewrite IH. by destruct (test a). }
      constructor; simpl; rewrite ?update_where_map by done; try apply Hd.
      - eapply Forall_impl; [apply (ok_alias_accounts _ Hd)|]. simpl. intros. by rewrite He.
      - eapply Forall_impl; [apply (ok_mailboxes _ Hd)|]. simpl. intros. by rewrite He. }
    assert (forall a, a ∈ accounts d' -> parse_uuid (a_id a) = Some (a_id a)
                      /\ (a_disabled_at a = None -> a_id a <> i)) as Hrow.
    { intros a Ha. unfold d', update_where in Ha. simpl in Ha.
      apply elem_of_map in Ha as (b & Hb & ->).
      unfold ids_parse in Hids. rewrite Forall_forall in Hids. specialize (Hids _ Hb).
      destruct (test b) eqn:Et; [done|]. split; [done|]. intros _.
      by apply String.eqb_neq in Et. }
    assert (ids_parse d') as Hids' by (apply Forall_forall; intros a Ha; by apply Hrow).
    destruct (resolve_recipient_run d' now mail Hd' Hids') as (o & Ho & Hspec).
    exists o. split; [exact Ho|]. intros v Hv.
    apply Hspec in Hv as (a & -> & [(Ha & Hdis & _)|[_ (Ha & Hdis & _)]]); by apply Hrow.
Qed.
End Resolution.
