(* ===== verification/Mail.v ===== *)
(** [crates/owney-storage]: message ingestion (src/ingest.rs) and the mail
    queries and updates behind the JMAP mail types (src/mail_queries.rs).

    Blobs live outside the database: [BlobStore] is the interface [Blob]
    implements.  The MIME parser and the UUID parser are parameters; fresh ids
    and the clock are arguments. *)
From S2P Require Import Prelude Text Bytes Ident Store.

Open Scope string_scope.

(** ** The blob store, as ingestion sees it *)

Class BlobStore := {
  files : Type;
  blob_put : list Z -> files -> result StorageError BlobId * files;
  blob_get : BlobId -> files -> result StorageError (list Z)
}.

(** [good_files] is the store's invariant, [storable] the plaintexts under
    consideration: what is put is read back, and later puts do not disturb it. *)
Class BlobStoreLaws `{BlobStore} := {
  good_files : files -> Prop;
  storable : list Z -> Prop;
  blob_put_good raw f r f' :
    good_files f -> storable raw -> blob_put raw f = (r, f') -> good_files f';
  blob_put_wf raw f i f' : blob_put raw f = (Ok i, f') -> wf_blob_id i;
  blob_put_get raw f i f' :
    good_files f -> storable raw -> blob_put raw f = (Ok i, f') -> blob_get i f' = Ok raw;
  blob_put_keeps raw f r f' i raw' :
    good_files f -> storable raw -> blob_put raw f = (r, f') ->
    wf_blob_id i -> blob_get i f = Ok raw' -> blob_get i f' = Ok raw'
}.

(** ** The storage handle: database, blob files, indexing tasks spawned *)

Record IndexTask := mk_index_task {
  ix_account : string;
  ix_email : string;
  ix_from : string;
  ix_to : string;
  ix_subject : string;
  ix_body : string
}.

Record World `{BlobStore} := mk_world {
  db : Db;
  blob_files : files;
  index_tasks : list IndexTask
}.
Arguments mk_world {_} _ _ _.
Arguments db {_} _.
Arguments blob_files {_} _.
Arguments index_tasks {_} _.

(** What [mail_parser] finds in a message. *)
Record ParsedMessage := mk_parsed_message {
  pm_references : option (list string);
  pm_in_reply_to : option string;
  pm_body_text : option string;
  pm_message_id : option string;
  pm_subject : option string;
  pm_from : option (list (option string))
}.

Record ParsedMeta := mk_meta {
  message_id : option string;
  subject : option string;
  from_addr : option string;
  to_addrs : list string;
  body_text : string;
  references : list string
}.

Definition default_meta : ParsedMeta := mk_meta None None None [] "" [].

Inductive MailboxTarget :=
  | Role (role : string)
  | Id (mailbox : string).

Record IngestedEmail := mk_ingested {
  in_id : string;
  in_thread : string;
  in_blob : BlobId
}.

Record EmailSummary := mk_summary {
  es_id : string;
  es_thread : string;
  es_from : option string;
  es_subject : option string;
  es_received_at : Z;
  es_size : Z;
  es_auth_results : option string
}.

Definition opt_is (o : option string) (x : string) : bool :=
  match o with Some y => String.eqb y x | None => false end.

(** [INSERT INTO blobs ... ON CONFLICT (id) DO NOTHING]. *)
Definition record_blob (now : Z) (hex : string) (size : Z) : SM unit :=
  modify (on_blobs (fun l =>
    if existsb (fun b => String.eqb (b_id b) hex) l then l
    else (l ++ [mk_blob hex size 0 now])%list)).

Definition link_blob (hex : string) : SM unit :=
  modify (on_blobs (update_where (fun b => String.eqb (b_id b) hex)
    (fun b => mk_blob (b_id b) (b_size b) (b_refcount b + 1) (b_created_at b)))).

Definition insert_thread (row : ThreadRow) : SM unit :=
  require (account_exists (t_account row)) "FOREIGN KEY constraint failed" ;;;
  require (fun d => negb (existsb (fun t => String.eqb (t_id t) (t_id row)) (threads d)))
    "UNIQUE constraint failed: threads.id" ;;;
  modify (on_threads (fun l => (l ++ [row])%list)).

Definition touch_thread (i : string) (modseq : Z) : SM unit :=
  modify (on_threads (update_where (fun t => String.eqb (t_id t) i)
    (fun t => mk_thread (t_id t) (t_account t) (t_created t) modseq))).

Definition thread_exists (i : string) (d : Db) : bool :=
  existsb (fun t => String.eqb (t_id t) i) (threads d).
Definition email_exists (i : string) (d : Db) : bool :=
  existsb (fun e => String.eqb (e_id e) i) (emails d).
Definition mailbox_exists (i : string) (d : Db) : bool :=
  existsb (fun m => String.eqb (m_id m) i) (mailboxes d).

Definition insert_email (row : EmailRow) : SM unit :=
  require (fun d => account_exists (e_account row) d && thread_exists (e_thread row) d)
    "FOREIGN KEY constraint failed" ;;;
  require (fun d => negb (email_exists (e_id row) d)) "UNIQUE constraint failed: emails.id" ;;;
  modify (on_emails (fun l => (l ++ [row])%list)).

Definition pair_eqb (p q : string * string) : bool :=
  String.eqb p.1 q.1 && String.eqb p.2 q.2.

Definition insert_email_mailbox (e m : string) : SM unit :=
  require (fun d => email_exists e d && mailbox_exists m d) "FOREIGN KEY constraint failed" ;;;
  require (fun d => negb (existsb (pair_eqb (e, m)) (email_mailbox d)))
    "UNIQUE constraint failed: email_mailbox" ;;;
  modify (on_email_mailbox (fun l => (l ++ [(e, m)])%list)).

(** [INSERT OR IGNORE INTO email_keyword]. *)
Definition insert_keyword (e k : string) : SM unit :=
  require (email_exists e) "FOREIGN KEY constraint failed" ;;;
  modify (on_email_keyword (fun l =>
    if existsb (pair_eqb (e, k)) l then l else (l ++ [(e, k)])%list)).

(** [INSERT OR IGNORE INTO contacts]: a conflict on the id or on (account,
    email), compared NOCASE, keeps the old row. *)
Definition upsert_contact (fresh account mail : string) (now : Z) : SM unit :=
  require (account_exists account) "FOREIGN KEY constraint failed" ;;;
  modify (on_contacts (fun l =>
    if existsb (fun c => String.eqb (c_id c) fresh
                         || (String.eqb (c_account c) account && nocase_eqb (c_email c) mail)) l
    then l else (l ++ [mk_contact fresh account mail now now])%list)).

Section Ingest.
Context `{BlobStore}.
Variable parse_uuid : string -> option string.
(** [mail_parser::MessageParser::parse]. *)
Variable parse_message : list Z -> option ParsedMessage.

Abbreviation WM A := (action World StorageError A).

Definition on_db {A} (m : SM A) : WM A :=
  fun w => let '(r, d) := m (db w) in (r, mk_world d (blob_files w) (index_tasks w)).

Definition spawn_index (t : IndexTask) : WM unit :=
  modify (fun w => mk_world (db w) (blob_files w) (index_tasks w ++ [t])%list).

(** [parse_meta]. *)
Definition parse_meta (raw : list Z) : ParsedMeta :=
  match parse_message raw with
  | None => default_meta
  | Some m =>
      let refs := default [] (pm_references m) in
      let refs := match pm_in_reply_to m with
                  | Some irt => (refs ++ [irt])%list
                  | None => refs
                  end in
      mk_meta (pm_message_id m) (pm_subject m)
        (addrs ← pm_from m; first ← head addrs; first)
        [] (default "" (pm_body_text m)) refs
  end.

(** [Storage::put_blob]. *)
Definition put_blob (now : Z) (plaintext : list Z) : WM BlobId :=
  fun w =>
    match blob_put plaintext (blob_files w) with
    | (Err e, f) => (Err e, mk_world (db w) f (index_tasks w))
    | (Ok i, f) =>
        (on_db (record_blob now (to_hex i) (Z.of_nat (length plaintext))) ;;; ret i)
          (mk_world (db w) f (index_tasks w))
    end.

(** [Storage::get_blob]. *)
Definition get_blob (i : BlobId) : WM (list Z) :=
  fun w => (blob_get i (blob_files w), w).

(** [parse_id]. *)
Definition parse_id (s : string) : result StorageError string :=
  ok_or (parse_uuid s) (Corrupt ("bad id in database: " +:+ s)).

(** [resolve_thread]: the thread of the newest message of the account that a
    reference names, references tried in order. *)
Fixpoint resolve_thread_refs (account : string) (refs : list string) (d : Db)
  : result StorageError (option string) :=
  match refs with
  | [] => Ok None
  | reference :: refs' =>
      match head (order_by (fun a b => (e_received_at b <=? e_received_at a)%Z)
                    (List.filter (fun e => String.eqb (e_account e) account
                                           && opt_is (e_message_id e) reference) (emails d))) with
      | Some e => t <-? parse_id (e_thread e) ;; Ok (Some t)
      | None => resolve_thread_refs account refs' d
      end
  end.
Definition resolve_thread (account : string) (meta : ParsedMeta) : SM (option string) :=
  fun d => (resolve_thread_refs account (references meta) d, d).

(** The mailbox a message lands in. *)
Definition find_target (account : string) (target : MailboxTarget) : SM string :=
  match target with
  | Role role => fun d =>
      (ok_or (option_map m_id (select_first (fun m => String.eqb (m_account m) account
                                                      && opt_is (m_role m) role) (mailboxes d)))
         (Corrupt ("account " +:+ account +:+ " has no " +:+ role +:+ " mailbox")), d)
  | Id i => fun d =>
      (ok_or (option_map m_id (select_first (fun m => String.eqb (m_account m) account
                                                      && String.eqb (m_id m) i) (mailboxes d)))
         (Corrupt ("no mailbox " +:+ i)), d)
  end.

(** The ids [Uuid::now_v7] draws during one ingestion. *)
Record Fresh := mk_fresh {
  fresh_email : string;
  fresh_thread : string;
  fresh_contact : string
}.

(** The transaction of [ingest_email_into]. *)
Definition ingest_tx (fresh : Fresh) (now : Z) (account : string) (meta : ParsedMeta)
    (size : Z) (blob : BlobId) (target : MailboxTarget) (auth_results : option string)
    (chat_mode : bool) : SM (IngestedEmail * list (DataType * Z)) :=
  mailbox_id <- find_target account target ;;
  found <- resolve_thread account meta ;;
  email_seq <- bump account Email ;;
  thread_seq <- bump account Thread ;;
  mailbox_seq <- bump account Mailbox ;;
  let thread_id := default (fresh_thread fresh) found in
  match found with
  | None => insert_thread (mk_thread thread_id account thread_seq thread_seq)
  | Some _ => touch_thread thread_id thread_seq
  end ;;;
  insert_email (mk_email (fresh_email fresh) account thread_id (to_hex blob) (message_id meta)
                  (subject meta) (from_addr meta) now size email_seq email_seq auth_results None
                  chat_mode) ;;;
  insert_email_mailbox (fresh_email fresh) mailbox_id ;;;
  link_blob (to_hex blob) ;;;
  ret (mk_ingested (fresh_email fresh) thread_id blob,
       [(Email, email_seq); (Thread, thread_seq); (Mailbox, mailbox_seq)]).

(** [Storage::ingest_email_into]; a failed contact upsert is only logged. *)
Definition ingest_email_into (fresh : Fresh) (now : Z) (account : string) (raw : list Z)
    (target : MailboxTarget) (auth_results : option string) (chat_mode : bool)
  : WM IngestedEmail :=
  let meta := parse_meta raw in
  blob <- put_blob now raw ;;
  r <- on_db (transaction (ingest_tx fresh now account meta (Z.of_nat (length raw)) blob target
                             auth_results chat_mode)) ;;
  let '(ingested, changed) := r in
  on_db (publish (StateChange account changed)) ;;;
  spawn_index (mk_index_task account (in_id ingested) (default "" (from_addr meta))
                 (join ", " (to_addrs meta)) (default "" (subject meta)) (body_text meta)) ;;;
  match from_addr meta with
  | None => ret tt
  | Some from => fun w =>
      (Ok tt, snd (on_db (upsert_contact (fresh_contact fresh) account (to_lowercase from) now) w))
  end ;;;
  ret ingested.

(** [Storage::ingest_email] and [Storage::ingest_email_with_chat]. *)
Definition ingest_email (fresh : Fresh) (now : Z) (account : string) (raw : list Z)
    (mailbox_role : string) (auth_results : option string) : WM IngestedEmail :=
  ingest_email_into fresh now account raw (Role mailbox_role) auth_results false.
Definition ingest_email_with_chat (fresh : Fresh) (now : Z) (account : string) (raw : list Z)
    (mailbox_role : string) (auth_results : option string) (chat_mode : bool)
  : WM IngestedEmail :=
  ingest_email_into fresh now account raw (Role mailbox_role) auth_results chat_mode.

(** [FROM emails e JOIN email_mailbox em ON em.email_id = e.id]. *)
Definition join_placements (d : Db) : list (EmailRow * string) :=
  flat_map (fun e => flat_map (fun p => if String.eqb p.1 (e_id e) then [(e, p.2)] else [])
                       (email_mailbox d)) (emails d).

(** [Storage::list_mailbox]. *)
Definition list_mailbox (account role : string) (limit : Z) : SM (list EmailSummary) :=
  fun d =>
    let rows := flat_map (fun '(e, m) =>
                  if String.eqb (e_account e) account
                     && existsb (fun mb => String.eqb (m_id mb) m && opt_is (m_role mb) role)
                          (mailboxes d)
                  then [e] else []) (join_placements d) in
    (collect_results
       (map (fun e => i <-? parse_id (e_id e) ;; t <-? parse_id (e_thread e) ;;
                      Ok (mk_summary i t (e_from e) (e_subject e) (e_received_at e) (e_size e)
                            (e_auth_results e)))
          (sql_limit (as_i64 limit)
             (order_by (fun a b => (e_received_at b <=? e_received_at a)%Z) rows))), d).

(** [Storage::email_raw].  A stored hex text that makes the parser panic does
    not reach the caller as a value; [Corrupt] stands for it. *)
Definition email_raw (email_id : string) : WM (option (list Z)) :=
  blob_id <- on_db (gets (fun d => option_map e_blob
               (select_first (fun e => String.eqb (e_id e) email_id) (emails d)))) ;;
  match blob_id with
  | None => ret None
  | Some hex => match from_str hex with
                | Parsed i => raw <- get_blob i ;; ret (Some raw)
                | _ => fail (Corrupt ("bad blob id " +:+ hex))
                end
  end.
End Ingest.
