(* ===== verification/MailQueries.v ===== *)
(** [crates/owney-storage/src/mail_queries.rs]: what the JMAP mail types read
    and write, one definition per method. *)
From S2P Require Import Prelude Text Bytes Ident Store Mail.

Open Scope string_scope.

Record MailboxInfo := mk_mailbox_info {
  mi_id : string;
  mi_parent_id : option string;
  mi_name : string;
  mi_role : option string;
  mi_sort_order : Z;
  mi_total_emails : nat;
  mi_unread_emails : nat;
  mi_updated_modseq : Z
}.

Record EmailInfo := mk_email_info {
  ei_row : EmailRow;
  ei_mailbox_ids : list string;
  ei_keywords : list string
}.

Record ChangesResult := mk_changes {
  created : list string;
  updated : list string;
  new_state : Z;
  has_more : bool
}.

Definition has_kw (d : Db) (email keyword : string) : bool :=
  existsb (pair_eqb (email, keyword)) (email_keyword d).
Definition in_mbox (d : Db) (email mailbox : string) : bool :=
  existsb (pair_eqb (email, mailbox)) (email_mailbox d).

(** Byte order of text, as the BINARY collation compares. *)
Definition str_leb (a b : string) : bool := String.leb a b.

(** [Storage::mailboxes]. *)
Definition mailbox_le (a b : MailboxRow) : bool :=
  (m_sort_order a <? m_sort_order b)%Z
  || ((m_sort_order a =? m_sort_order b)%Z && str_leb (m_name a) (m_name b)).

Definition mailbox_info (d : Db) (m : MailboxRow) : MailboxInfo :=
  let placed := List.filter (fun p => String.eqb p.2 (m_id m)) (email_mailbox d) in
  mk_mailbox_info (m_id m) (m_parent m) (m_name m) (m_role m) (m_sort_order m)
    (length placed)
    (length (List.filter (fun p => negb (has_kw d p.1 "$seen")) placed))
    (m_updated m).

Definition mailbox_list (account : string) : SM (list MailboxInfo) :=
  gets (fun d => map (mailbox_info d)
    (order_by mailbox_le (List.filter (fun m => String.eqb (m_account m) account) (mailboxes d)))).

(** [Storage::emails_by_ids]: unknown ids are skipped. *)
Definition email_info (d : Db) (e : EmailRow) : EmailInfo :=
  mk_email_info e
    (map snd (List.filter (fun p => String.eqb p.1 (e_id e)) (email_mailbox d)))
    (map snd (List.filter (fun p => String.eqb p.1 (e_id e)) (email_keyword d))).

Definition emails_by_ids (account : string) (ids : list string) : SM (list EmailInfo) :=
  gets (fun d => flat_map (fun i =>
    match select_first (fun e => String.eqb (e_account e) account && String.eqb (e_id e) i)
            (emails d) with
    | None => []
    | Some e => [email_info d e]
    end) ids).

(** [ORDER BY received_at DESC, id DESC]. *)
Definition newest_first (a b : EmailRow) : bool :=
  (e_received_at b <? e_received_at a)%Z
  || ((e_received_at b =? e_received_at a)%Z && str_leb (e_id b) (e_id a)).

(** [Storage::query_emails]: (ids of the window, total, state).  The join with
    one mailbox yields each of its emails once, the pair being the key. *)
Definition query_emails (account : string) (in_mailbox : option string) (position limit : Z)
  : SM (list string * nat * Z) :=
  gets (fun d =>
    let rows := match in_mailbox with
                | Some m => List.filter (fun e => String.eqb (e_account e) account
                                                  && in_mbox d (e_id e) m) (emails d)
                | None => List.filter (fun e => String.eqb (e_account e) account) (emails d)
                end in
    (map e_id (sql_limit (as_i64 limit) (sql_offset (as_i64 position) (order_by newest_first rows))),
     length rows, state_of account Email d)).

(** [Storage::changes_since].  The three tables with modseqs, as (id, account,
    created, updated). *)
Record Tracked := mk_tracked {
  tr_id : string;
  tr_account : string;
  tr_created : Z;
  tr_updated : Z
}.

Definition tracked_rows (t : DataType) (d : Db) : result StorageError (list Tracked) :=
  match t with
  | Email => Ok (map (fun e => mk_tracked (e_id e) (e_account e) (e_created e) (e_updated e)) (emails d))
  | Mailbox => Ok (map (fun m => mk_tracked (m_id m) (m_account m) (m_created m) (m_updated m))
                    (mailboxes d))
  | Thread => Ok (map (fun t => mk_tracked (t_id t) (t_account t) (t_created t) (t_updated t))
                    (threads d))
  | EmailSubmission => Err (Corrupt "submission changes not tracked yet")
  end.

Definition changed_after (account : string) (since : Z) (rows : list Tracked) : list Tracked :=
  order_by (fun a b => (tr_updated a <=? tr_updated b)%Z)
    (List.filter (fun r => String.eqb (tr_account r) account && (as_i64 since <? tr_updated r)%Z) rows).

Definition changes_since (account : string) (t : DataType) (since max : Z) : SM ChangesResult :=
  fun d =>
    (all <-? tracked_rows t d ;;
     let rows := sql_limit (as_i64 (max + 1)) (changed_after account since all) in
     let page := take (Z.to_nat max) rows in
     Ok (mk_changes
           (map tr_id (List.filter (fun r => (since <? tr_created r)%Z) page))
           (map tr_id (List.filter (fun r => negb (since <? tr_created r)%Z) page))
           (state_of account t d)
           (max <? Z.of_nat (length rows))%Z), d).

(** [Storage::thread_emails]: threads without a visible message are left out. *)
Definition oldest_first (a b : EmailRow) : bool :=
  (e_received_at a <? e_received_at b)%Z
  || ((e_received_at a =? e_received_at b)%Z && str_leb (e_id a) (e_id b)).

Definition thread_emails (account : string) (thread_ids : list string)
  : SM (list (string * list string)) :=
  gets (fun d => flat_map (fun t =>
    match map e_id (order_by oldest_first
            (List.filter (fun e => String.eqb (e_account e) account && String.eqb (e_thread e) t)
               (emails d))) with
    | [] => []
    | ids => [(t, ids)]
    end) thread_ids).

(** [Storage::update_email]. *)
Definition drop_rows (i : string) (l : list (string * string)) : list (string * string) :=
  List.filter (fun p => negb (String.eqb p.1 i)) l.

Definition set_updated (modseq : Z) (e : EmailRow) : EmailRow :=
  mk_email (e_id e) (e_account e) (e_thread e) (e_blob e) (e_message_id e) (e_subject e) (e_from e)
    (e_received_at e) (e_size e) (e_created e) modseq (e_auth_results e) (e_pgp_status e)
    (e_chat_mode e).

Definition ensure (test : bool) (e : StorageError) : SM unit :=
  if test then ret tt else fail e.

Definition replace_keywords (i : string) (keywords : list string) : SM unit :=
  modify (on_email_keyword (drop_rows i)) ;;;
  for_each keywords (fun k => insert_keyword i (to_lowercase k)).

Definition check_mailbox (account m : string) : SM unit :=
  ok <- gets (fun d => existsb (fun mb => String.eqb (m_account mb) account
                                          && String.eqb (m_id mb) m) (mailboxes d)) ;;
  ensure ok (Corrupt ("no mailbox " +:+ m)).

Definition replace_mailboxes (account i : string) (mailbox_ids : list string) : SM unit :=
  ensure (negb (Nat.eqb (length mailbox_ids) 0))
    (Corrupt "an email must belong to at least one mailbox") ;;;
  for_each mailbox_ids (check_mailbox account) ;;;
  modify (on_email_mailbox (drop_rows i)) ;;;
  for_each mailbox_ids (fun m => insert_email_mailbox i m).

Definition update_email_tx (account i : string) (keywords mailbox_ids : option (list string))
  : SM (list (DataType * Z)) :=
  exists_ <- gets (fun d => existsb (fun e => String.eqb (e_account e) account
                                              && String.eqb (e_id e) i) (emails d)) ;;
  ensure exists_ (Corrupt ("no email " +:+ i)) ;;;
  match keywords with Some ks => replace_keywords i ks | None => ret tt end ;;;
  match mailbox_ids with Some ms => replace_mailboxes account i ms | None => ret tt end ;;;
  email_seq <- bump account Email ;;
  mailbox_seq <- bump account Mailbox ;;
  modify (on_emails (update_where (fun e => String.eqb (e_id e) i) (set_updated email_seq))) ;;;
  ret [(Email, email_seq); (Mailbox, mailbox_seq)].

Definition update_email (account i : string) (keywords mailbox_ids : option (list string)) : SM unit :=
  changed <- transaction (update_email_tx account i keywords mailbox_ids) ;;
  publish (StateChange account changed).

(** ** Filters

    The two filter methods splice their arguments into the SQL text.  A clause
    is that text with the test SQLite runs for it as long as no argument holds
    a quote; otherwise the text is another statement, run by [run_raw_sql]. *)

Record Clause := mk_clause {
  c_sql : string;
  c_args : list string;
  c_test : Db -> EmailRow -> bool
}.

Definition quoted (s : string) : string := "'" +:+ s +:+ "'".
Definition keyword_sql (k : string) : string :=
  "EXISTS (SELECT 1 FROM email_keyword ek WHERE ek.email_id = e.id AND ek.keyword = "
  +:+ quoted k +:+ ")".

Definition opt_clause {A} (f : A -> Clause) (o : option A) : list Clause :=
  match o with Some a => [f a] | None => [] end.

Definition mailbox_clause (m : string) : Clause :=
  mk_clause ("EXISTS (SELECT 1 FROM email_mailbox em WHERE em.email_id = e.id AND em.mailbox_id = "
             +:+ quoted m +:+ ")") [m] (fun d e => in_mbox d (e_id e) m).
Definition keyword_clause (k : string) : Clause :=
  mk_clause (keyword_sql k) [k] (fun d e => has_kw d (e_id e) k).
Definition not_keyword_clause (k : string) : Clause :=
  mk_clause ("NOT " +:+ keyword_sql k) [k] (fun d e => negb (has_kw d (e_id e) k)).
Definition after_clause (t : Z) : Clause :=
  mk_clause ("e.received_at > " +:+ pretty t) [] (fun _ e => (t <? e_received_at e)%Z).
Definition before_clause (t : Z) : Clause :=
  mk_clause ("e.received_at < " +:+ pretty t) [] (fun _ e => (e_received_at e <? t)%Z).
Definition thread_clause (t : string) : Clause :=
  mk_clause ("e.thread_id = " +:+ quoted t) [t] (fun _ e => String.eqb (e_thread e) t).
Definition flagged_clause (b : bool) : Clause :=
  if b then keyword_clause "$Flagged" else not_keyword_clause "$Flagged".
Definition unread_clause (b : bool) : Clause :=
  if b then not_keyword_clause "$Seen" else keyword_clause "$Seen".

Definition has_quote (s : string) : bool := contains "'" s.
Definition injected (cs : list Clause) : bool := existsb has_quote (flat_map c_args cs).
Definition where_text (cs : list Clause) : string := join " AND " (map c_sql cs).
Definition holds (cs : list Clause) (d : Db) (e : EmailRow) : bool :=
  forallb (fun c => c_test c d e) cs.

Section Filters.
Variable parse_uuid : string -> option string.
(** What SQLite answers to a SELECT whose text is not the one meant. *)
Variable run_raw_sql : string -> Db -> result StorageError (list string).
Variable run_raw_count : string -> Db -> result StorageError nat.

Definition account_clause (account : string) : Clause :=
  mk_clause ("e.account_id = " +:+ quoted account) [account]
    (fun _ e => String.eqb (e_account e) account).
Definition bound_account_clause (account : string) : Clause :=
  mk_clause "e.account_id = ?1" [] (fun _ e => String.eqb (e_account e) account).
Definition ids_clause (ids : list string) : Clause :=
  mk_clause ("e.id IN (" +:+ join "," (map quoted ids) +:+ ")") ids
    (fun _ e => existsb (String.eqb (e_id e)) ids).

(** [Storage::filter_emails]; [fresh] replaces an id that does not parse. *)
Definition filter_emails (fresh account : string) (email_ids : list string)
    (in_mailbox has_keyword not_keyword : option string) (after before : option Z)
    (all_in_thread : option string) (is_flagged is_unread : option bool) : SM (list string) :=
  match email_ids with
  | [] => ret []
  | _ =>
      let cs := ([bound_account_clause account; ids_clause email_ids]
                 ++ opt_clause mailbox_clause in_mailbox
                 ++ opt_clause keyword_clause has_keyword
                 ++ opt_clause not_keyword_clause not_keyword
                 ++ opt_clause after_clause after
                 ++ opt_clause before_clause before
                 ++ opt_clause thread_clause all_in_thread
                 ++ opt_clause flagged_clause is_flagged
                 ++ opt_clause unread_clause is_unread)%list in
      fun d =>
        (ids <-? (if injected cs
                  then run_raw_sql ("SELECT e.id FROM emails e WHERE " +:+ where_text cs
                                    +:+ " ORDER BY e.received_at DESC, e.id DESC") d
                  else Ok (map e_id (order_by newest_first (List.filter (holds cs d) (emails d))))) ;;
         Ok (map (fun i => default fresh (parse_uuid i)) ids), d)
  end.

(** The WHERE clause of [query_emails_with_filters]. *)
Definition query_clauses (account : string) (in_mailbox : option string) (after before : option Z)
    (all_in_thread : option string) (is_flagged is_unread : option bool) : list Clause :=
  ([account_clause account]
   ++ opt_clause mailbox_clause in_mailbox
   ++ opt_clause after_clause after
   ++ opt_clause before_clause before
   ++ opt_clause thread_clause all_in_thread
   ++ opt_clause flagged_clause is_flagged
   ++ opt_clause unread_clause is_unread)%list.

(** [Storage::query_emails_with_filters]. *)
Definition query_emails_with_filters (account : string) (in_mailbox : option string)
    (after before : option Z) (all_in_thread : option string) (is_flagged is_unread : option bool)
    (position limit : Z) : SM (list string * nat * Z) :=
  let cs := query_clauses account in_mailbox after before all_in_thread is_flagged is_unread in
  let sql := "SELECT id FROM emails e WHERE " +:+ where_text cs
             +:+ " ORDER BY e.received_at DESC, e.id DESC LIMIT " +:+ pretty limit
             +:+ " OFFSET " +:+ pretty position in
  let total_sql := "SELECT count(*) FROM emails e WHERE " +:+ where_text cs in
  fun d =>
    ((if injected cs
      then ids <-? run_raw_sql sql d ;; total <-? run_raw_count total_sql d ;;
           Ok (ids, total, state_of account Email d)
      else let rows := List.filter (holds cs d) (emails d) in
           Ok (map e_id (sql_limit limit (sql_offset position (order_by newest_first rows))),
               length rows, state_of account Email d)), d).
End Filters.
