(* ===== verification/MailFacts.v ===== *)
(** Correctness of ingestion and of the mail updates: the well-formedness
    invariant of the mail tables, kept by every operation, and what each
    operation commits. *)
From S2P Require Import Prelude Text Bytes Ident Store StoreFacts Mail MailQueries.

Open Scope string_scope.

(** ** What a successful statement did *)

Lemma ret_ok {S E A} (a b : A) (s s' : S) : @ret S E A a s = (Ok b, s') <-> b = a /\ s' = s.
Proof. unfold ret. naive_solver. Qed.

Lemma modify_ok (f : Db -> Db) d r d' :
  @modify Db StorageError f d = (Ok r, d') <-> d' = f d.
Proof. unfold modify. destruct r. naive_solver. Qed.

Lemma insert_account_ok row d r d' :
  insert_account row d = (Ok r, d') ->
  d' = on_accounts (fun l => (l ++ [row])%list) d
  /\ forall a, a ∈ accounts d -> a_id a <> a_id row
                 /\ to_lowercase (a_email a) <> to_lowercase (a_email row).
Proof.
  unfold insert_account. intros H. inv_bind H. apply require_ok in E as (Ht & -> & _).
  apply modify_ok in H as ->. split; [done|]. intros x Hx.
  apply negb_true_iff in Ht. apply (existsb_false_elem _ _ x Ht) in Hx.
  apply orb_false_iff in Hx as [?%String.eqb_neq ?]. split; [done|].
  intros He%nocase_eqb_eq. congruence.
Qed.

Lemma insert_mailbox_ok row d r d' :
  insert_mailbox row d = (Ok r, d') ->
  d' = on_mailboxes (fun l => (l ++ [row])%list) d
  /\ account_exists (m_account row) d = true
  /\ (forall m, m ∈ mailboxes d -> mailbox_conflict row m = false).
Proof.
  unfold insert_mailbox. intros H. inv_bind H. apply require_ok in E as (? & -> & _).
  inv_bind H. apply require_ok in E as (Ht & -> & _). apply modify_ok in H as ->.
  split_and!; [done|done|]. intros m Hm. apply negb_true_iff in Ht. by apply (existsb_false_elem _ _ m Ht).
Qed.

Lemma insert_thread_ok row d r d' :
  insert_thread row d = (Ok r, d') ->
  d' = on_threads (fun l => (l ++ [row])%list) d /\ thread_exists (t_id row) d = false.
Proof.
  unfold insert_thread. intros H. inv_bind H. apply require_ok in E as (? & -> & _).
  inv_bind H. apply require_ok in E as (Ht & -> & _). apply modify_ok in H as ->.
  split; [done|]. by apply negb_true_iff in Ht.
Qed.

Lemma insert_email_ok row d r d' :
  insert_email row d = (Ok r, d') ->
  d' = on_emails (fun l => (l ++ [row])%list) d /\ email_exists (e_id row) d = false.
Proof.
  unfold insert_email. intros H. inv_bind H. apply require_ok in E as (? & -> & _).
  inv_bind H. apply require_ok in E as (Ht & -> & _). apply modify_ok in H as ->.
  split; [done|]. by apply negb_true_iff in Ht.
Qed.

Lemma pair_eqb_eq p q : pair_eqb p q = true <-> p = q.
Proof.
  destruct p, q. unfold pair_eqb. simpl. rewrite andb_true_iff, !String.eqb_eq. naive_solver.
Qed.

Lemma in_pairs p l : existsb (pair_eqb p) l = true <-> p ∈ l.
Proof. rewrite existsb_elem. setoid_rewrite pair_eqb_eq. naive_solver. Qed.

Lemma not_in_pairs p l : existsb (pair_eqb p) l = false <-> p ∉ l.
Proof. rewrite <- not_true_iff_false, in_pairs. done. Qed.

Lemma insert_email_mailbox_ok e m d r d' :
  insert_email_mailbox e m d = (Ok r, d') ->
  d' = on_email_mailbox (fun l => (l ++ [(e, m)])%list) d /\ (e, m) ∉ email_mailbox d.
Proof.
  unfold insert_email_mailbox. intros H. inv_bind H. apply require_ok in E as (? & -> & _).
  inv_bind H. apply require_ok in E as (Ht & -> & _). apply modify_ok in H as ->.
  split; [done|]. by apply negb_true_iff, not_in_pairs in Ht.
Qed.

Lemma email_exists_elem i d : email_exists i d = true <-> exists e, e ∈ emails d /\ e_id e = i.
Proof. unfold email_exists. rewrite existsb_elem. by setoid_rewrite String.eqb_eq. Qed.

Lemma email_exists_false i d e : email_exists i d = false -> e ∈ emails d -> e_id e <> i.
Proof. intros H He. by apply String.eqb_neq, (existsb_false_elem _ _ _ H). Qed.

Lemma thread_exists_false i d t : thread_exists i d = false -> t ∈ threads d -> t_id t <> i.
Proof. intros H He. by apply String.eqb_neq, (existsb_false_elem _ _ _ H). Qed.

Lemma elem_of_update_where {R} test (f : R -> R) l r' :
  r' ∈ update_where test f l <-> exists r, r ∈ l /\ r' = if test r then f r else r.
Proof. apply elem_of_map. Qed.

(** ** The invariant *)

Section Wf.
Variable parse_uuid : string -> option string.

(** A stored UUID text is the one its parser prints back. *)
Definition canonical (i : string) : Prop := parse_uuid i = Some i.

(** A row's modseqs: created once, updated later, never past the counter. *)
Definition seq_ok (d : Db) (t : DataType) (acct : string) (created updated : Z) : Prop :=
  (0 < created <= updated /\ updated <= state_of acct t d)%Z.

Record wf (d : Db) : Prop := {
  wf_tables : tables_ok d;
  wf_thread_ids : NoDup (map t_id (threads d));
  wf_email_ids : NoDup (map e_id (emails d));
  wf_placements : NoDup (email_mailbox d);
  wf_canonical : forall t, t ∈ threads d -> canonical (t_id t);
  wf_email_thread : forall e, e ∈ emails d ->
    exists t, t ∈ threads d /\ t_id t = e_thread e /\ t_account t = e_account e;
  wf_placed : forall i m, (i, m) ∈ email_mailbox d ->
    exists e mb, e ∈ emails d /\ mb ∈ mailboxes d /\ e_id e = i /\ m_id mb = m
                 /\ m_account mb = e_account e;
  wf_has_mailbox : forall e, e ∈ emails d -> exists m, (e_id e, m) ∈ email_mailbox d;
  wf_keywords : forall i k, (i, k) ∈ email_keyword d -> is_lower k = true;
  wf_states : forall a t, (0 <= state_of a t d)%Z;
  wf_seq_mailboxes : forall m, m ∈ mailboxes d ->
    seq_ok d Mailbox (m_account m) (m_created m) (m_updated m);
  wf_seq_threads : forall t, t ∈ threads d ->
    seq_ok d Thread (t_account t) (t_created t) (t_updated t);
  wf_seq_emails : forall e, e ∈ emails d ->
    seq_ok d Email (e_account e) (e_created e) (e_updated e)
}.

Lemma wf_empty : wf empty_db.
Proof.
  constructor; simpl; try (intros; set_solver); try apply NoDup_nil_2.
  - constructor; simpl; (apply NoDup_nil_2 || apply Forall_nil_2).
Qed.

(** States only grow, and rows that are not rewritten keep their bounds. *)
Definition states_grow (d d' : Db) : Prop := forall a t, (state_of a t d <= state_of a t d')%Z.

Lemma states_grow_bump acct t d :
  states_grow d (on_states (fun s => <[(acct, data_type_as_str t) := (state_of acct t d + 1)%Z]> s) d).
Proof.
  intros a t'. rewrite state_of_bumped. case_bool_decide as Hb; [|lia]. destruct Hb as [-> ->]. lia.
Qed.

Lemma seq_ok_grow d d' t a c u : states_grow d d' -> seq_ok d t a c u -> seq_ok d' t a c u.
Proof. unfold seq_ok. intros Hg ?. specialize (Hg a t). lia. Qed.

Lemma seq_ok_new d d' t a :
  (0 <= state_of a t d)%Z -> state_of a t d' = (state_of a t d + 1)%Z ->
  seq_ok d' t a (state_of a t d + 1) (state_of a t d + 1).
Proof. unfold seq_ok. lia. Qed.

(** ** Ingestion *)

Section Ingest.
Variables (fresh : Fresh) (now : Z) (account : string) (meta : ParsedMeta) (size : Z)
  (blob : BlobId) (target : MailboxTarget) (auth_results : option string) (chat_mode : bool).

Definition target_matches (m : MailboxRow) : Prop :=
  m_account m = account /\ match target with Role r => m_role m = Some r | Id i => m_id m = i end.

Lemma opt_is_eq o x : opt_is o x = true <-> o = Some x.
Proof. destruct o; simpl; [rewrite String.eqb_eq|]; naive_solver. Qed.

Lemma find_target_ok d i d' :
  find_target account target d = (Ok i, d') ->
  d' = d /\ exists m, m ∈ mailboxes d /\ target_matches m /\ m_id m = i.
Proof.
  unfold find_target, select_first, target_matches. destruct target as [role|mb];
    destruct (List.find _ _) as [m|] eqn:E; simpl; intros [= <- <-]; (split; [done|]);
    apply find_Some_elem in E as [Hm [Ha%String.eqb_eq Hr]%andb_true_iff]; exists m.
  - by apply opt_is_eq in Hr.
  - by apply String.eqb_eq in Hr.
Qed.

(** The thread a message joins: that of the newest message one of its
    references names. *)
Definition joins (d : Db) (t : string) : Prop :=
  exists e r, e ∈ emails d /\ e_account e = account /\ r ∈ references meta
              /\ e_message_id e = Some r /\ e_thread e = t.

Lemma head_elem {A} (l : list A) x : head l = Some x -> x ∈ l.
Proof. destruct l; simpl; [done|]. intros [= ->]. by left. Qed.

Lemma resolve_thread_refs_ok d refs o :
  wf d -> resolve_thread_refs parse_uuid account refs d = Ok o ->
  match o with
  | Some t => exists e r, e ∈ emails d /\ e_account e = account /\ r ∈ refs
                          /\ e_message_id e = Some r /\ e_thread e = t
  | None => forall e r, e ∈ emails d -> e_account e = account -> r ∈ refs ->
                        e_message_id e <> Some r
  end.
Proof.
  intros Hd. induction refs as [|r refs IH]; simpl.
  - intros [= <-]. intros e r _ _ Hr. by apply elem_of_nil in Hr.
  - destruct (head _) as [e|] eqn:E.
    + apply head_elem, order_by_elem, elem_of_filter_bool in E as [He Ht].
      apply andb_true_iff in Ht as [Ha%String.eqb_eq Hm%opt_is_eq].
      destruct (wf_email_thread _ Hd _ He) as (t & Ht & Hti & _).
      unfold parse_id. rewrite <- Hti, (wf_canonical _ Hd _ Ht). simpl. intros [= <-].
      exists e, r. set_solver.
    + intros H. specialize (IH H). destruct o as [t|]; [set_solver|].
      intros e r' He Ha Hr Hm. apply elem_of_cons in Hr as [->|Hr]; [|by eapply IH].
      assert (e ∈ order_by (fun a b => (e_received_at b <=? e_received_at a)%Z)
                (List.filter (fun e => String.eqb (e_account e) account
                                       && opt_is (e_message_id e) r) (emails d))) as Hin.
      { apply order_by_elem, elem_of_filter_bool. split; [done|].
        by rewrite Ha, String.eqb_refl, (proj2 (opt_is_eq _ _) Hm). }
      destruct (order_by _ _); [by apply elem_of_nil in Hin|done].
Qed.

Definition new_email (thread : string) (modseq : Z) : EmailRow :=
  mk_email (fresh_email fresh) account thread (to_hex blob) (message_id meta) (subject meta)
    (from_addr meta) now size modseq modseq auth_results None chat_mode.

Definition bump3 (d : Db) : Db :=
  let on t (d : Db) :=
    on_states (fun s => <[(account, data_type_as_str t) := (state_of account t d + 1)%Z]> s) d in
  on Mailbox (on Thread (on Email d)).

Lemma bump3_state d a t :
  state_of a t (bump3 d)
  = (state_of a t d + if bool_decide (a = account /\ t <> EmailSubmission) then 1 else 0)%Z.
Proof.
  unfold bump3. rewrite !state_of_bumped. repeat case_bool_decide; destruct_and?; subst; try done;
    try (exfalso; naive_solver); try lia; try (destruct t; exfalso; naive_solver).
Qed.

(** What [ingest_tx] commits, table by table. *)
Record committed (d d' : Db) (thread : string) (is_new : bool) (mailbox : string) : Prop := {
  com_states : states d' = states (bump3 d);
  com_accounts : accounts d' = accounts d;
  com_aliases : aliases d' = aliases d;
  com_mailboxes : mailboxes d' = mailboxes d;
  com_keywords : email_keyword d' = email_keyword d;
  com_published : published d' = published d;
  com_queue : queue d' = queue d;
  com_threads : threads d' =
    if is_new
    then (threads d ++ [mk_thread thread account (state_of account Thread d + 1)
                          (state_of account Thread d + 1)])%list
    else update_where (fun t => String.eqb (t_id t) thread)
           (fun t => mk_thread (t_id t) (t_account t) (t_created t) (state_of account Thread d + 1))
           (threads d);
  com_emails : emails d' = (emails d ++ [new_email thread (state_of account Email d + 1)])%list;
  com_placed : email_mailbox d' = (email_mailbox d ++ [(fresh_email fresh, mailbox)])%list;
  com_blobs : blobs d' = update_where (fun b => String.eqb (b_id b) (to_hex blob))
                (fun b => mk_blob (b_id b) (b_size b) (b_refcount b + 1) (b_created_at b)) (blobs d)
}.

Lemma state_of_bumped_ne acct t acct' t' m d :
  t <> t' -> state_of acct' t' (on_states (fun s => <[(acct, data_type_as_str t) := m]> s) d)
             = state_of acct' t' d.
Proof. intros Hne. rewrite state_of_bumped. rewrite bool_decide_false; naive_solver. Qed.

Lemma ingest_tx_ok d i changed d' :
  wf d ->
  ingest_tx parse_uuid fresh now account meta size blob target auth_results chat_mode d
    = (Ok (i, changed), d') ->
  exists found mb,
    resolve_thread_refs parse_uuid account (references meta) d = Ok found
    /\ mb ∈ mailboxes d /\ target_matches mb
    /\ email_exists (fresh_email fresh) d = false
    /\ (found = None -> thread_exists (fresh_thread fresh) d = false)
    /\ committed d d' (default (fresh_thread fresh) found)
         (match found with None => true | _ => false end) (m_id mb)
    /\ i = mk_ingested (fresh_email fresh) (default (fresh_thread fresh) found) blob
    /\ changed = [(Email, state_of account Email d'); (Thread, state_of account Thread d');
                  (Mailbox, state_of account Mailbox d')].
Proof.
  unfold ingest_tx. intros Hd H.
  inv_bind H. apply find_target_ok in E as (-> & mb & Hmb & Htm & <-).
  inv_bind H. unfold resolve_thread in E. injection E as Er <-.
  inv_bind H. apply bump_ok in E as (-> & _ & ->).
  inv_bind H. apply bump_ok in E as (-> & _ & ->).
  inv_bind H. apply bump_ok in E as (-> & _ & ->).
  rewrite !state_of_bumped_ne in H by done.
  inv_bind H. inv_bind H. apply insert_email_ok in E0 as (-> & Hfe).
  inv_bind H. apply insert_email_mailbox_ok in E0 as (-> & _).
  inv_bind H. apply modify_ok in E0 as ->. apply ret_ok in H as ([= -> ->] & ->).
  exists a, mb. destruct a as [t|]; simpl in E.
  - apply modify_ok in E as ->. split_and!; try done; [constructor; try done|].
    + unfold bump3. by rewrite !state_of_bumped_ne by done.
    + unfold state_of. simpl. simplify_map_eq. done.
  - apply insert_thread_ok in E as (-> & Hft). split_and!; try done; [constructor; try done|].
    + unfold bump3. by rewrite !state_of_bumped_ne by done.
    + unfold state_of. simpl. simplify_map_eq. done.
Qed.

Lemma tables_ok_frame d d' :
  accounts d' = accounts d -> aliases d' = aliases d -> mailboxes d' = mailboxes d ->
  tables_ok d -> tables_ok d'.
Proof.
  intros Ha Hl Hm []. unfold account_exists in *.
  constructor; rewrite ?Hl, ?Hm; unfold account_exists; rewrite ?Ha; done.
Qed.

Lemma committed_grow d d' th new mb : committed d d' th new mb -> states_grow d d'.
Proof.
  intros Hc a t. unfold state_of at 2. rewrite (com_states _ _ _ _ _ Hc).
  change (default 0%Z _) with (state_of a t (bump3 d)). rewrite bump3_state.
  destruct (bool_decide _); lia.
Qed.

Lemma committed_state d d' th new mb t :
  t <> EmailSubmission -> committed d d' th new mb ->
  state_of account t d' = (state_of account t d + 1)%Z.
Proof.
  intros Ht Hc. unfold state_of at 1. rewrite (com_states _ _ _ _ _ Hc).
  change (default 0%Z _) with (state_of account t (bump3 d)). rewrite bump3_state.
  rewrite bool_decide_true; done.
Qed.

(** The thread rows after the commit: the old ones, the joined one restamped,
    and the new one if the message starts it. *)
Lemma committed_threads d d' th new mb t' :
  committed d d' th new mb -> t' ∈ threads d' ->
  (exists t, t ∈ threads d /\ t_id t' = t_id t /\ t_account t' = t_account t /\ t_created t' = t_created t
             /\ (t_updated t' = t_updated t
                 \/ (new = false /\ t_id t = th /\ t_updated t' = state_of account Thread d + 1)%Z))
  \/ (new = true /\ t' = mk_thread th account (state_of account Thread d + 1)
                             (state_of account Thread d + 1)).
Proof.
  intros Hc. rewrite (com_threads _ _ _ _ _ Hc). destruct new.
  - intros [Ht| ->%list_elem_of_singleton]%elem_of_app; [left; exists t'; naive_solver|by right].
  - intros (t & Ht & ->)%elem_of_update_where. left. exists t. split; [done|].
    destruct (String.eqb (t_id t) th) eqn:E; simpl; [|naive_solver].
    apply String.eqb_eq in E. naive_solver.
Qed.

Lemma committed_thread_kept d d' th new mb t :
  committed d d' th new mb -> t ∈ threads d ->
  exists t', t' ∈ threads d' /\ t_id t' = t_id t /\ t_account t' = t_account t.
Proof.
  intros Hc Ht. rewrite (com_threads _ _ _ _ _ Hc). destruct new.
  - exists t. rewrite elem_of_app. naive_solver.
  - setoid_rewrite elem_of_update_where. eexists. split; [by exists t|].
    by destruct (String.eqb (t_id t) th).
Qed.

(** The thread joined exists and belongs to the account. *)
Lemma committed_joined d d' th new mb :
  wf d -> committed d d' th new mb ->
  (new = false -> joins d th) ->
  exists t', t' ∈ threads d' /\ t_id t' = th /\ t_account t' = account.
Proof.
  intros Hd Hc Hj. destruct new.
  - exists (mk_thread th account (state_of account Thread d + 1) (state_of account Thread d + 1)).
    rewrite (com_threads _ _ _ _ _ Hc), elem_of_app, list_elem_of_singleton. naive_solver.
  - destruct (Hj eq_refl) as (e & r & He & Ha & _ & _ & Hth).
    destruct (wf_email_thread _ Hd _ He) as (t & Ht & Hid & Hacct).
    destruct (committed_thread_kept _ _ _ _ _ _ Hc Ht) as (t' & Ht' & Hid' & Hacct').
    exists t'. naive_solver congruence.
Qed.

Lemma committed_wf d d' th new mb :
  wf d -> committed d d' th new (m_id mb) ->
  mb ∈ mailboxes d -> m_account mb = account ->
  email_exists (fresh_email fresh) d = false ->
  (new = true -> thread_exists th d = false /\ canonical th) ->
  (new = false -> joins d th) ->
  wf d'.
Proof.
  intros Hd Hc Hmb Hacct Hfe Hnew Hj.
  pose proof (committed_grow _ _ _ _ _ Hc) as Hgrow. constructor.
  - eapply tables_ok_frame; [apply Hc..|apply Hd].
  - rewrite (com_threads _ _ _ _ _ Hc). destruct new.
    + apply NoDup_map_snoc; [apply Hd|]. intros t Ht. simpl.
      eapply thread_exists_false; [apply Hnew|]; done.
    + rewrite update_where_map by done. apply Hd.
  - rewrite (com_emails _ _ _ _ _ Hc). apply NoDup_map_snoc; [apply Hd|]. intros e He. simpl.
    by eapply email_exists_false.
  - rewrite (com_placed _ _ _ _ _ Hc). apply NoDup_app. split; [apply Hd|].
    split; [|apply NoDup_singleton]. intros [i m] Hp [= -> ->]%list_elem_of_singleton.
    destruct (wf_placed _ Hd _ _ Hp) as (e & _ & He & _ & Hid & _).
    by apply (email_exists_false _ _ _ Hfe He).
  - intros t' Ht'. destruct (committed_threads _ _ _ _ _ _ Hc Ht') as [(t & Ht & -> & _)|[-> ->]].
    + by apply (wf_canonical _ Hd).
    + by apply Hnew.
  - intros e. rewrite (com_emails _ _ _ _ _ Hc). intros [He| ->%list_elem_of_singleton]%elem_of_app.
    + destruct (wf_email_thread _ Hd _ He) as (t & Ht & <- & <-).
      destruct (committed_thread_kept _ _ _ _ _ _ Hc Ht) as (t' & ?). eauto.
    + destruct (committed_joined _ _ _ _ _ Hd Hc Hj) as (t' & ?). eauto.
  - intros i m. rewrite (com_placed _ _ _ _ _ Hc), (com_emails _ _ _ _ _ Hc),
      (com_mailboxes _ _ _ _ _ Hc).
    intros [Hp|[= -> ->]%list_elem_of_singleton]%elem_of_app.
    + destruct (wf_placed _ Hd _ _ Hp) as (e & mb' & ?). exists e, mb'. set_solver.
    + exists (new_email th (state_of account Email d + 1)), mb. set_solver.
  - intros e. rewrite (com_emails _ _ _ _ _ Hc), (com_placed _ _ _ _ _ Hc).
    intros [He| ->%list_elem_of_singleton]%elem_of_app.
    + destruct (wf_has_mailbox _ Hd _ He) as (m & ?). set_solver.
    + exists (m_id mb). set_solver.
  - intros i k. rewrite (com_keywords _ _ _ _ _ Hc). apply (wf_keywords _ Hd).
  - intros a t. pose proof (wf_states _ Hd a t). specialize (Hgrow a t). lia.
  - intros m. rewrite (com_mailboxes _ _ _ _ _ Hc). intros Hm.
    eapply seq_ok_grow; [done|]. by apply (wf_seq_mailboxes _ Hd).
  - intros t' Ht'.
    destruct (committed_threads _ _ _ _ _ _ Hc Ht') as [(t & Ht & Hid & -> & -> & Hu)|[-> ->]].
    + pose proof (seq_ok_grow _ _ _ _ _ _ Hgrow (wf_seq_threads _ Hd _ Ht)) as Hs.
      destruct Hu as [->|(-> & Hth & ->)]; [done|].
      destruct (committed_joined _ _ _ _ _ Hd Hc Hj) as (t2 & Ht2 & Hid2 & Hacct2).
      destruct (Hj eq_refl) as (e & r & He & Hea & _ & _ & Het).
      destruct (wf_email_thread _ Hd _ He) as (t3 & Ht3 & Hid3 & Hacct3).
      assert (t = t3) as -> by (eapply (NoDup_map_inj _ _ _ _ (wf_thread_ids _ Hd)); congruence).
      rewrite Hacct3, Hea in *.
      pose proof (wf_seq_threads _ Hd _ Ht3) as Hold. rewrite Hacct3 in Hold.
      unfold seq_ok in *. rewrite (committed_state _ _ _ _ _ Thread ltac:(done) Hc). lia.
    + apply seq_ok_new; [apply (wf_states _ Hd)|].
      by rewrite (committed_state _ _ _ _ _ Thread ltac:(done) Hc).
  - intros e. rewrite (com_emails _ _ _ _ _ Hc). intros [He| ->%list_elem_of_singleton]%elem_of_app.
    + eapply seq_ok_grow; [done|]. by apply (wf_seq_emails _ Hd).
    + apply seq_ok_new; [apply (wf_states _ Hd)|].
      by rewrite (committed_state _ _ _ _ _ Email ltac:(done) Hc).
Qed.

Lemma ingest_tx_wf d r d' :
  wf d -> canonical (fresh_thread fresh) ->
  ingest_tx parse_uuid fresh now account meta size blob target auth_results chat_mode d = (Ok r, d') ->
  wf d'.
Proof.
  intros Hd Hcan H. destruct r as [i changed].
  apply ingest_tx_ok in H as (found & mb & Hr & Hmb & [Hacct _] & Hfe & Hft & Hc & _); [|done].
  eapply (committed_wf _ _ _ _ _ Hd Hc); try done.
  - destruct found; [done|]. eauto.
  - destruct found as [t|]; [|done]. intros _.
    apply (resolve_thread_refs_ok _ _ _ Hd) in Hr. unfold joins. naive_solver.
Qed.
End Ingest.
End Wf.
