(* ===== verification/UpdateFacts.v ===== *)
(** Correctness of [Storage::update_email] and of account creation over the
    invariant of [MailFacts], and the history of the mail tables as a step
    relation that keeps it. *)
From S2P Require Import Prelude Text Bytes Ident Store StoreFacts Mail MailQueries MailFacts.

Open Scope string_scope.

Lemma ensure_ok b e d r d' : ensure b e d = (Ok r, d') <-> b = true /\ d' = d.
Proof. unfold ensure, ret, fail. destruct b, r; naive_solver. Qed.

Lemma account_exists_frame d d' i : accounts d' = accounts d -> account_exists i d' = account_exists i d.
Proof. unfold account_exists. by intros ->. Qed.

(** ** Keyword rows *)

Lemma insert_keyword_run i k d :
  email_exists i d = true ->
  exists l, insert_keyword i k d = (Ok tt, on_email_keyword (fun _ => l) d)
            /\ forall p, p ∈ l <-> p ∈ email_keyword d \/ p = (i, k).
Proof.
  intros He. unfold insert_keyword, require, bind, modify. rewrite He. simpl.
  destruct (existsb (pair_eqb (i, k)) (email_keyword d)) eqn:E.
  - exists (email_keyword d). unfold on_email_keyword. rewrite E. split; [done|].
    apply in_pairs in E. naive_solver.
  - eexists. unfold on_email_keyword at 1. rewrite E. split; [done|].
    intros p. rewrite elem_of_app, list_elem_of_singleton. done.
Qed.

Lemma insert_keywords_run i ks d :
  email_exists i d = true ->
  exists l, for_each ks (fun k => insert_keyword i (to_lowercase k)) d
            = (Ok tt, on_email_keyword (fun _ => l) d)
            /\ forall p, p ∈ l <-> p ∈ email_keyword d \/ exists k, k ∈ ks /\ p = (i, to_lowercase k).
Proof.
  revert d. induction ks as [|k ks IH]; intros d He; simpl.
  - exists (email_keyword d). split; [by destruct d|]. set_solver.
  - destruct (insert_keyword_run i (to_lowercase k) d He) as (l & Hl & Hin).
    unfold bind. rewrite Hl. destruct (IH (on_email_keyword (fun _ => l) d) He) as (l' & Hl' & Hin').
    exists l'. split; [exact Hl'|]. intros p. rewrite Hin'. simpl. rewrite Hin. set_solver.
Qed.

Lemma drop_rows_elem i l p : p ∈ drop_rows i l <-> p ∈ l /\ p.1 <> i.
Proof. unfold drop_rows. by rewrite elem_of_filter_bool, negb_true_iff, String.eqb_neq. Qed.

(** After [replace_keywords] the email has exactly the given keywords, lower-cased. *)
Lemma replace_keywords_run i ks d :
  email_exists i d = true ->
  exists l, replace_keywords i ks d = (Ok tt, on_email_keyword (fun _ => l) d)
    /\ forall p, p ∈ l <-> (p ∈ email_keyword d /\ p.1 <> i)
                           \/ exists k, k ∈ ks /\ p = (i, to_lowercase k).
Proof.
  intros He. destruct (insert_keywords_run i ks (on_email_keyword (drop_rows i) d) He)
    as (l & Hl & Hin).
  exists l. split; [exact Hl|]. intros p. rewrite Hin. simpl. by rewrite drop_rows_elem.
Qed.

(** ** Placement rows *)

Definition owns_mailbox (d : Db) (account m : string) : Prop :=
  exists mb, mb ∈ mailboxes d /\ m_account mb = account /\ m_id mb = m.

Lemma owns_mailbox_test d account m :
  existsb (fun mb => String.eqb (m_account mb) account && String.eqb (m_id mb) m) (mailboxes d) = true
  <-> owns_mailbox d account m.
Proof.
  rewrite existsb_elem. setoid_rewrite andb_true_iff. setoid_rewrite String.eqb_eq. done.
Qed.

Lemma check_mailboxes_ok account ms d r d' :
  for_each ms (check_mailbox account) d = (Ok r, d') <->
  d' = d /\ forall m, m ∈ ms -> owns_mailbox d account m.
Proof.
  revert d. induction ms as [|m ms IH]; intros d; simpl.
  - rewrite ret_ok. destruct r. set_solver.
  - unfold bind at 1, check_mailbox at 1, bind, gets, ensure.
    pose proof (owns_mailbox_test d account m) as Ht.
    destruct (existsb _ (mailboxes d)); simpl.
    + rewrite IH. apply proj1 in Ht. specialize (Ht eq_refl).
      setoid_rewrite elem_of_cons. naive_solver.
    + split; [done|]. intros [_ Hall]. specialize (Hall m ltac:(set_solver)).
      apply Ht in Hall. done.
Qed.

Lemma owns_mailbox_exists d account m : owns_mailbox d account m -> mailbox_exists m d = true.
Proof.
  intros (mb & Hm & _ & Hid). apply existsb_elem. exists mb. by rewrite String.eqb_eq.
Qed.

Lemma insert_placements_ok i ms d r d' :
  email_exists i d = true -> (forall m, m ∈ ms -> mailbox_exists m d = true) ->
  for_each ms (fun m => insert_email_mailbox i m) d = (Ok r, d') <->
  d' = on_email_mailbox (fun l => (l ++ map (pair i) ms)%list) d
  /\ NoDup ms /\ forall m, m ∈ ms -> (i, m) ∉ email_mailbox d.
Proof.
  revert d. induction ms as [|m ms IH]; intros d He Hms; simpl.
  - rewrite ret_ok. destruct r. split; intros H; destruct_and?; subst; split_and?; try done.
    + destruct d. unfold on_email_mailbox. simpl. by rewrite app_nil_r.
    + apply NoDup_nil_2.
    + set_solver.
    + destruct d. unfold on_email_mailbox. simpl. by rewrite app_nil_r.
  - unfold bind at 1, insert_email_mailbox at 1, bind, require, modify.
    rewrite He, (Hms m) by set_solver. simpl.
    destruct (existsb (pair_eqb (i, m)) (email_mailbox d)) eqn:E; simpl.
    + apply in_pairs in E. split; [done|]. intros (_ & _ & Hn). exfalso. apply (Hn m); set_solver.
    + apply not_in_pairs in E.
      rewrite IH; [|done|intros; apply Hms; set_solver]. simpl.
      rewrite NoDup_cons. unfold on_email_mailbox. simpl. rewrite <- app_assoc. simpl. split.
      * intros (-> & Hnd & Hn). split_and!; [done| |done|].
        -- intros Hm. apply (Hn m Hm). set_solver.
        -- intros m' [->|Hm']%elem_of_cons; [done|]. specialize (Hn m' Hm'). set_solver.
      * intros (-> & [Hm Hnd] & Hn). split_and!; [done|done|]. intros m' Hm'.
        rewrite elem_of_app, list_elem_of_singleton. intros [Hp|[= ->]]; [|done].
        eapply Hn; [|done]. set_solver.
Qed.

(** ** The whole update *)

Section Update.
Variables (account i : string) (keywords mailbox_ids : option (list string)).

(** When the update is accepted. *)
Record accepts (d : Db) : Prop := {
  acc_email : exists e, e ∈ emails d /\ e_account e = account /\ e_id e = i;
  acc_mailboxes : forall ms, mailbox_ids = Some ms ->
    ms <> [] /\ NoDup ms /\ forall m, m ∈ ms -> owns_mailbox d account m;
  acc_account : account_exists account d = true;
  acc_room : (state_of account Email d < i64_max /\ state_of account Mailbox d < i64_max)%Z
}.

(** What it leaves behind. *)
Record updated_db (d d' : Db) : Prop := {
  upd_keywords : forall j k, (j, k) ∈ email_keyword d' <->
    match keywords with
    | None => (j, k) ∈ email_keyword d
    | Some ks => (j <> i /\ (j, k) ∈ email_keyword d) \/ (j = i /\ k ∈ map to_lowercase ks)
    end;
  upd_mailboxes : email_mailbox d' =
    match mailbox_ids with
    | None => email_mailbox d
    | Some ms => (drop_rows i (email_mailbox d) ++ map (pair i) ms)%list
    end;
  upd_emails : emails d' = update_where (fun e => String.eqb (e_id e) i)
                             (set_updated (state_of account Email d + 1)) (emails d);
  upd_states : forall a t, state_of a t d' =
    (state_of a t d + if bool_decide (a = account /\ (t = Email \/ t = Mailbox)) then 1 else 0)%Z;
  upd_accounts : accounts d' = accounts d;
  upd_aliases : aliases d' = aliases d;
  upd_tables : mailboxes d' = mailboxes d /\ threads d' = threads d /\ blobs d' = blobs d;
  upd_published : published d' = published d
}.

Definition update_keywords : SM unit :=
  match keywords with Some ks => replace_keywords i ks | None => ret tt end.
Definition update_mailboxes : SM unit :=
  match mailbox_ids with Some ms => replace_mailboxes account i ms | None => ret tt end.

Lemma update_keywords_run d :
  email_exists i d = true ->
  exists l, update_keywords d = (Ok tt, on_email_keyword (fun _ => l) d)
    /\ forall j k, (j, k) ∈ l <->
         match keywords with
         | None => (j, k) ∈ email_keyword d
         | Some ks => (j <> i /\ (j, k) ∈ email_keyword d) \/ (j = i /\ k ∈ map to_lowercase ks)
         end.
Proof.
  intros He. unfold update_keywords. destruct keywords as [ks|].
  - destruct (replace_keywords_run i ks d He) as (l & Hl & Hin). exists l. split; [done|].
    intros j k. rewrite Hin, elem_of_map. naive_solver.
  - exists (email_keyword d). split; [by destruct d|done].
Qed.

Lemma update_mailboxes_ok d r d' :
  email_exists i d = true ->
  update_mailboxes d = (Ok r, d') <->
  d' = on_email_mailbox (fun l => match mailbox_ids with
                                  | None => l
                                  | Some ms => (drop_rows i l ++ map (pair i) ms)%list
                                  end) d
  /\ (forall ms, mailbox_ids = Some ms ->
       ms <> [] /\ NoDup ms /\ forall m, m ∈ ms -> owns_mailbox d account m).
Proof.
  intros He. unfold update_mailboxes. destruct mailbox_ids as [ms|].
  - unfold replace_mailboxes. split.
    + intros H. inv_bind H. apply ensure_ok in E as [Hne ->].
      inv_bind H. apply check_mailboxes_ok in E as [-> Hown].
      inv_bind H. apply modify_ok in E as ->.
      apply insert_placements_ok in H as (-> & Hnd & _); [|done|].
      * split; [done|]. intros ms' [= <-]. split_and!; [|done..].
        intros ->. done.
      * intros m Hm. by eapply owns_mailbox_exists, Hown.
    + intros [-> Hacc]. destruct (Hacc ms eq_refl) as (Hne & Hnd & Hown).
      assert (forall s k, @bind Db StorageError unit unit (ensure true s) k = k tt) as Hens by done.
      rewrite (proj2 (negb_true_iff _)); [rewrite Hens|by destruct ms].
      unfold bind at 1. rewrite (proj2 (check_mailboxes_ok account ms d tt d)) by done.
      unfold bind, modify.
      apply insert_placements_ok; [done| |].
      * intros m Hm. by eapply owns_mailbox_exists, Hown.
      * split_and!; [done|done|]. intros m Hm. simpl. rewrite drop_rows_elem. naive_solver.
  - rewrite ret_ok. destruct r, d. unfold on_email_mailbox. simpl. naive_solver.
Qed.

Lemma update_tail_ok d r d' :
  (email_seq <- bump account Email ;;
   mailbox_seq <- bump account Mailbox ;;
   modify (on_emails (update_where (fun e => String.eqb (e_id e) i) (set_updated email_seq))) ;;;
   ret [(Email, email_seq); (Mailbox, mailbox_seq)]) d = (Ok r, d') <->
  account_exists account d = true
  /\ (state_of account Email d < i64_max /\ state_of account Mailbox d < i64_max)%Z
  /\ r = [(Email, state_of account Email d + 1); (Mailbox, state_of account Mailbox d + 1)]%Z
  /\ d' = on_emails (update_where (fun e => String.eqb (e_id e) i)
                       (set_updated (state_of account Email d + 1)))
            (on_states (fun s => <[(account, data_type_as_str Mailbox) := (state_of account Mailbox d + 1)%Z]>
               (<[(account, data_type_as_str Email) := (state_of account Email d + 1)%Z]> s)) d).
Proof.
  split.
  - intros H. inv_bind H. apply bump_iff in E as (Ha & He & -> & ->).
    inv_bind H. apply bump_iff in E as (_ & Hm & -> & ->).
    rewrite state_of_bumped_ne in Hm, H by done.
    inv_bind H. apply modify_ok in E as ->. apply ret_ok in H as [-> ->]. done.
  - intros (Ha & [He Hm] & -> & ->). apply Z.ltb_lt in He, Hm.
    unfold bump, bind, require, modify, ret. cbv beta. rewrite Ha, He. cbv beta iota zeta.
    match goal with
    | |- context [account_exists account (on_states ?f d)] =>
        change (account_exists account (on_states f d)) with (account_exists account d)
    end.
    rewrite Ha. cbv beta iota zeta.
    rewrite state_of_bumped_ne by done. rewrite Hm. cbv beta iota.
    by rewrite state_of_bumped_ne by done.
Qed.

Lemma email_in_account d :
  existsb (fun e => String.eqb (e_account e) account && String.eqb (e_id e) i) (emails d) = true
  <-> exists e, e ∈ emails d /\ e_account e = account /\ e_id e = i.
Proof.
  rewrite existsb_elem. setoid_rewrite andb_true_iff. setoid_rewrite String.eqb_eq. done.
Qed.

Lemma update_email_tx_run d :
  accepts d ->
  exists d', update_email_tx account i keywords mailbox_ids d
             = (Ok [(Email, state_of account Email d + 1); (Mailbox, state_of account Mailbox d + 1)]%Z, d')
             /\ updated_db d d'.
Proof.
  intros [He Hmb Hacct Hroom]. unfold update_email_tx. fold update_keywords update_mailboxes.
  assert (email_exists i d = true) as Hex.
  { destruct He as (e & ? & ? & ?). apply email_exists_elem. eauto. }
  unfold bind at 1, gets. rewrite (proj2 (email_in_account d) He).
  unfold bind at 1. rewrite (proj2 (ensure_ok true _ d tt d)) by done.
  destruct (update_keywords_run d Hex) as (l & Hl & Hin).
  unfold bind at 1. rewrite Hl. set (d1 := on_email_keyword (fun _ => l) d).
  unfold bind at 1. rewrite (proj2 (update_mailboxes_ok d1 tt _ Hex) (conj eq_refl Hmb)).
  set (d2 := on_email_mailbox _ d1).
  eexists. split; [by apply (update_tail_ok d2)|]. constructor; try done.
  intros a t. transitivity (state_of a t
    (on_states (fun s => <[(account, data_type_as_str Mailbox) := (state_of account Mailbox d + 1)%Z]> s)
      (on_states (fun s => <[(account, data_type_as_str Email) := (state_of account Email d + 1)%Z]> s) d))); [done|].
  rewrite !state_of_bumped. repeat case_bool_decide; destruct_and?; subst; try lia; naive_solver.
Qed.

Lemma update_email_tx_accepts d r d' :
  update_email_tx account i keywords mailbox_ids d = (Ok r, d') -> accepts d.
Proof.
  unfold update_email_tx. fold update_keywords update_mailboxes. intros H.
  inv_bind H. injection E as <- <-. inv_bind H. apply ensure_ok in E as [He ->].
  apply email_in_account in He.
  assert (email_exists i d = true) as Hex.
  { destruct He as (e & ? & ? & ?). apply email_exists_elem. eauto. }
  destruct (update_keywords_run d Hex) as (l & Hl & Hin).
  inv_bind H. rewrite Hl in E. injection E as _ <-.
  inv_bind H. apply update_mailboxes_ok in E as (-> & Hmb); [|done].
  apply update_tail_ok in H as (Hacct & Hroom & _). by constructor.
Qed.

Lemma update_email_run d :
  match update_email account i keywords mailbox_ids d with
  | (Ok _, d') => accepts d /\ exists d1, updated_db d d1
      /\ d' = on_published (fun l => (l ++ [StateChange account
                 [(Email, state_of account Email d'); (Mailbox, state_of account Mailbox d')]])%list) d1
  | (Err _, d') => ~ accepts d /\ d' = d
  end.
Proof.
  unfold update_email, bind, transaction.
  destruct (update_email_tx account i keywords mailbox_ids d) as [[changed|e] d1] eqn:E.
  - pose proof (update_email_tx_accepts _ _ _ E) as Hacc. split; [done|].
    destruct (update_email_tx_run d Hacc) as (d2 & Hrun & Hupd).
    rewrite Hrun in E. injection E as <- <-. exists d2. split; [done|]. unfold publish, modify. simpl.
    pose proof (upd_states _ _ Hupd account Email) as H1.
    pose proof (upd_states _ _ Hupd account Mailbox) as H2.
    rewrite bool_decide_true in H1 by eauto. rewrite bool_decide_true in H2 by eauto.
    rewrite <- H1, <- H2. done.
  - split; [|done]. intros Hacc. destruct (update_email_tx_run d Hacc) as (d2 & Hrun & _). congruence.
Qed.

(** An update is accepted exactly when the email is the account's, the new
    mailbox list (if given) is non-empty, without repetition and all the
    account's, and the counters have room; then the keywords become the given
    ones lower-cased, the placements the given ones, and one event carries the
    two new states.  A rejected update changes nothing and publishes nothing. *)
Lemma update_email_spec d :
  match update_email account i keywords mailbox_ids d with
  | (Ok _, d') => accepts d /\ exists d1, updated_db d d1
      /\ d' = on_published (fun l => (l ++ [StateChange account
                 [(Email, state_of account Email d'); (Mailbox, state_of account Mailbox d')]])%list) d1
  | (Err _, d') => ~ accepts d /\ d' = d
  end.
Proof. exact (update_email_run d). Qed.
End Update.
