(* ===== verification/History.v ===== *)
(** Account creation, and the history of the account, alias and mail tables as
    a step relation: every reachable database is well formed. *)
From S2P Require Import Prelude Text Bytes Ident Store StoreFacts Mail MailQueries MailFacts UpdateFacts.

Open Scope string_scope.

Section History.
Variable parse_uuid : string -> option string.
Abbreviation wf := (wf parse_uuid).

(** ** The update keeps the invariant *)

Lemma updated_grow account i kws mbs d d' : updated_db account i kws mbs d d' -> states_grow d d'.
Proof. intros Hu a t. rewrite (upd_states _ _ _ _ _ _ Hu). destruct (bool_decide _); lia. Qed.

Lemma set_updated_elem i m e' l :
  e' ∈ update_where (fun e => String.eqb (e_id e) i) (set_updated m) l ->
  exists e, e ∈ l /\ e_id e' = e_id e /\ e_account e' = e_account e /\ e_thread e' = e_thread e
            /\ e_created e' = e_created e
            /\ (e_updated e' = e_updated e \/ (e_id e = i /\ e_updated e' = m)).
Proof.
  intros (e & He & ->)%elem_of_update_where. exists e. destruct (String.eqb (e_id e) i) eqn:E.
  - apply String.eqb_eq in E. naive_solver.
  - naive_solver.
Qed.

Lemma set_updated_kept i m e l :
  e ∈ l -> exists e', e' ∈ update_where (fun e => String.eqb (e_id e) i) (set_updated m) l
                      /\ e_id e' = e_id e /\ e_account e' = e_account e.
Proof.
  intros He. eexists. split; [apply elem_of_update_where; by exists e|].
  by destruct (String.eqb (e_id e) i).
Qed.

Lemma updated_placed account i kws mbs d d' j m :
  wf d -> accepts account i mbs d -> updated_db account i kws mbs d d' ->
  (j, m) ∈ email_mailbox d' ->
  exists e mb, e ∈ emails d /\ mb ∈ mailboxes d /\ e_id e = j /\ m_id mb = m
               /\ m_account mb = e_account e.
Proof.
  intros Hd Ha Hu. rewrite (upd_mailboxes _ _ _ _ _ _ Hu). destruct mbs as [ms|].
  - intros [[Hp _]%drop_rows_elem|(m' & Hm & [= -> ->])%elem_of_map]%elem_of_app;
      [by apply (wf_placed _ _ Hd)|].
    destruct (acc_email _ _ _ _ Ha) as (e & He & Hacct & Hid).
    destruct (acc_mailboxes _ _ _ _ Ha _ eq_refl) as (_ & _ & Hown).
    destruct (Hown _ Hm) as (mb & Hmb & Hmacct & Hmid). exists e, mb. naive_solver congruence.
  - apply (wf_placed _ _ Hd).
Qed.

Lemma updated_wf account i kws mbs d d' :
  wf d -> accepts account i mbs d -> updated_db account i kws mbs d d' -> wf d'.
Proof.
  intros Hd Ha Hu. pose proof (updated_grow _ _ _ _ _ _ Hu) as Hgrow.
  destruct (upd_tables _ _ _ _ _ _ Hu) as (Hmb & Hth & _).
  pose proof (upd_emails _ _ _ _ _ _ Hu) as Hem.
  assert (Hnd : NoDup (email_mailbox d')).
  { rewrite (upd_mailboxes _ _ _ _ _ _ Hu). destruct mbs as [ms|]; [|apply Hd].
    destruct (acc_mailboxes _ _ _ _ Ha _ eq_refl) as (_ & Hms & _).
    apply NoDup_app. split_and!.
    - unfold drop_rows. apply NoDup_ListNoDup, List.NoDup_filter, NoDup_ListNoDup, Hd.
    - intros p [_ Hp]%drop_rows_elem (m & _ & ->)%elem_of_map. done.
    - apply (NoDup_fmap_2 (pair i)). done. }
  constructor; rewrite ?Hmb, ?Hth, ?Hem; try apply Hd.
  - eapply tables_ok_frame; [apply Hu..|apply Hd].
  - rewrite update_where_map by done. apply Hd.
  - done.
  - intros e' (e & He & _ & -> & -> & _)%set_updated_elem. by apply (wf_email_thread _ _ Hd).
  - intros j m Hp. destruct (updated_placed _ _ _ _ _ _ _ _ Hd Ha Hu Hp) as (e & mb & He & ? & ? & ? & ?).
    destruct (set_updated_kept i (state_of account Email d + 1) e _ He) as (e' & ? & ? & ?).
    exists e', mb. naive_solver congruence.
  - intros e' (e & He & Hid & _)%set_updated_elem. rewrite Hid, (upd_mailboxes _ _ _ _ _ _ Hu).
    destruct (wf_has_mailbox _ _ Hd _ He) as (m & Hm). destruct mbs as [ms|]; [|eauto].
    destruct (acc_mailboxes _ _ _ _ Ha _ eq_refl) as (Hne & _ & _).
    destruct (decide (e_id e = i)) as [->|Hni].
    + destruct ms as [|m0 ms]; [done|]. exists m0. set_solver.
    + exists m. apply elem_of_app. left. by apply drop_rows_elem.
  - intros j k. rewrite (upd_keywords _ _ _ _ _ _ Hu). destruct kws as [ks|].
    + intros [[_ Hk]|[-> (k' & _ & ->)%elem_of_map]]; [by eapply (wf_keywords _ _ Hd)|].
      apply is_lower_to_lowercase.
    + apply (wf_keywords _ _ Hd).
  - intros a t. pose proof (wf_states _ _ Hd a t). specialize (Hgrow a t). lia.
  - intros m Hm. eapply seq_ok_grow; [done|]. by apply (wf_seq_mailboxes _ _ Hd).
  - intros t Ht. eapply seq_ok_grow; [done|]. by apply (wf_seq_threads _ _ Hd).
  - intros e' (e & He & Hid & -> & _ & -> & Hup)%set_updated_elem.
    pose proof (wf_seq_emails _ _ Hd _ He) as Hs.
    destruct Hup as [->|[Hi ->]]; [by eapply seq_ok_grow|].
    destruct (acc_email _ _ _ _ Ha) as (e2 & He2 & Hacct & Hid2).
    assert (e = e2) as -> by (eapply (NoDup_map_inj _ _ _ _ (wf_email_ids _ _ Hd)); congruence).
    rewrite Hacct in *. unfold seq_ok in *. rewrite (upd_states _ _ _ _ _ _ Hu).
    rewrite bool_decide_true by eauto. lia.
Qed.

(** ** Account creation *)

Lemma insert_mailboxes_ok {A} (g : A -> MailboxRow) l d r d' :
  for_each l (fun x => insert_mailbox (g x)) d = (Ok r, d') ->
  d' = on_mailboxes (fun ms => (ms ++ map g l)%list) d.
Proof.
  revert d. induction l as [|x l IH]; intros d H; simpl in H.
  - apply ret_ok in H as [_ ->]. destruct d. unfold on_mailboxes. simpl. by rewrite app_nil_r.
  - inv_bind H. apply insert_mailbox_ok in E as (-> & _). apply IH in H as ->.
    unfold on_mailboxes. simpl. by rewrite <- app_assoc.
Qed.

(** The mailboxes every account starts with. *)
Definition default_rows (acct : string) (fresh : nat -> string) (m : Z) : list MailboxRow :=
  map (fun '(n, (name, role, sort_order)) =>
         mk_mailbox (fresh n) acct None name (Some role) sort_order m m)
    (zip (seq 0 7) DEFAULT_MAILBOXES).

Definition new_account (i mail : string) (name : option string) (now : Z) : AccountRow :=
  mk_account i (to_lowercase (trim mail)) name now None.

Definition account_tx (i : string) (fresh : nat -> string) (now : Z) (mail : string)
    (name : option string) : SM (list (DataType * Z)) :=
  insert_account (new_account i mail name now) ;;;
  modseq <- bump i Mailbox ;;
  insert_default_mailboxes i fresh modseq ;;;
  ret [(Mailbox, modseq)].

Lemma account_tx_ok i fresh now mail name d changed d' :
  account_tx i fresh now mail name d = (Ok changed, d') ->
  let m := (state_of i Mailbox d + 1)%Z in
  changed = [(Mailbox, m)]
  /\ d' = on_mailboxes (fun ms => (ms ++ default_rows i fresh m)%list)
            (on_states (fun s => <[(i, data_type_as_str Mailbox) := m]> s)
              (on_accounts (fun l => (l ++ [new_account i mail name now])%list) d))
  /\ forall a, a ∈ accounts d -> a_id a <> i /\ to_lowercase (a_email a) <> to_lowercase (trim mail).
Proof.
  unfold account_tx. intros H. inv_bind H. apply insert_account_ok in E as [-> Hnew].
  inv_bind H. apply bump_ok in E as (-> & _ & ->).
  inv_bind H. unfold insert_default_mailboxes in E.
  assert (for_each (zip (seq 0 7) DEFAULT_MAILBOXES) (fun x => insert_mailbox
    ((fun '(n, (name, role, sort_order)) => mk_mailbox (fresh n) i None name (Some role) sort_order
        (state_of i Mailbox d + 1) (state_of i Mailbox d + 1)) x))
    = for_each (zip (seq 0 7) DEFAULT_MAILBOXES) (fun '(n, (name, role, sort_order)) =>
       insert_mailbox (mk_mailbox (fresh n) i None name (Some role) sort_order
        (state_of i Mailbox d + 1) (state_of i Mailbox d + 1)))) as Heq by reflexivity.
  change (state_of i Mailbox (on_accounts _ d)) with (state_of i Mailbox d) in *.
  rewrite <- Heq in E. apply insert_mailboxes_ok in E as ->.
  apply ret_ok in H as [-> ->]. split_and!; [done|done|]. intros x Hx.
  specialize (Hnew _ Hx). simpl in Hnew. by rewrite to_lowercase_idem in Hnew.
Qed.

Lemma default_rows_elem i fresh m row :
  row ∈ default_rows i fresh m -> m_account row = i /\ m_created row = m /\ m_updated row = m.
Proof.
  unfold default_rows. intros ([n [[name role] so]] & _ & ->)%elem_of_map. done.
Qed.

Lemma account_exists_snoc d rows j :
  account_exists j d = true -> account_exists j (on_accounts (fun l => (l ++ rows)%list) d) = true.
Proof. rewrite !account_exists_elem. simpl. intros (a & ? & ?). exists a. set_solver. Qed.

Lemma account_tx_wf i fresh now mail name d changed d' :
  wf d -> account_tx i fresh now mail name d = (Ok changed, d') -> wf d'.
Proof.
  intros Hd H. apply account_tx_ok in H as (_ & -> & Hnew).
  set (m := (state_of i Mailbox d + 1)%Z).
  set (d0 := on_accounts _ d).
  assert (Hex : forall j, account_exists j d = true -> account_exists j d0 = true)
    by (intros; by apply account_exists_snoc).
  assert (Hgrow : states_grow d (on_states (fun s => <[(i, data_type_as_str Mailbox) := m]> s) d))
    by apply states_grow_bump.
  constructor; simpl; try apply Hd.
  - destruct (wf_tables _ _ Hd) as [Hi He Hal Hale Hac Hmb]. constructor; simpl.
    + apply NoDup_map_snoc; [done|]. intros a Ha. by apply Hnew.
    + apply NoDup_map_snoc; [done|]. intros a Ha. simpl. rewrite to_lowercase_idem. by apply Hnew.
    + done.
    + done.
    + eapply Forall_impl; [exact Hac|]. intros al. apply Hex.
    + apply Forall_app. split; [eapply Forall_impl; [exact Hmb|]; intros mb; apply Hex|].
      apply Forall_forall. intros row (-> & _)%default_rows_elem.
      apply account_exists_elem. exists (new_account i mail name now). simpl. set_solver.
  - intros j mb Hp. destruct (wf_placed _ _ Hd _ _ Hp) as (e & b & ?). exists e, b. set_solver.
  - intros a t. specialize (Hgrow a t). pose proof (wf_states _ _ Hd a t).
    change (0 <= state_of a t (on_states (fun s => <[(i, data_type_as_str Mailbox) := m]> s) d))%Z. lia.
  - intros row [Hrow|Hrow]%elem_of_app.
    + exact (seq_ok_grow _ _ _ _ _ _ Hgrow (wf_seq_mailboxes _ _ Hd _ Hrow)).
    + apply default_rows_elem in Hrow as (-> & -> & ->).
      apply (seq_ok_new d); [apply Hd|]. 
      transitivity (state_of i Mailbox (on_states (fun s => <[(i, data_type_as_str Mailbox) := m]> s) d));
        [done|]. rewrite state_of_bumped. by rewrite bool_decide_true.
  - intros t Ht. exact (seq_ok_grow _ _ _ _ _ _ Hgrow (wf_seq_threads _ _ Hd _ Ht)).
  - intros e He. exact (seq_ok_grow _ _ _ _ _ _ Hgrow (wf_seq_emails _ _ Hd _ He)).
Qed.

(** Creating an account either changes nothing and publishes nothing, or
    adds the row (address trimmed and lower-cased, unused before) and its seven
    mailboxes in one commit, moves only that account's Mailbox counter, and
    announces exactly the committed state; the account returned is the new one. *)
Lemma create_account_atomic i fresh now mail name d :
  canonical parse_uuid i ->
  match create_account parse_uuid i fresh now mail name d with
  | (Ok a, d') =>
      a = view (new_account i mail name now)
      /\ (forall b, b ∈ accounts d -> to_lowercase (a_email b) <> to_lowercase (trim mail))
      /\ accounts d' = (accounts d ++ [new_account i mail name now])%list
      /\ mailboxes d' = (mailboxes d ++ default_rows i fresh (state_of i Mailbox d'))%list
      /\ length (default_rows i fresh (state_of i Mailbox d')) = 7%nat
      /\ (forall j t, (j, t) <> (i, Mailbox) -> state_of j t d' = state_of j t d)
      /\ published d' = (published d ++ [StateChange i [(Mailbox, state_of i Mailbox d')]])%list
  | (Err _, d') => d' = d
  end.
Proof.
  intros Hcan. unfold create_account. fold (new_account i mail name now).
  fold (account_tx i fresh now mail name).
  unfold bind at 1, transaction.
  destruct (account_tx i fresh now mail name d) as [[changed|e] d1] eqn:E; [|done].
  apply account_tx_ok in E as (-> & -> & Hnew).
  unfold publish, modify, bind, account, lift, select_first. simpl.
  assert (forall l : list AccountRow, (forall a, a ∈ l -> a_id a <> i) ->
    List.find (fun a => String.eqb (a_id a) i) (l ++ [new_account i mail name now])
      = Some (new_account i mail name now)) as Hfind.
  { intros l. induction l as [|a l IH]; intros Hl; simpl; [by rewrite String.eqb_refl|].
    rewrite (proj2 (String.eqb_neq _ _)); [apply IH; set_solver|apply Hl; set_solver]. }
  rewrite Hfind by (intros; by apply Hnew). simpl. unfold row_to_account. simpl.
  rewrite Hcan. simpl.
  assert (forall d0, state_of i Mailbox (on_published d0 (on_mailboxes
     (fun ms => (ms ++ default_rows i fresh (state_of i Mailbox d + 1))%list)
     (on_states (fun s => <[(i, data_type_as_str Mailbox) := (state_of i Mailbox d + 1)%Z]> s)
       (on_accounts (fun l => (l ++ [new_account i mail name now])%list) d))))
     = state_of i Mailbox d + 1)%Z as Hst.
  { intros d0. unfold state_of at 1. simpl. by rewrite lookup_insert_eq. }
  rewrite Hst. split_and!; try done.
  - intros b Hb. by apply Hnew.
  - intros j t Hne. unfold state_of. simpl. rewrite lookup_insert_ne; [done|].
    intros [= <- Ht]. apply Hne. f_equal. symmetry. by apply (data_type_as_str_inj Mailbox t).
Qed.

(** ** The other operations *)

Lemma wf_frame d d' :
  accounts d' = accounts d -> aliases d' = aliases d -> mailboxes d' = mailboxes d ->
  threads d' = threads d -> emails d' = emails d -> email_mailbox d' = email_mailbox d ->
  email_keyword d' = email_keyword d -> states d' = states d -> wf d -> wf d'.
Proof.
  intros Ha Hal Hm Ht He Hem Hek Hs Hd.
  assert (forall a t, state_of a t d' = state_of a t d) as Hst by (intros; unfold state_of; by rewrite Hs).
  constructor; rewrite ?Hm, ?Ht, ?He, ?Hem, ?Hek; try apply Hd.
  - eapply tables_ok_frame; [done..|apply Hd].
  - intros. rewrite Hst. apply Hd.
  - intros. unfold seq_ok. rewrite Hst. by apply (wf_seq_mailboxes _ _ Hd).
  - intros. unfold seq_ok. rewrite Hst. by apply (wf_seq_threads _ _ Hd).
  - intros. unfold seq_ok. rewrite Hst. by apply (wf_seq_emails _ _ Hd).
Qed.

Lemma tables_ok_wf d d' :
  tables_ok d' -> mailboxes d' = mailboxes d ->
  threads d' = threads d -> emails d' = emails d -> email_mailbox d' = email_mailbox d ->
  email_keyword d' = email_keyword d -> states d' = states d -> wf d -> wf d'.
Proof.
  intros Hok Hm Ht He Hem Hek Hs Hd.
  assert (forall a t, state_of a t d' = state_of a t d) as Hst by (intros; unfold state_of; by rewrite Hs).
  constructor; rewrite ?Hm, ?Ht, ?He, ?Hem, ?Hek; try apply Hd; [done|..].
  - intros. rewrite Hst. apply Hd.
  - intros. unfold seq_ok. rewrite Hst. by apply (wf_seq_mailboxes _ _ Hd).
  - intros. unfold seq_ok. rewrite Hst. by apply (wf_seq_threads _ _ Hd).
  - intros. unfold seq_ok. rewrite Hst. by apply (wf_seq_emails _ _ Hd).
Qed.

Lemma set_disabled_ok i v d :
  tables_ok d -> tables_ok (on_accounts (update_where (fun a => String.eqb (a_id a) i) (set_disabled v)) d).
Proof.
  intros [Hi He Hal Hale Hac Hmb].
  assert (forall j, account_exists j d = true -> account_exists j
     (on_accounts (update_where (fun a => String.eqb (a_id a) i) (set_disabled v)) d) = true) as Hex.
  { intros j. rewrite !account_exists_elem. simpl. intros (a & Ha & <-).
    eexists. split; [apply elem_of_update_where; by exists a|]. by destruct (String.eqb (a_id a) i). }
  constructor; simpl; rewrite ?update_where_map by done; try done.
  - eapply Forall_impl; [exact Hac|]. intros al. apply Hex.
  - eapply Forall_impl; [exact Hmb|]. intros al. apply Hex.
Qed.

Lemma create_alias_ok fresh now acct mail label exp d r d' :
  create_alias fresh now acct mail label exp d = (Ok r, d') ->
  d' = on_aliases (fun l => (l ++ [r])%list) d /\ account_exists acct d = true
  /\ r = mk_alias fresh acct (to_lowercase (trim mail)) label now exp true
  /\ forall a, a ∈ aliases d -> al_id a <> fresh /\ to_lowercase (al_email a) <> to_lowercase (trim mail).
Proof.
  unfold create_alias. intros H. inv_bind H. apply require_ok in E as (? & -> & _).
  inv_bind H. apply require_ok in E as (Ht & -> & _). inv_bind H. apply modify_ok in E as ->.
  apply ret_ok in H as [-> ->]. split_and!; [done..|]. intros x Hx. apply negb_true_iff in Ht.
  apply (existsb_false_elem _ _ x Ht) in Hx. simpl in Hx.
  apply orb_false_iff in Hx as [?%String.eqb_neq Hne]. split; [done|].
  intros He. rewrite <- not_true_iff_false, nocase_eqb_eq, to_lowercase_idem in Hne. done.
Qed.

Lemma require_same test what d : snd (require test what d) = d.
Proof. unfold require. by destruct (test d). Qed.

Lemma create_alias_err fresh now acct mail label exp d e d' :
  create_alias fresh now acct mail label exp d = (Err e, d') -> d' = d.
Proof.
  unfold create_alias, bind, require. destruct (account_exists acct d); [|by intros [= _ <-]].
  destruct (negb _); [done|by intros [= _ <-]].
Qed.

Lemma create_alias_wf fresh now acct mail label exp d :
  wf d -> wf (snd (create_alias fresh now acct mail label exp d)).
Proof.
  intros Hd. destruct (create_alias fresh now acct mail label exp d) as [[r|e] d'] eqn:E; simpl;
    [|by apply create_alias_err in E as ->].
  apply create_alias_ok in E as (-> & Hex & -> & Hnew).
  apply (tables_ok_wf d); try done.
  destruct (wf_tables _ _ Hd) as [Hi He Hal Hale Hac Hmb]. constructor; simpl; try done.
  - apply NoDup_map_snoc; [done|]. intros a Ha. by apply Hnew.
  - apply NoDup_map_snoc; [done|]. intros a Ha. simpl. rewrite to_lowercase_idem. by apply Hnew.
  - apply Forall_app. split; [done|]. by constructor.
Qed.

Lemma deactivate_alias_wf i d : wf d -> wf (snd (deactivate_alias i d)).
Proof.
  intros Hd. apply (tables_ok_wf d); try done. destruct (wf_tables _ _ Hd) as [Hi He Hal Hale Hac Hmb].
  constructor; simpl; rewrite ?update_where_map by done; try done.
  apply Forall_forall. intros al' (al & Hin & ->)%elem_of_update_where.
  rewrite Forall_forall in Hac. specialize (Hac _ Hin). by destruct (String.eqb (al_id al) i).
Qed.

(** ** Histories *)

Context `{BlobStore}.
Variable parse_message : list Z -> option ParsedMessage.

Inductive step (w : World) : World -> Prop :=
  | step_create_account i fresh now mail name :
      canonical parse_uuid i ->
      step w (snd (on_db (create_account parse_uuid i fresh now mail name) w))
  | step_disable_account now i : step w (snd (on_db (disable_account now i) w))
  | step_enable_account i : step w (snd (on_db (enable_account i) w))
  | step_create_alias fresh now acct mail label exp :
      step w (snd (on_db (create_alias fresh now acct mail label exp) w))
  | step_deactivate_alias i : step w (snd (on_db (deactivate_alias i) w))
  | step_put_blob now raw : step w (snd (put_blob now raw w))
  | step_ingest fresh now acct raw target auth chat :
      canonical parse_uuid (fresh_thread fresh) ->
      step w (snd (ingest_email_into parse_uuid parse_message fresh now acct raw target auth chat w))
  | step_update_email acct i kws mbs : step w (snd (on_db (update_email acct i kws mbs) w)).

Lemma put_blob_wf now raw w : wf (db w) -> wf (db (snd (put_blob now raw w))).
Proof.
  intros Hd. unfold put_blob. destruct (blob_put raw (blob_files w)) as [[i|e] f]; simpl; [|done].
  by apply (wf_frame (db w)).
Qed.

Lemma upsert_contact_frame fresh acct mail now d :
  exists l, snd (upsert_contact fresh acct mail now d) = on_contacts (fun _ => l) d.
Proof.
  unfold upsert_contact, bind, require, modify. destruct (account_exists acct d); simpl.
  - eexists. done.
  - exists (contacts d). by destruct d.
Qed.

(** The commit of an ingestion, and what follows it. *)
Lemma ingest_cases fresh now acct raw target auth chat w r w' :
  ingest_email_into parse_uuid parse_message fresh now acct raw target auth chat w = (r, w') ->
  (exists e, r = Err e /\ (db w' = db w \/ db w' = db (snd (put_blob now raw w))))
  \/ (exists i blob changed d1 l,
        r = Ok i
        /\ fst (put_blob now raw w) = Ok blob
        /\ ingest_tx parse_uuid fresh now acct (parse_meta parse_message raw) (Z.of_nat (length raw))
             blob target auth chat (db (snd (put_blob now raw w))) = (Ok (i, changed), d1)
        /\ db w' = on_contacts (fun _ => l)
                     (on_published (fun es => (es ++ [StateChange acct changed])%list) d1)
        /\ blob_files w' = blob_files (snd (put_blob now raw w))).
Proof.
  unfold ingest_email_into. unfold bind at 1.
  destruct (put_blob now raw w) as [[blob|e] w1]; [|intros [= <- <-]; left; eauto].
  unfold bind at 1, on_db at 1, transaction at 1.
  destruct (ingest_tx _ _ _ _ _ _ _ _ _ _ _) as [[[i changed]|e] d1] eqn:E; simpl;
    [|intros [= <- <-]; left; eauto].
  unfold bind, on_db, publish, modify, spawn_index. simpl.
  destruct (from_addr _) as [from|]; simpl; intros [= <- <-]; right.
  - destruct (upsert_contact_frame (fresh_contact fresh) acct (to_lowercase from) now
      (on_published (fun es => (es ++ [StateChange acct changed])%list) d1)) as (l & Hl).
    exists i, blob, changed, d1, l. simpl in *.
    destruct (upsert_contact _ _ _ _ _) as [? d2]. simpl in *. by rewrite Hl.
  - exists i, blob, changed, d1, (contacts d1). by destruct d1.
Qed.

Lemma step_wf w w' : step w w' -> wf (db w) -> wf (db w').
Proof.
  intros Hs Hd. destruct Hs as [i fr now mail name Hc|now i|i|fr now a mail lb ex|i|now raw
    |fr now a raw tg au ch Hc|a i kws mbs].
  - unfold on_db, create_account. fold (new_account i mail name now). fold (account_tx i fr now mail name).
    unfold bind at 1, transaction at 1.
    destruct (account_tx i fr now mail name (db w)) as [[changed|e] d1] eqn:E; simpl; [|done].
    apply account_tx_wf in E; [|done].
    unfold bind, publish, modify, account, lift.
    destruct (optional_account _ _) as [o|e]; by apply (wf_frame d1).
  - apply (tables_ok_wf (db w)); try done. by apply set_disabled_ok, (wf_tables _ _ Hd).
  - by destruct w.
  - unfold on_db. pose proof (create_alias_wf fr now a mail lb ex _ Hd).
    by destruct (create_alias fr now a mail lb ex (db w)).
  - by apply deactivate_alias_wf.
  - by apply put_blob_wf.
  - pose proof (put_blob_wf now raw w Hd) as Hp.
    destruct (ingest_email_into _ _ _ _ _ _ _ _ _ w) as [r w'] eqn:E. simpl.
    apply ingest_cases in E as [(e & _ & [->| ->])|(i & blob & changed & d1 & l & _ & _ & Htx & -> & _)];
      [done|done|].
    apply ingest_tx_wf in Htx; [|done|done]. by apply (wf_frame d1).
  - unfold on_db. pose proof (update_email_run a i kws mbs (db w)) as Hspec.
    destruct (update_email a i kws mbs (db w)) as [[r|e] d']; simpl.
    + destruct Hspec as (Hacc & d1 & Hu & ->). apply updated_wf in Hu; [|done|done]. by apply (wf_frame d1).
    + by destruct Hspec as [_ ->].
Qed.

(** C2: From an empty database, every sequence of account, alias, ingestion and
    update operations, whatever fails on the way, keeps the mail tables well
    formed: unique ids and addresses, every email in a thread and in at least
    one mailbox of its own account, keywords in lower case, and no row's modseq
    ahead of its account's counter. *)
Theorem reachable_wf f tasks w :
  rtc step (mk_world empty_db f tasks) w -> wf (db w).
Proof.
  intros Hr. assert (wf (db (mk_world empty_db f tasks))) as H0 by apply wf_empty.
  revert H0. induction Hr as [w|w w1 w2 Hs _ IH]; [done|]. intros Hd. apply IH. by eapply step_wf.
Qed.

Lemma ingest_run fresh now acct raw target auth chat w r w' :
  wf (db w) ->
  ingest_email_into parse_uuid parse_message fresh now acct raw target auth chat w = (r, w') ->
  match r with
  | Err _ => exists b, db w' = on_blobs (fun _ => b) (db w)
  | Ok i =>
      let meta := parse_meta parse_message raw in
      exists mb,
        mb ∈ mailboxes (db w) /\ target_matches acct target mb
        /\ emails (db w') = (emails (db w) ++
             [new_email fresh now acct meta (Z.of_nat (length raw)) (in_blob i) auth chat (in_thread i)
                (state_of acct Email (db w'))])%list
        /\ email_mailbox (db w') = (email_mailbox (db w) ++ [(in_id i, m_id mb)])%list
        /\ (joins acct meta (db w) (in_thread i)
            \/ (in_thread i = fresh_thread fresh /\ thread_exists (in_thread i) (db w) = false
                /\ forall e ref, e ∈ emails (db w) -> e_account e = acct ->
                     ref ∈ references meta -> e_message_id e <> Some ref))
        /\ (forall a t, state_of a t (db w') = state_of a t (db w)
             + if bool_decide (a = acct /\ t <> EmailSubmission) then 1 else 0)%Z
        /\ published (db w') = (published (db w) ++
             [StateChange acct [(Email, state_of acct Email (db w'));
                                (Thread, state_of acct Thread (db w'));
                                (Mailbox, state_of acct Mailbox (db w'))]])%list
        /\ in_id i = fresh_email fresh
        /\ accounts (db w') = accounts (db w) /\ aliases (db w') = aliases (db w)
        /\ mailboxes (db w') = mailboxes (db w)
  end.
Proof.
  intros Hd H0.
  assert (exists b, db (snd (put_blob now raw w)) = on_blobs (fun _ => b) (db w)) as (b & Hb).
  { unfold put_blob. destruct (blob_put raw (blob_files w)) as [[j|e] f]; simpl; [by eexists|].
    exists (blobs (db w)). by destruct (db w). }
  apply ingest_cases in H0
    as [(e & -> & [->| ->])|(i & blob & changed & d1 & l & -> & _ & Htx & -> & _)].
  - exists (blobs (db w)). by destruct (db w).
  - eauto.
  - rewrite Hb in Htx. pose proof (wf_frame (db w) (on_blobs (fun _ => b) (db w)) eq_refl eq_refl
      eq_refl eq_refl eq_refl eq_refl eq_refl eq_refl Hd) as Hd'.
    apply ingest_tx_ok in Htx as (found & mb & Hr & Hmb & Htm & Hfe & Hft & Hc & -> & ->); [|done].
    assert (forall a t, state_of a t d1 = state_of a t (db w)
             + if bool_decide (a = acct /\ t <> EmailSubmission) then 1 else 0)%Z as Hst.
    { intros a t. unfold state_of at 1. rewrite (com_states _ _ _ _ _ _ _ _ _ _ _ _ _ Hc).
      change (default 0%Z _) with (state_of a t (bump3 acct (on_blobs (fun _ => b) (db w)))).
      by rewrite bump3_state. }
    exists mb. simpl. split_and!; try done.
    + rewrite (com_emails _ _ _ _ _ _ _ _ _ _ _ _ _ Hc). simpl.
      pose proof (Hst acct Email) as He. rewrite bool_decide_true in He by done.
      rewrite <- He at 1. done.
    + apply (com_placed _ _ _ _ _ _ _ _ _ _ _ _ _ Hc).
    + eapply resolve_thread_refs_ok in Hr; [|exact Hd']. destruct found as [t|]; [left|right].
      * unfold joins. simpl. naive_solver.
      * simpl. split_and!; [done|by apply Hft|done].
    + by rewrite (com_published _ _ _ _ _ _ _ _ _ _ _ _ _ Hc).
    + apply (com_accounts _ _ _ _ _ _ _ _ _ _ _ _ _ Hc).
    + apply (com_aliases _ _ _ _ _ _ _ _ _ _ _ _ _ Hc).
    + apply (com_mailboxes _ _ _ _ _ _ _ _ _ _ _ _ _ Hc).
Qed.

(** C5: An ingestion that fails adds no email, thread, placement, contact or
    event and moves no counter; one that succeeds adds exactly one email, placed
    in one mailbox of the account that the target names, in the thread of an
    earlier message of the account that it references or else in a fresh one,
    and announces the three states it committed; accounts, aliases and mailboxes
    stay as they are. *)
Theorem ingest_all_or_nothing fresh now acct raw target auth chat w r w' :
  wf (db w) ->
  ingest_email_into parse_uuid parse_message fresh now acct raw target auth chat w = (r, w') ->
  match r with
  | Err _ => exists b, db w' = on_blobs (fun _ => b) (db w)
  | Ok i =>
      let meta := parse_meta parse_message raw in
      exists mb,
        mb ∈ mailboxes (db w) /\ target_matches acct target mb
        /\ emails (db w') = (emails (db w) ++
             [new_email fresh now acct meta (Z.of_nat (length raw)) (in_blob i) auth chat (in_thread i)
                (state_of acct Email (db w'))])%list
        /\ email_mailbox (db w') = (email_mailbox (db w) ++ [(in_id i, m_id mb)])%list
        /\ (joins acct meta (db w) (in_thread i)
            \/ (in_thread i = fresh_thread fresh /\ thread_exists (in_thread i) (db w) = false
                /\ forall e ref, e ∈ emails (db w) -> e_account e = acct ->
                     ref ∈ references meta -> e_message_id e <> Some ref))
        /\ (forall a t, state_of a t (db w') = state_of a t (db w)
             + if bool_decide (a = acct /\ t <> EmailSubmission) then 1 else 0)%Z
        /\ published (db w') = (published (db w) ++
             [StateChange acct [(Email, state_of acct Email (db w'));
                                (Thread, state_of acct Thread (db w'));
                                (Mailbox, state_of acct Mailbox (db w'))]])%list
        /\ in_id i = fresh_email fresh
        /\ accounts (db w') = accounts (db w) /\ aliases (db w') = aliases (db w)
        /\ mailboxes (db w') = mailboxes (db w)
  end.
Proof. apply ingest_run. Qed.

(** C35: What is ingested is what is read back: after a successful ingestion the
    raw message of the new email is the ingested bytes, byte for byte. *)
Theorem ingest_then_raw `{!BlobStoreLaws} fresh now acct raw target auth chat w i w' :
  wf (db w) -> good_files (blob_files w) -> storable raw ->
  ingest_email_into parse_uuid parse_message fresh now acct raw target auth chat w = (Ok i, w') ->
  email_raw (in_id i) w' = (Ok (Some raw), w').
Proof.
  intros Hd Hg Hst Hi.
  apply ingest_cases in Hi as [(e & [=] & _)|(i' & blob & changed & d1 & l & [= <-] & Hput & Htx & Hdb & Hfiles)].
  pose proof (put_blob_wf now raw w Hd) as Hp.
  apply ingest_tx_ok in Htx as (found & mb & _ & _ & _ & Hfe & _ & Hc & -> & _); [|done].
  unfold put_blob in *. destruct (blob_put raw (blob_files w)) as [[b|e] f] eqn:Eb; [|done].
  simpl in Hput, Hfiles. injection Hput as ->.
  unfold email_raw, bind, on_db, gets, select_first. simpl. rewrite Hdb. simpl.
  rewrite (com_emails _ _ _ _ _ _ _ _ _ _ _ _ _ Hc).
  assert (Hfind : forall es e, e_id e = fresh_email fresh ->
    (forall x, x ∈ es -> e_id x <> fresh_email fresh) ->
    List.find (fun e => String.eqb (e_id e) (fresh_email fresh)) (es ++ [e])%list = Some e).
  { intros es e He. induction es as [|x es IH]; intros Hx; simpl.
    - by rewrite He, String.eqb_refl.
    - rewrite (proj2 (String.eqb_neq _ _)); [|apply Hx; set_solver]. apply IH. set_solver. }
  rewrite Hfind; [|done|intros x Hx; by eapply email_exists_false]. simpl.
  rewrite from_str_to_hex by (by eapply blob_put_wf). unfold get_blob. simpl.
  rewrite Hfiles, (blob_put_get _ _ _ _ Hg Hst Eb). simpl. rewrite <- Hdb, <- Hfiles. by destruct w'.
Qed.
End History.
