(* ===== verification/MailQueryFacts.v ===== *)
(** Correctness of the mail queries: what [changes_since] reports and loses,
    windows of [query_emails], and the filters. *)
From S2P Require Import Prelude Text Bytes Ident Store StoreFacts Mail MailQueries MailFacts UpdateFacts History.

Open Scope string_scope.

(** ** Changes *)

Lemma as_i64_small z : (0 <= z < 2 ^ 63)%Z -> as_i64 z = z.
Proof. unfold as_i64. intros Hz. rewrite (proj2 (Z.ltb_lt _ _)); lia. Qed.

Lemma sql_limit_take {R} n (l : list R) : (0 <= n)%Z -> sql_limit n l = take (Z.to_nat n) l.
Proof. unfold sql_limit. intros Hn. by rewrite (proj2 (Z.ltb_ge _ _)). Qed.

(** A row of a tracked table that changed after a state. *)
Definition changed (account : string) (since : Z) (rows : list Tracked) (r : Tracked) : Prop :=
  r ∈ rows /\ tr_account r = account /\ (since < tr_updated r)%Z.

Lemma changed_after_elem account since rows r :
  (0 <= since < 2 ^ 63)%Z -> r ∈ changed_after account since rows <-> changed account since rows r.
Proof.
  intros Hs. unfold changed_after, changed.
  rewrite order_by_elem, elem_of_filter_bool, andb_true_iff, as_i64_small, String.eqb_eq, Z.ltb_lt by done.
  done.
Qed.

Section Changes.
Variables (account : string) (t : DataType) (since max : Z).
Hypothesis since_range : (0 <= since < 2 ^ 63)%Z.
Hypothesis max_range : (0 <= max < 2 ^ 63 - 1)%Z.

Lemma changes_since_ok d r d' :
  changes_since account t since max d = (Ok r, d') ->
  d' = d /\ exists rows, tracked_rows t d = Ok rows
    /\ let page := take (Z.to_nat max) (changed_after account since rows) in
       created r = map tr_id (List.filter (fun r => (since <? tr_created r)%Z) page)
       /\ updated r = map tr_id (List.filter (fun r => negb (since <? tr_created r)%Z) page)
       /\ new_state r = state_of account t d
       /\ has_more r = (max <? Z.of_nat (length (changed_after account since rows)))%Z.
Proof.
  unfold changes_since. destruct (tracked_rows t d) as [rows|e]; simpl; [|done].
  intros [= <- <-]. split; [done|]. exists rows. split; [done|]. simpl.
  rewrite as_i64_small, sql_limit_take by lia.
  assert (Hmin : (Z.to_nat max `min` Z.to_nat (max + 1) = Z.to_nat max)%nat) by lia.
  rewrite take_take, Hmin. split_and!; [done..|].
  rewrite length_take. apply eq_true_iff_eq. rewrite !Z.ltb_lt. lia.
Qed.

(** C36: When nothing is truncated, the changes since a state are exactly the
    account's rows stamped after it: those created after it as created, the
    others as updated, and the new state is the account's current one. *)
Theorem changes_since_complete d r d' rows :
  changes_since account t since max d = (Ok r, d') -> has_more r = false ->
  tracked_rows t d = Ok rows ->
  new_state r = state_of account t d
  /\ (forall i, i ∈ created r <->
        exists x, changed account since rows x /\ tr_id x = i /\ (since < tr_created x)%Z)
  /\ (forall i, i ∈ updated r <->
        exists x, changed account since rows x /\ tr_id x = i /\ (tr_created x <= since)%Z).
Proof.
  intros H Hmore Hrows. apply changes_since_ok in H as (-> & rows' & Hr & Hc & Hu & Hs & Hh).
  rewrite Hrows in Hr. injection Hr as <-. simpl in *.
  assert (take (Z.to_nat max) (changed_after account since rows) = changed_after account since rows) as Hall.
  { apply take_ge. rewrite Hh in Hmore. apply Z.ltb_ge in Hmore. lia. }
  rewrite Hall in *. split; [done|]. rewrite Hc, Hu.
  split; intros i; rewrite elem_of_map; split.
  - intros (x & [Hx Hlt%Z.ltb_lt]%elem_of_filter_bool & ->).
    apply changed_after_elem in Hx; [|done]. eauto.
  - intros (x & Hx & <- & Hlt). exists x. split; [|done]. apply elem_of_filter_bool.
    split; [by apply changed_after_elem|by apply Z.ltb_lt].
  - intros (x & [Hx Hlt%negb_true_iff%Z.ltb_ge]%elem_of_filter_bool & ->).
    apply changed_after_elem in Hx; [|done]. eauto.
  - intros (x & Hx & <- & Hlt). exists x. split; [|done]. apply elem_of_filter_bool.
    split; [by apply changed_after_elem|by apply negb_true_iff, Z.ltb_ge].
Qed.
End Changes.

Section Sync.
Variable parse_uuid : string -> option string.
Abbreviation wf := (wf parse_uuid).

Lemma tracked_bound d t rows r :
  wf d -> tracked_rows t d = Ok rows -> r ∈ rows ->
  seq_ok d t (tr_account r) (tr_created r) (tr_updated r).
Proof.
  intros Hd Hr Hin. destruct t; simplify_eq/=; apply elem_of_map in Hin as (x & Hx & ->); simpl.
  - by apply (wf_seq_emails _ _ Hd).
  - by apply (wf_seq_mailboxes _ _ Hd).
  - by apply (wf_seq_threads _ _ Hd).
Qed.

Lemma no_changes_at_state d account t rows :
  wf d -> (state_of account t d < 2 ^ 63)%Z -> tracked_rows t d = Ok rows ->
  changed_after account (state_of account t d) rows = [].
Proof.
  intros Hd Hs Hr. pose proof (wf_states _ _ Hd account t).
  destruct (changed_after _ _ _) as [|x l] eqn:E; [done|].
  assert (changed account (state_of account t d) rows x) as (Hx & Ha & Hlt).
  { apply changed_after_elem; [done|]. rewrite E. by left. }
  pose proof (tracked_bound _ _ _ _ Hd Hr Hx) as Hb. unfold seq_ok in Hb. rewrite Ha in Hb. lia.
Qed.

(** A truncated answer loses changes.  The rows beyond [max] are not in the
    answer, yet its new state is the account's current one, so that asking
    again from it reports nothing at all: a client that follows the states it
    is given never learns of them. *)
Lemma truncated_changes_are_lost account t since max d r d' rows max' :
  (0 <= since < 2 ^ 63)%Z -> (0 <= max < 2 ^ 63 - 1)%Z -> (0 <= max' < 2 ^ 63 - 1)%Z ->
  wf d -> (state_of account t d < 2 ^ 63)%Z ->
  changes_since account t since max d = (Ok r, d') -> tracked_rows t d = Ok rows ->
  has_more r = true ->
  (Z.of_nat (length (created r ++ updated r)) = max)%Z
  /\ (max < Z.of_nat (length (changed_after account since rows)))%Z
  /\ changes_since account t (new_state r) max' d = (Ok (mk_changes [] [] (new_state r) false), d).
Proof.
  intros Hsr Hmr Hmr' Hd Hsmall H Hrows Hmore.
  apply changes_since_ok in H as (-> & rows' & Hr & Hc & Hu & Hs & Hh); [|done..].
  rewrite Hrows in Hr. injection Hr as <-. simpl in *. rewrite Hmore in Hh. symmetry in Hh.
  apply Z.ltb_lt in Hh. split_and!; [|done|].
  - rewrite Hc, Hu, length_app, !length_map.
    set (page := take _ _). assert (length page = Z.to_nat max) as Hp.
    { unfold page. rewrite length_take. lia. }
    assert (forall (f : Tracked -> bool) l,
      (length (List.filter f l) + length (List.filter (fun x => negb (f x)) l))%nat = length l) as Hsplit.
    { intros f l. induction l as [|x l IH]; simpl; [done|]. destruct (f x); simpl; lia. }
    specialize (Hsplit (fun r => (since <? tr_created r)%Z) page). lia.
  - unfold changes_since. rewrite Hrows, Hs. simpl.
    rewrite (no_changes_at_state _ _ _ _ Hd Hsmall Hrows).
    unfold sql_limit. destruct (_ <? 0)%Z; simpl; rewrite ?take_nil; simpl; do 2 f_equal;
      f_equal; apply Z.ltb_ge; lia.
Qed.

(** One row of a table rewritten past the bound of all others. *)
Lemma filter_update_where {R} (key : R -> string) (p : R -> bool) (f : R -> R) l e :
  NoDup (map key l) -> e ∈ l -> (forall x, x ∈ l -> p x = false) -> p (f e) = true ->
  List.filter p (update_where (fun x => String.eqb (key x) (key e)) f l) = [f e].
Proof.
  intros Hnd He Hp Hf.
  assert (forall l', (forall x, x ∈ l' -> key x <> key e) -> (forall x, x ∈ l' -> p x = false) ->
    List.filter p (update_where (fun x => String.eqb (key x) (key e)) f l') = []) as Hnone.
  { induction l' as [|x l' IH]; intros Hk Hx; simpl; [done|].
    rewrite (proj2 (String.eqb_neq _ _)), (Hx x) by set_solver. apply IH; set_solver. }
  induction l as [|x l IH]; [by apply elem_of_nil in He|].
  simpl in Hnd. apply NoDup_cons in Hnd as [Hx Hnd]. simpl.
  destruct (decide (key x = key e)) as [Hk|Hk].
  - assert (x = e) as ->.
    { apply elem_of_cons in He as [->|He]; [done|]. destruct Hx. apply elem_of_map. eauto. }
    rewrite String.eqb_refl, Hf. f_equal. apply Hnone; [|set_solver].
    intros y Hy Hye. apply Hx. apply elem_of_map. eauto.
  - rewrite (proj2 (String.eqb_neq _ _)) by done. rewrite (Hp x) by set_solver.
    apply IH; [done| |set_solver]. apply elem_of_cons in He as [->|He]; done.
Qed.

(** A client in step with the account learns of an update, and only of it:
    asking for the Email changes since the state before an accepted update
    answers exactly the updated email, and the new state is the one the update
    announced. *)
Lemma update_is_reported account i kws mbs d d' max :
  wf d -> (1 <= max < 2 ^ 63 - 1)%Z ->
  update_email account i kws mbs d = (Ok tt, d') ->
  changes_since account Email (state_of account Email d) max d'
  = (Ok (mk_changes [] [i] (state_of account Email d + 1) false), d').
Proof.
  intros Hd Hmax H. pose proof (update_email_run account i kws mbs d) as Hspec. rewrite H in Hspec.
  destruct Hspec as (Hacc & d1 & Hu & Hd').
  destruct (acc_email _ _ _ _ Hacc) as (e & He & Ha & Hi).
  pose proof (wf_seq_emails _ _ Hd _ He) as Hse. unfold seq_ok in Hse. rewrite Ha in Hse.
  pose proof (acc_room _ _ _ _ Hacc) as [Hroom _]. unfold i64_max in Hroom.
  set (s := state_of account Email d) in *.
  assert (changed_after account s
    (map (fun e => mk_tracked (e_id e) (e_account e) (e_created e) (e_updated e)) (emails d'))
    = [mk_tracked i account (e_created e) (s + 1)]) as Hch.
  { unfold changed_after. rewrite Hd'. simpl. rewrite (upd_emails _ _ _ _ _ _ Hu). fold s.
    rewrite as_i64_small by lia.
    rewrite <- Hi. set (f := fun e0 : EmailRow => mk_tracked _ _ _ _).
    assert (forall p l, List.filter p (map f l) = map f (List.filter (fun x => p (f x)) l)) as Hfm.
    { intros p l. induction l as [|x l IH]; simpl; [done|]. destruct (p (f x)); simpl; by rewrite IH. }
    rewrite Hfm. rewrite (filter_update_where e_id _ _ _ e); [|apply Hd|done| |].
    - unfold f. simpl. by rewrite Ha.
    - intros x Hx. simpl. destruct (String.eqb (e_account x) account) eqn:E; [|done].
      apply String.eqb_eq in E. simpl. apply Z.ltb_ge.
      pose proof (wf_seq_emails _ _ Hd _ Hx) as Hsx. unfold seq_ok in Hsx. rewrite E in Hsx.
      fold s in Hsx. lia.
    - simpl. rewrite Ha, String.eqb_refl. simpl. apply Z.ltb_lt. lia. }
  unfold changes_since, tracked_rows. simpl. rewrite Hch.
  rewrite as_i64_small, sql_limit_take by lia.
  destruct (Z.to_nat (max + 1)) as [|n] eqn:En; [lia|]. simpl. rewrite take_nil.
  destruct (Z.to_nat max) as [|k] eqn:Ek; [lia|]. simpl. rewrite take_nil. simpl.
  rewrite (proj2 (Z.ltb_ge s (e_created e))) by lia. simpl.
  rewrite (proj2 (Z.ltb_ge max (Z.of_nat 1))) by lia.
  assert (state_of account Email d' = (s + 1)%Z) as ->; [|done].
  rewrite Hd'. change (state_of account Email d1 = (s + 1)%Z).
  rewrite (upd_states _ _ _ _ _ _ Hu). rewrite bool_decide_true by eauto. done.
Qed.

(** ** Filters *)

(** No stored keyword has an upper-case letter. *)
Lemma mixed_case_keyword d e k : wf d -> is_lower k = false -> has_kw d e k = false.
Proof.
  intros Hd Hk. unfold has_kw. apply not_in_pairs. intros Hin.
  apply (wf_keywords _ _ Hd) in Hin. congruence.
Qed.

(** Keywords are stored in lower case but the filters look for [$Flagged]
    and [$Seen], so on every reachable database asking for flagged messages
    answers none, and asking for unread ones is the same as not asking. *)
Lemma flag_filters_miss run_raw_sql run_raw_count d account in_mailbox after before thread flagged
    unread position limit :
  wf d -> existsb has_quote (account :: option_list in_mailbox ++ option_list thread) = false ->
  query_emails_with_filters run_raw_sql run_raw_count account in_mailbox after before thread
    (Some true) unread position limit d = (Ok ([], 0%nat, state_of account Email d), d)
  /\ query_emails_with_filters run_raw_sql run_raw_count account in_mailbox after before thread
       flagged (Some true) position limit d
     = query_emails_with_filters run_raw_sql run_raw_count account in_mailbox after before thread
         flagged None position limit d.
Proof.
  intros Hd Hq. simpl in Hq. rewrite existsb_app in Hq. apply orb_false_iff in Hq as [Ha Hq].
  apply orb_false_iff in Hq as [Hm Ht].
  assert (forall fl un, injected (query_clauses account in_mailbox after before thread fl un) = false)
    as Hinj.
  { intros fl un. unfold injected, query_clauses. rewrite !flat_map_app, !existsb_app. simpl. rewrite Ha.
    destruct in_mailbox, after, before, thread; simpl in *; rewrite ?orb_false_r in *;
      rewrite ?Hm, ?Ht; simpl; destruct fl as [[]|], un as [[]|]; reflexivity. }
  unfold query_emails_with_filters. split; rewrite !Hinj; cbv zeta.
  - rewrite (filter_none (holds _ d)).
    + unfold sql_limit, sql_offset. simpl. rewrite drop_nil.
      destruct (limit <? 0)%Z; [done|]. by rewrite take_nil.
    + intros e. unfold holds, query_clauses. rewrite !forallb_app.
      simpl (forallb _ (opt_clause flagged_clause _)).
      rewrite (mixed_case_keyword _ _ _ Hd) by reflexivity. simpl. by rewrite !andb_false_r.
  - rewrite (filter_ext
      (holds (query_clauses account in_mailbox after before thread flagged (Some true)) d)
      (holds (query_clauses account in_mailbox after before thread flagged None) d)); [done|].
    intros e. unfold holds, query_clauses. rewrite !forallb_app.
    simpl (forallb _ (opt_clause unread_clause _)).
    by rewrite (mixed_case_keyword _ _ _ Hd) by reflexivity.
Qed.

(** The filter arguments reach the SQL text unescaped: a mailbox id of the
    client's choosing closes the literal, and the statement SQLite runs has a
    disjunction that the account condition does not guard. *)
Lemma mailbox_filter_injects run_raw_sql run_raw_count d position limit :
  fst (query_emails_with_filters run_raw_sql run_raw_count "me" (Some "x') OR ('1'='1") (Some 0%Z) None
         None None None position limit d) =
  (ids <-? run_raw_sql ("SELECT id FROM emails e WHERE e.account_id = 'me' AND EXISTS (SELECT 1 FROM email_mailbox em WHERE em.email_id = e.id AND em.mailbox_id = 'x') OR ('1'='1') AND e.received_at > 0 ORDER BY e.received_at DESC, e.id DESC LIMIT "
      +:+ pretty limit +:+ " OFFSET " +:+ pretty position) d ;;
   total <-? run_raw_count "SELECT count(*) FROM emails e WHERE e.account_id = 'me' AND EXISTS (SELECT 1 FROM email_mailbox em WHERE em.email_id = e.id AND em.mailbox_id = 'x') OR ('1'='1') AND e.received_at > 0" d ;;
   Ok (ids, total, state_of "me" Email d)).
Proof. reflexivity. Qed.

(** ** Windows *)

Lemma newest_first_total a b : newest_first a b = true \/ newest_first b a = true.
Proof.
  unfold newest_first, str_leb. rewrite !orb_true_iff, !andb_true_iff, !Z.ltb_lt, !Z.eqb_eq.
  destruct (Z.lt_trichotomy (e_received_at a) (e_received_at b)) as [?|[?|?]]; [naive_solver| |naive_solver].
  destruct (String.leb_total (e_id a) (e_id b)) as [E|E]; naive_solver.
Qed.

Lemma newest_first_trans a b c :
  newest_first a b = true -> newest_first b c = true -> newest_first a c = true.
Proof.
  unfold newest_first, str_leb. rewrite !orb_true_iff, !andb_true_iff, !Z.ltb_lt, !Z.eqb_eq.
  intros [?|[? H1]] [?|[? H2]]; try (left; lia). right. split; [lia|].
  by apply (str_leb_trans _ (e_id b)).
Qed.

(** The answer to a query is the window asked for of one fixed listing: all
    matching messages of the account, each once, newest first with ties by
    descending id; the total is the length of that listing. *)
Lemma query_emails_window d account in_mailbox position limit :
  (0 <= position < 2 ^ 63)%Z -> (0 <= limit < 2 ^ 63)%Z ->
  exists full,
    full ≡ₚ List.filter (fun e => String.eqb (e_account e) account
                                  && match in_mailbox with
                                     | Some m => in_mbox d (e_id e) m
                                     | None => true
                                     end) (emails d)
    /\ StronglySorted (fun a b => newest_first a b = true) full
    /\ query_emails account in_mailbox position limit d
       = (Ok (map e_id (take (Z.to_nat limit) (drop (Z.to_nat position) full)), length full,
              state_of account Email d), d).
Proof.
  intros Hp Hl. eexists (order_by newest_first _). split_and!.
  - apply order_by_Permutation.
  - apply order_by_Sorted; [apply newest_first_total|apply newest_first_trans].
  - unfold query_emails, gets. rewrite !as_i64_small, sql_limit_take by lia. unfold sql_offset.
    rewrite (Permutation_length (order_by_Permutation _ _)).
    destruct in_mailbox as [m|]; [done|].
    rewrite (filter_ext (fun e => String.eqb (e_account e) account)
               (fun e => String.eqb (e_account e) account && true)); [done|].
    intros e. by rewrite andb_true_r.
Qed.
End Sync.
