(* ===== verification/Spam.v ===== *)
(** [crates/owney-spam] and [crates/owney-storage/src/spam_store.rs]: the
    heuristic rules, the per-account Bayes classifier and the scanner.

    [f32] is IEEE binary32 with rounding to nearest even (Stdlib's [SpecFloat]).
    Text is UTF-8; Unicode's tables, [f32]'s logarithm and exponential, float
    formatting and the iteration order of a [HashSet] are parameters. *)
From Stdlib Require Import SpecFloat.
From S2P Require Import Prelude Text Bytes Ident Store.

Open Scope string_scope.

(** ** Binary32 *)

Definition f32 : Type := spec_float.
Definition f32_of_Z (z : Z) : f32 := binary_normalize 24 128 z 0 false.
Definition f32_add (a b : f32) : f32 := SFadd 24 128 a b.
Definition f32_mul (a b : f32) : f32 := SFmul 24 128 a b.
Definition f32_div (a b : f32) : f32 := SFdiv 24 128 a b.
Definition f32_lt (a b : f32) : bool := SFltb a b.
Definition f32_ge (a b : f32) : bool := SFleb b a.
(** The literal [n / d]: both are binary32 numbers, so the one rounding of the
    quotient is that of the literal. *)
Definition dec (n d : Z) : f32 := f32_div (f32_of_Z n) (f32_of_Z d).

Definition is_nan (a : f32) : bool := match a with S754_nan => true | _ => false end.
Definition f32_max (a b : f32) : f32 :=
  if is_nan a then b else if is_nan b then a else if f32_lt a b then b else a.
Definition f32_min (a b : f32) : f32 :=
  if is_nan a then b else if is_nan b then a else if f32_lt b a then b else a.
Definition f32_clamp (a lo hi : f32) : f32 :=
  if f32_lt a lo then lo else if f32_lt hi a then hi else a.

(** ** Characters of a UTF-8 text, each as its bytes *)

Fixpoint chars (s : string) : list string :=
  match s with
  | EmptyString => []
  | String a s' =>
      match chars s' with
      | [] => [str_of a]
      | w :: ws => match w with
                   | String b _ => if continuation b then String a w :: ws else str_of a :: w :: ws
                   | EmptyString => str_of a :: ws
                   end
      end
  end.

Fixpoint concat_strings (l : list string) : string :=
  match l with [] => "" | x :: l' => x +:+ concat_strings l' end.

(** [char::is_whitespace]: the White_Space property. *)
Definition utf8_2 (a b : ascii) : string := String a (str_of b).
Definition utf8_3 (a b c : ascii) : string := String a (String b (str_of c)).
Definition wide_spaces : list string :=
  ([utf8_2 "194" "133"; utf8_2 "194" "160"; utf8_3 "225" "154" "128"]
   ++ map (fun n => utf8_3 "226" "128" (ascii_of_nat n)) (seq 128 11 ++ [168; 169; 175]%nat)
   ++ [utf8_3 "226" "129" "159"; utf8_3 "227" "128" "128"])%list.
Definition char_is_whitespace (c : string) : bool :=
  match c with
  | String a EmptyString => in_range 9 13 a || Ascii.eqb a " "
  | _ => existsb (String.eqb c) wide_spaces
  end.

Fixpoint drop_while {A} (f : A -> bool) (l : list A) : list A :=
  match l with [] => [] | x :: l' => if f x then drop_while f l' else l end.
Definition trim_chars (s : string) : string :=
  concat_strings (rev (drop_while char_is_whitespace (rev (drop_while char_is_whitespace (chars s))))).

(** [&msg[start..]]: panics unless [start] is a character boundary. *)
Definition slice_from (start : nat) (s : string) : option string :=
  let rest := string_of (drop start (bytes_of s)) in
  if Nat.ltb (String.length s) start then None
  else match rest with
       | String a _ => if continuation a then None else Some rest
       | EmptyString => Some rest
       end.

(** [position]: the index, counted in characters, of the first that passes. *)
Fixpoint position {A} (f : A -> bool) (l : list A) : option nat :=
  match l with
  | [] => None
  | x :: l' => if f x then Some 0%nat else option_map S (position f l')
  end.

(** ** Rules ([src/rules.rs]) *)

Record RulesVerdict := mk_rules { rules_score : f32; rules_matched : list string }.

Record SpamVerdict := mk_spam_verdict {
  score : f32;
  matched_rules : list string;
  dnsbl_hits : list string;
  bayes_prob : option f32
}.
Definition default_verdict : SpamVerdict := mk_spam_verdict (f32_of_Z 0) [] [] None.

(** [dnsbl::check_ip]: lookups are not implemented, no zone ever hits. *)
Definition check_ip (zones : list string) (is_v4 : bool) : result string (list string) :=
  match zones with [] => Ok [] | _ => if is_v4 then Ok [] else Ok [] end.

(** [extract_header]; [None] is a panic.  The index of the first
    non-whitespace character is added to a byte offset. *)
Definition extract_header (msg header_name : string) : option (option string) :=
  let needle_cr := crlf +:+ header_name +:+ ":" in
  let needle_lf := str_of lf +:+ header_name +:+ ":" in
  let found := match find_split needle_cr msg with
               | Some (before, _) => Some (String.length before + String.length needle_cr)%nat
               | None => match find_split needle_lf msg with
                         | Some (before, _) => Some (String.length before + String.length needle_lf)%nat
                         | None => None
                         end
               end in
  match found with
  | None => Some None
  | Some start =>
      match slice_from start msg with
      | None => None
      | Some rest =>
          let start := (default 0 (position (fun c => negb (char_is_whitespace c)) (chars rest))
                        + start)%nat in
          match slice_from start msg with
          | None => None
          | Some rest =>
              let line := match find_split (str_of lf) rest with
                          | Some (l, _) => l
                          | None => rest
                          end in
              Some (Some (trim_chars line))
          end
      end
  end.

Definition EXECUTABLE_EXTS : list string := [".exe"; ".bat"; ".scr"; ".vbs"; ".js"; ".zip"].
Definition PHISHING : list string :=
  ["verify account"; "confirm password"; "update payment"; "click here"; "urgent action"; "limited time"].

(** The rule weights, in the order the code adds them. *)
Definition add_if (b : bool) (n d : Z) (name : string) (v : RulesVerdict) : RulesVerdict :=
  if b then mk_rules (f32_add (rules_score v) (dec n d)) (rules_matched v ++ [name])%list else v.

Abbreviation TokenCounts := (gmap string (Z * Z)).

Section Spam.
(** Unicode's tables, for the characters outside ASCII. *)
Variables unicode_alphabetic unicode_numeric unicode_uppercase : string -> bool.
Variable unicode_lower : string -> string.
(** The order in which a [HashSet] yields its elements. *)
Variable hash_order : list string -> list string.
Variables f32_ln f32_exp : f32 -> f32.
(** [format!("{:.1}", x)]. *)
Variable show_tenths : f32 -> string.

Definition is_upper_ascii (a : ascii) : bool := in_range 65 90 a.
Definition is_alpha_ascii (a : ascii) : bool := is_upper_ascii a || in_range 97 122 a.

Definition char_is_alphabetic (c : string) : bool :=
  match c with String a EmptyString => is_alpha_ascii a | _ => unicode_alphabetic c end.
Definition char_is_alphanumeric (c : string) : bool :=
  match c with
  | String a EmptyString => is_alpha_ascii a || is_digit a
  | _ => unicode_alphabetic c || unicode_numeric c
  end.
Definition char_is_uppercase (c : string) : bool :=
  match c with String a EmptyString => is_upper_ascii a | _ => unicode_uppercase c end.
Definition char_lower (c : string) : string :=
  match c with String a EmptyString => str_of (lower_char a) | _ => unicode_lower c end.
Definition lowercase (s : string) : string := concat_strings (map char_lower (chars s)).

(** [contains_phishing_keyword]. *)
Definition contains_phishing_keyword (text : string) : bool :=
  existsb (fun p => contains p (lowercase text)) PHISHING.

(** [check_message]; [None] is a panic. *)
Definition check_message (raw : list Z) : option RulesVerdict :=
  let msg := utf8_lossy (string_of raw) in
  let v := mk_rules (f32_of_Z 0) [] in
  let v := add_if (negb (contains (str_of lf +:+ "Date:") msg) && negb (contains (crlf +:+ "Date:") msg))
             15 100 "MISSING_DATE" v in
  let v := add_if (negb (contains (str_of lf +:+ "Message-ID:") msg)
                   && negb (contains (crlf +:+ "Message-ID:") msg)) 10 100 "MISSING_MESSAGE_ID" v in
  match extract_header msg "Subject" with
  | None => None
  | Some subject =>
      let v := match subject with
               | None => v
               | Some subj =>
                   let v := add_if (Nat.ltb 10 (String.length subj)
                                    && forallb char_is_uppercase
                                         (List.filter char_is_alphabetic (chars subj)))
                              15 100 "ALL_CAPS_SUBJECT" v in
                   add_if (Nat.ltb 3 (length (List.filter (fun c => String.eqb c "!" || String.eqb c "?")
                                                (chars subj)))) 10 100 "EXCESSIVE_PUNCTUATION" v
               end in
      let v := match List.find (fun ext => contains ("filename=" +:+ str_of quote
                                                     +:+ String.substring 1 (String.length ext - 1) ext)
                                             (lowercase msg)) EXECUTABLE_EXTS with
               | Some ext => add_if true 20 100 ("EXECUTABLE_ATTACHMENT" +:+ ext) v
               | None => v
               end in
      let received := (count_matches (str_of lf +:+ "Received:") msg
                       + count_matches (crlf +:+ "Received:") msg)%nat in
      let v := add_if (Nat.eqb received 0) 10 100 "NO_RECEIVED_HEADERS" v in
      let v := match subject with
               | Some subj => add_if (contains_phishing_keyword subj) 20 100 "PHISHING_SUBJECT" v
               | None => v
               end in
      Some (mk_rules (f32_min (rules_score v) (f32_of_Z 1)) (rules_matched v))
  end.

(** ** Token counts ([spam_store.rs]) *)

Definition token_row (account token : string) (r : SpamTokenRow) : bool :=
  String.eqb (s_account r) account && String.eqb (s_token r) token.

(** A count column read as [u32]: out of range, the lookup fails as a whole. *)
Definition u32_pair (s h : Z) : Z * Z :=
  if ((0 <=? s) && (s <? 2 ^ 32) && (0 <=? h) && (h <? 2 ^ 32))%Z then (s, h) else (0, 0)%Z.

Definition get_spam_token_counts (account : string) (tokens : list string) : SM TokenCounts :=
  gets (fun d => fold_left (fun (m : TokenCounts) token =>
    <[token := match select_first (token_row account token) (spam_tokens d) with
               | Some r => u32_pair (s_spam r) (s_ham r)
               | None => (0, 0)%Z
               end]> m) tokens ∅).

Definition train_one (account : string) (is_spam : bool) (token : string) : SM unit :=
  require (account_exists account) "FOREIGN KEY constraint failed" ;;;
  modify (on_spam_tokens (fun l =>
    if existsb (token_row account token) l
    then update_where (token_row account token)
           (fun r => if is_spam then mk_spam_token (s_account r) (s_token r) (s_spam r + 1) (s_ham r)
                     else mk_spam_token (s_account r) (s_token r) (s_spam r) (s_ham r + 1)) l
    else (l ++ [if is_spam then mk_spam_token account token 1 0
                else mk_spam_token account token 0 1])%list)).

(** [Storage::train_spam_tokens]. *)
Definition train_spam_tokens (account : string) (tokens : list string) (is_spam : bool) : SM unit :=
  match tokens with
  | [] => ret tt
  | _ => transaction (for_each tokens (train_one account is_spam))
  end.

(** ** Bayes ([src/bayes.rs]) *)

(** [str::split] on the characters that fail the test. *)
Fixpoint split_chars (keep : string -> bool) (l : list string) : list string :=
  match l with
  | [] => [""]
  | c :: l' =>
      if keep c then match split_chars keep l' with
                     | [] => [c]
                     | w :: ws => (c +:+ w) :: ws
                     end
      else "" :: split_chars keep l'
  end.

(** [tokenize]. *)
Definition tokenize (raw : list Z) : list string :=
  let words := map lowercase (split_chars char_is_alphanumeric (chars (utf8_lossy (string_of raw)))) in
  hash_order (remove_dups (List.filter (fun w => Nat.leb 3 (String.length w)
                                                 && Nat.ltb (String.length w) 100) words)).

(** [sum::<u32>()] wraps in a release build. *)
Definition sum_u32 (l : list Z) : Z := (fold_left Z.add l 0 mod 2 ^ 32)%Z.

(** [bayes_probability], and one turn of its loop. *)
Definition SMOOTHING : f32 := f32_of_Z 1.

Definition log_odds_step (counts : TokenCounts) (acc : f32) (token : string) : f32 :=
  let '(spam_count, ham_count) := default (0, 0)%Z (counts !! token) in
  let total_spam := f32_add (f32_of_Z (sum_u32 (map (fun kv => fst (snd kv)) (map_to_list counts))))
                      (f32_mul SMOOTHING (f32_of_Z 2)) in
  let p_spam := f32_div (f32_add (f32_of_Z spam_count) SMOOTHING) total_spam in
  let total_ham := f32_add (f32_of_Z (sum_u32 (map (fun kv => snd (snd kv)) (map_to_list counts))))
                     (f32_mul SMOOTHING (f32_of_Z 2)) in
  let p_ham := f32_div (f32_add (f32_of_Z ham_count) SMOOTHING) total_ham in
  if f32_lt (f32_of_Z 0) p_ham
  then f32_add acc (f32_ln (f32_max (f32_div p_spam p_ham) (dec 1 10000000000)))
  else acc.

Definition bayes_probability (counts : TokenCounts) (tokens : list string) : f32 :=
  let log_spam_ratio := fold_left (log_odds_step counts) tokens (f32_of_Z 0) in
  f32_clamp (f32_div (f32_of_Z 1) (f32_add (f32_of_Z 1) (f32_exp (SFopp log_spam_ratio))))
    (f32_of_Z 0) (f32_of_Z 1).

(** [classify]. *)
Definition classify (account : string) (raw : list Z) : SM (option f32) :=
  let tokens := tokenize raw in
  match tokens with
  | [] => ret None
  | _ => fun d => match get_spam_token_counts account tokens d with
                  | (Ok counts, d') =>
                      (Ok (if Nat.eqb (size counts) 0 then None
                           else Some (bayes_probability counts tokens)), d')
                  | (Err _, d') => (Ok None, d')
                  end
  end.

(** [HeuristicScanner::scan]; [None] is a panic. *)
Definition scan (zones : list string) (is_v4 : bool) (account : string) (raw : list Z) (d : Db)
  : option SpamVerdict :=
  let v := match check_ip zones is_v4 with
           | Ok ((_ :: _) as hits) =>
               mk_spam_verdict (f32_add (f32_of_Z 0) (dec 3 10))
                 ["DNSBL hit: " +:+ join ", " hits] hits None
           | _ => default_verdict
           end in
  match check_message raw with
  | None => None
  | Some rules =>
      let score1 := f32_add (score v) (f32_mul (rules_score rules) (dec 5 10)) in
      let matched := (matched_rules v ++ rules_matched rules)%list in
      Some match fst (classify account raw d) with
           | Ok (Some p) =>
               let score2 := f32_add (f32_mul score1 (dec 3 10)) (f32_mul p (dec 7 10)) in
               let matched := if f32_lt (dec 8 10) p
                              then (matched ++ ["Bayes: " +:+ show_tenths (f32_mul p (f32_of_Z 100))
                                                +:+ "% spam"])%list
                              else matched in
               mk_spam_verdict (f32_clamp score2 (f32_of_Z 0) (f32_of_Z 1)) matched (dnsbl_hits v) (Some p)
           | _ => mk_spam_verdict (f32_clamp score1 (f32_of_Z 0) (f32_of_Z 1)) matched (dnsbl_hits v) None
           end
  end.
End Spam.
