(* ===== verification/SpamFacts.v ===== *)
(** What [Spam] does: the reach of the default thresholds, training and
    counting, and where the rules go wrong. *)
From Stdlib Require Import SpecFloat.
From S2P Require Import Prelude Text Bytes Ident Store Spam.

Open Scope string_scope.

Section Facts.
Variables unicode_alphabetic unicode_numeric unicode_uppercase : string -> bool.
Variable unicode_lower : string -> string.
Variable hash_order : list string -> list string.
Variables f32_ln f32_exp : f32 -> f32.
Variable show_tenths : f32 -> string.

Abbreviation check_message :=
  (check_message unicode_alphabetic unicode_uppercase unicode_lower).
Abbreviation scan :=
  (scan unicode_alphabetic unicode_numeric unicode_uppercase unicode_lower hash_order f32_ln f32_exp
     show_tenths).

(** ** The score of the rules *)

(** Which of the seven rules applied. *)
Definition rule_sum (b1 b2 b3 b4 b5 b6 b7 : bool) : f32 :=
  let add (b : bool) n d s := if b then f32_add s (dec n d) else s in
  f32_min (add b7 20 100 (add b6 10 100 (add b5 20 100 (add b4 10 100 (add b3 15 100
    (add b2 10 100 (add b1 15 100 (f32_of_Z 0)))))))) (f32_of_Z 1).

Lemma add_if_score b n d name v :
  rules_score (add_if b n d name v) = if b then f32_add (rules_score v) (dec n d) else rules_score v.
Proof. by destruct b. Qed.

Lemma check_message_score raw r :
  check_message raw = Some r -> exists b1 b2 b3 b4 b5 b6 b7, rules_score r = rule_sum b1 b2 b3 b4 b5 b6 b7.
Proof.
  unfold Spam.check_message. set (msg := utf8_lossy _).
  set (c1 := negb (contains (str_of lf +:+ "Date:") msg) && _).
  set (c2 := negb (contains (str_of lf +:+ "Message-ID:") msg) && _).
  destruct (extract_header msg "Subject") as [[subj|]|]; [| |done].
  - set (c3 := Nat.ltb 10 _ && _). set (c4 := Nat.ltb 3 _). set (c6 := Nat.eqb (_ + _) 0).
    set (c7 := contains_phishing_keyword _ subj).
    destruct (List.find _ _) as [ext|]; intros [= <-]; cbn [rules_score]; rewrite ?add_if_score.
    + exists c1, c2, c3, c4, true, c6, c7. reflexivity.
    + by exists c1, c2, c3, c4, false, c6, c7.
  - set (c6 := Nat.eqb (_ + _) 0).
    destruct (List.find _ _) as [ext|]; intros [= <-]; cbn [rules_score]; rewrite ?add_if_score.
    + by exists c1, c2, false, false, true, c6, false.
    + by exists c1, c2, false, false, false, c6, false.
Qed.

(** ** Without training *)

Definition untrained (d : Db) (account : string) : Prop :=
  forall token, select_first (token_row account token) (spam_tokens d) = None.

Lemma untrained_counts d account tokens token :
  untrained d account ->
  forall counts, fst (get_spam_token_counts account tokens d) = Ok counts ->
  (counts !! token = None \/ counts !! token = Some (0, 0)%Z).
Proof.
  intros Hd counts [= <-].
  assert (forall (m : TokenCounts), (m !! token = None \/ m !! token = Some (0, 0)%Z) ->
    let m' := fold_left (fun (m : TokenCounts) t =>
      <[t := match select_first (token_row account t) (spam_tokens d) with
             | Some r => u32_pair (s_spam r) (s_ham r)
             | None => (0, 0)%Z
             end]> m) tokens m in
    m' !! token = None \/ m' !! token = Some (0, 0)%Z) as Hfold; [|apply Hfold; by left].
  induction tokens as [|t tokens IH]; intros m Hm; simpl; [done|]. apply IH. rewrite Hd.
  destruct (decide (t = token)) as [->|Hne]; [right; by rewrite lookup_insert_eq|].
  by rewrite lookup_insert_ne.
Qed.

Lemma sum_zero l : Forall (fun z => z = 0%Z) l -> sum_u32 l = 0%Z.
Proof.
  intros Hl. unfold sum_u32. replace (fold_left Z.add l 0%Z) with 0%Z; [done|].
  induction Hl as [|z l -> _ IH]; done.
Qed.

Definition half : f32 := dec 1 2.

Lemma untrained_probability (counts : TokenCounts) tokens :
  (forall token, counts !! token = None \/ counts !! token = Some (0, 0)%Z) ->
  f32_ln (f32_of_Z 1) = f32_of_Z 0 -> f32_exp (SFopp (f32_of_Z 0)) = f32_of_Z 1 ->
  bayes_probability f32_ln f32_exp counts tokens = half.
Proof.
  intros Hc Hln Hexp. unfold bayes_probability.
  assert (forall (f : Z * Z -> Z), f (0, 0)%Z = 0%Z ->
    sum_u32 (map (fun kv : string * (Z * Z) => f (snd kv)) (map_to_list counts)) = 0%Z) as Hsum.
  { intros f Hf. apply sum_zero, Forall_forall. intros z (kv & Hkv & ->)%elem_of_map.
    destruct kv as [k v]. apply elem_of_map_to_list in Hkv. simpl.
    destruct (Hc k) as [E|E]; rewrite E in Hkv; [done|]. by injection Hkv as <-. }
  assert (forall t, log_odds_step f32_ln counts (f32_of_Z 0) t = f32_of_Z 0) as Hstep.
  { intros t. unfold log_odds_step. rewrite (Hsum fst eq_refl), (Hsum snd eq_refl).
    assert (default (0, 0)%Z (counts !! t) = (0, 0)%Z) as -> by (by destruct (Hc t) as [-> | ->]).
    cbv zeta. set (arg := f32_max _ _).
    assert (arg = f32_of_Z 1) as -> by (vm_compute; reflexivity). rewrite Hln.
    vm_compute. reflexivity. }
  assert (fold_left (log_odds_step f32_ln counts) tokens (f32_of_Z 0) = f32_of_Z 0) as ->.
  { induction tokens as [|t tokens IH]; [done|]. cbn [fold_left]. by rewrite Hstep. }
  rewrite Hexp. vm_compute. reflexivity.
Qed.

(** ** The default thresholds *)

Definition QUARANTINE : f32 := dec 7 10.

Definition final_score (bayes : bool) (s : f32) : f32 :=
  let score1 := f32_add (f32_of_Z 0) (f32_mul s (dec 5 10)) in
  f32_clamp (if bayes then f32_add (f32_mul score1 (dec 3 10)) (f32_mul half (dec 7 10)) else score1)
    (f32_of_Z 0) (f32_of_Z 1).

Definition bools : list bool := [true; false].
Lemma scores_checked :
  forallb (fun b => forallb (fun b1 => forallb (fun b2 => forallb (fun b3 => forallb (fun b4 =>
    forallb (fun b5 => forallb (fun b6 => forallb (fun b7 =>
      f32_lt (final_score b (rule_sum b1 b2 b3 b4 b5 b6 b7)) QUARANTINE)
    bools) bools) bools) bools) bools) bools) bools) bools = true.
Proof. vm_compute. reflexivity. Qed.

Lemma forallb_bools f b : forallb f bools = true -> f b = true.
Proof. simpl. rewrite !andb_true_iff. intros (Ht & Hf & _). by destruct b. Qed.

Lemma final_score_low bayes b1 b2 b3 b4 b5 b6 b7 :
  f32_lt (final_score bayes (rule_sum b1 b2 b3 b4 b5 b6 b7)) QUARANTINE = true.
Proof.
  pose proof scores_checked as H.
  apply (forallb_bools _ bayes), (forallb_bools _ b1), (forallb_bools _ b2), (forallb_bools _ b3),
    (forallb_bools _ b4), (forallb_bools _ b5), (forallb_bools _ b6), (forallb_bools _ b7) in H.
  exact H.
Qed.

(** A message scanned for an account without training data, and the SMTP
    handler always scans for a freshly drawn account id, scores below 0.7, the
    default quarantine threshold: by default nothing is ever junked or refused. *)
Lemma untrained_scan_is_inert zones is_v4 account raw d v :
  f32_ln (f32_of_Z 1) = f32_of_Z 0 -> f32_exp (SFopp (f32_of_Z 0)) = f32_of_Z 1 ->
  untrained d account ->
  scan zones is_v4 account raw d = Some v -> f32_lt (score v) QUARANTINE = true.
Proof.
  intros Hln Hexp Hd. unfold Spam.scan.
  assert (check_ip zones is_v4 = Ok []) as -> by (by destruct zones, is_v4).
  destruct (check_message raw) as [r|] eqn:Hr; [|done].
  destruct (check_message_score raw r Hr) as (b1 & b2 & b3 & b4 & b5 & b6 & b7 & Hs).
  intros Hv.
  destruct (fst (classify _ _ _ _ _ _ account raw d)) as [[p|]|e] eqn:Hp.
  - assert (p = half) as ->.
    { unfold classify in Hp. destruct (tokenize _ _ _ _ raw) as [|t ts]; [done|].
      pose proof (untrained_counts d account (t :: ts)) as Hcounts.
      destruct (get_spam_token_counts account (t :: ts) d) as [[counts|e] d']; [|done].
      simpl in Hp. destruct (Nat.eqb (size counts) 0); [done|].
      assert (p = bayes_probability f32_ln f32_exp counts (t :: ts)) as -> by congruence.
      apply untrained_probability; [|done..]. intros token. by apply Hcounts. }
    injection Hv as <-. simpl. rewrite Hs. apply (final_score_low true).
  - injection Hv as <-. simpl. rewrite Hs. apply (final_score_low false).
  - injection Hv as <-. simpl. rewrite Hs. apply (final_score_low false).
Qed.
End Facts.

(** ** Training and counting *)

Definition counted (d : Db) (account token : string) : Z * Z :=
  match select_first (token_row account token) (spam_tokens d) with
  | Some r => (s_spam r, s_ham r)
  | None => (0, 0)%Z
  end.

Definition bumped (is_spam : bool) (c : Z * Z) : Z * Z :=
  if is_spam then (fst c + 1, snd c)%Z else (fst c, snd c + 1)%Z.

Lemma token_row_spec account token r :
  token_row account token r = true <-> s_account r = account /\ s_token r = token.
Proof. unfold token_row. rewrite andb_true_iff, !String.eqb_eq. tauto. Qed.

Lemma find_update_where {R} (test test' : R -> bool) f l :
  (forall r, test (f r) = test r) ->
  List.find test (update_where test' f l)
  = option_map (fun r => if test' r then f r else r) (List.find test l).
Proof.
  intros Hf. unfold update_where. induction l as [|r l IH]; simpl; [done|].
  destruct (test' r) eqn:E; rewrite ?Hf; destruct (test r) eqn:E'; simpl; rewrite ?E; done.
Qed.

Lemma find_snoc {R} (test : R -> bool) l x :
  List.find test (l ++ [x])
  = match List.find test l with Some r => Some r | None => if test x then Some x else None end.
Proof. induction l as [|r l IH]; simpl; [done|]. by destruct (test r). Qed.

Lemma train_one_counts account is_spam token d :
  account_exists account d = true ->
  exists d', train_one account is_spam token d = (Ok tt, d')
    /\ accounts d' = accounts d
    /\ counted d' account token = bumped is_spam (counted d account token)
    /\ forall a t, (a, t) <> (account, token) -> counted d' a t = counted d a t.
Proof.
  intros Hacct. unfold train_one, require, bind, modify. rewrite Hacct.
  eexists. split; [reflexivity|]. split; [by destruct d|]. unfold counted, select_first. simpl.
  set (bump := fun r => if is_spam then _ else _).
  assert (forall a t r, token_row a t (bump r) = token_row a t r) as Hbump
    by (intros a t r; unfold bump; by destruct is_spam).
  destruct (existsb (token_row account token) (spam_tokens d)) eqn:E.
  - split.
    + rewrite find_update_where by apply Hbump.
      destruct (List.find _ _) as [r|] eqn:F; simpl.
      * apply List.find_some in F as [_ F]. rewrite F. unfold bump. by destruct is_spam.
      * apply existsb_exists in E as (r & Hr & Ht). by rewrite (List.find_none _ _ F r Hr) in Ht.
    + intros a t Hne. rewrite find_update_where by apply Hbump.
      destruct (List.find _ _) as [r|] eqn:F; simpl; [|done].
      apply List.find_some in F as [_ F]. apply token_row_spec in F as [<- <-].
      destruct (token_row account token r) eqn:F'; [|done].
      apply token_row_spec in F' as [<- <-]. done.
  - split.
    + rewrite find_snoc. destruct (List.find _ _) as [r|] eqn:F.
      * apply List.find_some in F as [Hin F].
        assert (existsb (token_row account token) (spam_tokens d) = true); [|congruence].
        apply existsb_exists. eauto.
      * assert (token_row account token (if is_spam then mk_spam_token account token 1 0
                                         else mk_spam_token account token 0 1) = true) as ->
          by (apply token_row_spec; by destruct is_spam). by destruct is_spam.
    + intros a t Hne. rewrite find_snoc. destruct (List.find _ _) as [r|]; [done|].
      destruct (token_row a t _) eqn:F; [|done]. apply token_row_spec in F as [<- <-].
      by destruct is_spam.
Qed.

Lemma train_loop account is_spam tokens : forall d,
  account_exists account d = true -> NoDup tokens ->
  exists d', for_each tokens (train_one account is_spam) d = (Ok tt, d')
    /\ forall a t, counted d' a t = if bool_decide (a = account /\ t ∈ tokens)
                                   then bumped is_spam (counted d a t) else counted d a t.
Proof.
  induction tokens as [|token tokens IH]; intros d Hacct Hnd.
  - exists d. split; [done|]. intros a t. rewrite bool_decide_eq_false_2; [done|].
    intros [_ H]. by apply elem_of_nil in H.
  - apply NoDup_cons in Hnd as [Hnot Hnd].
    destruct (train_one_counts account is_spam token d Hacct) as (d1 & Hrun & Hacc & Hself & Hother).
    assert (account_exists account d1 = true) as Hacct1 by (unfold account_exists in *; by rewrite Hacc).
    destruct (IH d1 Hacct1 Hnd) as (d' & Hrun' & Hcount). exists d'. split.
    { cbn [for_each]. unfold bind. by rewrite Hrun. }
    intros a t. rewrite Hcount. destruct (decide ((a, t) = (account, token))) as [[= -> ->]|Hne].
    + rewrite bool_decide_eq_false_2 by naive_solver.
      rewrite bool_decide_eq_true_2; [done|]. split; [done|]. by left.
    + rewrite (Hother a t Hne).
      destruct (decide (a = account /\ t ∈ tokens)) as [Hin|Hin].
      * rewrite !bool_decide_eq_true_2; [done| |done]. split; [by apply Hin|]. right. by apply Hin.
      * rewrite !bool_decide_eq_false_2; [done| |done].
        intros [-> [->|Ht]%elem_of_cons]; [done|]. by apply Hin.
Qed.

(** Training on a message's distinct tokens adds one to the spam (or ham)
    count of exactly those tokens of that account, and to nothing else; the
    classifier then reads these counts. *)
Lemma train_spam_tokens_spec account is_spam tokens d :
  account_exists account d = true -> NoDup tokens ->
  exists d', train_spam_tokens account tokens is_spam d = (Ok tt, d')
    /\ (forall a t, counted d' a t = if bool_decide (a = account /\ t ∈ tokens)
                                    then bumped is_spam (counted d a t) else counted d a t)
    /\ forall t counts, t ∈ tokens -> fst (get_spam_token_counts account tokens d') = Ok counts ->
         counts !! t = Some (u32_pair (fst (counted d' account t)) (snd (counted d' account t))).
Proof.
  intros Hacct Hnd. destruct (train_loop account is_spam tokens d Hacct Hnd) as (d' & Hrun & Hcount).
  exists d'. split; [|split; [exact Hcount|]].
  { unfold train_spam_tokens. destruct tokens as [|t ts]; [by injection Hrun as ->|].
    unfold transaction. by rewrite Hrun. }
  intros t counts Hin [= <-]. clear Hcount Hrun Hnd.
  set (value := fun token => match select_first (token_row account token) (spam_tokens d') with
                             | Some r => u32_pair (s_spam r) (s_ham r)
                             | None => (0, 0)%Z
                             end).
  assert (u32_pair (fst (counted d' account t)) (snd (counted d' account t)) = value t) as ->.
  { unfold counted, value. by destruct (select_first _ _). }
  assert (forall (m : gmap string (Z * Z)), (t ∈ tokens \/ m !! t = Some (value t)) ->
    fold_left (fun (m : gmap string (Z * Z)) token => <[token := value token]> m) tokens m !! t
    = Some (value t)) as Hfold; [|apply Hfold; by left].
  clear Hin. induction tokens as [|x tokens IH]; intros m Hm; cbn [fold_left].
  - destruct Hm as [Hm|Hm]; [by apply elem_of_nil in Hm|done].
  - apply IH. destruct (decide (x = t)) as [->|Hne]; [right; by rewrite lookup_insert_eq|].
    destruct Hm as [[->|Hm]%elem_of_cons|Hm]; [done|by left|right]. by rewrite lookup_insert_ne.
Qed.

(** ** A subject that starts with a wide space *)

Definition IDEOGRAPHIC_SPACE : string := utf8_3 "227" "128" "128".

Lemma bytes_of_length s : length (bytes_of s) = String.length s.
Proof. induction s as [|c s IH]; simpl; [done|]. by rewrite IH. Qed.

Lemma slice_at a b :
  slice_from (String.length a) (a +:+ b)
  = match b with String c _ => if continuation c then None else Some b | EmptyString => Some b end.
Proof.
  unfold slice_from. rewrite append_length, (proj2 (Nat.ltb_ge _ _)) by lia.
  rewrite bytes_of_app, <- bytes_of_length, drop_app_length, string_of_bytes_of. done.
Qed.

Lemma chars_head a s : exists w ws, chars (String a s) = String a w :: ws.
Proof.
  cbn [chars]. destruct (chars s) as [|[|b w] ws]; [by eexists "", _|by eexists "", _|].
  destruct (continuation b); by eexists _, _.
Qed.

(** Whatever else a message holds, if its Subject starts with exactly one
    ideographic space, looking the header up panics: the number of characters
    skipped is used as a number of bytes, which cuts the three-byte space. *)
Lemma wide_space_subject_panics msg before c rest :
  find_split (crlf +:+ "Subject:") msg = Some (before, IDEOGRAPHIC_SPACE +:+ String c rest) ->
  continuation c = false ->
  (forall w, head (chars (String c rest)) = Some w -> char_is_whitespace w = false) ->
  extract_header msg "Subject" = None.
Proof.
  intros Hfind Hc Hws. unfold extract_header. change (crlf +:+ "Subject" +:+ ":") with (crlf +:+ "Subject:").
  rewrite Hfind. apply find_split_Some in Hfind. rewrite <- append_assoc in Hfind.
  set (front := before +:+ crlf +:+ "Subject:") in *.
  rewrite <- append_length. change (before +:+ crlf +:+ "Subject:") with front.
  rewrite Hfind at 1. rewrite slice_at.
  destruct (chars_head c rest) as (w & ws & Hchars).
  assert (chars (IDEOGRAPHIC_SPACE +:+ String c rest) = IDEOGRAPHIC_SPACE :: String c w :: ws) as Hall.
  { unfold IDEOGRAPHIC_SPACE, utf8_3, str_of. rewrite !append_cons. change ("" +:+ ?x) with x.
    cbn [chars]. cbn [chars] in Hchars. rewrite Hchars, Hc. reflexivity. }
  change (match IDEOGRAPHIC_SPACE +:+ String c rest with
          | String c0 _ => if continuation c0 then None else Some (IDEOGRAPHIC_SPACE +:+ String c rest)
          | EmptyString => Some (IDEOGRAPHIC_SPACE +:+ String c rest)
          end) with (Some (IDEOGRAPHIC_SPACE +:+ String c rest)).
  cbv beta iota. rewrite Hall. specialize (Hws (String c w)). rewrite Hchars in Hws. specialize (Hws eq_refl).
  assert (position (fun c => negb (char_is_whitespace c)) (IDEOGRAPHIC_SPACE :: String c w :: ws)
          = Some 1%nat) as -> by (cbn [position]; by rewrite Hws).
  assert (msg = (front +:+ str_of "227") +:+ (String "128" (String "128" (String c rest)))) as Hmsg
    by (rewrite Hfind, append_assoc; reflexivity).
  replace (default 0%nat (Some 1%nat) + String.length front)%nat
    with (String.length (front +:+ str_of "227")) by (rewrite append_length; simpl; lia).
  rewrite Hmsg, slice_at. reflexivity.
Qed.

(** ** Concrete inputs *)

Definition toy_scan : string -> list Z -> Db -> option SpamVerdict :=
  scan (fun _ => true) (fun _ => false) (fun _ => false) (fun c => c) (fun l => l)
    (fun _ => f32_of_Z 0) (fun _ => f32_of_Z 1) (fun _ => "") ["zen.spamhaus.org"] true.

Definition crying : string :=
  "X: 1" +:+ crlf +:+ "Subject: URGENT ACTION: VERIFY ACCOUNT!!!!" +:+ crlf +:+ crlf
  +:+ "filename=" +:+ str_of quote +:+ "exe".

Lemma untrained_scan_is_inert_witness :
  exists v, toy_scan "nobody" (bytes_of crying) empty_db = Some v
    /\ length (matched_rules v) = 7%nat /\ f32_lt (score v) QUARANTINE = true.
Proof.
  destruct (toy_scan "nobody" (bytes_of crying) empty_db) as [v|] eqn:E; [|vm_compute in E; discriminate].
  exists v. split; [reflexivity|]. split; [vm_compute in E; injection E as <-; reflexivity|].
  exact (untrained_scan_is_inert (fun _ => true) (fun _ => false) (fun _ => false) (fun c => c) (fun l => l)
    (fun _ => f32_of_Z 0) (fun _ => f32_of_Z 1) (fun _ => "") ["zen.spamhaus.org"] true "nobody"
    (bytes_of crying) empty_db v eq_refl eq_refl (fun _ => eq_refl) E).
Defined.

(** The attachment rule looks for a file name that starts with the extension:
    [invoice.exe] passes. *)
Lemma executable_rule_misses :
  match toy_scan "nobody" (bytes_of ("A: b" +:+ crlf +:+ "Content-Disposition: attachment; filename="
                                     +:+ str_of quote +:+ "invoice.exe" +:+ str_of quote)) empty_db with
  | Some v => existsb (String.eqb "EXECUTABLE_ATTACHMENT.exe") (matched_rules v) = false
  | None => False
  end.
Proof. vm_compute. reflexivity. Qed.

Definition one_account : Db := on_accounts (fun _ => [mk_account "a" "a@x" None 1 None]) empty_db.

Lemma train_spam_tokens_spec_witness :
  exists d', train_spam_tokens "a" ["free"; "money"] true one_account = (Ok tt, d')
    /\ counted d' "a" "money" = (1, 0)%Z /\ counted d' "a" "hello" = (0, 0)%Z.
Proof.
  destruct (train_spam_tokens_spec "a" true ["free"; "money"] one_account eq_refl) as (d' & Hrun & Hc & _).
  - apply NoDup_ListNoDup. repeat constructor; simpl; intuition discriminate.
  - exists d'. split; [exact Hrun|]. rewrite !Hc. split; reflexivity.
Defined.

Lemma wide_space_subject_panics_witness :
  extract_header ("A: b" +:+ crlf +:+ "Subject:" +:+ IDEOGRAPHIC_SPACE +:+ "Hi" +:+ crlf) "Subject" = None.
Proof.
  apply (wide_space_subject_panics _ "A: b" "H" ("i" +:+ crlf)); [reflexivity|reflexivity|].
  intros w Hw. vm_compute in Hw. by injection Hw as <-.
Defined.
