(* ===== verification/Pgp.v ===== *)
(** [crates/owney-pgp] with [crates/owney-storage/src/pgp_store.rs]: key
    storage, Autocrypt, and the outbound and inbound stages of the mail pipeline.

    OpenPGP itself, base64 and the digests are the class [Sequoia] (a cert's
    decryption and verification keys serve only to state its laws); what
    [src/ops.rs] does around them (which keys are used, how signature results
    become a disposition) is defined here.  The state is the storage handle
    with the two PGP tables. *)
From S2P Require Import Prelude Text Bytes Ident Store Mail.

Open Scope string_scope.

(** ** [sequoia_openpgp], [base64], [blake3] *)

Inductive SigResult := GoodSig | MissingKey | BadSig.
Inductive Layer := SignatureGroup (results : list SigResult) | OtherLayer.

Class Sequoia := {
  Cert : Type;
  Key : Type;
  cert_from_bytes : list Z -> result string Cert;
  cert_to_vec : Cert -> result string (list Z);
  cert_as_tsk : Cert -> result string (list Z);
  cert_fingerprint : Cert -> string;
  cert_generate : string -> Z -> result string Cert;           (* user id, entropy *)
  encryption_keys : Cert -> result string (list Key);          (* usable for transport encryption *)
  signing_key : Cert -> result string (option Key);            (* the first secret signing key *)
  decryption_keys : Cert -> result string (list Key);          (* secret ones for transport encryption, unlocked *)
  verification_keys : Cert -> list Key;                        (* whose signatures the cert vouches for *)
  message_encrypt : list Key -> Key -> list Z -> result string (list Z);
  message_decrypt : Cert -> list Cert -> list Z -> result string (list Z * list Layer);
  detached_sign : Key -> list Z -> result string (list Z);
  detached_layers : Cert -> list Z -> list Z -> result string (list Layer);
  base64_encode : list Z -> string;
  base64_decode : string -> result string (list Z);
  digest_hex : list Z -> string;
  sha1 : list Z -> result string (list Z)
}.

Inductive PgpError :=
  | OpenPgp (what : string)
  | PgpStorage (e : StorageError)
  | NoEncryptionKey (fingerprint : string).

(** ** Tables *)

Record OwnKeyRow := mk_own_key {
  ok_account : string;
  ok_fingerprint : string;
  ok_blob : string;
  ok_created_at : Z
}.

Record PgpPeer := mk_peer {
  pp_account : string;
  pp_address : string;
  pp_cert : list Z;
  pp_fingerprint : string;
  pp_prefer_encrypt : option string;
  pp_last_seen : Z
}.

Record PgpDb := mk_pgp_db { own_keys : list OwnKeyRow; peers : list PgpPeer }.

(** [signature] as [Helper::check] sets it, group by group, result by result:
    the first good signature ends the check. *)
Fixpoint check_results (current : string) (results : list SigResult) : string * bool :=
  match results with
  | [] => (current, false)
  | GoodSig :: _ => ("valid", true)
  | MissingKey :: rest => check_results "unknown_key" rest
  | BadSig :: rest => check_results (if String.eqb current "none" then "invalid" else current) rest
  end.
Fixpoint check_layers (current : string) (layers : list Layer) : string :=
  match layers with
  | [] => current
  | SignatureGroup results :: rest =>
      let '(current, stop) := check_results current results in
      if stop then current else check_layers current rest
  | OtherLayer :: rest => check_layers current rest
  end.

(** [DetachedHelper::check]. *)
Definition is_good (r : SigResult) : bool := match r with GoodSig => true | _ => false end.
Definition any_good (layers : list Layer) : bool :=
  existsb (fun l => match l with SignatureGroup rs => existsb is_good rs | OtherLayer => false end) layers.

(** ** The stages' text functions ([src/pipeline.rs]) *)

Definition KEEP : list string :=
  ["from:"; "to:"; "cc:"; "subject:"; "date:"; "message-id:"; "references:"].

Fixpoint keep_headers (keeping : bool) (lines : list string) : string :=
  match lines with
  | [] => ""
  | line :: rest =>
      if starts_with " " line || starts_with (str_of tab) line
      then (if keeping then line +:+ crlf else "") +:+ keep_headers keeping rest
      else
        let keeping := existsb (fun k => starts_with k (to_lowercase line)) KEEP in
        (if keeping then line +:+ crlf else "") +:+ keep_headers keeping rest
  end.

(** [copy_routing_headers]. *)
Definition copy_routing_headers (raw : list Z) : string :=
  let text := utf8_lossy (string_of raw) in
  let header_section := default "" (head (split_str (crlf +:+ crlf) text)) in
  keep_headers false (split_str crlf header_section).

(** [prepend_header]. *)
Definition prepend_header (raw : list Z) (name value : string) : list Z :=
  (bytes_of (name +:+ ": " +:+ value +:+ crlf) ++ raw)%list.

Definition BEGIN_MARK : string := "-----BEGIN PGP MESSAGE-----".
Definition END_MARK : string := "-----END PGP MESSAGE-----".

(** [extract_armored]. *)
Definition extract_armored (raw : list Z) : option string :=
  match find_split BEGIN_MARK (utf8_lossy (string_of raw)) with
  | None => None
  | Some (_, after) =>
      match find_split END_MARK (BEGIN_MARK +:+ after) with
      | None => None
      | Some (body, _) => Some (body +:+ END_MARK)
      end
  end.

Definition q : string := str_of quote.

(** ** Web Key Directory ([src/wkd.rs]) *)

Definition ZBASE32 : string := "ybndrfg8ejkmcpqxot1uwisza345h769".
Definition zchar (n : Z) : ascii := default "000"%char (String.get (Z.to_nat n) ZBASE32).

(** The inner loop: at most one output per five pending bits; the buffer is a
    [u64] shifted left for every byte. *)
Fixpoint zbase32_emit (fuel : nat) (buffer bits : Z) : string * Z :=
  match fuel with
  | O => ("", bits)
  | S fuel' =>
      if (5 <=? bits)%Z then
        let bits := (bits - 5)%Z in
        let '(out, bits') := zbase32_emit fuel' buffer bits in
        (String (zchar (Z.land (Z.shiftr buffer bits) 31)) out, bits')
      else ("", bits)
  end.

Fixpoint zbase32_go (buffer bits : Z) (data : list Z) : string :=
  match data with
  | [] => if (0 <? bits)%Z
          then str_of (zchar (Z.land (Z.shiftl buffer (5 - bits) mod 2 ^ 64) 31))
          else ""
  | byte :: data' =>
      let buffer := Z.lor (Z.shiftl buffer 8 mod 2 ^ 64) byte in
      let '(out, bits') := zbase32_emit 3 buffer (bits + 8) in
      out +:+ zbase32_go buffer bits' data'
  end.
Definition zbase32 (data : list Z) : string := zbase32_go 0 0 data.

Section Pgp.
Context `{BlobStore} `{Sequoia}.
Variable parse_uuid : string -> option string.
(** [mail_parser]: the message, and the text of its Autocrypt header. *)
Variable parse_message : list Z -> option ParsedMessage.
Variable autocrypt_of : list Z -> option string.

Definition lift_pgp {A} (r : result string A) : result PgpError A :=
  match r with Ok a => Ok a | Err e => Err (OpenPgp e) end.

(** [hu] and [direct_path]. *)
Definition hu (local_part : string) : result PgpError string :=
  digest <-? lift_pgp (sha1 (bytes_of (to_lowercase local_part))) ;; Ok (zbase32 digest).
Definition direct_path (mail : string) : result PgpError (string * string) :=
  match rsplit_once "@" mail with
  | None => Err (OpenPgp (mail +:+ " has no domain"))
  | Some (local, _) => h <-? hu local ;; Ok ("/.well-known/openpgpkey/hu/" +:+ h, local)
  end.

(** ** [src/ops.rs] *)

Fixpoint recipient_keys (certs : list Cert) : result PgpError (list Key) :=
  match certs with
  | [] => Ok []
  | cert :: rest =>
      keys <-? lift_pgp (encryption_keys cert) ;;
      match keys with
      | [] => Err (NoEncryptionKey (cert_fingerprint cert))
      | _ => others <-? recipient_keys rest ;; Ok (keys ++ others)%list
      end
  end.

Definition signer_of (cert : Cert) (who : string) : result PgpError Key :=
  key <-? lift_pgp (signing_key cert) ;;
  ok_or key (OpenPgp (who +:+ " has no secret signing key")).

(** [encrypt_and_sign]: to every recipient and to the sender. *)
Definition encrypt_and_sign (sender : Cert) (recipients : list Cert) (plaintext : list Z)
  : result PgpError (list Z) :=
  keys <-? recipient_keys (recipients ++ [sender])%list ;;
  signer <-? signer_of sender "sender" ;;
  lift_pgp (message_encrypt keys signer plaintext).

(** [decrypt_and_verify]: the plaintext and the signature's disposition. *)
Definition decrypt_and_verify (own : Cert) (sender : option Cert) (ciphertext : list Z)
  : result PgpError (list Z * string) :=
  r <-? lift_pgp (message_decrypt own (match sender with Some c => [c] | None => [] end) ciphertext) ;;
  let '(plaintext, layers) := r in Ok (plaintext, check_layers "none" layers).

Definition sign_detached (signer : Cert) (msg : list Z) : result PgpError (list Z) :=
  key <-? signer_of signer "signer" ;; lift_pgp (detached_sign key msg).

Definition verify_detached (signer_pub : Cert) (msg sig : list Z) : result PgpError bool :=
  layers <-? lift_pgp (detached_layers signer_pub msg sig) ;; Ok (any_good layers).

Definition seal_event (author_secret receiving_server_pub : Cert) (plaintext : list Z)
  : result PgpError (list Z) :=
  encrypt_and_sign author_secret [receiving_server_pub] plaintext.

Definition open_event (server_secret author_pub : Cert) (ciphertext : list Z)
  : result PgpError (list Z) :=
  r <-? decrypt_and_verify server_secret (Some author_pub) ciphertext ;;
  let '(plaintext, signature) := r in
  if String.eqb signature "valid" then Ok plaintext
  else Err (OpenPgp ("federated event signature not valid: " +:+ signature)).

(** ** Autocrypt ([src/autocrypt.rs]) *)

Definition autocrypt_header (mail : string) (cert : Cert) (prefer_encrypt_mutual : bool)
  : result PgpError string :=
  der <-? lift_pgp (cert_to_vec cert) ;;
  Ok ("addr=" +:+ mail +:+ "; " +:+ (if prefer_encrypt_mutual then "prefer-encrypt=mutual; " else "")
      +:+ "keydata=" +:+ base64_encode der).

Record ParsedHeader := mk_header {
  ph_addr : string;
  ph_prefer_encrypt : option string;
  ph_cert : Cert
}.

Fixpoint parse_attributes (attributes : list string) (addr prefer keydata : option string)
  : result PgpError (option string * option string * option string) :=
  match attributes with
  | [] => Ok (addr, prefer, keydata)
  | attribute :: rest =>
      match split_once "=" attribute with
      | None => parse_attributes rest addr prefer keydata
      | Some (key, val) =>
          let key := trim key in
          if String.eqb key "addr"
          then parse_attributes rest (Some (to_lowercase (trim val))) prefer keydata
          else if String.eqb key "prefer-encrypt"
          then parse_attributes rest addr (Some (trim val)) keydata
          else if String.eqb key "keydata"
          then parse_attributes rest addr prefer (Some (str_filter (fun c => negb (is_ws c)) val))
          else if negb (starts_with "_" key) && negb (String.eqb key "")
          then Err (OpenPgp ("unknown critical autocrypt attribute " +:+ key))
          else parse_attributes rest addr prefer keydata
      end
  end.

Definition parse_header (value : string) : result PgpError ParsedHeader :=
  parsed <-? parse_attributes (split_on ";" value) None None None ;;
  let '(addr, prefer, keydata) := parsed in
  addr <-? ok_or addr (OpenPgp "autocrypt: no addr") ;;
  keydata <-? ok_or keydata (OpenPgp "autocrypt: no keydata") ;;
  der <-? match base64_decode keydata with
          | Ok der => Ok der
          | Err e => Err (OpenPgp ("autocrypt keydata: " +:+ e))
          end ;;
  cert <-? lift_pgp (cert_from_bytes der) ;;
  Ok (mk_header addr prefer cert).

(** ** Key storage ([pgp_store.rs]) *)

Record PgpWorld := mk_pgp_world { pw_world : World; pw_db : PgpDb }.
Abbreviation PM A := (action PgpWorld PgpError A).

Definition on_own_keys (f : list OwnKeyRow -> list OwnKeyRow) (w : PgpWorld) : PgpWorld :=
  mk_pgp_world (pw_world w) (mk_pgp_db (f (own_keys (pw_db w))) (peers (pw_db w))).
Definition on_peers (f : list PgpPeer -> list PgpPeer) (w : PgpWorld) : PgpWorld :=
  mk_pgp_world (pw_world w) (mk_pgp_db (own_keys (pw_db w)) (f (peers (pw_db w)))).

(** A storage operation, its error converted by [From]. *)
Definition storage {A} (m : action World StorageError A) : PM A :=
  fun w => let '(r, w') := m (pw_world w) in
           (match r with Ok a => Ok a | Err e => Err (PgpStorage e) end, mk_pgp_world w' (pw_db w)).

Definition require_account (account : string) : PM unit :=
  storage (on_db (require (account_exists account) "FOREIGN KEY constraint failed")).

Definition pgp_own_key (account : string) : PM (option (string * BlobId)) :=
  fun w => (match select_first (fun r => String.eqb (ok_account r) account) (own_keys (pw_db w)) with
            | None => Ok None
            | Some r => match from_str (ok_blob r) with
                        | Parsed i => Ok (Some (ok_fingerprint r, i))
                        | _ => Err (PgpStorage (Corrupt ("bad pgp blob id " +:+ ok_blob r)))
                        end
            end, w).

Definition set_pgp_own_key (now : Z) (account fingerprint : string) (blob : BlobId) : PM unit :=
  require_account account ;;;
  modify (on_own_keys (fun l =>
    if existsb (fun r => String.eqb (ok_account r) account) l
    then update_where (fun r => String.eqb (ok_account r) account)
           (fun r => mk_own_key account fingerprint (to_hex blob) (ok_created_at r)) l
    else (l ++ [mk_own_key account fingerprint (to_hex blob) now])%list)).

Definition peer_key (account address : string) (p : PgpPeer) : bool :=
  String.eqb (pp_account p) account && String.eqb (pp_address p) address.

Definition pgp_peer (account address : string) : PM (option PgpPeer) :=
  let address := to_lowercase (trim address) in
  gets (fun w => select_first (peer_key account address) (peers (pw_db w))).

(** [upsert_pgp_peer]: whether a known peer's fingerprint changed. *)
Definition upsert_pgp_peer (now : Z) (account address : string) (cert : list Z) (fingerprint : string)
    (prefer_encrypt : option string) : PM bool :=
  let address := to_lowercase (trim address) in
  let row := mk_peer account address cert fingerprint prefer_encrypt now in
  previous <- gets (fun w => select_first (peer_key account address) (peers (pw_db w))) ;;
  require_account account ;;;
  modify (on_peers (fun l => match previous with
                             | Some _ => update_where (peer_key account address) (fun _ => row) l
                             | None => (l ++ [row])%list
                             end)) ;;;
  ret match previous with
      | Some old => negb (String.eqb (pp_fingerprint old) fingerprint)
      | None => false
      end.

(** ** [src/lib.rs] *)

Definition generate_cert (mail : string) (name : option string) (entropy : Z) : result PgpError Cert :=
  lift_pgp (cert_generate (match name with
                           | Some n => n +:+ " <" +:+ mail +:+ ">"
                           | None => "<" +:+ mail +:+ ">"
                           end) entropy).

Definition get_cert (blob : BlobId) : PM Cert :=
  tsk <- storage (get_blob blob) ;; lift (lift_pgp (cert_from_bytes tsk)).

(** [own_cert]: loaded, or generated and kept on first use. *)
Definition own_cert (now entropy : Z) (account_id : string) : PM Cert :=
  known <- pgp_own_key account_id ;;
  match known with
  | Some (_, blob) => get_cert blob
  | None =>
      found <- storage (on_db (account parse_uuid account_id)) ;;
      acct <- lift (ok_or found (OpenPgp "no such account")) ;;
      cert <- lift (generate_cert (email acct) (display_name acct) entropy) ;;
      tsk <- lift (lift_pgp (cert_as_tsk cert)) ;;
      blob <- storage (put_blob now tsk) ;;
      set_pgp_own_key now account_id (cert_fingerprint cert) blob ;;;
      ret cert
  end.

(** ** Outbound *)

(** [encrypt_pgp_mime]. *)
Definition encrypt_pgp_mime (sender : Cert) (recipients : list Cert) (header : string) (raw : list Z)
  : result PgpError (list Z) :=
  ciphertext <-? encrypt_and_sign sender recipients raw ;;
  let armored := string_of ciphertext in
  if negb (String.eqb (utf8_lossy armored) armored) then Err (OpenPgp "invalid utf-8 sequence")
  else
    let boundary := "pgpmime-" +:+ digest_hex raw in
    Ok (bytes_of (
      copy_routing_headers raw +:+ "Autocrypt: " +:+ header +:+ crlf
      +:+ "MIME-Version: 1.0" +:+ crlf
      +:+ "Content-Type: multipart/encrypted; protocol=" +:+ q +:+ "application/pgp-encrypted" +:+ q
      +:+ ";" +:+ crlf +:+ str_of tab +:+ "boundary=" +:+ q +:+ boundary +:+ q +:+ crlf +:+ crlf
      +:+ "--" +:+ boundary +:+ crlf
      +:+ "Content-Type: application/pgp-encrypted" +:+ crlf +:+ crlf
      +:+ "Version: 1" +:+ crlf
      +:+ "--" +:+ boundary +:+ crlf
      +:+ "Content-Type: application/octet-stream; name=" +:+ q +:+ "encrypted.asc" +:+ q +:+ crlf
      +:+ crlf +:+ armored +:+ crlf +:+ "--" +:+ boundary +:+ "--" +:+ crlf)).

(** The recipients' certs, or none at the first one missing or unreadable. *)
Fixpoint recipient_certs (account : string) (found : list Cert) (recipients : list string)
  : PM (list Cert) :=
  match recipients with
  | [] => ret found
  | recipient :: rest =>
      peer <- pgp_peer account recipient ;;
      match peer with
      | Some p => match cert_from_bytes (pp_cert p) with
                  | Ok c => recipient_certs account (found ++ [c])%list rest
                  | Err _ => ret []
                  end
      | None => ret []
      end
  end.

(** [outbound]. *)
Definition outbound (now entropy : Z) (account mail_from : string) (recipients : list string)
    (raw : list Z) : PM (list Z) :=
  cert <- own_cert now entropy account ;;
  header <- lift (autocrypt_header mail_from cert true) ;;
  certs <- recipient_certs account [] recipients ;;
  let cleartext := prepend_header raw "Autocrypt" header in
  if Nat.eqb (length certs) (length recipients) && negb (Nat.eqb (length recipients) 0)
  then match encrypt_pgp_mime cert certs header raw with
       | Ok encrypted => ret encrypted
       | Err _ => ret cleartext
       end
  else ret cleartext.

(** ** Inbound *)

Record InboundOutcome := mk_outcome {
  io_raw : list Z;
  io_pgp_status : option string;
  io_key_changes : list string
}.

Definition from_address (raw : list Z) : option string :=
  match parse_message raw with
  | Some m => addrs ← pm_from m; first ← head addrs; first
  | None => None
  end.

(** Harvesting: the sender's cert if the header is believed, and the changes. *)
Definition harvest (now : Z) (account : string) (raw : list Z) : PM (option Cert * list string) :=
  match parse_message raw with
  | None => ret (None, [])
  | Some _ =>
      match autocrypt_of raw with
      | None => ret (None, [])
      | Some value =>
          match parse_header value with
          | Err _ => ret (None, [])
          | Ok parsed =>
              if opt_is (from_address raw) (ph_addr parsed) then
                der <- lift (lift_pgp (cert_to_vec (ph_cert parsed))) ;;
                changed <- upsert_pgp_peer now account (ph_addr parsed) der
                             (cert_fingerprint (ph_cert parsed)) (ph_prefer_encrypt parsed) ;;
                ret (Some (ph_cert parsed), if changed then [ph_addr parsed] else [])
              else ret (None, [])
          end
      end
  end.

Definition decrypted_status (signature : string) (original : BlobId) : string :=
  "{" +:+ q +:+ "encrypted" +:+ q +:+ ":true," +:+ q +:+ "signature" +:+ q +:+ ":" +:+ q +:+ signature
  +:+ q +:+ "," +:+ q +:+ "original_blob" +:+ q +:+ ":" +:+ q +:+ to_hex original +:+ q +:+ "}".
Definition undecryptable_status : string :=
  "{" +:+ q +:+ "encrypted" +:+ q +:+ ":true," +:+ q +:+ "signature" +:+ q +:+ ":" +:+ q +:+ "none"
  +:+ q +:+ "," +:+ q +:+ "undecryptable" +:+ q +:+ ":true}".

Definition known_sender (account : string) (harvested : option Cert) (from : option string)
  : PM (option Cert) :=
  match harvested, from with
  | None, Some addr =>
      peer <- pgp_peer account addr ;;
      ret (p ← peer; match cert_from_bytes (pp_cert p) with Ok c => Some c | Err _ => None end)
  | _, _ => ret harvested
  end.

(** [inbound]. *)
Definition inbound (now entropy : Z) (account : string) (raw : list Z) : PM InboundOutcome :=
  harvested <- harvest now account raw ;;
  let '(sender, key_changes) := harvested in
  match extract_armored raw with
  | None => ret (mk_outcome raw None key_changes)
  | Some armored =>
      sender <- known_sender account sender (from_address raw) ;;
      own <- own_cert now entropy account ;;
      match decrypt_and_verify own sender (bytes_of armored) with
      | Ok (plaintext, signature) =>
          original <- storage (put_blob now raw) ;;
          ret (mk_outcome plaintext (Some (decrypted_status signature original)) key_changes)
      | Err _ => ret (mk_outcome raw (Some undecryptable_status) key_changes)
      end
  end.
End Pgp.

(** [Storage::set_pgp_status]. *)
Definition set_pgp_status (i status : string) : SM unit :=
  modify (on_emails (update_where (fun e => String.eqb (e_id e) i)
    (fun e => mk_email (e_id e) (e_account e) (e_thread e) (e_blob e) (e_message_id e) (e_subject e)
                (e_from e) (e_received_at e) (e_size e) (e_created e) (e_updated e)
                (e_auth_results e) (Some status) (e_chat_mode e)))).
