(* ===== verification/PgpFacts.v ===== *)
(** What [Pgp] guarantees: signature dispositions, whom a message is encrypted
    to, which keys are harvested, the round trip of the two stages, and the
    base-32 encoder against a bit-by-bit definition. *)
From S2P Require Import Prelude Text Bytes Ident Store Mail Pgp.

Open Scope string_scope.

(** ** Dispositions *)

Lemma check_results_valid current results :
  current <> "valid" ->
  let '(c, stop) := check_results current results in
  (stop = true <-> existsb is_good results = true) /\ (c = "valid" <-> stop = true).
Proof.
  revert current. induction results as [|[] rest IH]; intros current Hc; simpl; [by split|done|..].
  - by apply (IH "unknown_key").
  - apply IH. by destruct (String.eqb current "none").
Qed.

Lemma check_layers_valid current layers :
  current <> "valid" -> (check_layers current layers = "valid" <-> any_good layers = true).
Proof.
  unfold any_good. revert current. induction layers as [|[results|] rest IH]; intros current Hc; simpl.
  - by split.
  - pose proof (check_results_valid current results Hc) as Hr.
    destruct (check_results current results) as [c stop]. destruct Hr as [Hstop Hv].
    destruct stop.
    + rewrite (proj1 Hstop eq_refl). simpl. tauto.
    + destruct (existsb is_good results); [naive_solver|]. simpl. apply IH. naive_solver.
  - by apply IH.
Qed.

(** ** The base-32 encoder *)

Section Zbase32.
Local Open Scope Z_scope.

(** The low [n] bits, most significant first. *)
Fixpoint low_bits (n : nat) (z : Z) : list bool :=
  match n with O => [] | S n' => Z.testbit z (Z.of_nat n') :: low_bits n' z end.

Definition of_bits (l : list bool) : Z := fold_left (fun acc b => 2 * acc + Z.b2z b) l 0.

(** The reference: five bits a character, the last group padded with zeros. *)
Fixpoint encode_bits (l : list bool) : string :=
  match l with
  | [] => ""
  | a :: b :: c :: d :: e :: rest => String (zchar (of_bits [a; b; c; d; e])) (encode_bits rest)
  | [a] => str_of (zchar (of_bits [a; false; false; false; false]))
  | [a; b] => str_of (zchar (of_bits [a; b; false; false; false]))
  | [a; b; c] => str_of (zchar (of_bits [a; b; c; false; false]))
  | [a; b; c; d] => str_of (zchar (of_bits [a; b; c; d; false]))
  end.
Definition zbase32_reference (data : list Z) : string := encode_bits (flat_map (low_bits 8) data).

Lemma low_bits_app n m z : low_bits (n + m) z = (low_bits n (Z.shiftr z (Z.of_nat m)) ++ low_bits m z)%list.
Proof.
  induction n as [|n IH]; [done|]. simpl. rewrite IH. f_equal.
  rewrite Z.shiftr_spec by lia. f_equal. lia.
Qed.

Lemma low_bits_ext n x y :
  (forall i, 0 <= i < Z.of_nat n -> Z.testbit x i = Z.testbit y i) -> low_bits n x = low_bits n y.
Proof.
  induction n as [|n IH]; intros Hxy; simpl; [done|]. f_equal; [apply Hxy; lia|].
  apply IH. intros i Hi. apply Hxy. lia.
Qed.

Lemma five_bits_checked :
  forall_range 32 0 (fun z => Z.eqb z (of_bits (low_bits 5 z))) = true.
Proof. vm_compute. reflexivity. Qed.

Lemma five_bits z : Z.land z 31 = of_bits (low_bits 5 z).
Proof.
  change 31 with (Z.ones 5). rewrite Z.land_ones by lia.
  pose proof (Z.mod_pos_bound z (2 ^ 5) ltac:(lia)) as Hb.
  pose proof (forall_range_spec _ _ _ five_bits_checked (z mod 2 ^ 5) ltac:(lia)) as H.
  apply Z.eqb_eq in H. rewrite H at 1. f_equal. apply low_bits_ext. intros i Hi.
  apply Z.mod_pow2_bits_low. lia.
Qed.

Lemma emit_group buffer k rest :
  encode_bits (low_bits (5 + k) buffer ++ rest)
  = String (zchar (Z.land (Z.shiftr buffer (Z.of_nat k)) 31)) (encode_bits (low_bits k buffer ++ rest)).
Proof. by rewrite low_bits_app, five_bits. Qed.

Lemma zbase32_emit_bits fuel buffer k rest :
  (k < 5 * fuel)%nat ->
  exists k', (k' <= 4)%nat /\
    let '(out, bits') := zbase32_emit fuel buffer (Z.of_nat k) in
    bits' = Z.of_nat k'
    /\ encode_bits (low_bits k buffer ++ rest) = out +:+ encode_bits (low_bits k' buffer ++ rest).
Proof.
  revert k. induction fuel as [|fuel IH]; intros k Hk; [lia|]. cbn [zbase32_emit].
  destruct (Z.leb_spec 5 (Z.of_nat k)) as [H5|H5].
  - replace (Z.of_nat k - 5) with (Z.of_nat (k - 5)) by lia.
    destruct (IH (k - 5)%nat ltac:(lia)) as (k' & Hk' & Hout).
    destruct (zbase32_emit fuel buffer (Z.of_nat (k - 5))) as [out bits']. destruct Hout as [-> Hout].
    exists k'. split; [done|]. split; [done|].
    replace k with (5 + (k - 5))%nat at 1 by lia. by rewrite emit_group, Hout, append_cons.
  - exists k. split; [lia|]. by split.
Qed.

Lemma shifted_in buffer byte k :
  (k <= 56)%nat -> 0 <= byte < 256 ->
  low_bits (k + 8) (Z.lor (Z.shiftl buffer 8 mod 2 ^ 64) byte) = (low_bits k buffer ++ low_bits 8 byte)%list.
Proof.
  intros Hk Hb. rewrite low_bits_app. f_equal; apply low_bits_ext; intros i Hi.
  - rewrite Z.shiftr_spec, Z.lor_spec, Z.mod_pow2_bits_low, Z.shiftl_spec by lia.
    rewrite <- (Z.mod_small byte (2 ^ 8)), (Z.mod_pow2_bits_high byte) by lia.
    rewrite orb_false_r. f_equal. lia.
  - rewrite Z.lor_spec, Z.mod_pow2_bits_low, Z.shiftl_spec by lia.
    by rewrite (Z.testbit_neg_r buffer) by lia.
Qed.

Lemma last_group buffer k :
  (0 < k <= 4)%nat ->
  str_of (zchar (Z.land (Z.shiftl buffer (5 - Z.of_nat k) mod 2 ^ 64) 31)) = encode_bits (low_bits k buffer).
Proof.
  intros Hk. rewrite five_bits.
  assert (low_bits 5 (Z.shiftl buffer (5 - Z.of_nat k) mod 2 ^ 64)
          = (low_bits k buffer ++ repeat false (5 - k))%list) as ->.
  { replace 5%nat with (k + (5 - k))%nat at 1 by lia. rewrite low_bits_app. f_equal.
    - apply low_bits_ext. intros i Hi.
      rewrite Z.shiftr_spec, Z.mod_pow2_bits_low, Z.shiftl_spec by lia. f_equal. lia.
    - transitivity (low_bits (5 - k) 0); [|destruct k as [|[|[|[|[|k]]]]]; try lia; reflexivity].
      apply low_bits_ext. intros i Hi.
      rewrite Z.mod_pow2_bits_low, Z.shiftl_spec, Z.testbit_0_l by lia.
      apply Z.testbit_neg_r. lia. }
  destruct k as [|[|[|[|[|k]]]]]; try lia; reflexivity.
Qed.

Lemma zbase32_go_bits data : forall buffer k,
  (k <= 4)%nat -> Forall (fun b => 0 <= b < 256) data ->
  zbase32_go buffer (Z.of_nat k) data = encode_bits (low_bits k buffer ++ flat_map (low_bits 8) data).
Proof.
  induction data as [|byte data IH]; intros buffer k Hk Hdata; cbn [zbase32_go flat_map].
  - rewrite app_nil_r. destruct (Z.ltb_spec 0 (Z.of_nat k)); [apply last_group; lia|].
    by replace k with 0%nat by lia.
  - apply Forall_cons in Hdata as [Hb Hdata]. rewrite app_assoc, <- shifted_in by lia.
    set (buffer' := Z.lor _ _). replace (Z.of_nat k + 8) with (Z.of_nat (k + 8)) by lia.
    destruct (zbase32_emit_bits 3 buffer' (k + 8) (flat_map (low_bits 8) data) ltac:(lia))
      as (k' & Hk' & Hout).
    destruct (zbase32_emit 3 buffer' (Z.of_nat (k + 8))) as [out bits']. destruct Hout as [-> ->].
    by rewrite IH.
Qed.

(** The streaming z-base-32 encoder, with its 64-bit buffer that overflows
    after eight bytes, computes the bit-by-bit encoding of any byte string. *)
Lemma zbase32_correct data :
  Forall (fun b => 0 <= b < 256) data -> zbase32 data = zbase32_reference data.
Proof. intros Hdata. apply (zbase32_go_bits data 0 0); [lia|done]. Qed.

Lemma zbase32_correct_witness :
  zbase32 [72; 101; 108; 108; 111; 44; 32; 119; 111; 114; 108; 100]
  = zbase32_reference [72; 101; 108; 108; 111; 44; 32; 119; 111; 114; 108; 100]
  /\ zbase32 [72; 101; 108; 108; 111] = "jb1sa5dx".
Proof. split; [apply zbase32_correct; repeat constructor; lia|reflexivity]. Defined.
End Zbase32.

Section Facts.
Context `{BlobStore} `{Sequoia}.
Variable parse_uuid : string -> option string.
Variable parse_message : list Z -> option ParsedMessage.
Variable autocrypt_of : list Z -> option string.

(** A federated event is opened only if the check of its signatures found a
    good one by the claimed author, and then yields what decryption gave. *)
Lemma open_event_spec server author ciphertext :
  open_event server author ciphertext
  = match message_decrypt server [author] ciphertext with
    | Err e => Err (OpenPgp e)
    | Ok (plaintext, layers) =>
        if any_good layers then Ok plaintext
        else Err (OpenPgp ("federated event signature not valid: " +:+ check_layers "none" layers))
    end.
Proof.
  unfold open_event, decrypt_and_verify. destruct (message_decrypt _ _ _) as [[p layers]|e]; simpl; [|done].
  pose proof (check_layers_valid "none" layers ltac:(done)) as Hv.
  destruct (String.eqb_spec (check_layers "none" layers) "valid") as [E|E].
  - by rewrite (proj1 Hv E).
  - destruct (any_good layers); [|done]. by rewrite (proj2 Hv eq_refl) in E.
Qed.

(** ** Whom a message is encrypted to *)

(** The cert kept for a correspondent, if it can be read. *)
Definition readable (w : PgpWorld) (account recipient : string) (c : Cert) : Prop :=
  exists p, select_first (peer_key account (to_lowercase (trim recipient))) (peers (pw_db w)) = Some p
            /\ cert_from_bytes (pp_cert p) = Ok c.

Lemma recipient_certs_cons w account found r rest :
  recipient_certs account found (r :: rest) w
  = match select_first (peer_key account (to_lowercase (trim r))) (peers (pw_db w)) with
    | Some p => match cert_from_bytes (pp_cert p) with
                | Ok c => recipient_certs account (found ++ [c])%list rest w
                | Err _ => (Ok [], w)
                end
    | None => (Ok [], w)
    end.
Proof.
  cbn [recipient_certs]. unfold bind, pgp_peer, gets. destruct (select_first _ _) as [p|]; [|done].
  by destruct (cert_from_bytes (pp_cert p)).
Qed.

Lemma recipient_certs_run w account recipients found :
  (exists certs, Forall2 (readable w account) recipients certs
                 /\ recipient_certs account found recipients w = (Ok (found ++ certs)%list, w))
  \/ (recipients <> [] /\ (forall certs, ~ Forall2 (readable w account) recipients certs)
      /\ recipient_certs account found recipients w = (Ok [], w)).
Proof.
  revert found. induction recipients as [|r rest IH]; intros found.
  - left. exists []. split; [constructor|]. by rewrite app_nil_r.
  - rewrite recipient_certs_cons.
    destruct (select_first _ _) as [p|] eqn:Hp.
    + destruct (cert_from_bytes (pp_cert p)) as [c|e] eqn:Hc.
      * destruct (IH (found ++ [c])%list) as [(certs & Hall & Hrun)|(Hne & Hno & Hrun)].
        -- left. exists (c :: certs). split; [constructor; [by exists p|done]|].
           rewrite Hrun. by rewrite <- app_assoc.
        -- right. split; [done|]. split; [|exact Hrun].
           intros certs Hall. inversion Hall; subst. by eapply Hno.
      * right. split; [done|]. split; [|done]. intros certs Hall. inversion Hall as [|? ? ? ? Hr]; subst.
        destruct Hr as (p' & Hp' & Hc'). rewrite Hp in Hp'. injection Hp' as <-. congruence.
    + right. split; [done|]. split; [|done]. intros certs Hall. inversion Hall as [|? ? ? ? Hr]; subst.
      destruct Hr as (p' & Hp' & _). congruence.
Qed.

(** The lines of a wrapped message before its armored block. *)
Definition mime_lines (header boundary : string) (raw : list Z) : list string :=
  [copy_routing_headers raw +:+ "Autocrypt: " +:+ header;
   "MIME-Version: 1.0";
   "Content-Type: multipart/encrypted; protocol=" +:+ q +:+ "application/pgp-encrypted" +:+ q +:+ ";";
   str_of tab +:+ "boundary=" +:+ q +:+ boundary +:+ q;
   ""; "--" +:+ boundary; "Content-Type: application/pgp-encrypted"; ""; "Version: 1";
   "--" +:+ boundary;
   "Content-Type: application/octet-stream; name=" +:+ q +:+ "encrypted.asc" +:+ q; ""].

(** [out] is [raw] sealed: all the keys of every one of the certs and of the
    sender's, each of which has some, can open it; the sender's key signs it; and
    of the message itself only the routing headers and a digest are outside the
    sealed block. *)
Definition sealed_to (sender : Cert) (certs : list Cert) (header : string) (raw out : list Z) : Prop :=
  exists keys signer ciphertext,
    Forall2 (fun c ks => encryption_keys c = Ok ks /\ ks <> []) (certs ++ [sender])%list keys
    /\ signing_key sender = Ok (Some signer)
    /\ message_encrypt (concat keys) signer raw = Ok ciphertext
    /\ utf8_lossy (string_of ciphertext) = string_of ciphertext
    /\ let boundary := "pgpmime-" +:+ digest_hex raw in
       out = bytes_of (lines_text (mime_lines header boundary raw) +:+ string_of ciphertext +:+ crlf
                       +:+ "--" +:+ boundary +:+ "--" +:+ crlf).

Lemma recipient_keys_run certs keys :
  recipient_keys certs = Ok keys <->
  exists kss, Forall2 (fun c ks => encryption_keys c = Ok ks /\ ks <> []) certs kss /\ keys = concat kss.
Proof.
  revert keys. induction certs as [|c certs IH]; intros keys; cbn [recipient_keys].
  - split; [intros [= <-]; by exists []|]. intros (kss & Hall & ->). by inversion Hall.
  - split.
    + intros Hk. apply result_bind_Ok in Hk as (ks & Hks & Hk).
      destruct ks as [|k ks]; [done|]. apply result_bind_Ok in Hk as (others & Ho & [= <-]).
      apply IH in Ho as (kss & Hall & ->). exists ((k :: ks) :: kss). split; [|done].
      constructor; [|done]. split; [|done]. destruct (encryption_keys c); simpl in Hks; congruence.
    + intros (kss & Hall & ->). inversion Hall as [|? ks ? kss' [Hks Hne] Hrest]; subst.
      rewrite Hks. cbn [lift_pgp result_bind]. destruct ks as [|k ks]; [done|].
      assert (recipient_keys certs = Ok (concat kss')) as -> by (apply IH; eauto). done.
Qed.

Lemma encrypt_pgp_mime_sealed sender certs header raw out :
  encrypt_pgp_mime sender certs header raw = Ok out <-> sealed_to sender certs header raw out.
Proof.
  unfold encrypt_pgp_mime, encrypt_and_sign, signer_of, sealed_to. split.
  - intros Hx. apply result_bind_Ok in Hx as (c & Hc & Hx).
    apply result_bind_Ok in Hc as (keys & Hkeys & Hc). apply result_bind_Ok in Hc as (signer & Hs & Hc).
    apply result_bind_Ok in Hs as (found & Hf & Hs).
    apply recipient_keys_run in Hkeys as (kss & Hall & ->).
    destruct (String.eqb_spec (utf8_lossy (string_of c)) (string_of c)) as [Hu|Hu]; cbn [negb] in Hx; [|done].
    exists kss, signer, c. split_and!; try done.
    + destruct (signing_key sender) as [o|e]; simpl in Hf; [|done]. injection Hf as <-.
      destruct o; simpl in Hs; congruence.
    + destruct (message_encrypt _ _ _); simpl in Hc; congruence.
    + injection Hx as <-. f_equal. unfold lines_text, mime_lines. by rewrite ?append_assoc.
  - intros (kss & signer & c & Hall & Hs & Hc & Hu & ->).
    assert (recipient_keys (certs ++ [sender])%list = Ok (concat kss)) as -> by (apply recipient_keys_run; eauto).
    rewrite Hs. cbn [result_bind lift_pgp ok_or]. rewrite Hc. cbn [result_bind lift_pgp].
    rewrite Hu, String.eqb_refl. cbn [negb]. f_equal. f_equal. unfold lines_text, mime_lines.
    by rewrite ?append_assoc.
Qed.

(** C30: An outgoing message leaves encrypted exactly when it has recipients, a
    readable key is stored for every one of them, and encryption succeeds.  It is
    then sealed to all the encryption keys of every recipient's cert and of the
    sender's, none left out and each cert having at least one, and signed by the
    sender; outside the sealed block are only the routing headers and a digest.
    Otherwise, a single recipient without a stored key sufficing (no directory is
    asked for it), it leaves in clear behind an Autocrypt header. *)
Theorem outbound_spec now entropy account mail_from recipients raw w out w' :
  outbound parse_uuid now entropy account mail_from recipients raw w = (Ok out, w') ->
  exists cert header,
    own_cert parse_uuid now entropy account w = (Ok cert, w')
    /\ autocrypt_header mail_from cert true = Ok header
    /\ ((exists certs, recipients <> [] /\ Forall2 (readable w' account) recipients certs
                       /\ sealed_to cert certs header raw out)
        \/ (out = prepend_header raw "Autocrypt" header
            /\ forall certs out', recipients <> [] -> Forall2 (readable w' account) recipients certs ->
                 ~ sealed_to cert certs header raw out')).
Proof.
  unfold outbound. intros (cert & w1 & Hcert & Hrest)%bind_ok.
  apply bind_ok in Hrest as (header & w2 & Hheader & Hrest).
  unfold lift in Hheader. injection Hheader as Hheader <-.
  apply bind_ok in Hrest as (certs & w3 & Hcerts & Hrest).
  exists cert, header.
  assert (w3 = w1 /\ w' = w1) as [-> ->].
  { destruct (recipient_certs_run w1 account recipients []) as [(c & _ & Hr)|(_ & _ & Hr)];
      rewrite Hr in Hcerts; injection Hcerts as <- <-; unfold ret in Hrest;
      repeat case_match; by simplify_eq. }
  split; [done|]. split; [done|].
  destruct (recipient_certs_run w1 account recipients []) as [(c & Hall & Hr)|(Hne & Hno & Hr)];
    rewrite Hr in Hcerts; injection Hcerts as <-.
  - simpl in Hrest. rewrite <- (Forall2_length _ _ _ Hall), Nat.eqb_refl in Hrest.
    assert (forall c', Forall2 (readable w1 account) recipients c' -> c' = c) as Huniq.
    { intros c' Hc'. revert Hc'. clear - Hall. revert c'.
      induction Hall as [|r c0 rs cs (p & Hp & Hc) _ IH]; intros c' Hc'; inversion Hc'; subst; [done|].
      match goal with Hr : readable _ _ _ _ |- _ => destruct Hr as (p' & Hp' & Hc0') end.
      f_equal; [congruence|auto]. }
    destruct recipients as [|r rs].
    + right. unfold ret in Hrest. injection Hrest as <-. by split.
    + simpl in Hrest. destruct (encrypt_pgp_mime cert c header raw) as [enc|e] eqn:Henc;
        unfold ret in Hrest; injection Hrest as <-.
      * left. exists c. split_and!; [done|done|]. by apply encrypt_pgp_mime_sealed.
      * right. split; [done|]. intros c' e' _ Hc' Hs. apply encrypt_pgp_mime_sealed in Hs.
        rewrite (Huniq _ Hc') in Hs. congruence.
  - destruct recipients as [|r rs]; [done|]. simpl in Hrest. unfold ret in Hrest. injection Hrest as <-.
    right. split; [done|]. intros c e _ Hc. by apply Hno in Hc.
Qed.

(** ** Harvesting *)

(** Processing an incoming message changes the stored keys of
    correspondents in at most one row: that of the account and the message's own
    From address, when its Autocrypt header claims exactly that address.  A key
    change is reported exactly when a different fingerprint was known for it. *)
Lemma harvest_spec now account raw w sender changes w' :
  harvest parse_message autocrypt_of now account raw w = (Ok (sender, changes), w') ->
  pw_world w' = pw_world w /\ own_keys (pw_db w') = own_keys (pw_db w)
  /\ ((w' = w /\ sender = None /\ changes = [])
      \/ exists parsed der value,
           autocrypt_of raw = Some value /\ parse_header value = Ok parsed
           /\ from_address parse_message raw = Some (ph_addr parsed)
           /\ cert_to_vec (ph_cert parsed) = Ok der /\ sender = Some (ph_cert parsed)
           /\ (forall a, account <> pp_account a \/ to_lowercase (trim (ph_addr parsed)) <> pp_address a ->
                 a ∈ peers (pw_db w') <-> a ∈ peers (pw_db w))
           /\ (changes <> [] <->
               exists old, select_first (peer_key account (to_lowercase (trim (ph_addr parsed))))
                             (peers (pw_db w)) = Some old
                           /\ pp_fingerprint old <> cert_fingerprint (ph_cert parsed))).
Proof.
  unfold harvest. destruct (parse_message raw) as [m|] eqn:Hm; [|by intros [= <- <- <-]; auto 6].
  destruct (autocrypt_of raw) as [value|] eqn:Hv; [|by intros [= <- <- <-]; auto 6].
  destruct (parse_header value) as [parsed|e] eqn:Hp; [|by intros [= <- <- <-]; auto 6].
  destruct (opt_is (from_address parse_message raw) (ph_addr parsed)) eqn:Hfrom;
    [|by intros [= <- <- <-]; auto 6].
  assert (from_address parse_message raw = Some (ph_addr parsed)) as Hf.
  { unfold opt_is in Hfrom. destruct (from_address parse_message raw); [|done].
    f_equal. by apply String.eqb_eq. }
  intros (der & w1 & Hder & Hrest)%bind_ok. unfold lift in Hder. injection Hder as Hder <-.
  apply bind_ok in Hrest as (changed & w2 & Hup & Hrest). unfold ret in Hrest.
  injection Hrest as <- <- <-. unfold upsert_pgp_peer in Hup.
  set (addr := to_lowercase (trim (ph_addr parsed))) in *.
  apply bind_ok in Hup as (prev & w3 & Hprev & Hup). unfold gets in Hprev. injection Hprev as <- <-.
  apply bind_ok in Hup as ([] & w4 & Hreq & Hup).
  assert (w4 = w) as ->.
  { unfold require_account, storage, on_db, require in Hreq. destruct w as [[d f t] p]. simpl in Hreq.
    destruct (account_exists account d); simpl in Hreq; congruence. }
  unfold bind, modify, ret in Hup. injection Hup as <- <-. unfold on_peers. simpl.
  split; [done|]. split; [done|]. right. exists parsed, der, value.
  split_and!; try done.
  - destruct (cert_to_vec (ph_cert parsed)); simpl in Hder; congruence.
  - intros a Ha. assert (peer_key account addr a = false) as Hkey.
    { unfold peer_key. apply andb_false_iff. destruct Ha as [Ha|Ha]; [left|right];
        apply String.eqb_neq; by apply not_eq_sym. }
    destruct (select_first _ _).
    + unfold update_where. rewrite elem_of_map. split.
      * intros (b & Hb & Hab). destruct (peer_key account addr b) eqn:Eb; [|by subst].
        subst a. unfold peer_key in Hkey. simpl in Hkey. by rewrite !String.eqb_refl in Hkey.
      * intros Hin. exists a. by rewrite Hkey.
    + rewrite elem_of_app, list_elem_of_singleton. split; [|by left]. intros [Hin | ->]; [done|].
      unfold peer_key in Hkey. simpl in Hkey. by rewrite !String.eqb_refl in Hkey.
  - destruct (select_first _ _) as [old|]; simpl.
    + destruct (String.eqb_spec (pp_fingerprint old) (cert_fingerprint (ph_cert parsed))) as [E|E]; simpl.
      * split; [done|]. intros (? & [= <-] & ?). done.
      * split; [eauto|done].
    + split; [done|]. by intros (? & ? & _).
Qed.

Lemma parse_attributes_lower attributes addr prefer keydata a p k :
  parse_attributes attributes addr prefer keydata = Ok (Some a, p, k) ->
  (forall x, addr = Some x -> to_lowercase x = x) -> to_lowercase a = a.
Proof.
  revert addr prefer keydata. induction attributes as [|attribute rest IH]; intros addr prefer keydata; simpl.
  - intros [= -> <- <-] Ha. by apply Ha.
  - destruct (split_once "=" attribute) as [[key val]|]; [|apply IH].
    repeat case_match; try done; intros Hp Ha; eapply IH; try exact Hp; try exact Ha.
    intros x [= <-]. apply to_lowercase_idem.
Qed.

(** A sender whose From address has a capital letter is never harvested: the
    header's address is lowered before the comparison, the message's is not. *)
Lemma mixed_case_sender_not_harvested now account raw w from :
  from_address parse_message raw = Some from -> to_lowercase from <> from ->
  harvest parse_message autocrypt_of now account raw w = (Ok (None, []), w).
Proof.
  intros Hfrom Hmixed. unfold harvest. destruct (parse_message raw); [|done].
  destruct (autocrypt_of raw) as [value|]; [|done].
  destruct (parse_header value) as [parsed|e] eqn:Hp; [|done].
  rewrite Hfrom. simpl. destruct (String.eqb_spec from (ph_addr parsed)) as [E|E]; [|done].
  exfalso. apply Hmixed. unfold parse_header in Hp.
  destruct (parse_attributes _ _ _ _) as [[[addr prefer] keydata]|e] eqn:Hattr; simpl in Hp; [|done].
  destruct addr as [addr|]; simpl in Hp; [|done]. destruct keydata as [keydata|]; simpl in Hp; [|done].
  destruct (base64_decode keydata) as [der|e]; simpl in Hp; [|done].
  destruct (lift_pgp (cert_from_bytes der)) as [cert|e]; simpl in Hp; [|done].
  injection Hp as <-. simpl in E. subst. eapply parse_attributes_lower; [exact Hattr|done].
Qed.
End Facts.

(** ** The two stages undo each other *)

Definition is_hex_char (c : ascii) : bool :=
  is_digit c || (Nat.leb 97 (byte_of c) && Nat.leb (byte_of c) 102).

(** What the pipeline relies on: messages are armored, one block each, and who
    holds the secret part of one of the keys gets back what was sealed, with a
    good signature when a cert that vouches for the signing key is at hand. *)
Class SequoiaLaws `{Sequoia} := {
  digest_hex_chars m : str_all is_hex_char (digest_hex m) = true;
  message_sealed keys signer plaintext c :
    message_encrypt keys signer plaintext = Ok c ->
    exists body,
      c = bytes_of (BEGIN_MARK +:+ body +:+ END_MARK +:+ str_of lf)
      /\ str_all is_ascii body = true
      /\ find_split END_MARK (BEGIN_MARK +:+ body +:+ END_MARK) = Some (BEGIN_MARK +:+ body, "")
      /\ forall own certs ks k, decryption_keys own = Ok ks -> k ∈ ks -> k ∈ keys ->
           exists layers,
             message_decrypt own certs (bytes_of (BEGIN_MARK +:+ body +:+ END_MARK)) = Ok (plaintext, layers)
             /\ forall c', c' ∈ certs -> signer ∈ verification_keys c' -> any_good layers = true
}.

Section RoundTrip.
Context `{BlobStore} `{SequoiaLaws}.

Lemma hex_plain c m : is_hex_char c = false -> avoids c (digest_hex m) = true.
Proof.
  intros Hc. unfold avoids. eapply str_all_impl; [|apply digest_hex_chars]. simpl.
  intros x Hx. destruct (Ascii.eqb_spec x c); [congruence|done].
Qed.

Lemma hex_ascii m : str_all is_ascii (digest_hex m) = true.
Proof.
  eapply str_all_impl; [|apply digest_hex_chars]. intros x. unfold is_hex_char, is_digit, is_ascii.
  rewrite orb_true_iff, !andb_true_iff, !Nat.leb_le, Nat.ltb_lt. lia.
Qed.

Lemma find_begin lines boundary_free armored tail :
  Forall (fun l => find_split BEGIN_MARK l = None) lines ->
  boundary_free = lines_text lines +:+ (BEGIN_MARK +:+ armored) +:+ tail ->
  find_split BEGIN_MARK boundary_free = Some (lines_text lines, armored +:+ tail).
Proof.
  intros Hl ->. rewrite find_split_lines by done. rewrite append_assoc, find_split_head.
  by rewrite append_nil_r.
Qed.

(** The armored block of a wrapped message is found again. *)
Lemma extract_armored_wrapped header raw body :
  str_all is_ascii (copy_routing_headers raw +:+ header) = true ->
  find_split BEGIN_MARK (copy_routing_headers raw +:+ "Autocrypt: " +:+ header) = None ->
  str_all is_ascii body = true ->
  find_split END_MARK (BEGIN_MARK +:+ body +:+ END_MARK) = Some (BEGIN_MARK +:+ body, "") ->
  let boundary := "pgpmime-" +:+ digest_hex raw in
  extract_armored (bytes_of (lines_text (mime_lines header boundary raw)
      +:+ (BEGIN_MARK +:+ body +:+ END_MARK +:+ str_of lf) +:+ crlf +:+ "--" +:+ boundary +:+ "--" +:+ crlf))
  = Some (BEGIN_MARK +:+ body +:+ END_MARK).
Proof.
  intros Hascii Hclean Hbody Hend boundary.
  set (suffix := crlf +:+ "--" +:+ boundary +:+ "--" +:+ crlf). set (block := body +:+ END_MARK).
  assert (avoids " " boundary = true) as Hspace.
  { pose proof (hex_plain " " raw eq_refl) as Hh. unfold avoids, boundary in *.
    by rewrite str_all_app, Hh. }
  assert (find_split BEGIN_MARK
            (utf8_lossy (lines_text (mime_lines header boundary raw)
               +:+ (BEGIN_MARK +:+ body +:+ END_MARK +:+ str_of lf) +:+ suffix))
          = Some (lines_text (mime_lines header boundary raw), block +:+ str_of lf +:+ suffix)) as Hfind.
  { rewrite utf8_lossy_ascii.
    - rewrite (find_begin (mime_lines header boundary raw) _ (block +:+ str_of lf) suffix);
        [by rewrite append_assoc|..].
      + assert (forall s, avoids " " s = true -> find_split BEGIN_MARK s = None) as Hav
          by (intros s Hs; by apply (find_split_avoids " ")).
        unfold mime_lines. repeat (apply Forall_cons; split; [try reflexivity|]); [exact Hclean|..|done];
          apply Hav; unfold avoids in *; rewrite ?str_all_app, Hspace; reflexivity.
      + unfold block. by rewrite ?append_assoc.
    - unfold mime_lines, lines_text, suffix, boundary.
      rewrite ?str_all_app in *. apply andb_true_iff in Hascii as [-> ->].
      by rewrite ?hex_ascii, Hbody. }
  unfold extract_armored. rewrite string_of_bytes_of, Hfind.
  unfold block in *. rewrite append_assoc.
  assert (find_split END_MARK ((BEGIN_MARK +:+ body +:+ END_MARK) +:+ str_of lf +:+ suffix)
          = Some (BEGIN_MARK +:+ body, "" +:+ str_of lf +:+ suffix)) as He
    by (by apply find_split_extend).
  rewrite ?append_assoc in He. rewrite He. by rewrite append_assoc.
Qed.

(** Decrypting what was sealed, with a key it was sealed to. *)
Lemma sealed_opens sender certs header raw out signer c ks own mine k pub :
  sealed_to sender certs header raw out ->
  str_all is_ascii (copy_routing_headers raw +:+ header) = true ->
  find_split BEGIN_MARK (copy_routing_headers raw +:+ "Autocrypt: " +:+ header) = None ->
  signing_key sender = Ok (Some signer) ->
  c ∈ (certs ++ [sender])%list -> encryption_keys c = Ok ks -> k ∈ ks ->
  decryption_keys own = Ok mine -> k ∈ mine ->
  exists armored signature,
    extract_armored out = Some armored
    /\ decrypt_and_verify own pub (bytes_of armored) = Ok (raw, signature)
    /\ (forall p, pub = Some p -> signer ∈ verification_keys p -> signature = "valid").
Proof.
  intros (keys & signer' & ciphertext & Hall & Hsigner & Hmsg & _ & ->) Hascii Hclean Hs Hc Hks Hk Hown Hmine.
  assert (signer' = signer) as -> by congruence.
  destruct (message_sealed _ _ _ _ Hmsg) as (body & -> & Hbody & Hend & Hdec).
  rewrite string_of_bytes_of, extract_armored_wrapped by done.
  assert (k ∈ concat keys) as Hin.
  { apply list_elem_of_lookup in Hc as [n Hn].
    destruct (Forall2_lookup_l _ _ _ _ _ Hall Hn) as (ks' & Hks' & Heq & _).
    rewrite Hks in Heq. injection Heq as <-. apply list_elem_of_In, in_concat. exists ks.
    split; apply list_elem_of_In; [by eapply list_elem_of_lookup_2|done]. }
  destruct (Hdec own (match pub with Some p => [p] | None => [] end) mine k Hown Hmine Hin)
    as (layers & Hd & Hgood).
  exists (BEGIN_MARK +:+ body +:+ END_MARK), (check_layers "none" layers). split; [done|]. split.
  - unfold decrypt_and_verify. rewrite Hd. done.
  - intros p -> Hv. apply check_layers_valid; [done|]. by apply (Hgood p); [left|].
Qed.

Variable parse_uuid : string -> option string.
Variable parse_message : list Z -> option ParsedMessage.
Variable autocrypt_of : list Z -> option string.

(** Harvesting leaves the storage and the account's own key alone. *)
Lemma harvest_keeps now account raw w r w' :
  harvest parse_message autocrypt_of now account raw w = (Ok r, w') ->
  pw_world w' = pw_world w /\ own_keys (pw_db w') = own_keys (pw_db w).
Proof. destruct r as [sender changes]. intros (? & ? & _)%harvest_spec. done. Qed.

Lemma known_sender_keeps account harvested from w r w' :
  known_sender account harvested from w = (Ok r, w') -> w' = w.
Proof.
  unfold known_sender, pgp_peer. destruct harvested, from; unfold bind, gets, ret; congruence.
Qed.

(** An account with a key of its own uses it. *)
Definition has_own (account : string) (own : Cert) (w : PgpWorld) : Prop :=
  exists fingerprint blob raw,
    fst (pgp_own_key account w) = Ok (Some (fingerprint, blob))
    /\ blob_get blob (blob_files (pw_world w)) = Ok raw /\ cert_from_bytes raw = Ok own.

Lemma own_cert_known now entropy account own w :
  has_own account own w -> own_cert parse_uuid now entropy account w = (Ok own, w).
Proof.
  intros (fpr & blob & raw & Hk & Hb & Hc). unfold own_cert. unfold bind at 1.
  destruct (pgp_own_key account w) as [r w1] eqn:E. simpl in Hk. subst r.
  assert (w1 = w) as -> by (unfold pgp_own_key in E; by injection E as _ <-).
  unfold get_cert, storage, get_blob, bind, gets, lift, lift_pgp. destruct w as [world pdb]. simpl in *.
  rewrite Hb. simpl. by rewrite Hc.
Qed.

(** C34: What the outbound stage encrypts, the inbound stage of any recipient (or
    of the sender) takes apart again.  Let a message be wrapped and let it arrive
    at an account whose own key includes a secret key among the encryption keys
    of one of the certs it was wrapped for, the routing headers being ASCII and
    not themselves announcing a PGP message.  Whenever inbound processing
    returns, what it hands on is the original message, byte for byte, recorded as
    encrypted, with the wrapped one kept as a blob; and if the cert it takes for
    the sender's (harvested from the Autocrypt header, or else the one stored for
    the From address) vouches for the signing key, the signature is recorded as
    valid. *)
Theorem mime_roundtrip sender certs header raw out signer c ks own mine k now entropy account w outcome w' :
  encrypt_pgp_mime sender certs header raw = Ok out ->
  str_all is_ascii (copy_routing_headers raw +:+ header) = true ->
  find_split BEGIN_MARK (copy_routing_headers raw +:+ "Autocrypt: " +:+ header) = None ->
  signing_key sender = Ok (Some signer) ->
  c = sender \/ c ∈ certs -> encryption_keys c = Ok ks -> k ∈ ks ->
  has_own account own w -> decryption_keys own = Ok mine -> k ∈ mine ->
  inbound parse_uuid parse_message autocrypt_of now entropy account out w = (Ok outcome, w') ->
  exists harvested changes pub signature original w1,
    harvest parse_message autocrypt_of now account out w = (Ok (harvested, changes), w1)
    /\ known_sender account harvested (from_address parse_message out) w1 = (Ok pub, w1)
    /\ put_blob now out (pw_world w) = (Ok original, pw_world w')
    /\ outcome = mk_outcome raw (Some (decrypted_status signature original)) changes
    /\ (forall p, pub = Some p -> signer ∈ verification_keys p -> signature = "valid").
Proof.
  intros Hout Hascii Hclean Hs Hc Hks Hk Hown Hmine Hin Hrun. apply encrypt_pgp_mime_sealed in Hout.
  unfold inbound in Hrun. apply bind_ok in Hrun as ([harvested changes] & w1 & Hharvest & Hrun).
  destruct (harvest_keeps _ _ _ _ _ _ Hharvest) as [Hworld Hkeys].
  assert (Hopen : forall pub, exists armored signature, extract_armored out = Some armored
    /\ decrypt_and_verify own pub (bytes_of armored) = Ok (raw, signature)
    /\ (forall p, pub = Some p -> signer ∈ verification_keys p -> signature = "valid")).
  { intros pub. eapply sealed_opens; try done. apply elem_of_app.
    destruct Hc as [-> | ?]; [right; by left|by left]. }
  destruct (Hopen None) as (armored & _ & Harm & _). rewrite Harm in Hrun.
  apply bind_ok in Hrun as (pub & w2 & Hpub & Hrun). pose proof (known_sender_keeps _ _ _ _ _ _ Hpub) as ->.
  assert (has_own account own w1) as Hown1.
  { destruct Hown as (fpr & blob & tsk & Hrow & Hblob & Hcert). exists fpr, blob, tsk.
    unfold pgp_own_key in *. by rewrite Hworld, Hkeys. }
  unfold bind at 1 in Hrun. rewrite (own_cert_known now entropy account own w1 Hown1) in Hrun.
  destruct (Hopen pub) as (armored' & signature & Harm' & Hdec & Hvalid).
  rewrite Harm in Harm'. injection Harm' as <-. rewrite Hdec in Hrun.
  apply bind_ok in Hrun as (original & w3 & Hput & Hrun). unfold ret in Hrun. injection Hrun as <- <-.
  exists harvested, changes, pub, signature, original, w1. split_and!; try done.
  unfold storage in Hput. rewrite Hworld in Hput. destruct (put_blob now out (pw_world w)) as [r world].
  destruct r; simpl in Hput; [|done]. by injection Hput as <- <-.
Qed.
End RoundTrip.
