(* ===== verification/Chat.v ===== *)
(** [crates/owney-storage/src/chat_preferences.rs]: how an account wants the
    mail of a correspondent delivered.  The table's key is (account, address),
    the address compared without case. *)
From S2P Require Import Prelude Text Ident Store.

Open Scope string_scope.

Inductive ChatMode := AutoChat | NeverChat | RespectSender.

Definition chat_as_str (m : ChatMode) : string :=
  match m with
  | AutoChat => "auto_chat"
  | NeverChat => "never_chat"
  | RespectSender => "respect_sender"
  end.
Definition chat_parse (s : string) : option ChatMode :=
  if String.eqb s "auto_chat" then Some AutoChat
  else if String.eqb s "never_chat" then Some NeverChat
  else if String.eqb s "respect_sender" then Some RespectSender
  else None.

Record ChatRow := mk_chat {
  ch_account : string;
  ch_contact : string;
  ch_preference : string;
  ch_created_at : Z;
  ch_updated_at : Z
}.

Record ChatPreference := mk_preference {
  cp_account : string;
  cp_contact : string;
  cp_preference : ChatMode;
  cp_created_at : Z;
  cp_updated_at : Z
}.

(** The account and chat tables. *)
Record ChatDb := mk_chat_db { chat_accounts : list AccountRow; chat_rows : list ChatRow }.
Abbreviation CM A := (action ChatDb StorageError A).

Definition on_chat_rows (f : list ChatRow -> list ChatRow) (d : ChatDb) : ChatDb :=
  mk_chat_db (chat_accounts d) (f (chat_rows d)).

Definition chat_key (account contact : string) (r : ChatRow) : bool :=
  String.eqb (ch_account r) account && nocase_eqb (ch_contact r) contact.

(** [Storage::get_chat_preference]. *)
Definition get_chat_preference (account contact_email : string) : CM ChatMode :=
  let contact_email := to_lowercase (trim contact_email) in
  gets (fun d => default RespectSender
    (r ← select_first (chat_key account contact_email) (chat_rows d); chat_parse (ch_preference r))).

(** [Storage::set_chat_preference]. *)
Definition set_chat_preference (now : Z) (account contact_email : string) (preference : ChatMode)
  : CM unit :=
  let contact_email := to_lowercase (trim contact_email) in
  fun d =>
    if existsb (fun a => String.eqb (a_id a) account) (chat_accounts d)
    then (Ok tt, on_chat_rows (fun l =>
            if existsb (chat_key account contact_email) l
            then update_where (chat_key account contact_email)
                   (fun r => mk_chat (ch_account r) (ch_contact r) (chat_as_str preference)
                               (ch_created_at r) now) l
            else (l ++ [mk_chat account contact_email (chat_as_str preference) now now])%list) d)
    else (Err (Sqlite "FOREIGN KEY constraint failed"), d).

Section Listing.
Variable parse_uuid : string -> option string.

(** [Storage::list_chat_preferences]: an unreadable account id is replaced. *)
Definition list_chat_preferences (fresh account : string) : CM (list ChatPreference) :=
  gets (fun d =>
    map (fun r => mk_preference (default fresh (parse_uuid (ch_account r))) (ch_contact r)
                    (default RespectSender (chat_parse (ch_preference r))) (ch_created_at r)
                    (ch_updated_at r))
      (order_by (fun a b => (ch_updated_at b <=? ch_updated_at a)%Z)
         (List.filter (fun r => String.eqb (ch_account r) account) (chat_rows d)))).
End Listing.

(** [Storage::delete_chat_preference]. *)
Definition delete_chat_preference (account contact_email : string) : CM unit :=
  let contact_email := to_lowercase (trim contact_email) in
  modify (on_chat_rows (List.filter (fun r => negb (chat_key account contact_email r)))).

(** ** Lemmas *)

Lemma chat_roundtrip m : chat_parse (chat_as_str m) = Some m.
Proof. by destruct m. Qed.

Definition chat_ok (d : ChatDb) : Prop :=
  NoDup (map (fun r => (ch_account r, to_lowercase (ch_contact r))) (chat_rows d)).

Lemma chat_key_spec account contact r :
  chat_key account contact r = true <->
  (ch_account r, to_lowercase (ch_contact r)) = (account, to_lowercase contact).
Proof.
  unfold chat_key, nocase_eqb. rewrite andb_true_iff, !String.eqb_eq. split; [by intros [-> ->]|].
  by intros [= -> ->].
Qed.

Definition preference_of (d : ChatDb) (account contact : string) : ChatMode :=
  match fst (get_chat_preference account contact d) with Ok m => m | Err _ => RespectSender end.

Lemma find_map_other {R} (test : R -> bool) (f : R -> R) l :
  (forall r, test (f r) = test r) -> List.find test (map f l) = option_map f (List.find test l).
Proof.
  intros Hf. induction l as [|r l IH]; simpl; [done|]. rewrite Hf. by destruct (test r).
Qed.

Lemma chat_set_get now account contact m d :
  existsb (fun a => String.eqb (a_id a) account) (chat_accounts d) = true ->
  exists d', set_chat_preference now account contact m d = (Ok tt, d')
    /\ chat_accounts d' = chat_accounts d
    /\ forall a c, preference_of d' a c
         = if bool_decide (a = account /\ to_lowercase (trim c) = to_lowercase (trim contact))
           then m else preference_of d a c.
Proof.
  intros Hacct. unfold set_chat_preference. rewrite Hacct. eexists. split; [reflexivity|].
  split; [done|]. intros a c. unfold preference_of, get_chat_preference, gets, select_first. simpl.
  set (k := to_lowercase (trim contact)).
  assert (forall r, chat_key a (to_lowercase (trim c)) r = true -> chat_key account k r = true ->
            a = account /\ to_lowercase (trim c) = k) as Hsame.
  { intros r Hr Hr'. apply chat_key_spec in Hr. apply chat_key_spec in Hr'.
    rewrite Hr in Hr'. unfold k in *. rewrite !to_lowercase_idem in Hr'. by injection Hr'. }
  destruct (existsb (chat_key account k) (chat_rows d)) eqn:E.
  - set (upd := fun r => mk_chat _ _ _ _ now). unfold update_where.
    rewrite find_map_other.
    2: { intros r. destruct (chat_key account k r); [|done]. done. }
    case_bool_decide as Hd.
    + destruct Hd as [-> Hc]. rewrite Hc. destruct (List.find _ _) as [r|] eqn:F; simpl.
      * apply List.find_some in F as [_ F]. rewrite F. simpl. by rewrite chat_roundtrip.
      * apply existsb_exists in E as (r & Hr & Ht). by rewrite (List.find_none _ _ F r Hr) in Ht.
    + destruct (List.find _ _) as [r|] eqn:F; simpl; [|done].
      apply List.find_some in F as [_ F]. destruct (chat_key account k r) eqn:F'; [|done].
      by destruct Hd; apply (Hsame r).
  - assert (forall (test : ChatRow -> bool) l x, List.find test (l ++ [x])
      = match List.find test l with Some r => Some r | None => if test x then Some x else None end) as Hsnoc.
    { intros test l x. induction l as [|r l IH]; simpl; [done|]. by destruct (test r). }
    rewrite Hsnoc. case_bool_decide as Hd.
    + destruct Hd as [-> Hc]. rewrite Hc. destruct (List.find _ _) as [r|] eqn:F.
      * apply List.find_some in F as [Hin F]. exfalso.
        rewrite <- not_true_iff_false, existsb_exists in E. apply E. by exists r.
      * assert (chat_key account k (mk_chat account k (chat_as_str m) now now) = true) as ->
          by (by apply chat_key_spec). simpl. by rewrite chat_roundtrip.
    + destruct (List.find _ _) as [r|] eqn:F; [done|].
      destruct (chat_key a _ (mk_chat account k _ _ _)) eqn:F'; [|done].
      destruct Hd. apply (Hsame _ F'). by apply chat_key_spec.
Qed.

(** Setting a preference for a correspondent changes what is read for that
    address, whatever its case or padding, to the value set, and what is read
    for any other account or address not at all; deleting it restores the
    default. *)
Lemma chat_preference_spec now account contact m d :
  existsb (fun a => String.eqb (a_id a) account) (chat_accounts d) = true ->
  exists d1 d2, set_chat_preference now account contact m d = (Ok tt, d1)
    /\ delete_chat_preference account contact d1 = (Ok tt, d2)
    /\ (forall a c, preference_of d1 a c
         = if bool_decide (a = account /\ to_lowercase (trim c) = to_lowercase (trim contact))
           then m else preference_of d a c)
    /\ (forall a c, preference_of d2 a c
         = if bool_decide (a = account /\ to_lowercase (trim c) = to_lowercase (trim contact))
           then RespectSender else preference_of d a c).
Proof.
  intros Hacct. destruct (chat_set_get now account contact m d Hacct) as (d1 & Hset & _ & Hget).
  exists d1. eexists. split; [done|]. split; [reflexivity|]. split; [done|].
  intros a c. unfold preference_of, get_chat_preference, gets, select_first, delete_chat_preference, modify.
  simpl. set (k := to_lowercase (trim contact)).
  assert (forall l, List.find (chat_key a (to_lowercase (trim c)))
            (List.filter (fun r => negb (chat_key account k r)) l)
          = if bool_decide (a = account /\ to_lowercase (trim c) = k) then None
            else List.find (chat_key a (to_lowercase (trim c))) l) as Hfind.
  { intros l. case_bool_decide as Hd.
    - destruct Hd as [-> ->]. induction l as [|r l IH]; simpl; [done|].
      destruct (chat_key account k r) eqn:F; simpl; [done|]. by rewrite F.
    - induction l as [|r l IH]; simpl; [done|].
      destruct (chat_key account k r) eqn:F; simpl; [|by rewrite IH].
      rewrite IH. destruct (chat_key a (to_lowercase (trim c)) r) eqn:F'; [|done]. exfalso. apply Hd.
      apply chat_key_spec in F. apply chat_key_spec in F'. rewrite F in F'. unfold k in *.
      rewrite !to_lowercase_idem in F'. by injection F'. }
  rewrite Hfind. specialize (Hget a c). unfold preference_of, get_chat_preference, gets, select_first in Hget.
  simpl in Hget. fold k in Hget. clear Hfind. destruct (bool_decide _); [done|exact Hget].
Qed.

Lemma chat_preference_spec_witness :
  exists d1 d2, set_chat_preference 5 "a" " Bob@X.org" AutoChat (mk_chat_db [mk_account "a" "a@x" None 1 None] [])
                = (Ok tt, d1)
    /\ delete_chat_preference "a" " Bob@X.org" d1 = (Ok tt, d2)
    /\ preference_of d1 "a" "bob@x.ORG " = AutoChat.
Proof.
  destruct (chat_preference_spec 5 "a" " Bob@X.org" AutoChat (mk_chat_db [mk_account "a" "a@x" None 1 None] [])
    eq_refl) as (d1 & d2 & H1 & H2 & H3 & _).
  exists d1, d2. split; [exact H1|]. split; [exact H2|]. rewrite H3. reflexivity.
Defined.
