(* ===== verification/Tokens.v ===== *)
(** [crates/owney-storage/src/tokens.rs] and [oauth.rs]: bearer tokens, OAuth
    clients, consent grants and rotating refresh tokens; and the schema of the
    authentication tables they share with [passwordless.rs].

    A secret exists in plaintext only in the value returned; the tables hold
    its hash.  Random bytes ([None] when the system has none), fresh UUIDs and
    the clock are arguments; the hash is a parameter. *)
From S2P Require Import Prelude Text Bytes Ident Store.

Open Scope string_scope.

(** ** Rows *)

Record PasswordRow := mk_password {
  p_hash : string;
  p_account : string;
  p_name : string;
  p_created_at : Z;
  p_last_used_at : option Z;
  p_expires_at : option Z;
  p_scopes : option string;
  p_client : option string
}.

Record ClientRow := mk_client {
  c_id : string;
  c_name : string;
  c_redirect_uris : list string;
  c_secret_hash : option string;
  c_disabled : bool;
  c_created_at : Z
}.

Record GrantRow := mk_grant {
  g_id : string;
  g_account : string;
  g_client : string;
  g_scopes : string;
  g_created_at : Z;
  g_updated_at : Z
}.

Record RefreshRow := mk_refresh {
  r_hash : string;
  r_family : string;
  r_account : string;
  r_client : string;
  r_scopes : string;
  r_access : option string;
  r_expires_at : Z;
  r_used_at : option Z;
  r_revoked_at : option Z;
  r_created_at : Z
}.

Record PasskeyRow := mk_passkey {
  k_id : list Z;
  k_account : string;
  k_device_name : string;
  k_public_key : list Z;
  k_counter : Z;
  k_backup_eligible : bool;
  k_backup_state : bool;
  k_aaguid : option (list Z);
  k_created_at : Z;
  k_last_used_at : option Z;
  k_disabled : bool
}.

(** The account tables of [Store] and the authentication tables. *)
Record AuthDb := mk_auth_db {
  core : Db;
  passwords : list PasswordRow;
  clients : list ClientRow;
  grants : list GrantRow;
  refresh_tokens : list RefreshRow;
  passkeys : list PasskeyRow
}.

Definition on_passwords f d :=
  mk_auth_db (core d) (f (passwords d)) (clients d) (grants d) (refresh_tokens d) (passkeys d).
Definition on_clients f d :=
  mk_auth_db (core d) (passwords d) (f (clients d)) (grants d) (refresh_tokens d) (passkeys d).
Definition on_grants f d :=
  mk_auth_db (core d) (passwords d) (clients d) (f (grants d)) (refresh_tokens d) (passkeys d).
Definition on_refresh f d :=
  mk_auth_db (core d) (passwords d) (clients d) (grants d) (f (refresh_tokens d)) (passkeys d).
Definition on_passkeys f d :=
  mk_auth_db (core d) (passwords d) (clients d) (grants d) (refresh_tokens d) (f (passkeys d)).

Abbreviation AM A := (action AuthDb StorageError A).

(** A statement on the account tables. *)
Definition on_core {A} (m : SM A) : AM A :=
  fun d => let '(r, c) := m (core d) in
           (r, mk_auth_db c (passwords d) (clients d) (grants d) (refresh_tokens d) (passkeys d)).

Definition require_auth (test : AuthDb -> bool) (what : string) : AM unit :=
  fun d => if test d then (Ok tt, d) else (Err (Sqlite what), d).

Definition known_account (a : string) (d : AuthDb) : bool := account_exists a (core d).
Definition known_client (c : string) (d : AuthDb) : bool :=
  existsb (fun r => String.eqb (c_id r) c) (clients d).

Definition insert_password (row : PasswordRow) : AM unit :=
  require_auth (known_account (p_account row)) "FOREIGN KEY constraint failed" ;;;
  require_auth (fun d => match p_client row with None => true | Some c => known_client c d end)
    "FOREIGN KEY constraint failed" ;;;
  require_auth (fun d => negb (existsb (fun p => String.eqb (p_hash p) (p_hash row)) (passwords d)))
    "UNIQUE constraint failed: app_passwords.token_hash" ;;;
  modify (on_passwords (fun l => (l ++ [row])%list)).

Definition insert_client (row : ClientRow) : AM unit :=
  require_auth (fun d => negb (known_client (c_id row) d))
    "UNIQUE constraint failed: oauth_clients.id" ;;;
  modify (on_clients (fun l => (l ++ [row])%list)).

Definition insert_refresh (row : RefreshRow) : AM unit :=
  require_auth (known_account (r_account row)) "FOREIGN KEY constraint failed" ;;;
  require_auth (known_client (r_client row)) "FOREIGN KEY constraint failed" ;;;
  require_auth (fun d => negb (existsb (fun r => String.eqb (r_hash r) (r_hash row)) (refresh_tokens d)))
    "UNIQUE constraint failed: oauth_refresh_tokens.token_hash" ;;;
  modify (on_refresh (fun l => (l ++ [row])%list)).

(** ** Scopes *)

(** [TokenAccess]. *)
Inductive TokenAccess := FullAccess | Scoped (scopes : list string).

Definition allows (a : TokenAccess) (scope : string) : bool :=
  match a with
  | FullAccess => true
  | Scoped scopes => existsb (String.eqb scope) scopes
  end.

(** [split_scopes]. *)
Definition split_scopes (s : string) : list string := split_whitespace s.

(** ** Secrets *)

Definition TOKEN_PREFIX : string := "msk_".
Definition CLIENT_SECRET_PREFIX : string := "mcs_".
Definition REFRESH_PREFIX : string := "mrt_".

Section Tokens.
Variable parse_uuid : string -> option string.
(** The BLAKE3 hash of a text, in hex. *)
Variable hash_text : string -> string.

(** [new_secret]: the plaintext and its hash. *)
Definition new_secret (prefix : string) (rng : option (list Z)) : result StorageError (string * string) :=
  match rng with
  | None => Err (Crypto "os rng")
  | Some secret => Ok (prefix +:+ to_hex secret, hash_text (prefix +:+ to_hex secret))
  end.

(** ** Bearer tokens ([tokens.rs]) *)

(** [Storage::create_token]. *)
Definition create_token (now : Z) (rng : option (list Z)) (account name : string) : AM string :=
  s <- lift (new_secret TOKEN_PREFIX rng) ;;
  insert_password (mk_password (snd s) account name now None None None None) ;;;
  ret (fst s).

(** [Storage::create_scoped_token]. *)
Definition create_scoped_token (now : Z) (rng : option (list Z)) (account name : string)
    (scopes : list string) (expires_at : Z) (client : string) : AM (string * string) :=
  s <- lift (new_secret TOKEN_PREFIX rng) ;;
  insert_password (mk_password (snd s) account name now None (Some expires_at)
                     (Some (join " " scopes)) (Some client)) ;;;
  ret s.

(** The INNER JOIN of both lookups: the row of the token and its account. *)
Definition token_join (now : Z) (hash : string) (d : AuthDb) : list (AccountRow * PasswordRow) :=
  flat_map (fun p =>
    if String.eqb (p_hash p) hash
       && match p_expires_at p with None => true | Some t => (now <? t)%Z end
    then map (fun a => (a, p))
           (List.filter (fun a => String.eqb (a_id a) (p_account p)
                                  && match a_disabled_at a with None => true | _ => false end)
              (accounts (core d)))
    else []) (passwords d).

(** [UPDATE app_passwords SET last_used_at = ?2 WHERE token_hash = ?1]. *)
Definition touch_password (now : Z) (hash : string) : AM unit :=
  modify (on_passwords (update_where (fun p => String.eqb (p_hash p) hash)
    (fun p => mk_password (p_hash p) (p_account p) (p_name p) (p_created_at p) (Some now)
                (p_expires_at p) (p_scopes p) (p_client p)))).

(** [Storage::account_by_token]. *)
Definition account_by_token (now : Z) (token : string) : AM (option Account) :=
  if negb (starts_with TOKEN_PREFIX token) then ret None
  else
    let hash := hash_text token in
    found <- (fun d => (optional_account parse_uuid
                 (option_map fst (List.find (fun ap => match p_scopes (snd ap) with None => true | _ => false end)
                    (token_join now hash d))), d)) ;;
    match found with
    | Some _ => touch_password now hash ;;; ret found
    | None => ret None
    end.

(** [Storage::account_and_access_by_token]. *)
Definition account_and_access_by_token (now : Z) (token : string)
  : AM (option (Account * TokenAccess)) :=
  if negb (starts_with TOKEN_PREFIX token) then ret None
  else
    let hash := hash_text token in
    row <- gets (fun d => head (token_join now hash d)) ;;
    match row with
    | None => ret None
    | Some (a, p) =>
        account <- lift (row_to_account parse_uuid a) ;;
        touch_password now hash ;;;
        ret (Some (account, match p_scopes p with
                            | None => FullAccess
                            | Some s => Scoped (split_scopes s)
                            end))
    end.

(** [Storage::revoke_token_by_hash]. *)
Definition revoke_token_by_hash (hash : string) : AM unit :=
  modify (on_passwords (List.filter (fun p => negb (String.eqb (p_hash p) hash)))).

(** ** Clients ([oauth.rs]) *)

Record OAuthClient := mk_oauth_client {
  oc_id : string;
  oc_name : string;
  oc_redirect_uris : list string;
  oc_public : bool;
  oc_disabled : bool;
  oc_created_at : Z
}.

Definition row_to_client (r : ClientRow) : result StorageError OAuthClient :=
  match parse_uuid (c_id r) with
  | None => Err (Sqlite "conversion failure")
  | Some i => Ok (mk_oauth_client i (c_name r) (c_redirect_uris r)
                    (match c_secret_hash r with None => true | Some _ => false end)
                    (c_disabled r) (c_created_at r))
  end.

(** [validate_redirect_uris]. *)
Definition redirect_uri_ok (uri : string) : bool :=
  (starts_with "https://" uri || starts_with "http://" uri)
  && negb (contains "#" uri) && (String.length uri <=? 2000)%nat.

Definition validate_redirect_uris (uris : list string) : result StorageError unit :=
  match uris with
  | [] => Err (BadInput "at least one redirect URI is required")
  | _ => match List.find (fun u => negb (redirect_uri_ok u)) uris with
         | Some u => Err (BadInput ("bad redirect URI " +:+ str_of quote +:+ u +:+ str_of quote
                                    +:+ ": must be absolute http(s) without a fragment"))
         | None => Ok tt
         end
  end.

(** [Storage::create_oauth_client]. *)
Definition create_oauth_client (fresh : string) (now : Z) (rng : option (list Z)) (name : string)
    (redirect_uris : list string) (public : bool) : AM (OAuthClient * option string) :=
  if String.eqb name "" || (200 <? String.length name)%nat
  then fail (BadInput "name must be 1-200 chars")
  else
    lift (validate_redirect_uris redirect_uris) ;;;
    secret <- (if public then ret None else s <- lift (new_secret CLIENT_SECRET_PREFIX rng) ;; ret (Some s)) ;;
    insert_client (mk_client fresh name redirect_uris (option_map snd secret) false now) ;;;
    row <- gets (fun d => select_first (fun r => String.eqb (c_id r) fresh) (clients d)) ;;
    client <- lift (r <-? ok_or row (Sqlite "Query returned no rows") ;; row_to_client r) ;;
    ret (client, option_map fst secret).

(** [Storage::oauth_client]. *)
Definition oauth_client (i : string) : AM (option OAuthClient) :=
  fun d => (match select_first (fun r => String.eqb (c_id r) i) (clients d) with
            | None => Ok None
            | Some r => c <-? row_to_client r ;; Ok (Some c)
            end, d).

(** [Storage::verify_oauth_client_secret]. *)
Definition verify_oauth_client_secret (i secret : string) : AM bool :=
  gets (fun d =>
    match select_first (fun r => String.eqb (c_id r) i && negb (c_disabled r)) (clients d) with
    | Some r => opt_eqb (c_secret_hash r) (Some (hash_text secret))
    | None => false
    end).

(** [Storage::list_oauth_clients]. *)
Definition list_oauth_clients : AM (list OAuthClient) :=
  fun d => (collect_results
              (map row_to_client
                 (order_by (fun a b => (c_created_at a <=? c_created_at b)%Z) (clients d))), d).

(** [UPDATE oauth_refresh_tokens SET revoked_at = now WHERE test AND revoked_at IS NULL]. *)
Definition revoke_rows (now : Z) (test : RefreshRow -> bool) : AM unit :=
  modify (on_refresh (update_where
    (fun r => test r && match r_revoked_at r with None => true | _ => false end)
    (fun r => mk_refresh (r_hash r) (r_family r) (r_account r) (r_client r) (r_scopes r) (r_access r)
                (r_expires_at r) (r_used_at r) (Some now) (r_created_at r)))).

Definition delete_passwords (test : AuthDb -> PasswordRow -> bool) : AM unit :=
  modify (fun d => on_passwords (List.filter (fun p => negb (test d p))) d).

(** [Storage::disable_oauth_client]. *)
Definition disable_oauth_client (now : Z) (i : string) : AM unit :=
  transaction
    (found <- gets (known_client i) ;;
     modify (on_clients (update_where (fun r => String.eqb (c_id r) i)
       (fun r => mk_client (c_id r) (c_name r) (c_redirect_uris r) (c_secret_hash r) true
                   (c_created_at r)))) ;;;
     (if negb found then fail (BadInput "no such client")
      else
        revoke_rows now (fun r => String.eqb (r_client r) i) ;;;
        delete_passwords (fun _ p => opt_eqb (p_client p) (Some i)))).

(** ** Consent *)

Record OAuthGrant := mk_oauth_grant {
  og_account : string;
  og_client : string;
  og_scopes : list string;
  og_created_at : Z;
  og_updated_at : Z
}.

Definition grant_key (account client : string) (g : GrantRow) : bool :=
  String.eqb (g_account g) account && String.eqb (g_client g) client.

(** The union in [upsert_oauth_grant], in byte order. *)
Definition merge_scopes (existing scopes : list string) : list string :=
  order_by String.leb
    (fold_left (fun merged s => if existsb (String.eqb s) merged then merged else (merged ++ [s])%list)
       scopes existing).

(** [Storage::upsert_oauth_grant]. *)
Definition upsert_oauth_grant (fresh : string) (now : Z) (account client : string)
    (scopes : list string) : AM unit :=
  transaction
    (existing <- gets (fun d => select_first (grant_key account client) (grants d)) ;;
     let merged := join " " (merge_scopes (match existing with
                                           | Some g => split_scopes (g_scopes g)
                                           | None => []
                                           end) scopes) in
     match existing with
     | Some _ =>
         modify (on_grants (update_where (grant_key account client)
           (fun g => mk_grant (g_id g) (g_account g) (g_client g) merged (g_created_at g) now)))
     | None =>
         require_auth (known_account account) "FOREIGN KEY constraint failed" ;;;
         require_auth (known_client client) "FOREIGN KEY constraint failed" ;;;
         require_auth (fun d => negb (existsb (fun g => String.eqb (g_id g) fresh) (grants d)))
           "UNIQUE constraint failed: oauth_grants.id" ;;;
         modify (on_grants (fun l => (l ++ [mk_grant fresh account client merged now now])%list))
     end).

(** [Storage::oauth_grant]. *)
Definition oauth_grant (account client : string) : AM (option OAuthGrant) :=
  gets (fun d => option_map
    (fun g => mk_oauth_grant account client (split_scopes (g_scopes g)) (g_created_at g) (g_updated_at g))
    (select_first (grant_key account client) (grants d))).

(** [Storage::list_oauth_grants]. *)
Definition list_oauth_grants (account : string) : AM (list OAuthGrant) :=
  fun d => (collect_results
    (map (fun g => match parse_uuid (g_client g) with
                   | Some c => Ok (mk_oauth_grant account c (split_scopes (g_scopes g)) (g_created_at g)
                                     (g_updated_at g))
                   | None => Err (Corrupt ("bad client id " +:+ g_client g))
                   end)
       (order_by (fun a b => (g_created_at a <=? g_created_at b)%Z)
          (List.filter (fun g => String.eqb (g_account g) account) (grants d)))), d).

(** [Storage::revoke_oauth_grant]. *)
Definition revoke_oauth_grant (now : Z) (account client : string) : AM unit :=
  transaction
    (found <- gets (fun d => existsb (grant_key account client) (grants d)) ;;
     modify (on_grants (List.filter (fun g => negb (grant_key account client g)))) ;;;
     (if negb found then fail (BadInput "no such grant")
      else
        revoke_rows now (fun r => String.eqb (r_account r) account && String.eqb (r_client r) client) ;;;
        delete_passwords (fun _ p => String.eqb (p_account p) account
                                     && opt_eqb (p_client p) (Some client)))).

(** ** Refresh tokens *)

Record RefreshToken := mk_refresh_token {
  rt_token_hash : string;
  rt_family_id : string;
  rt_account_id : string;
  rt_client_id : string;
  rt_scopes : list string;
  rt_access_token_hash : option string;
  rt_expires_at : Z;
  rt_used_at : option Z;
  rt_revoked_at : option Z;
  rt_created_at : Z
}.

Definition row_to_refresh (r : RefreshRow) : result StorageError RefreshToken :=
  match parse_uuid (r_account r), parse_uuid (r_client r) with
  | Some a, Some c =>
      Ok (mk_refresh_token (r_hash r) (r_family r) a c (split_scopes (r_scopes r)) (r_access r)
            (r_expires_at r) (r_used_at r) (r_revoked_at r) (r_created_at r))
  | _, _ => Err (Sqlite "conversion failure")
  end.

Definition refresh_by_hash (hash : string) : AM (option RefreshToken) :=
  fun d => (match select_first (fun r => String.eqb (r_hash r) hash) (refresh_tokens d) with
            | None => Ok None
            | Some r => t <-? row_to_refresh r ;; Ok (Some t)
            end, d).

(** [Storage::create_refresh_token]; [fresh] is the new family when none is given. *)
Definition create_refresh_token (fresh : string) (now : Z) (rng : option (list Z))
    (account client : string) (scopes : list string) (family access : option string) (expires_at : Z)
  : AM string :=
  s <- lift (new_secret REFRESH_PREFIX rng) ;;
  insert_refresh (mk_refresh (snd s) (default fresh family) account client (join " " scopes) access
                    expires_at None None now) ;;;
  ret (fst s).

(** [Storage::refresh_token_by_plaintext]. *)
Definition refresh_token_by_plaintext (token : string) : AM (option RefreshToken) :=
  if negb (starts_with REFRESH_PREFIX token) then ret None
  else refresh_by_hash (hash_text token).

(** [UPDATE oauth_refresh_tokens SET used_at = ?2 WHERE token_hash = ?1]. *)
Definition use_refresh (now : Z) (hash : string) : AM unit :=
  modify (on_refresh (update_where (fun r => String.eqb (r_hash r) hash)
    (fun r => mk_refresh (r_hash r) (r_family r) (r_account r) (r_client r) (r_scopes r) (r_access r)
                (r_expires_at r) (Some now) (r_revoked_at r) (r_created_at r)))).

(** [Storage::rotate_refresh_token]. *)
Definition rotate_refresh_token (now : Z) (rng : option (list Z)) (old_hash : string)
    (access : option string) (expires_at : Z) : AM string :=
  s <- lift (new_secret REFRESH_PREFIX rng) ;;
  transaction
    (found <- refresh_by_hash old_hash ;;
     old <- lift (ok_or found (BadInput "no such refresh token")) ;;
     if match rt_used_at old with Some _ => true | None => false end
        || match rt_revoked_at old with Some _ => true | None => false end
        || (rt_expires_at old <=? now)%Z
     then fail (Conflict "refresh token not live")
     else
       use_refresh now old_hash ;;;
       insert_refresh (mk_refresh (snd s) (rt_family_id old) (rt_account_id old) (rt_client_id old)
                         (join " " (rt_scopes old)) access expires_at None None now)) ;;;
  ret (fst s).

(** The access tokens a family minted, those without a hash apart. *)
Definition family_access (family : string) (d : AuthDb) : list string :=
  omap r_access (List.filter (fun r => String.eqb (r_family r) family) (refresh_tokens d)).

(** [Storage::revoke_refresh_family]. *)
Definition revoke_refresh_family (now : Z) (family : string) : AM unit :=
  transaction
    (delete_passwords (fun d p => existsb (String.eqb (p_hash p)) (family_access family d)) ;;;
     revoke_rows now (fun r => String.eqb (r_family r) family)).
End Tokens.
