(* ===== verification/TokensFacts.v ===== *)
(** Refresh-token families as a refinement of a one-line specification, bearer
    tokens and their scopes. *)
From S2P Require Import Prelude Text Bytes Ident Store Tokens.

Open Scope string_scope.

(** ** Scope lists as text *)

(** A scope as the endpoints produce it: a non-empty word without white space. *)
Definition word (w : string) : bool := negb (String.eqb w "") && str_all (fun c => negb (is_ws c)) w.

Lemma blanked_word w :
  str_all (fun c => negb (is_ws c)) w = true ->
  str_map (fun c => if is_ws c then " "%char else c) w = w
  /\ str_all (fun x => negb (Ascii.eqb x " "%char)) w = true.
Proof.
  induction w as [|a w IH]; simpl; [done|]. rewrite andb_true_iff, negb_true_iff. intros [Ha Hw].
  destruct (IH Hw) as [-> ->]. rewrite Ha. split; [done|].
  destruct (Ascii.eqb a " "%char) eqn:E; [|done]. apply Ascii.eqb_eq in E as ->. by vm_compute in Ha.
Qed.

Lemma split_whitespace_join l : forallb word l = true -> split_whitespace (join " " l) = l.
Proof.
  unfold split_whitespace. induction l as [|w l IH]; [done|].
  cbn [forallb]. rewrite andb_true_iff. intros [Hw Hl].
  apply andb_true_iff in Hw as [Hne Hws]. rewrite negb_true_iff, String.eqb_neq in Hne.
  destruct (blanked_word w Hws) as [Hm Hsp]. destruct l as [|w' l].
  - cbn [join]. rewrite Hm, split_on_avoids by done. by rewrite filter_cons_True.
  - cbn [join] in *. rewrite !str_map_app. cbn [str_map]. rewrite Hm.
    change (is_ws " "%char) with true. cbn iota.
    change (String " "%char "" +:+ ?x) with (String " "%char x).
    rewrite split_on_app_sep by done. rewrite filter_cons_True by done. f_equal. by apply IH.
Qed.

Lemma split_on_pieces c f s :
  str_all (fun x => f x || Ascii.eqb x c) s = true ->
  Forall (fun w => str_all (fun x => f x && negb (Ascii.eqb x c)) w = true) (split_on c s).
Proof.
  induction s as [|a s IH]; simpl; [by repeat constructor|].
  rewrite andb_true_iff. intros [Ha Hs]. specialize (IH Hs).
  destruct (Ascii.eqb a c) eqn:E; [by constructor|].
  destruct (split_on c s) as [|w ws]; inversion IH; subst; constructor; try done; simpl;
    rewrite E, orb_false_r in *; rewrite ?Ha; simpl; by repeat constructor.
Qed.

Lemma split_whitespace_words s : forallb word (split_whitespace s) = true.
Proof.
  apply forallb_forall. intros w Hw%list_elem_of_In. unfold split_whitespace in Hw.
  apply list_elem_of_filter in Hw as [Hne Hw].
  pose proof (split_on_pieces " "%char (fun c => negb (is_ws c))
    (str_map (fun c => if is_ws c then " "%char else c) s)) as H.
  rewrite Forall_forall in H. unfold word. apply andb_true_iff. split.
  - by rewrite negb_true_iff, String.eqb_neq.
  - eapply str_all_impl; [|apply H; [|exact Hw]].
    + intros c. by rewrite andb_true_iff; intros [].
    + clear. induction s as [|c s IH]; [done|]. cbn [str_map str_all]. rewrite IH, andb_true_r.
      destruct (is_ws c) eqn:E; [done|]. by rewrite E.
Qed.

Lemma split_scopes_join l : forallb word l = true -> split_scopes (join " " l) = l.
Proof. apply split_whitespace_join. Qed.

Lemma rejoin_scopes s : split_scopes (join " " (split_scopes s)) = split_scopes s.
Proof. apply split_scopes_join, split_whitespace_words. Qed.

(** ** Families of refresh tokens

    What a family is to its client: unknown, holding one live token, or dead. *)

Inductive FamilyState := Absent | Live (hash : string) | Retired.

#[export] Instance RefreshRow_eq_dec : EqDecision RefreshRow.
Proof. solve_decision. Defined.

Definition unset {A} (o : option A) : bool := match o with None => true | Some _ => false end.
Definition live (r : RefreshRow) : bool := unset (r_used_at r) && unset (r_revoked_at r).
Definition in_family (f : string) (r : RefreshRow) : bool := String.eqb (r_family r) f.

Definition family_state (rows : list RefreshRow) (f : string) : FamilyState :=
  match select_first (fun r => in_family f r && live r) rows with
  | Some r => Live (r_hash r)
  | None => if existsb (in_family f) rows then Retired else Absent
  end.

(** The specification: a family is opened once, its token replaced by its
    successor, and retired for good. *)
Inductive FamilyOp :=
  | Open (f hash : string)
  | Rotate (old new : string)
  | Retire (test : string -> bool)
  | Idle.

Definition spec_step (op : FamilyOp) (s : string -> FamilyState) : string -> FamilyState :=
  fun g =>
    match op with
    | Open f hash => if String.eqb g f then Live hash else s g
    | Rotate old new => match s g with
                        | Live h => Live (if String.eqb h old then new else h)
                        | x => x
                        end
    | Retire test => match s g with
                     | Absent => Absent
                     | x => if test g then Retired else x
                     end
    | Idle => s g
    end.

(** When the specification allows an operation. *)
Definition spec_allows (op : FamilyOp) (s : string -> FamilyState) : Prop :=
  match op with
  | Open f hash => s f = Absent /\ (forall g, s g <> Live hash)
  | Rotate old new => (exists f, s f = Live old) /\ (forall g, s g <> Live new)
  | _ => True
  end.

(** The invariant of the rows: hashes are keys, a family has at most one live
    row, and its rows agree on account, client and scopes. *)
Record refresh_ok (rows : list RefreshRow) : Prop := {
  rr_hashes : NoDup (map r_hash rows);
  rr_live : forall r1 r2, r1 ∈ rows -> r2 ∈ rows -> r_family r1 = r_family r2 ->
              live r1 = true -> live r2 = true -> r1 = r2;
  rr_same : forall r1 r2, r1 ∈ rows -> r2 ∈ rows -> r_family r1 = r_family r2 ->
              r_account r1 = r_account r2 /\ r_client r1 = r_client r2
              /\ split_scopes (r_scopes r1) = split_scopes (r_scopes r2)
}.

(** The invariant of concrete rows, by evaluation. *)
Definition refresh_check (rows : list RefreshRow) : bool :=
  bool_decide (NoDup (map r_hash rows))
  && forallb (fun r1 => forallb (fun r2 =>
       implb (String.eqb (r_family r1) (r_family r2))
         (implb (live r1 && live r2) (bool_decide (r1 = r2))
          && bool_decide (r_account r1 = r_account r2 /\ r_client r1 = r_client r2
                          /\ split_scopes (r_scopes r1) = split_scopes (r_scopes r2)))) rows) rows.

Lemma refresh_ok_checked rows : refresh_check rows = true -> refresh_ok rows.
Proof.
  unfold refresh_check. rewrite andb_true_iff, bool_decide_eq_true, forallb_forall. intros [Hn Hc].
  assert (forall r1 r2, r1 ∈ rows -> r2 ∈ rows -> r_family r1 = r_family r2 ->
            implb (live r1 && live r2) (bool_decide (r1 = r2)) = true
            /\ r_account r1 = r_account r2 /\ r_client r1 = r_client r2
            /\ split_scopes (r_scopes r1) = split_scopes (r_scopes r2)) as Hp.
  { intros r1 r2 H1%list_elem_of_In H2%list_elem_of_In HF. specialize (Hc r1 H1).
    rewrite forallb_forall in Hc. specialize (Hc r2 H2). rewrite HF, String.eqb_refl in Hc.
    apply andb_true_iff in Hc as [Hl Hs]. split; [done|]. exact (bool_decide_eq_true_1 _ Hs). }
  split; [done| |].
  - intros r1 r2 H1 H2 HF L1 L2. destruct (Hp r1 r2 H1 H2 HF) as [Hl _]. rewrite L1, L2 in Hl.
    exact (bool_decide_eq_true_1 _ Hl).
  - intros r1 r2 H1 H2 HF. apply (Hp r1 r2 H1 H2 HF).
Qed.

Lemma refresh_ok_key rows r1 r2 :
  refresh_ok rows -> r1 ∈ rows -> r2 ∈ rows -> r_hash r1 = r_hash r2 -> r1 = r2.
Proof. intros Hok. apply NoDup_map_inj, Hok. Qed.

(** What [family_state] reads off the rows, as a predicate. *)
Definition is_family (rows : list RefreshRow) (f : string) (s : FamilyState) : Prop :=
  match s with
  | Live h => exists r, r ∈ rows /\ r_family r = f /\ live r = true /\ r_hash r = h
  | Retired => (exists r, r ∈ rows /\ r_family r = f)
               /\ forall r, r ∈ rows -> r_family r = f -> live r = false
  | Absent => forall r, r ∈ rows -> r_family r <> f
  end.

Lemma family_state_is rows f : is_family rows f (family_state rows f).
Proof.
  unfold family_state, select_first.
  destruct (List.find _ rows) as [r|] eqn:E.
  - apply find_Some_elem in E as [Hr [Hf Hl]%andb_true_iff]. apply String.eqb_eq in Hf.
    exists r. done.
  - destruct (existsb (in_family f) rows) eqn:Ex.
    + apply existsb_elem in Ex as (r & Hr & Hf%String.eqb_eq). split; [by exists r|].
      intros r' Hr' Hf'. pose proof (find_None_elem _ _ _ E Hr') as Hn. cbn beta in Hn.
      unfold in_family in Hn. by rewrite Hf', String.eqb_refl in Hn.
    + intros r Hr Hf. pose proof (existsb_false_elem _ _ _ Ex Hr) as Hn. unfold in_family in Hn.
      by rewrite Hf, String.eqb_refl in Hn.
Qed.

Lemma is_family_unique rows f s t :
  refresh_ok rows -> is_family rows f s -> is_family rows f t -> s = t.
Proof.
  intros Hok Hs Ht. destruct s as [|h1|], t as [|h2|]; simpl in *; try done; try naive_solver.
  - destruct Hs as (r1 & H1 & F1 & L1 & <-), Ht as (r2 & H2 & F2 & L2 & <-).
    f_equal. f_equal. apply (rr_live _ Hok); congruence.
  - destruct Hs as (r1 & H1 & F1 & L1 & _), Ht as [_ Ht]. rewrite Ht in L1; done.
  - destruct Ht as (r1 & H1 & F1 & L1 & _), Hs as [_ Hs]. rewrite Hs in L1; done.
Qed.

Lemma family_state_iff rows f s :
  refresh_ok rows -> family_state rows f = s <-> is_family rows f s.
Proof.
  intros Hok. split; [intros <-; apply family_state_is|].
  intros Hs. eapply is_family_unique; [done|apply family_state_is|done].
Qed.

(** A new live row of a family without live rows. *)
Lemma refresh_ok_snoc rows row :
  refresh_ok rows ->
  (forall r, r ∈ rows -> r_hash r <> r_hash row) ->
  (forall r, r ∈ rows -> r_family r = r_family row ->
     live r = false /\ r_account r = r_account row /\ r_client r = r_client row
     /\ split_scopes (r_scopes r) = split_scopes (r_scopes row)) ->
  refresh_ok (rows ++ [row]).
Proof.
  intros [Hh Hl Hs] Hnew Hfam. split.
  - by apply NoDup_map_snoc.
  - intros r1 r2 [H1|H1%list_elem_of_singleton]%elem_of_app
      [H2|H2%list_elem_of_singleton]%elem_of_app HF L1 L2; subst; [by apply Hl| | |done].
    + destruct (Hfam _ H1 HF). congruence.
    + destruct (Hfam _ H2 (eq_sym HF)). congruence.
  - intros r1 r2 [H1|H1%list_elem_of_singleton]%elem_of_app
      [H2|H2%list_elem_of_singleton]%elem_of_app HF; subst; [by apply Hs| | |done].
    + by destruct (Hfam _ H1 HF).
    + destruct (Hfam _ H2 (eq_sym HF)) as (_ & ? & ? & ?). done.
Qed.

(** An update that keeps everything but the two marks. *)
Definition same_token (r r' : RefreshRow) : Prop :=
  r_hash r' = r_hash r /\ r_family r' = r_family r /\ r_account r' = r_account r
  /\ r_client r' = r_client r /\ r_scopes r' = r_scopes r
  /\ (live r' = true -> live r = true).

Lemma refresh_ok_update rows test f :
  refresh_ok rows -> (forall r, same_token r (f r)) -> refresh_ok (update_where test f rows).
Proof.
  intros [Hh Hl Hs] Hf.
  assert (forall r, same_token r (if test r then f r else r)) as Hg.
  { intros r. destruct (test r); [apply Hf|]. unfold same_token. tauto. }
  unfold update_where. split.
  - rewrite map_map. erewrite map_ext; [exact Hh|]. intros r. apply (Hg r).
  - intros r1 r2 (a & Ha & ->)%elem_of_map (b & Hb & ->)%elem_of_map HF L1 L2.
    destruct (Hg a) as (_ & Fa & _ & _ & _ & La), (Hg b) as (_ & Fb & _ & _ & _ & Lb).
    assert (a = b) as -> by (apply Hl; [done|done|congruence|by apply La|by apply Lb]). done.
  - intros r1 r2 (a & Ha & ->)%elem_of_map (b & Hb & ->)%elem_of_map HF.
    destruct (Hg a) as (_ & Fa & Aa & Ca & Sa & _), (Hg b) as (_ & Fb & Ab & Cb & Sb & _).
    rewrite Fa, Fb in HF. destruct (Hs a b Ha Hb HF) as (? & ? & ?). rewrite Sa, Sb. repeat split; congruence.
Qed.

(** ** The operations on the rows *)

Lemma open_family rows row :
  refresh_ok rows -> live row = true ->
  (forall r, r ∈ rows -> r_hash r <> r_hash row) ->
  family_state rows (r_family row) = Absent ->
  refresh_ok (rows ++ [row])
  /\ forall g, family_state (rows ++ [row]) g
       = spec_step (Open (r_family row) (r_hash row)) (family_state rows) g.
Proof.
  intros Hok Hlive Hnew Habs. apply family_state_iff in Habs; [|done]. simpl in Habs.
  assert (refresh_ok (rows ++ [row])) as Hok'.
  { apply refresh_ok_snoc; [done|done|]. intros r Hr HF. by destruct (Habs r Hr). }
  split; [done|]. intros g. apply family_state_iff; [done|]. simpl.
  destruct (String.eqb g (r_family row)) eqn:E.
  - apply String.eqb_eq in E as ->. exists row. rewrite elem_of_app, list_elem_of_singleton. auto.
  - apply String.eqb_neq in E. pose proof (family_state_is rows g) as Hg.
    destruct (family_state rows g); simpl in *.
    + intros r [Hr| ->%list_elem_of_singleton]%elem_of_app; [by apply Hg|done].
    + destruct Hg as (r & Hr & ?). exists r. rewrite elem_of_app. auto.
    + destruct Hg as [(r & Hr & ?) Hd]. split; [exists r; rewrite elem_of_app; auto|].
      intros r' [Hr'| ->%list_elem_of_singleton]%elem_of_app; [by apply Hd|done].
Qed.

Definition mark_used (now : Z) (r : RefreshRow) : RefreshRow :=
  mk_refresh (r_hash r) (r_family r) (r_account r) (r_client r) (r_scopes r) (r_access r)
    (r_expires_at r) (Some now) (r_revoked_at r) (r_created_at r).
Definition mark_revoked (now : Z) (r : RefreshRow) : RefreshRow :=
  mk_refresh (r_hash r) (r_family r) (r_account r) (r_client r) (r_scopes r) (r_access r)
    (r_expires_at r) (r_used_at r) (Some now) (r_created_at r).

Lemma mark_used_same now r : same_token r (mark_used now r).
Proof. unfold same_token, live. simpl. done. Qed.
Lemma mark_revoked_same now r : same_token r (mark_revoked now r).
Proof. unfold same_token, live. simpl. rewrite andb_false_r. done. Qed.
#[export] Hint Resolve mark_used_same mark_revoked_same : core.

(** Retiring the families of the rows of a test that families agree on. *)
Definition family_test (test : RefreshRow -> bool) (rows : list RefreshRow) (f : string) : bool :=
  existsb (fun r => in_family f r && test r) rows.

Definition revoke_where (now : Z) (test : RefreshRow -> bool) (rows : list RefreshRow) :=
  update_where (fun r => test r && unset (r_revoked_at r)) (mark_revoked now) rows.

Lemma revoke_where_elem now test rows r' :
  r' ∈ revoke_where now test rows <->
  exists r, r ∈ rows /\ r' = if test r && unset (r_revoked_at r) then mark_revoked now r else r.
Proof. apply elem_of_map. Qed.

Lemma revoked_row now test r :
  let r' := if test r && unset (r_revoked_at r) then mark_revoked now r else r in
  r_family r' = r_family r /\ r_hash r' = r_hash r /\ live r' = live r && negb (test r).
Proof.
  unfold live. destruct (test r), (r_revoked_at r) eqn:E; simpl;
    rewrite ?E, ?andb_false_r, ?andb_true_r; done.
Qed.

Lemma retire_families now test rows :
  refresh_ok rows ->
  (forall r1 r2, r1 ∈ rows -> r2 ∈ rows -> r_family r1 = r_family r2 -> test r1 = test r2) ->
  refresh_ok (revoke_where now test rows)
  /\ forall g, family_state (revoke_where now test rows) g
       = spec_step (Retire (family_test test rows)) (family_state rows) g.
Proof.
  intros Hok Hclosed.
  assert (refresh_ok (revoke_where now test rows)) as Hok' by (apply refresh_ok_update; auto).
  split; [done|]. intros g. apply family_state_iff; [done|]. simpl.
  assert (forall r, r ∈ rows -> r_family r = g -> family_test test rows g = test r) as Htest.
  { intros r Hr Hf. unfold family_test. destruct (test r) eqn:T.
    - apply existsb_elem. exists r. unfold in_family. by rewrite Hf, String.eqb_refl, T.
    - destruct (existsb _ rows) eqn:Ex; [|done].
      apply existsb_elem in Ex as (r2 & H2 & [F2%String.eqb_eq T2]%andb_true_iff).
      rewrite (Hclosed r2 r) in T2; congruence. }
  pose proof (family_state_is rows g) as Hg.
  destruct (family_state rows g) as [|h|]; simpl in *.
  - intros r' (r & Hr & ->)%revoke_where_elem. destruct (revoked_row now test r) as (-> & _). by apply Hg.
  - destruct Hg as (r & Hr & Hf & Hl & Hh). rewrite (Htest r Hr Hf). destruct (test r) eqn:T; simpl.
    + split.
      * eexists. split; [apply revoke_where_elem; eauto|]. destruct (revoked_row now test r) as (-> & _). done.
      * intros r' (r2 & H2 & ->)%revoke_where_elem. destruct (revoked_row now test r2) as (-> & _ & ->).
        intros F2. rewrite (Hclosed r2 r H2 Hr) by congruence. by rewrite T, andb_false_r.
    + eexists. split; [apply revoke_where_elem; eauto|]. destruct (revoked_row now test r) as (-> & -> & ->).
      by rewrite Hl, T.
  - destruct Hg as [(r & Hr & Hf) Hd]. rewrite (Htest r Hr Hf).
    assert (is_family (revoke_where now test rows) g Retired) as H; [|by destruct (test r)].
    split.
    + eexists. split; [apply revoke_where_elem; eauto|]. destruct (revoked_row now test r) as (-> & _). done.
    + intros r' (r2 & H2 & ->)%revoke_where_elem. destruct (revoked_row now test r2) as (-> & _ & ->).
      intros F2. by rewrite (Hd r2 H2 F2).
Qed.

(** ** The calls of the storage layer *)

Lemma require_auth_cases test what d r d' :
  require_auth test what d = (r, d') ->
  d' = d /\ ((r = Ok tt /\ test d = true) \/ (r = Err (Sqlite what) /\ test d = false)).
Proof. unfold require_auth. destruct (test d); intros [= <- <-]; auto. Qed.

Lemma insert_refresh_cases row d r d' :
  insert_refresh row d = (r, d') ->
  (exists e, r = Err e /\ d' = d)
  \/ (r = Ok tt /\ d' = on_refresh (fun l => (l ++ [row])%list) d
      /\ forall x, x ∈ refresh_tokens d -> r_hash x <> r_hash row).
Proof.
  unfold insert_refresh, bind, require_auth, modify.
  destruct (known_account _ d); [|intros [= <- <-]; left; eauto].
  destruct (known_client _ d); [|intros [= <- <-]; left; eauto].
  destruct (negb _) eqn:E; intros [= <- <-]; [right|left; eauto].
  rewrite negb_true_iff in E. repeat split. intros x Hx Heq.
  pose proof (existsb_false_elem _ _ _ E Hx) as Hn. cbn beta in Hn.
  by rewrite Heq, String.eqb_refl in Hn.
Qed.

Lemma revoke_rows_run now test d :
  revoke_rows now test d = (Ok tt, on_refresh (revoke_where now test) d).
Proof. reflexivity. Qed.

Section Calls.
Variable parse_uuid : string -> option string.
Variable hash_text : string -> string.

(** Ids are stored in the form they are printed in. *)
Definition ids_canonical (rows : list RefreshRow) : Prop :=
  forall r, r ∈ rows -> parse_uuid (r_account r) = Some (r_account r)
                        /\ parse_uuid (r_client r) = Some (r_client r).

Definition refresh_inv (d : AuthDb) : Prop :=
  refresh_ok (refresh_tokens d) /\ ids_canonical (refresh_tokens d).

Inductive Call :=
  | CallCreate (fresh : string) (now : Z) (rng : option (list Z)) (account client : string)
      (scopes : list string) (access : option string) (expires_at : Z)
  | CallRotate (now : Z) (rng : option (list Z)) (old : string) (access : option string) (expires_at : Z)
  | CallRevokeFamily (now : Z) (family : string)
  | CallDisableClient (now : Z) (client : string)
  | CallRevokeGrant (now : Z) (account client : string).

Definition run_call (c : Call) : AM (option string) :=
  match c with
  | CallCreate fresh now rng account client scopes access expires_at =>
      t <- create_refresh_token hash_text fresh now rng account client scopes None access expires_at ;;
      ret (Some t)
  | CallRotate now rng old access expires_at =>
      t <- rotate_refresh_token parse_uuid hash_text now rng old access expires_at ;; ret (Some t)
  | CallRevokeFamily now family => revoke_refresh_family now family ;;; ret None
  | CallDisableClient now client => disable_oauth_client now client ;;; ret None
  | CallRevokeGrant now account client => revoke_oauth_grant now account client ;;; ret None
  end.

(** What the callers guarantee: canonical ids, scopes that are words, and a
    family id that is really fresh. *)
Definition call_ok (d : AuthDb) (c : Call) : Prop :=
  match c with
  | CallCreate fresh _ _ account client scopes _ _ =>
      parse_uuid account = Some account /\ parse_uuid client = Some client
      /\ forallb word scopes = true /\ family_state (refresh_tokens d) fresh = Absent
  | _ => True
  end.

(** The operation of the specification a call stands for. *)
Definition spec_of (c : Call) (r : result StorageError (option string)) (d : AuthDb) : FamilyOp :=
  match c, r with
  | CallCreate fresh _ _ _ _ _ _ _, Ok (Some t) => Open fresh (hash_text t)
  | CallRotate _ _ old _ _, Ok (Some t) => Rotate old (hash_text t)
  | CallRevokeFamily _ f, Ok _ => Retire (family_test (in_family f) (refresh_tokens d))
  | CallDisableClient _ i, Ok _ =>
      Retire (family_test (fun r => String.eqb (r_client r) i) (refresh_tokens d))
  | CallRevokeGrant _ a i, Ok _ =>
      Retire (family_test (fun r => String.eqb (r_account r) a && String.eqb (r_client r) i)
                (refresh_tokens d))
  | _, _ => Idle
  end.

Lemma ids_canonical_update rows test f :
  (forall r, same_token r (f r)) -> ids_canonical rows -> ids_canonical (update_where test f rows).
Proof.
  intros Hf Hi r' (r & Hr & ->)%elem_of_map. destruct (test r); [|by apply Hi].
  destruct (Hf r) as (_ & _ & -> & -> & _). by apply Hi.
Qed.

Lemma ids_canonical_snoc rows row :
  ids_canonical rows -> parse_uuid (r_account row) = Some (r_account row) ->
  parse_uuid (r_client row) = Some (r_client row) -> ids_canonical (rows ++ [row])%list.
Proof. intros Hi ? ? r [Hr| ->%list_elem_of_singleton]%elem_of_app; auto. Qed.

Lemma new_secret_ok prefix rng s : new_secret hash_text prefix rng = Ok s -> snd s = hash_text (fst s).
Proof. destruct rng; [|done]. by intros [= <-]. Qed.

(** Rotation: the row presented is live and its successor follows it. *)
Lemma rotate_cases now rng old access expires_at d r d' :
  ids_canonical (refresh_tokens d) ->
  rotate_refresh_token parse_uuid hash_text now rng old access expires_at d = (r, d') ->
  (exists e, r = Err e /\ d' = d)
  \/ exists row t, r = Ok t /\ row ∈ refresh_tokens d /\ r_hash row = old /\ live row = true
       /\ (now < r_expires_at row)%Z
       /\ (forall x, x ∈ refresh_tokens d -> r_hash x <> hash_text t)
       /\ d' = on_refresh (fun l => (update_where (fun x => String.eqb (r_hash x) old) (mark_used now) l
             ++ [mk_refresh (hash_text t) (r_family row) (r_account row) (r_client row)
                   (join " " (split_scopes (r_scopes row))) access expires_at None None now])%list) d.
Proof.
  intros Hi. unfold rotate_refresh_token, bind at 1, lift at 1.
  destruct (new_secret _ _ _) as [s|e] eqn:Es; [|intros [= <- <-]; left; eauto].
  apply new_secret_ok in Es. unfold bind at 1, transaction.
  unfold bind at 1, refresh_by_hash.
  destruct (select_first _ _) as [row|] eqn:Ef.
  2: { cbn. intros [= <- <-]. left; eauto. }
  apply find_Some_elem in Ef as [Hrow Hh%String.eqb_eq].
  unfold row_to_refresh. destruct (Hi row Hrow) as [-> ->]. cbn [result_bind].
  unfold bind at 1, lift. cbn [ok_or rt_used_at rt_revoked_at rt_expires_at].
  destruct (r_used_at row) eqn:Eu; [cbn; intros [= <- <-]; left; eauto|].
  destruct (r_revoked_at row) eqn:Er; [cbn; intros [= <- <-]; left; eauto|].
  cbn [orb]. destruct (_ <=? _)%Z eqn:El; [cbn; intros [= <- <-]; left; eauto|].
  apply Z.leb_gt in El. unfold bind at 1, use_refresh, modify.
  destruct (insert_refresh _ _) as [ri di] eqn:Ei. apply insert_refresh_cases in Ei.
  destruct Ei as [(e & -> & ->)|(-> & -> & Hnew)]; [intros [= <- <-]; left; eauto|].
  intros [= <- <-]. right. exists row, (fst s). rewrite <- Es. repeat split; try done.
  - unfold live. by rewrite Eu, Er.
  - intros x Hx. pose proof (Hnew (if String.eqb (r_hash x) old then mark_used now x else x)) as Hn.
    cbn [r_hash] in Hn. destruct (String.eqb (r_hash x) old) eqn:E;
      (apply Hn; apply elem_of_map; exists x; split; [done|]; by rewrite E).
Qed.

Lemma use_then_snoc rows row now t access expires_at :
  refresh_ok rows -> row ∈ rows -> live row = true ->
  (forall x, x ∈ rows -> r_hash x <> t) ->
  let new := mk_refresh t (r_family row) (r_account row) (r_client row)
               (join " " (split_scopes (r_scopes row))) access expires_at None None now in
  let rows' := (update_where (fun x => String.eqb (r_hash x) (r_hash row)) (mark_used now) rows ++ [new])%list in
  refresh_ok rows' /\ forall g, family_state rows' g = spec_step (Rotate (r_hash row) t) (family_state rows) g.
Proof.
  intros Hok Hrow Hl Hnew new rows'.
  assert (forall x, x ∈ rows -> (if String.eqb (r_hash x) (r_hash row) then mark_used now x else x)
            = (if bool_decide (x = row) then mark_used now row else x)) as Hmark.
  { intros x Hx. destruct (String.eqb_spec (r_hash x) (r_hash row)) as [E|E].
    - rewrite (refresh_ok_key rows x row) by done. by rewrite bool_decide_true.
    - rewrite bool_decide_false; [done|]. by intros ->. }
  assert (forall x', x' ∈ update_where (fun x => String.eqb (r_hash x) (r_hash row)) (mark_used now) rows <->
            exists x, x ∈ rows /\ x' = if bool_decide (x = row) then mark_used now row else x) as Hel.
  { intros x'. unfold update_where. rewrite elem_of_map. split; intros (x & Hx & ->); exists x; rewrite Hmark; auto. }
  assert (refresh_ok rows') as Hok'.
  { apply refresh_ok_snoc; [by apply refresh_ok_update| |]; intros x' (x & Hx & ->)%Hel; cbn [r_hash r_family r_account r_client r_scopes new].
    - destruct (bool_decide_reflect (x = row)) as [->|]; [apply (Hnew row)|apply Hnew]; done.
    - intros HF. assert (r_family x = r_family row) as HF' by (destruct (bool_decide_reflect (x = row)); subst; done).
      destruct (rr_same _ Hok x row Hx Hrow HF') as (Ha & Hc & Hs).
      destruct (bool_decide_reflect (x = row)) as [->|Hne]; cbn; rewrite rejoin_scopes; [done|].
      split; [|done]. destruct (live x) eqn:Lx; [|done]. destruct Hne. by apply (rr_live _ Hok). }
  split; [done|]. intros g. apply family_state_iff; [done|]. cbn [spec_step].
  destruct (String.eqb_spec (r_family row) g) as [<-|Hg].
  - assert (family_state rows (r_family row) = Live (r_hash row)) as ->.
    { apply family_state_iff; [done|]. by exists row. }
    rewrite String.eqb_refl. exists new. unfold rows'. rewrite elem_of_app, list_elem_of_singleton. auto.
  - pose proof (family_state_is rows g) as Hs. destruct (family_state rows g) as [|h|]; cbn [is_family] in *.
    + intros x' [(x & Hx & ->)%Hel| ->%list_elem_of_singleton]%elem_of_app; [|done].
      destruct (bool_decide_reflect (x = row)) as [->|]; [done|by apply Hs].
    + destruct Hs as (x & Hx & HF & Lx & <-). assert (x <> row) as Hne by congruence.
      destruct (String.eqb_spec (r_hash x) (r_hash row)) as [E|_]; [by destruct Hne; apply (refresh_ok_key rows)|].
      exists x. split; [|done]. unfold rows'. rewrite elem_of_app. left. apply Hel. exists x.
      by rewrite bool_decide_false.
    + destruct Hs as [(x & Hx & HF) Hd]. split.
      * exists x. split; [|done]. unfold rows'. rewrite elem_of_app. left. apply Hel. exists x.
        rewrite bool_decide_false; [done|congruence].
      * intros x' [(y & Hy & ->)%Hel| ->%list_elem_of_singleton]%elem_of_app; [|done].
        destruct (bool_decide_reflect (y = row)) as [->|]; [done|by apply Hd].
Qed.

Lemma revoke_family_run now f d :
  revoke_refresh_family now f d
  = (Ok tt, on_refresh (revoke_where now (in_family f))
              (on_passwords (List.filter (fun p => negb (existsb (String.eqb (p_hash p)) (family_access f d)))) d)).
Proof. reflexivity. Qed.

Lemma disable_client_cases now i d r d' :
  disable_oauth_client now i d = (r, d') ->
  (exists e, r = Err e /\ d' = d)
  \/ (r = Ok tt /\ refresh_tokens d' = revoke_where now (fun r => String.eqb (r_client r) i) (refresh_tokens d)
      /\ core d' = core d /\ grants d' = grants d /\ passkeys d' = passkeys d
      /\ passwords d' = List.filter (fun p => negb (opt_eqb (p_client p) (Some i))) (passwords d)).
Proof.
  unfold disable_oauth_client, transaction, bind, gets, modify.
  destruct (known_client i d); cbn; intros [= <- <-]; [right|left]; naive_solver.
Qed.

Lemma revoke_grant_cases now a i d r d' :
  revoke_oauth_grant now a i d = (r, d') ->
  (exists e, r = Err e /\ d' = d)
  \/ (r = Ok tt /\ refresh_tokens d' = revoke_where now (fun r => String.eqb (r_account r) a && String.eqb (r_client r) i)
                                        (refresh_tokens d)
      /\ core d' = core d /\ clients d' = clients d /\ passkeys d' = passkeys d
      /\ grants d' = List.filter (fun g => negb (grant_key a i g)) (grants d)
      /\ passwords d' = List.filter (fun p => negb (String.eqb (p_account p) a && opt_eqb (p_client p) (Some i)))
                          (passwords d)).
Proof.
  unfold revoke_oauth_grant, transaction, bind, gets, modify.
  destruct (existsb _ _); cbn; intros [= <- <-]; [right|left]; naive_solver.
Qed.

Lemma retire_call now test d d' :
  refresh_inv d -> refresh_tokens d' = revoke_where now test (refresh_tokens d) ->
  (forall r1 r2, r1 ∈ refresh_tokens d -> r2 ∈ refresh_tokens d -> r_family r1 = r_family r2 ->
     test r1 = test r2) ->
  refresh_inv d'
  /\ forall g, family_state (refresh_tokens d') g
       = spec_step (Retire (family_test test (refresh_tokens d))) (family_state (refresh_tokens d)) g.
Proof.
  intros [Hok Hi] E Hc. unfold refresh_inv. rewrite E. destruct (retire_families now test _ Hok Hc) as [? ?].
  split; [|done]. split; [done|]. by apply ids_canonical_update.
Qed.

Lemma idle_call d d' :
  refresh_inv d -> d' = d ->
  refresh_inv d' /\ spec_allows Idle (family_state (refresh_tokens d))
  /\ forall g, family_state (refresh_tokens d') g = spec_step Idle (family_state (refresh_tokens d)) g.
Proof. by intros ? ->. Qed.

Lemma unused_hash_not_live d h :
  refresh_inv d -> (forall x, x ∈ refresh_tokens d -> r_hash x <> h) ->
  forall g, family_state (refresh_tokens d) g <> Live h.
Proof.
  intros [Hok _] Hnew g Hl. apply family_state_iff in Hl as (r & Hr & _ & _ & Hh); [|done].
  by apply (Hnew r).
Qed.

Lemma families_refine_run c d r d' :
  refresh_inv d -> call_ok d c -> run_call c d = (r, d') ->
  refresh_inv d' /\ spec_allows (spec_of c r d) (family_state (refresh_tokens d))
  /\ forall g, family_state (refresh_tokens d') g
       = spec_step (spec_of c r d) (family_state (refresh_tokens d)) g.
Proof.
  intros Hinv Hcall Hrun. pose proof Hinv as [Hok Hi]. destruct c; cbn [run_call] in Hrun.
  - destruct Hcall as (Ha & Hc & Hw & Habs). unfold bind at 1 in Hrun.
    destruct (create_refresh_token _ _ _ _ _ _ _ _ _ _ d) as [r1 d1] eqn:E.
    unfold create_refresh_token, bind at 1, lift at 1 in E.
    destruct (new_secret _ _ _) as [s|] eqn:Es; [|injection E as <- <-; injection Hrun as <- <-; by apply idle_call].
    apply new_secret_ok in Es. unfold bind at 1 in E. destruct (insert_refresh _ _) as [ri di] eqn:Ei.
    apply insert_refresh_cases in Ei as [(e & -> & ->)|(-> & -> & Hnew)];
      injection E as <- <-; injection Hrun as <- <-; [by apply idle_call|].
    rewrite Es in *. cbn [refresh_tokens on_refresh spec_of spec_allows r_hash] in *.
    destruct (open_family _ (mk_refresh (hash_text (fst s)) fresh account client (join " " scopes) access
      expires_at None None now) Hok eq_refl Hnew Habs) as [Hok' Hs].
    split; [split; [done|by apply ids_canonical_snoc]|].
    split; [split; [done|by apply unused_hash_not_live]|done].
  - unfold bind at 1 in Hrun. destruct (rotate_refresh_token _ _ _ _ _ _ _ d) as [r1 d1] eqn:E.
    apply rotate_cases in E; [|by apply Hinv].
    destruct E as [(e & -> & ->)|(row & t & -> & Hrow & <- & Hl & _ & Hnew & ->)];
      injection Hrun as <- <-; [by apply idle_call|].
    cbn [refresh_tokens on_refresh spec_of spec_allows] in *.
    destruct (use_then_snoc _ row now _ access expires_at Hok Hrow Hl Hnew) as [Hok' Hs].
    split; [split; [done|]|split; [split|done]].
    + destruct (Hi row Hrow). apply ids_canonical_snoc; [by apply ids_canonical_update|done|done].
    + exists (r_family row). apply family_state_iff; [done|]. by exists row.
    + by apply unused_hash_not_live.
  - unfold bind in Hrun. rewrite revoke_family_run in Hrun. injection Hrun as <- <-.
    cbn [spec_of spec_allows]. destruct (retire_call now (in_family family) d
      (on_refresh (revoke_where now (in_family family)) d)) as [? ?]; [done|done| |done].
    intros r1 r2 _ _ HF. unfold in_family. by rewrite HF.
  - unfold bind at 1 in Hrun. destruct (disable_oauth_client now client d) as [r1 d1] eqn:E.
    apply disable_client_cases in E as [(e & -> & ->)|(-> & E & _)];
      injection Hrun as <- <-; [by apply idle_call|].
    cbn [spec_of spec_allows]. eapply retire_call in E as [? ?]; [done|done|].
    intros r1 r2 H1 H2 HF. by destruct (rr_same _ Hok r1 r2 H1 H2 HF) as (_ & -> & _).
  - unfold bind at 1 in Hrun. destruct (revoke_oauth_grant now account client d) as [r1 d1] eqn:E.
    apply revoke_grant_cases in E as [(e & -> & ->)|(-> & E & _)];
      injection Hrun as <- <-; [by apply idle_call|].
    cbn [spec_of spec_allows]. eapply retire_call in E as [? ?]; [done|done|].
    intros r1 r2 H1 H2 HF. by destruct (rr_same _ Hok r1 r2 H1 H2 HF) as (-> & -> & _).
Qed.

(** C31: The rows of the refresh tokens implement the specification of families:
    every call of the storage layer, whatever its outcome, does to the state of
    each family what its operation says (open, replace the live token by its
    successor, retire for good, or nothing), keeps at most one live token per
    family, and rotates only the live one. *)
Theorem families_refine c d r d' :
  refresh_inv d -> call_ok d c -> run_call c d = (r, d') ->
  refresh_inv d' /\ spec_allows (spec_of c r d) (family_state (refresh_tokens d))
  /\ forall g, family_state (refresh_tokens d') g
       = spec_step (spec_of c r d) (family_state (refresh_tokens d)) g.
Proof. apply families_refine_run. Qed.

(** A run of calls, each under its caller's guarantees. *)
Inductive calls_from : AuthDb -> AuthDb -> Prop :=
  | calls_nil d : calls_from d d
  | calls_cons d c r d1 d2 :
      call_ok d c -> run_call c d = (r, d1) -> calls_from d1 d2 -> calls_from d d2.

(** A token that has been used or revoked, and a family that has been retired. *)
Definition spent (h : string) (d : AuthDb) : Prop :=
  exists r, r ∈ refresh_tokens d /\ r_hash r = h /\ live r = false.

Lemma call_keeps_rows c d r d' :
  refresh_inv d -> run_call c d = (r, d') ->
  forall x, x ∈ refresh_tokens d -> exists x', x' ∈ refresh_tokens d' /\ same_token x x'.
Proof.
  intros Hinv Hrun x Hx.
  assert (forall f test rows, x ∈ rows -> (forall r, same_token r (f r)) ->
            exists x', x' ∈ update_where test f rows /\ same_token x x') as Hup.
  { intros f test rows Hin Hf. eexists. split; [apply elem_of_map; by exists x|].
    destruct (test x); [done|]. unfold same_token. tauto. }
  destruct c; cbn [run_call] in Hrun; unfold bind at 1 in Hrun.
  - destruct (create_refresh_token _ _ _ _ _ _ _ _ _ _ d) as [r1 d1] eqn:E.
    unfold create_refresh_token, bind at 1, lift at 1 in E.
    destruct (new_secret _ _ _) as [s|]; [|injection E as <- <-; injection Hrun as <- <-; exists x; unfold same_token; tauto].
    unfold bind at 1 in E. destruct (insert_refresh _ _) as [ri di] eqn:Ei.
    apply insert_refresh_cases in Ei as [(e & -> & ->)|(-> & -> & _)]; injection E as <- <-;
      injection Hrun as <- <-; exists x; (split; [|unfold same_token; tauto]); [done|].
    cbn. rewrite elem_of_app. auto.
  - destruct (rotate_refresh_token _ _ _ _ _ _ _ d) as [r1 d1] eqn:E. apply rotate_cases in E; [|by apply Hinv].
    destruct E as [(e & -> & ->)|(row & t & -> & _ & _ & _ & _ & _ & ->)]; injection Hrun as <- <-;
      [exists x; unfold same_token; tauto|].
    edestruct Hup as (x' & Hx' & Hsame); [exact Hx|apply (mark_used_same now)|].
    exists x'. split; [|exact Hsame]. cbn. rewrite elem_of_app. left. exact Hx'.
  - rewrite revoke_family_run in Hrun. injection Hrun as <- <-. cbn. apply Hup; auto.
  - destruct (disable_oauth_client now client d) as [r1 d1] eqn:E.
    apply disable_client_cases in E as [(e & -> & ->)|(-> & E & _)]; injection Hrun as <- <-;
      [exists x; unfold same_token; tauto|]. rewrite E. apply Hup; auto.
  - destruct (revoke_oauth_grant now account client d) as [r1 d1] eqn:E.
    apply revoke_grant_cases in E as [(e & -> & ->)|(-> & E & _)]; injection Hrun as <- <-;
      [exists x; unfold same_token; tauto|]. rewrite E. apply Hup; auto.
Qed.

Lemma spent_stays h d d' : refresh_inv d -> spent h d -> calls_from d d' -> refresh_inv d' /\ spent h d'.
Proof.
  intros Hinv Hs Hc. induction Hc as [|d c r d1 d2 Hok Hrun _ IH]; [done|].
  apply IH; [by apply (families_refine_run c d r d1)|].
  destruct Hs as (x & Hx & Hh & Hl). destruct (call_keeps_rows _ _ _ _ Hinv Hrun x Hx) as (x' & Hx' & S).
  exists x'. destruct S as (-> & _ & _ & _ & _ & Hlive). repeat split; try done.
  destruct (live x'); [|done]. by rewrite Hlive in Hl.
Qed.

Lemma spent_refused h now rng access expires_at d :
  refresh_inv d -> spent h d ->
  exists e, rotate_refresh_token parse_uuid hash_text now rng h access expires_at d = (Err e, d).
Proof.
  intros Hinv (x & Hx & Hh & Hl). destruct (rotate_refresh_token _ _ _ _ _ _ _ d) as [r1 d1] eqn:E.
  apply rotate_cases in E; [|by apply Hinv]. destruct E as [(e & -> & ->)|(row & t & -> & Hrow & Hr & Hlive & _)]; [eauto|].
  destruct Hinv as [Hok _]. rewrite (refresh_ok_key _ row x Hok) in Hlive; congruence.
Qed.

(** A refresh token is exchanged at most once, and never again after its
    family, its client or the consent behind it is revoked, whatever other
    calls happen in between. *)
Lemma rotates_once now rng h access expires_at d d1 d2 t :
  refresh_inv d ->
  (rotate_refresh_token parse_uuid hash_text now rng h access expires_at d = (Ok t, d1)
   \/ (exists r, r ∈ refresh_tokens d /\ r_hash r = h /\
        (revoke_refresh_family now (r_family r) d = (Ok tt, d1)
         \/ disable_oauth_client now (r_client r) d = (Ok tt, d1)
         \/ revoke_oauth_grant now (r_account r) (r_client r) d = (Ok tt, d1)))) ->
  calls_from d1 d2 ->
  forall now' rng' access' expires',
    exists e, rotate_refresh_token parse_uuid hash_text now' rng' h access' expires' d2 = (Err e, d2).
Proof.
  intros Hinv Hfirst Hcalls now' rng' access' expires'.
  assert (refresh_inv d1 /\ spent h d1) as [Hinv1 Hs1].
  { destruct Hfirst as [E|(r & Hr & <- & E)].
    - split.
      + eapply (families_refine_run (CallRotate now rng h access expires_at)); [done|done|].
        cbn. unfold bind. by rewrite E.
      + apply rotate_cases in E; [|by apply Hinv]. destruct E as [(e & ? & _)|(row & t' & _ & Hrow & <- & _ & _ & _ & ->)]; [done|].
        exists (mark_used now row). repeat split.
        cbn. rewrite elem_of_app. left. apply elem_of_map. exists row. by rewrite String.eqb_refl.
    - assert (exists c r1, call_ok d c /\ run_call c d = (r1, d1) /\ exists test,
                refresh_tokens d1 = revoke_where now test (refresh_tokens d) /\ test r = true)
        as (c & r1 & Hc & Hrun & test & Ed & Ht).
      { destruct E as [E|[E|E]].
        - exists (CallRevokeFamily now (r_family r)), (Ok None). cbn [call_ok run_call]. unfold bind at 1. rewrite E.
          repeat split. exists (in_family (r_family r)). rewrite revoke_family_run in E.
          injection E as <-. cbn. unfold in_family. by rewrite String.eqb_refl.
        - exists (CallDisableClient now (r_client r)), (Ok None). cbn [call_ok run_call]. unfold bind at 1. rewrite E.
          repeat split. apply disable_client_cases in E as [(e & ? & _)|(_ & E & _)]; [done|].
          eexists. split; [exact E|]. cbn. by rewrite String.eqb_refl.
        - exists (CallRevokeGrant now (r_account r) (r_client r)), (Ok None). cbn [call_ok run_call]. unfold bind at 1. rewrite E.
          repeat split. apply revoke_grant_cases in E as [(e & ? & _)|(_ & E & _)]; [done|].
          eexists. split; [exact E|]. cbn. by rewrite !String.eqb_refl. }
      split; [by apply (families_refine_run c d r1 d1)|].
      eexists. split; [rewrite Ed; apply revoke_where_elem; by exists r|].
      destruct (revoked_row now test r) as (_ & -> & ->). by rewrite Ht, andb_false_r. }
  destruct (spent_stays h d1 d2 Hinv1 Hs1 Hcalls) as [Hinv2 Hs2].
  by apply spent_refused.
Qed.
End Calls.

(** ** Bearer tokens *)

Lemma starts_with_app p s : starts_with p s = true <-> exists rest, s = p +:+ rest.
Proof.
  unfold starts_with. destruct (strip_prefix p s) as [rest|] eqn:E.
  - apply strip_prefix_Some in E as ->. split; [eauto|done].
  - split; [done|]. intros (rest & ->). by rewrite strip_prefix_self in E.
Qed.

(** The list has at most one element, read by [head] or by [find]. *)
Lemma head_unique {A} (l : list A) x :
  (forall y z, y ∈ l -> z ∈ l -> y = z) -> head l = Some x <-> x ∈ l.
Proof.
  intros Hu. destruct l as [|y l]; cbn; [split; [done|by intros ?%elem_of_nil]|]. split.
  - intros [= ->]. by left.
  - intros Hx. f_equal. apply Hu; [by left|done].
Qed.

Lemma find_unique {A} (f : A -> bool) (l : list A) x :
  (forall y z, y ∈ l -> z ∈ l -> y = z) -> List.find f l = Some x <-> x ∈ l /\ f x = true.
Proof.
  intros Hu. split; [apply find_Some_elem|]. intros [Hx Hf].
  destruct (List.find f l) as [y|] eqn:E.
  - f_equal. apply Hu; [|done]. by apply find_Some_elem in E as [].
  - by rewrite (find_None_elem _ _ _ E Hx) in Hf.
Qed.

Section Bearer.
Variable parse_uuid : string -> option string.
Variable hash_text : string -> string.

(** The row a token stands for, and the account behind it. *)
Definition bears (now : Z) (hash : string) (d : AuthDb) (row : AccountRow) (p : PasswordRow) : Prop :=
  p ∈ passwords d /\ p_hash p = hash
  /\ (forall t, p_expires_at p = Some t -> (now < t)%Z)
  /\ row ∈ accounts (core d) /\ a_id row = p_account p /\ a_disabled_at row = None.

Lemma token_join_elem now hash d row p :
  (row, p) ∈ token_join now hash d <-> bears now hash d row p.
Proof.
  unfold token_join, bears. rewrite elem_of_flat_map. split.
  - intros (q & Hq & H). destruct (_ && _) eqn:E; [|by apply elem_of_nil in H].
    apply andb_true_iff in E as [Eh%String.eqb_eq Ee].
    apply elem_of_map in H as (a & Ha & [= -> ->]).
    apply elem_of_filter_bool in Ha as [Ha [Hi%String.eqb_eq Hd]%andb_true_iff].
    repeat split; try done.
    + intros t Ht. rewrite Ht in Ee. by apply Z.ltb_lt.
    + by destruct (a_disabled_at a).
  - intros (Hp & Hh & He & Ha & Hi & Hd). exists p. split; [done|].
    rewrite Hh, String.eqb_refl. cbn [andb].
    replace (match p_expires_at p with None => true | Some t => (now <? t)%Z end) with true.
    + apply elem_of_map. exists row. split; [|done]. apply elem_of_filter_bool.
      by rewrite Hi, String.eqb_refl, Hd.
    + destruct (p_expires_at p) as [t|]; [|done]. symmetry. apply Z.ltb_lt. by apply He.
Qed.

Context (now : Z) (d : AuthDb).
Hypothesis hashes_unique : NoDup (map p_hash (passwords d)).
Hypothesis accounts_unique : NoDup (map a_id (accounts (core d))).

Lemma token_join_unique hash x y :
  x ∈ token_join now hash d -> y ∈ token_join now hash d -> x = y.
Proof.
  destruct x as [r1 p1], y as [r2 p2]. rewrite !token_join_elem.
  intros (Hp1 & H1 & _ & Ha1 & I1 & _) (Hp2 & H2 & _ & Ha2 & I2 & _).
  assert (p1 = p2) as -> by (apply (NoDup_map_inj p_hash (passwords d)); congruence).
  f_equal. apply (NoDup_map_inj a_id (accounts (core d))); congruence.
Qed.

Lemma token_head_iff hash x : head (token_join now hash d) = Some x <-> x ∈ token_join now hash d.
Proof. apply head_unique, token_join_unique. Qed.

Definition access_of (p : PasswordRow) : TokenAccess :=
  match p_scopes p with None => FullAccess | Some s => Scoped (split_scopes s) end.

Lemma access_lookup_iff token a access :
  fst (account_and_access_by_token parse_uuid hash_text now token d) = Ok (Some (a, access))
  <-> starts_with TOKEN_PREFIX token = true
      /\ exists row p, bears now (hash_text token) d row p
                       /\ row_to_account parse_uuid row = Ok a /\ access = access_of p.
Proof.
  unfold account_and_access_by_token. destruct (starts_with _ token); [|split; [done|by intros []]].
  cbn [negb]. unfold bind at 1, gets.
  destruct (head _) as [[row p]|] eqn:E.
  - apply token_head_iff, token_join_elem in E. unfold bind, lift, touch_password, modify, ret.
    destruct (row_to_account parse_uuid row) as [v|e] eqn:Er; cbn [fst].
    + split.
      * intros [= <- <-]. split; [done|]. by exists row, p.
      * intros (_ & row' & p' & Hb & Hr & ->).
        assert ((row', p') = (row, p)) as [= -> ->]
          by (apply (token_join_unique (hash_text token)); by apply token_join_elem).
        rewrite Er in Hr. injection Hr as <-. done.
    + split; [done|]. intros (_ & row' & p' & Hb & Hr & _).
      assert ((row', p') = (row, p)) as [= -> ->]
        by (apply (token_join_unique (hash_text token)); by apply token_join_elem).
      congruence.
  - cbn [fst ret]. split; [done|]. intros (_ & row & p & Hb & _).
    apply token_join_elem, token_head_iff in Hb. congruence.
Qed.

Lemma full_lookup_iff token a :
  fst (account_by_token parse_uuid hash_text now token d) = Ok (Some a)
  <-> starts_with TOKEN_PREFIX token = true
      /\ exists row p, bears now (hash_text token) d row p
                       /\ row_to_account parse_uuid row = Ok a /\ p_scopes p = None.
Proof.
  unfold account_by_token. destruct (starts_with _ token); [|split; [done|by intros []]].
  cbn [negb]. unfold bind at 1.
  destruct (List.find _ _) as [[row p]|] eqn:E; cbn [option_map fst optional_account].
  - apply find_unique in E as [Hin Hs]; [|apply token_join_unique]. cbn [snd] in Hs.
    destruct (p_scopes p) eqn:Ep; [done|].
    destruct (row_to_account parse_uuid row) as [v|e] eqn:Er; cbn [result_bind]; split.
    + unfold bind, touch_password, modify, ret. cbn [fst]. intros [= <-]. split; [done|].
      exists row, p. by rewrite <- token_join_elem.
    + intros (_ & row' & p' & Hb & Hr & _).
      assert ((row', p') = (row, p)) as [= -> ->]
        by (apply (token_join_unique (hash_text token)); [by apply token_join_elem|done]).
      rewrite Er in Hr. injection Hr as <-. done.
    + done.
    + intros (_ & row' & p' & Hb & Hr & _).
      assert ((row', p') = (row, p)) as [= -> ->]
        by (apply (token_join_unique (hash_text token)); [by apply token_join_elem|done]).
      congruence.
  - cbn. split; [done|]. intros (_ & row & p & Hb & _ & Hs). apply token_join_elem in Hb.
    pose proof (find_None_elem _ _ _ E Hb) as Hn. cbn in Hn. by rewrite Hs in Hn.
Qed.

(** A bearer token opens exactly the enabled account its unexpired row names,
    with the scopes of that row; and the lookup of the callers that know no
    scopes succeeds exactly where the other one grants full access, so a token
    minted for a client never opens IMAP. *)
Lemma bearer_lookup token a access :
  (fst (account_and_access_by_token parse_uuid hash_text now token d) = Ok (Some (a, access))
   <-> starts_with TOKEN_PREFIX token = true
       /\ exists row p, bears now (hash_text token) d row p
                        /\ row_to_account parse_uuid row = Ok a /\ access = access_of p)
  /\ (fst (account_by_token parse_uuid hash_text now token d) = Ok (Some a)
      <-> fst (account_and_access_by_token parse_uuid hash_text now token d) = Ok (Some (a, FullAccess))).
Proof.
  split; [apply access_lookup_iff|]. rewrite full_lookup_iff, access_lookup_iff.
  assert (forall p, p_scopes p = None <-> FullAccess = access_of p) as Hf.
  { intros p. unfold access_of. by destruct (p_scopes p). }
  by setoid_rewrite Hf.
Qed.
End Bearer.
