(* ===== verification/Challenges.v ===== *)
(** [crates/owney-api/src/challenge_store.rs]: short-lived entries in memory, by
    key, and the session tokens.  Times are in nanoseconds; the lock around each
    map makes every operation one step. *)
From S2P Require Import Prelude Text Ident Store Tokens.

Open Scope string_scope.

Record Entry (D : Type) := mk_entry { data : D; expires_at : Z }.
Arguments mk_entry {D} _ _.
Arguments data {D} _.
Arguments expires_at {D} _.

Definition ns_per_s : Z := 1000000000.
Definition minutes (n : Z) : Z := n * 60 * ns_per_s.
Definition hours (n : Z) : Z := minutes (60 * n).

Section ChallengeStore.
Context {D : Type}.

(** [ChallengeStore]. *)
Abbreviation Challenges := (gmap string (Entry D)).

(** [store_with_ttl] under the fresh id [fresh], and [store_keyed]; a TTL that
    [chrono] cannot hold becomes ten minutes ([ttl] is [None] then). *)
Definition store_keyed (now : Z) (key : string) (d : D) (ttl : option Z) (s : Challenges)
  : unit * Challenges :=
  (tt, <[key := mk_entry d (now + default (minutes 10) ttl)%Z]> s).
Definition store_with_ttl (fresh : string) (now : Z) (d : D) (ttl : option Z) (s : Challenges)
  : string * Challenges :=
  (fresh, snd (store_keyed now fresh d ttl s)).

(** [store_challenge]. *)
Definition store_challenge (fresh : string) (now : Z) (d : D) (s : Challenges)
  : result string string * Challenges :=
  (Ok fresh, <[fresh := mk_entry d (now + minutes 10)%Z]> s).

(** [peek]: an expired entry is evicted. *)
Definition peek (now : Z) (key : string) (s : Challenges) : option D * Challenges :=
  match s !! key with
  | Some e => if (now <=? expires_at e)%Z then (Some (data e), s) else (None, delete key s)
  | None => (None, s)
  end.

(** [retrieve_challenge]: the entry is consumed whether or not it is live. *)
Definition retrieve_challenge (now : Z) (key : string) (s : Challenges)
  : result string D * Challenges :=
  match s !! key with
  | Some e => ((if (expires_at e <? now)%Z then Err "Challenge expired" else Ok (data e)), delete key s)
  | None => (Err "Challenge not found", s)
  end.

Section Pairing.
Variable into_bytes : string -> D.
Variable from_utf8 : D -> option string.

(** [store_pairing_code]. *)
Definition store_pairing_code (fresh : string) (now : Z) (code : string) (s : Challenges)
  : result string string * Challenges :=
  (Ok fresh, <[fresh := mk_entry (into_bytes code) (now + minutes 2)%Z]> s).

(** [retrieve_pairing_code]. *)
Definition retrieve_pairing_code (now : Z) (key : string) (s : Challenges)
  : result string string * Challenges :=
  match s !! key with
  | Some e =>
      ((if (expires_at e <? now)%Z then Err "Pairing code expired"
        else ok_or (from_utf8 (data e)) "Invalid pairing code"), delete key s)
  | None => (Err "Pairing code not found", s)
  end.
End Pairing.

(** [cleanup_expired]. *)
Definition cleanup_expired (now : Z) (s : Challenges) : unit * Challenges :=
  (tt, filter (fun p => (now < expires_at p.2)%Z) s).
End ChallengeStore.

(** ** Session tokens *)

Definition SESSION_PREFIX : string := "owk_".

Section SessionTokens.
(** The SHA-256 digest, in hex, of the random bytes, the account and the time. *)
Variable session_digest : list Z -> string -> Z -> string.

(** [SessionTokenManager]: the account a token stands for. *)
Abbreviation SessionTokens := (gmap string (Entry string)).

(** [generate_token]. *)
Definition generate_token (now : Z) (random : list Z) (account : string) (s : SessionTokens)
  : result string string * SessionTokens :=
  let token := SESSION_PREFIX +:+ session_digest random account (now / ns_per_s)%Z in
  (Ok token, <[token := mk_entry account (now + hours 24)%Z]> s).

(** [validate_token]: an expired token is removed. *)
Definition validate_token (now : Z) (token : string) (s : SessionTokens)
  : result string string * SessionTokens :=
  match s !! token with
  | Some e => if (expires_at e <? now)%Z then (Err "Token expired", delete token s)
              else (Ok (data e), s)
  | None => (Err "Invalid token", s)
  end.

(** [revoke_token]. *)
Definition revoke_token (token : string) (s : SessionTokens) : result string unit * SessionTokens :=
  match s !! token with
  | Some _ => (Ok tt, delete token s)
  | None => (Err "Token not found", s)
  end.

Definition cleanup_tokens (now : Z) (s : SessionTokens) : unit * SessionTokens :=
  cleanup_expired now s.

(** ** Properties *)

(** What a session token is good for, through any use of the manager. *)
Inductive SessionOp :=
  | Generate (now : Z) (random : list Z) (account : string)
  | Validate (now : Z) (token : string)
  | Revoke (token : string)
  | Sweep (now : Z).

Definition session_step (op : SessionOp) (s : SessionTokens) : SessionTokens :=
  match op with
  | Generate now random account => snd (generate_token now random account s)
  | Validate now token => snd (validate_token now token s)
  | Revoke token => snd (revoke_token token s)
  | Sweep now => snd (cleanup_tokens now s)
  end.

(** The last issue of a token that no revocation followed. *)
Fixpoint issued (token : string) (log : list SessionOp) : option (string * Z) :=
  match log with
  | [] => None
  | Generate now random account :: older =>
      if String.eqb token (SESSION_PREFIX +:+ session_digest random account (now / ns_per_s)%Z)
      then Some (account, (now + hours 24)%Z) else issued token older
  | Revoke t :: older => if String.eqb t token then None else issued token older
  | _ :: older => issued token older
  end.

Lemma session_entry log token e :
  fold_right session_step ∅ log !! token = Some e ->
  issued token log = Some (data e, expires_at e).
Proof.
  revert e. induction log as [|op log IH]; intros e; cbn [fold_right issued].
  - by rewrite lookup_empty.
  - set (s := fold_right session_step ∅ log) in *. destruct op as [now random account|now t|t|now]; cbn.
    + destruct (String.eqb_spec token (SESSION_PREFIX +:+ session_digest random account (now / ns_per_s)%Z)) as [->|Hne].
      * rewrite lookup_insert_eq. by intros [= <-].
      * rewrite lookup_insert_ne by done. apply IH.
    + unfold validate_token. destruct (s !! t) as [e'|] eqn:Et; [|apply IH].
      destruct (_ <? _)%Z; [|apply IH]. cbn. intros H. apply IH.
      apply lookup_delete_Some in H as [_ H]. done.
    + unfold revoke_token. destruct (String.eqb_spec t token) as [->|Hne].
      * destruct (s !! token) as [e'|] eqn:Et; cbn; [by rewrite lookup_delete_eq|by rewrite Et].
      * destruct (s !! t) as [e'|] eqn:Et; cbn; [|apply IH]. rewrite lookup_delete_ne by done. apply IH.
    + intros H%map_lookup_filter_Some. apply IH. tauto.
Qed.

(** A session token is accepted only for the account it was last issued to,
    within 24 hours, and not after it was revoked, whatever was done with the
    manager before. *)
Lemma session_token_sound log now token account s :
  validate_token now token (fold_right session_step ∅ log) = (Ok account, s) ->
  exists expires, issued token log = Some (account, expires) /\ (now <= expires)%Z.
Proof.
  unfold validate_token. destruct (_ !! token) as [e|] eqn:E; [|done].
  destruct (_ <? _)%Z eqn:El; [done|]. intros [= <- <-]. exists (expires_at e).
  split; [by apply session_entry|by apply Z.ltb_ge].
Qed.
End SessionTokens.

(** * Passkeys: the operations of [crates/owney-storage/src/passwordless.rs] on
    credentials and the manager of [crates/owney-authn-v2/src/passkey.rs].  The
    WebAuthn protocol itself is the [webauthn-rs] crate, a parameter. *)

(** ** Storage *)

Section Storage.
(** [DateTime::from_timestamp] has a range. *)
Variable representable : Z -> bool.

Definition from_timestamp (t : Z) : option Z := if representable t then Some t else None.

(** The row as it is read back: an unreadable creation time becomes the current one. *)
Definition read_passkey (now : Z) (k : PasskeyRow) : PasskeyRow :=
  mk_passkey (k_id k) (k_account k) (k_device_name k) (k_public_key k) (k_counter k)
    (k_backup_eligible k) (k_backup_state k) (k_aaguid k)
    (default now (from_timestamp (k_created_at k)))
    (t ← k_last_used_at k; from_timestamp t) (k_disabled k).

Definition bytes_eqb (a b : list Z) : bool := bool_decide (a = b).

(** [save_passkey_credential]. *)
Definition save_passkey_credential (k : PasskeyRow) : AM unit :=
  fun d =>
    if negb (known_account (k_account k) d) then (Err (Corrupt "FOREIGN KEY constraint failed"), d)
    else if existsb (fun x => bytes_eqb (k_id x) (k_id k)) (passkeys d)
    then (Err (Corrupt "UNIQUE constraint failed: passkey_credentials.id"), d)
    else (Ok tt, on_passkeys (fun l => (l ++ [k])%list) d).

(** [get_passkey_credential]. *)
Definition get_passkey_credential (now : Z) (i : list Z) : AM (option PasskeyRow) :=
  gets (fun d => option_map (read_passkey now)
                   (select_first (fun k => bytes_eqb (k_id k) i) (passkeys d))).

(** [list_passkeys_for_account]: the enabled ones, latest first. *)
Definition list_passkeys_for_account (now : Z) (account : string) : AM (list PasskeyRow) :=
  gets (fun d => map (read_passkey now)
    (order_by (fun a b => (k_created_at b <=? k_created_at a)%Z)
       (List.filter (fun k => String.eqb (k_account k) account && negb (k_disabled k)) (passkeys d)))).

(** [update_passkey_counter]. *)
Definition update_passkey_counter (now : Z) (i : list Z) (counter : Z) : AM unit :=
  modify (on_passkeys (update_where (fun k => bytes_eqb (k_id k) i)
    (fun k => mk_passkey (k_id k) (k_account k) (k_device_name k) (k_public_key k) counter
                (k_backup_eligible k) (k_backup_state k) (k_aaguid k) (k_created_at k) (Some now)
                (k_disabled k)))).

(** [disable_passkey]. *)
Definition disable_passkey (i : list Z) : AM unit :=
  modify (on_passkeys (update_where (fun k => bytes_eqb (k_id k) i)
    (fun k => mk_passkey (k_id k) (k_account k) (k_device_name k) (k_public_key k) (k_counter k)
                (k_backup_eligible k) (k_backup_state k) (k_aaguid k) (k_created_at k)
                (k_last_used_at k) true))).
End Storage.

(** ** The manager *)

Record AuthResult := mk_auth_result {
  ar_cred_id : list Z;
  ar_counter : Z;
  ar_backup_eligible : bool;
  ar_backup_state : bool
}.

(** [webauthn-rs]: the two ceremonies, the credential and its serialization.
    [Passkey] is the credential, [RegState] and [LoginState] what the server
    keeps between the two halves of a ceremony. *)
Class WebAuthn := {
  Passkey : Type;
  RegState : Type;
  LoginState : Type;
  Attestation : Type;
  Assertion : Type;
  passkey_to_bytes : Passkey -> option (list Z);
  passkey_of_bytes : list Z -> option Passkey;
  cred_id : Passkey -> list Z;
  update_credential : Passkey -> AuthResult -> Passkey;
  raw_id : Assertion -> list Z;
  start_passkey_registration : Z -> string -> string -> option (list (list Z)) -> option (string * RegState);
  finish_passkey_registration : Attestation -> RegState -> option Passkey;
  start_passkey_authentication : Z -> list Passkey -> option (string * LoginState);
  finish_passkey_authentication : Assertion -> LoginState -> option AuthResult
}.

(** [AuthError]. *)
Inductive AuthError :=
  | InvalidCredentialId
  | WebAuthnError (what : string)
  | ChallengeMismatch
  | CounterRollback
  | CredentialNotFound
  | CredentialDisabled
  | InvalidRecoveryCode
  | RecoveryCodeUsed
  | NoRecoveryCodes
  | InvalidApprovalRequest
  | ApprovalRequestExpired
  | ApprovalAlreadyProcessed
  | TooManyPendingApprovals
  | DeviceNotPaired
  | InvalidPairingCode
  | PairingCodeExpired
  | NoPasskeysEnrolled
  | AuthDatabase (what : string)
  | Config (what : string)
  | Unauthorized
  | Internal (what : string).

(** A failure of [webauthn-rs]; its text is not modelled. *)
Definition webauthn_failed : AuthError := WebAuthnError "".

Section Manager.
Context `{WebAuthn}.

(** [PasskeyCredential]. *)
Record PasskeyCredential := mk_credential {
  pc_id : list Z;
  pc_account_id : string;
  pc_device_name : string;
  pc_passkey : Passkey;
  pc_counter : Z;
  pc_backup_eligible : bool;
  pc_backup_state : bool;
  pc_created_at : Z;
  pc_last_used_at : option Z;
  pc_disabled : bool
}.

Definition passkey_bytes (c : PasskeyCredential) : result AuthError (list Z) :=
  ok_or (passkey_to_bytes (pc_passkey c)) (Internal "Passkey serialization failed").
Definition passkey_from_bytes (b : list Z) : result AuthError Passkey :=
  ok_or (passkey_of_bytes b) (Internal "Passkey deserialization failed").

(** [PasskeyManager::start_registration]; the options for the browser and the
    state to keep. *)
Definition start_registration (entropy : Z) (user display : string) (exclude : option (list (list Z)))
  : result AuthError (string * RegState) :=
  ok_or (start_passkey_registration entropy user display exclude) webauthn_failed.

(** [PasskeyManager::finish_registration]. *)
Definition finish_registration (now : Z) (account device : string) (response : Attestation) (s : RegState)
  : result AuthError PasskeyCredential :=
  passkey <-? ok_or (finish_passkey_registration response s) webauthn_failed ;;
  Ok (mk_credential (cred_id passkey) account device passkey 0 false false now None false).

(** [PasskeyManager::start_authentication]. *)
Definition start_authentication (entropy : Z) (credentials : list PasskeyCredential)
  : result AuthError (string * LoginState) :=
  match map pc_passkey (List.filter (fun c => negb (pc_disabled c)) credentials) with
  | [] => Err NoPasskeysEnrolled
  | keys => ok_or (start_passkey_authentication entropy keys) webauthn_failed
  end.

(** [PasskeyManager::finish_authentication]: the credential is updated in place. *)
Definition finish_authentication (now : Z) (response : Assertion) (s : LoginState)
    (c : PasskeyCredential) : result AuthError (AuthResult * PasskeyCredential) :=
  if pc_disabled c then Err CredentialDisabled
  else
    r <-? ok_or (finish_passkey_authentication response s) webauthn_failed ;;
    if negb (bytes_eqb (ar_cred_id r) (cred_id (pc_passkey c))) then Err CredentialNotFound
    else Ok (r, mk_credential (pc_id c) (pc_account_id c) (pc_device_name c)
                  (update_credential (pc_passkey c) r) (ar_counter r) (ar_backup_eligible r)
                  (ar_backup_state r) (pc_created_at c) (Some now) (pc_disabled c)).
End Manager.
