(* ===== verification/Interleave.v ===== *)
(** Request handlers that run concurrently: a handler is a sequence of atomic
    operations on a shared state with its own control between them, and any
    number of handlers take turns.

    [safe] is a Kripke-style condition on one handler: wherever the others have
    moved the state (within [evolves]), each of its operations keeps the
    invariant.  [interleaving_safe] lifts it to every interleaving. *)
From S2P Require Import Prelude.

Section Programs.
Context {W : Type}.

(** A handler: finished with an answer, or about to perform an operation. *)
Inductive prog (A : Type) : Type :=
  | Done (a : A)
  | Op {B : Type} (m : W -> B * W) (k : B -> prog A).
Arguments Done {A} _.
Arguments Op {A B} _ _.

Fixpoint pbind {A B} (p : prog A) (k : A -> prog B) : prog B :=
  match p with
  | Done a => k a
  | Op m f => Op m (fun b => pbind (f b) k)
  end.

Definition op {B} (m : W -> B * W) : prog B := Op m Done.

(** One handler alone. *)
Fixpoint run {A} (p : prog A) (w : W) : A * W :=
  match p with
  | Done a => (a, w)
  | Op m k => let '(b, w') := m w in run (k b) w'
  end.

Lemma run_pbind {A B} (p : prog A) (k : A -> prog B) w :
  run (pbind p k) w = let '(a, w') := run p w in run (k a) w'.
Proof.
  revert w. induction p as [a|C m f IH]; intros w; cbn; [done|].
  destruct (m w) as [b w']. apply IH.
Qed.

Lemma run_op {B} (m : W -> B * W) w : run (op m) w = m w.
Proof. cbn. by destruct (m w). Qed.

(** ** Safety under interference *)

Section Safety.
Variable Inv : W -> Prop.
Variable evolves : W -> W -> Prop.
Context {evolves_pre : PreOrder evolves}.

Fixpoint safe {A} (Q : A -> W -> Prop) (p : prog A) (w : W) : Prop :=
  match p with
  | Done a => Q a w
  | Op m k => forall w1, evolves w w1 -> Inv w1 ->
      forall b w2, m w1 = (b, w2) -> Inv w2 /\ evolves w1 w2 /\ safe Q (k b) w2
  end.

Definition stable {A} (Q : A -> W -> Prop) : Prop :=
  forall a w w', evolves w w' -> Q a w -> Q a w'.

Lemma safe_evolves {A} (Q : A -> W -> Prop) p w w' :
  stable Q -> evolves w w' -> safe Q p w -> safe Q p w'.
Proof.
  intros HQ Hw. destruct p as [a|B m k]; cbn; [by apply HQ|].
  intros H w1 H1. apply H. by transitivity w'.
Qed.

Lemma safe_pbind {A B} (Q : B -> W -> Prop) (p : prog A) (k : A -> prog B) w :
  safe (fun a => safe Q (k a)) p w -> safe Q (pbind p k) w.
Proof.
  revert w. induction p as [a|C m f IH]; intros w; cbn; [done|].
  intros H w1 H1 Hi b w2 Hm. destruct (H w1 H1 Hi b w2 Hm) as (? & ? & Hs). auto.
Qed.

Lemma safe_mono {A} (P Q : A -> W -> Prop) p w :
  (forall a w', P a w' -> Q a w') -> safe P p w -> safe Q p w.
Proof.
  intros HPQ. revert w. induction p as [a|C m f IH]; intros w; cbn; [apply HPQ|].
  intros H w1 H1 Hi b w2 Hm. destruct (H w1 H1 Hi b w2 Hm) as (? & ? & Hs). auto.
Qed.

Lemma safe_op {A B} (Q : B -> W -> Prop) (m : W -> A * W) (k : A -> prog B) w :
  (forall w1, evolves w w1 -> Inv w1 -> forall a w2, m w1 = (a, w2) ->
     Inv w2 /\ evolves w1 w2 /\ safe Q (k a) w2) ->
  safe Q (pbind (op m) k) w.
Proof. done. Qed.

(** Running a safe handler alone keeps the invariant and ends as promised. *)
Lemma safe_run {A} (Q : A -> W -> Prop) p w a w' :
  Inv w -> safe Q p w -> run p w = (a, w') -> Inv w' /\ evolves w w' /\ Q a w'.
Proof.
  revert w. induction p as [x|C m f IH]; intros w Hi; cbn.
  - intros HQ [= <- <-]. done.
  - intros H. destruct (m w) as [b w1] eqn:Em.
    destruct (H w ltac:(done) Hi b w1 Em) as (Hi1 & He & Hs). intros Hr.
    destruct (IH b w1 Hi1 Hs Hr) as (? & ? & ?). split; [done|]. split; [by transitivity w1|done].
Qed.

(** ** Any number of handlers *)

(** The handlers a request may start, and what else happens to the state. *)
Context {A : Type}.
Variable entry : prog A -> Prop.
Variable others : W -> W -> Prop.

Inductive sys_step : W * list (prog A) -> W * list (prog A) -> Prop :=
  | Arrive w pool p : entry p -> sys_step (w, pool) (w, (pool ++ [p])%list)
  | Turn w pool i B (m : W -> B * W) k b w' :
      pool !! i = Some (Op m k) -> m w = (b, w') -> sys_step (w, pool) (w', <[i := k b]> pool)
  | Other w pool w' : others w w' -> sys_step (w, pool) (w', pool).

Inductive sys_reachable (w0 : W) : W * list (prog A) -> Prop :=
  | sys_start : sys_reachable w0 (w0, [])
  | sys_next s s' : sys_reachable w0 s -> sys_step s s' -> sys_reachable w0 s'.

(** A handler that runs alone from its arrival to its answer. *)
Lemma turns_reachable w0 w pool (p : prog A) a w' :
  sys_reachable w0 (w, (pool ++ [p])%list) -> run p w = (a, w') ->
  sys_reachable w0 (w', (pool ++ [Done a])%list).
Proof.
  revert w. induction p as [x|C m f IH]; intros w Hr; cbn.
  - by intros [= <- <-].
  - destruct (m w) as [b w1] eqn:Em. apply IH. eapply sys_next; [exact Hr|].
    replace (pool ++ [f b])%list with (<[length pool := f b]> (pool ++ [Op m f]))%list.
    + apply (Turn w _ (length pool) C m f b w1); [|done]. by rewrite lookup_app_r, Nat.sub_diag.
    + by rewrite insert_app_r_alt, Nat.sub_diag by lia.
Qed.

Lemma alone_reachable w0 w pool (p : prog A) a w' :
  sys_reachable w0 (w, pool) -> entry p -> run p w = (a, w') ->
  sys_reachable w0 (w', (pool ++ [Done a])%list).
Proof.
  intros Hr He. apply turns_reachable. eapply sys_next; [exact Hr|]. by constructor.
Qed.

Lemma interleaving_safe (Q : A -> W -> Prop) w0 w pool :
  stable Q -> Inv w0 ->
  (forall p w, entry p -> safe Q p w) ->
  (forall w w', Inv w -> others w w' -> Inv w' /\ evolves w w') ->
  sys_reachable w0 (w, pool) ->
  Inv w /\ evolves w0 w /\ Forall (fun p => safe Q p w) pool.
Proof.
  intros HQ H0 Hentry Hothers Hr. remember (w, pool) as s eqn:Es. revert w pool Es.
  induction Hr as [|s s' Hr IH Hstep]; intros w pool Es.
  { injection Es as <- <-. split; [done|]. split; [done|constructor]. }
  subst s'.
  inversion Hstep as [w1 pool1 p Hp|w1 pool1 i B m k b w' Hi Hm|w1 pool1 w' Ho]; subst;
    destruct (IH _ _ eq_refl) as (Hinv & Hev & Hall).
  - split; [done|]. split; [done|]. apply Forall_app. split; [done|]. by constructor; [apply Hentry|].
  - pose proof (Forall_lookup_1 _ _ _ _ Hall Hi) as Hsafe. cbn in Hsafe.
    destruct (Hsafe w1 ltac:(done) Hinv b w Hm) as (Hinv' & Hev' & Hk).
    split; [done|]. split; [by transitivity w1|]. apply Forall_insert; [|done].
    eapply Forall_impl; [exact Hall|]. intros p Hp. by apply (safe_evolves _ _ w1).
  - destruct (Hothers _ _ Hinv Ho) as [Hinv' Hev']. split; [done|]. split; [by transitivity w1|].
    eapply Forall_impl; [exact Hall|]. intros p Hp. by apply (safe_evolves _ _ w1).
Qed.
End Safety.
End Programs.
Arguments prog : clear implicits.
Arguments Done {W A} _.
Arguments Op {W A B} _ _.

Notation "x <-- p ;; k" := (pbind p (fun x => k))
  (at level 100, p at next level, right associativity) : owney_scope.
