(* ===== verification/Attributes.v ===== *)
(** [crates/owney-storage/src/attributes.rs]: what the server's detectors attach to a
    message.  At most one attribute per (email, kind), and a dismissal stays. *)
From S2P Require Import Prelude Text Bytes Ident Store Mail MailQueries.

Open Scope string_scope.

Record AttributeRow := mk_attribute_row {
  ar_id : string;
  ar_account : string;
  ar_email : string;
  ar_kind : string;
  ar_content : string;
  ar_dismissed_at : option Z;
  ar_created_at : Z;
  ar_updated_at : Z
}.

Record EmailAttribute := mk_attribute {
  at_kind : string;
  at_content : string;
  at_dismissed_at : option Z;
  at_created_at : Z;
  at_updated_at : Z
}.

(** The tables of [Store] and [email_attributes]. *)
Record AttrDb := mk_attr_db { at_core : Db; at_rows : list AttributeRow }.
Abbreviation AM A := (action AttrDb StorageError A).

Definition on_at_core {A} (m : SM A) : AM A :=
  fun d => let '(r, c) := m (at_core d) in (r, mk_attr_db c (at_rows d)).
Definition on_at_rows (f : list AttributeRow -> list AttributeRow) (d : AttrDb) : AttrDb :=
  mk_attr_db (at_core d) (f (at_rows d)).

(** [owned_email_check]. *)
Definition owned_email (account i : string) (d : Db) : bool :=
  existsb (fun e => String.eqb (e_account e) account && String.eqb (e_id e) i) (emails d).
Definition owned_email_check (account i : string) : SM unit :=
  owned <- gets (owned_email account i) ;; ensure owned NotAuthorized.

(** The new modseq of the email, and what is published. *)
Definition touch_email (account i : string) : SM (list (DataType * Z)) :=
  seq <- bump account Email ;;
  modify (on_emails (update_where (fun e => String.eqb (e_id e) i) (set_updated seq))) ;;;
  ret [(Email, seq)].

Definition of_kind (i kind : string) (r : AttributeRow) : bool :=
  String.eqb (ar_email r) i && String.eqb (ar_kind r) kind.

(** [Storage::set_email_attribute]. *)
Definition set_attribute_tx (fresh : string) (now : Z) (account i kind content : string) : AM (list (DataType * Z)) :=
  on_at_core (owned_email_check account i) ;;;
  clash <- gets (fun d => negb (existsb (of_kind i kind) (at_rows d))
                          && existsb (fun r => String.eqb (ar_id r) fresh) (at_rows d)) ;;
  (if clash : bool then fail (Sqlite "UNIQUE constraint failed: email_attributes.id") else ret tt) ;;;
  modify (on_at_rows (fun l =>
    if existsb (of_kind i kind) l
    then update_where (of_kind i kind)
           (fun r => mk_attribute_row (ar_id r) (ar_account r) (ar_email r) (ar_kind r) content
                       (ar_dismissed_at r) (ar_created_at r) now) l
    else (l ++ [mk_attribute_row fresh account i kind content None now now])%list)) ;;;
  on_at_core (touch_email account i).
Definition set_email_attribute (fresh : string) (now : Z) (account i kind content : string) : AM unit :=
  changed <- transaction (set_attribute_tx fresh now account i kind content) ;;
  on_at_core (publish (StateChange account changed)).

(** [Storage::list_email_attributes]. *)
Definition list_email_attributes (account i : string) : AM (list EmailAttribute) :=
  gets (fun d => map (fun r => mk_attribute (ar_kind r) (ar_content r) (ar_dismissed_at r)
                                 (ar_created_at r) (ar_updated_at r))
    (order_by (fun a b => str_leb (ar_kind a) (ar_kind b))
       (List.filter (fun r => String.eqb (ar_account r) account && String.eqb (ar_email r) i) (at_rows d)))).

(** [Storage::dismiss_email_attribute]. *)
Definition dismissable (account i kind : string) (r : AttributeRow) : bool :=
  String.eqb (ar_account r) account && of_kind i kind r
  && match ar_dismissed_at r with None => true | Some _ => false end.
Definition dismiss_tx (now : Z) (account i kind : string) : AM (list (DataType * Z)) :=
  on_at_core (owned_email_check account i) ;;;
  touched <- gets (fun d => existsb (dismissable account i kind) (at_rows d)) ;;
  modify (on_at_rows (update_where (dismissable account i kind)
    (fun r => mk_attribute_row (ar_id r) (ar_account r) (ar_email r) (ar_kind r) (ar_content r)
                (Some now) (ar_created_at r) now))) ;;;
  if touched : bool then on_at_core (touch_email account i)
  else fail (BadInput ("no active attribute " +:+ kind +:+ " on email " +:+ i)).
Definition dismiss_email_attribute (now : Z) (account i kind : string) : AM unit :=
  changed <- transaction (dismiss_tx now account i kind) ;;
  on_at_core (publish (StateChange account changed)).
