(* ===== verification/Oidc.v ===== *)
(** [crates/owney-api/src/oidc/]: the OpenID Connect provider.  The endpoints of
    [authorize.rs], [consent.rs], [token.rs] and [enroll.rs] over the storage of
    [Tokens] and [Passkeys] and the in-memory store of [Challenges]; each is a
    program whose steps are single storage or store operations, so that
    concurrent requests interleave between them.

    A parked value is kept as what it was serialized from; [as_request] and its
    siblings say what [serde] makes of it when it is read as something else
    (unknown fields are ignored, missing optional ones are absent).  The record
    [Moment] is what the outside world supplies to one operation: the clock, a
    fresh UUID, random bytes, entropy of the WebAuthn ceremony. *)
From S2P Require Import Prelude Text Bytes Ident Store Tokens Challenges Interleave.

Open Scope string_scope.

(** ** Scopes ([mod.rs]) *)

Definition SCOPE_OPENID : string := "openid".
Definition SCOPE_EMAIL : string := "email".
Definition SCOPE_PROFILE : string := "profile".
Definition SCOPE_OFFLINE : string := "offline_access".
Definition SCOPE_MAIL : string := "owney:mail".
Definition SCOPE_MCP : string := "owney:mcp".
Definition SUPPORTED_SCOPES : list string :=
  [SCOPE_OPENID; SCOPE_EMAIL; SCOPE_PROFILE; SCOPE_OFFLINE; SCOPE_MAIL; SCOPE_MCP].

Definition has_scope (scope : string) (l : list string) : bool := existsb (String.eqb scope) l.
Definition covers (granted requested : list string) : bool :=
  forallb (fun s => has_scope s granted) requested.

(** ** Requests and answers *)

Record AuthorizeParams := mk_authorize_params {
  ap_response_type : option string;
  ap_client_id : option string;
  ap_redirect_uri : option string;
  ap_scope : option string;
  ap_state : option string;
  ap_nonce : option string;
  ap_code_challenge : option string;
  ap_code_challenge_method : option string
}.

Record TokenForm := mk_token_form {
  tf_grant_type : option string;
  tf_code : option string;
  tf_redirect_uri : option string;
  tf_code_verifier : option string;
  tf_refresh_token : option string;
  tf_scope : option string;
  tf_client_id : option string;
  tf_client_secret : option string
}.

Record IdTokenClaims := mk_claims {
  iss : string; sub : string; aud : string; exp : Z; iat : Z; auth_time : option Z;
  nonce : option string; claim_email : option string; email_verified : option bool;
  claim_name : option string
}.

Record TokenResponse := mk_token_response {
  access_token : string;
  expires_in : Z;
  scope : string;
  id_token : option string;
  refresh_token : option string
}.

Inductive Response :=
  | Status (code : nat)
  | Page (code : nat) (message : string)
  | OauthError (code : string)
  | JsonError (code : nat) (message : string)
  | TextError (code : nat) (message : string)
  | Challenge401
  | InsufficientScope
  | SeeOther (location : string)
  | JsonRedirect (location : string)
  | LoginPage (req_id client_name : string)
  | ConsentPage (client_name : string) (scope_items : list string) (req auth : string)
  | Ceremony (id options : string)
  | Enrolled (device_name : string)
  | TokensIssued (body : TokenResponse)
  | UserInfo (sub : string) (email : option string) (name : option string).

(** The status line of [oauth_error]. *)
Definition oauth_status (code : string) : nat := if String.eqb code "invalid_client" then 401 else 400.

(** [html_escape]. *)
Definition html_escape (s : string) : string :=
  replace_with quote "&quot;" (replace_with ">" "&gt;" (replace_with "<" "&lt;" (replace_with "&" "&amp;" s))).

(** [scope_label]. *)
Definition scope_label (s : string) : string :=
  if String.eqb s SCOPE_OPENID then "Confirm your identity"
  else if String.eqb s SCOPE_EMAIL then "See your email address"
  else if String.eqb s SCOPE_PROFILE then "See your display name"
  else if String.eqb s SCOPE_OFFLINE then "Stay signed in (refresh access without re-login)"
  else if String.eqb s SCOPE_MAIL then "Access your mail and calendar data"
  else if String.eqb s SCOPE_MCP then "Use AI tools on your behalf"
  else "Unknown permission".

(** ** Parked values ([session.rs], [authorize.rs], [enroll.rs]) *)

Record AuthRequest := mk_auth_request {
  rq_client_id : string;
  rq_redirect_uri : string;
  rq_scopes : list string;
  rq_state : option string;
  rq_nonce : option string;
  rq_code_challenge : string
}.

Record CodeGrant := mk_code_grant {
  cg_account_id : string;
  cg_client_id : string;
  cg_redirect_uri : string;
  cg_code_challenge : string;
  cg_nonce : option string;
  cg_scopes : list string
}.

Definition CODE_PREFIX : string := "moc_".
Definition AUTH_REQUEST_TTL : Z := 600 * ns_per_s.
Definition AUTHOK_TTL : Z := 300 * ns_per_s.
Definition CODE_TTL : Z := 60 * ns_per_s.

(** Redirects: [redirect_with] and [error_redirect]; percent-encoding is the
    [urlencoding] crate. *)
Section Redirects.
Variable url_encode : string -> string.

Definition redirect_with (base : string) (params : list (string * string)) : string :=
  base +:+ (if contains "?" base then "&" else "?")
  +:+ join "&" (map (fun p => fst p +:+ "=" +:+ url_encode (snd p)) params).

Definition with_state (state : option string) (params : list (string * string)) : list (string * string) :=
  match state with Some s => (params ++ [("state", s)])%list | None => params end.

Definition error_redirect (redirect_uri error : string) (state : option string) : string :=
  redirect_with redirect_uri (with_state state [("error", error)]).
End Redirects.

(** What one operation gets from outside. *)
Record Moment := mk_moment {
  at_ns : Z;
  at_uuid : string;
  at_rng : option (list Z);
  at_bytes : list Z;
  at_entropy : Z
}.
Definition unix (m : Moment) : Z := at_ns m / ns_per_s.

(** The issuer and its configuration. *)
Record Provider := mk_provider {
  issuer : string;
  access_ttl : Z;
  id_ttl : Z;
  refresh_ttl : Z
}.

(** What the endpoints use of other crates: UUID parsing, hashes, encodings and
    the signing of ID tokens. *)
Record Crates := mk_crates {
  parse_uuid : string -> option string;
  hash_text : string -> string;
  url_encode : string -> string;
  s256 : string -> string;
  basic_decode : string -> option string;
  sign : IdTokenClaims -> option string;
  representable : Z -> bool
}.

Section Endpoints.
Context `{WebAuthn}.
Variable crates : Crates.
Variable provider : Provider.
Variable moment : nat -> Moment.

Record LoginCeremony := mk_login { lc_req_id : string; lc_account_id : string; lc_auth : LoginState }.
Record EnrollState := mk_enroll { en_account_id : string; en_reg : RegState }.

Inductive Parked :=
  | ParkedRequest (r : AuthRequest)
  | ParkedCode (g : CodeGrant)
  | ParkedLogin (c : LoginCeremony)
  | ParkedEnroll (e : EnrollState)
  | ParkedAccount (account : string).

(** [serde_json::from_slice::<AuthRequest>]: a code has all its fields. *)
Definition as_request (p : Parked) : option AuthRequest :=
  match p with
  | ParkedRequest r => Some r
  | ParkedCode g => Some (mk_auth_request (cg_client_id g) (cg_redirect_uri g) (cg_scopes g) None
                            (cg_nonce g) (cg_code_challenge g))
  | _ => None
  end.
Definition as_code (p : Parked) : option CodeGrant :=
  match p with ParkedCode g => Some g | _ => None end.
Definition as_login (p : Parked) : option LoginCeremony :=
  match p with ParkedLogin c => Some c | _ => None end.
Definition as_enroll (p : Parked) : option EnrollState :=
  match p with ParkedEnroll e => Some e | _ => None end.
(** The bytes as the text of an account id; JSON text is never one. *)
Definition as_account (p : Parked) : option string :=
  match p with ParkedAccount a => parse_uuid crates a | _ => None end.
Definition as_text (p : Parked) : string :=
  match p with ParkedAccount a => a | _ => "{}" end.

(** ** The shared state

    [approvals] and [logins] are history variables: the consent recorded (account,
    client, scope) and the accounts whose passkey was verified; nothing reads them. *)
Record OidcWorld := mk_oidc_world {
  odb : AuthDb;
  challenges : gmap string (Entry Parked);
  approvals : list (string * string * string);
  logins : list string;
  ticks : nat
}.

Definition now_moment (w : OidcWorld) : Moment := moment (ticks w).

(** One storage operation, and one operation of the challenge store. *)
Definition db {A} (f : Moment -> AM A) : prog OidcWorld (result StorageError A) :=
  op (fun w => let '(r, d) := f (now_moment w) (odb w) in
               (r, mk_oidc_world d (challenges w) (approvals w) (logins w) (S (ticks w)))).
Definition store {A} (f : Moment -> gmap string (Entry Parked) -> A * gmap string (Entry Parked))
  : prog OidcWorld A :=
  op (fun w => let '(r, c) := f (now_moment w) (challenges w) in
               (r, mk_oidc_world (odb w) c (approvals w) (logins w) (S (ticks w)))).
(** Reading the clock or drawing entropy. *)
Definition ask {A} (f : Moment -> A) : prog OidcWorld A :=
  op (fun w => (f (now_moment w), mk_oidc_world (odb w) (challenges w) (approvals w) (logins w) (S (ticks w)))).
(** History: an assertion was verified. *)
Definition note_login (account : string) : prog OidcWorld unit :=
  op (fun w => (tt, mk_oidc_world (odb w) (challenges w) (approvals w) (account :: logins w) (ticks w))).

Definition park (p : Parked) (ttl : Z) : prog OidcWorld string :=
  store (fun m => store_with_ttl (at_uuid m) (at_ns m) p (Some ttl)).
Definition peek_at (key : string) : prog OidcWorld (option Parked) :=
  store (fun m => peek (at_ns m) key).
Definition retrieve (key : string) : prog OidcWorld (option Parked) :=
  r <-- store (fun m => retrieve_challenge (at_ns m) key) ;;
  Done (match r with Ok p => Some p | Err _ => None end).

(** [Storage::upsert_oauth_grant], with the consent it records. *)
Definition record_consent (account client : string) (scopes : list string)
  : prog OidcWorld (result StorageError unit) :=
  op (fun w =>
    let m := now_moment w in
    let '(r, d) := upsert_oauth_grant (at_uuid m) (unix m) account client scopes (odb w) in
    (r, mk_oidc_world d (challenges w)
          (match r with Ok _ => (map (pair (account, client)) scopes ++ approvals w)%list | Err _ => approvals w end)
          (logins w) (S (ticks w)))).

(** [mint_code] and [take_code]. *)
Definition mint_code (g : CodeGrant) : prog OidcWorld string :=
  code <-- ask (fun m => CODE_PREFIX +:+ to_hex (at_bytes m)) ;;
  _ <-- store (fun m => store_keyed (at_ns m) code (ParkedCode g) (Some CODE_TTL)) ;;
  Done code.
Definition take_code (code : string) : prog OidcWorld (option CodeGrant) :=
  if negb (starts_with CODE_PREFIX code) then Done None
  else p <-- retrieve code ;; Done (p ≫= as_code).

(** ** [authorize.rs] *)

(** [authorize]: the checks on a registered redirect URI, then on the request. *)
Definition requested_scopes (p : AuthorizeParams) : list string :=
  split_whitespace (default "" (ap_scope p)).
Definition scopes_ok (scopes : list string) : bool :=
  match scopes with [] => false | _ => covers SUPPORTED_SCOPES scopes && has_scope SCOPE_OPENID scopes end.

Definition non_empty (o : option string) : option string :=
  match o with Some s => if String.eqb s "" then None else Some s | None => None end.

Definition authorize_checked (client : OAuthClient) (client_id redirect_uri : string) (p : AuthorizeParams)
  : prog OidcWorld Response :=
  let refuse error := Done (SeeOther (error_redirect (url_encode crates) redirect_uri error (ap_state p))) in
  if negb (opt_eqb (ap_response_type p) (Some "code")) then refuse "unsupported_response_type"
  else match non_empty (ap_code_challenge p) with
  | None => refuse "invalid_request"
  | Some code_challenge =>
      if negb (opt_eqb (ap_code_challenge_method p) (Some "S256")) then refuse "invalid_request"
      else if negb (scopes_ok (requested_scopes p)) then refuse "invalid_scope"
      else
        req_id <-- park (ParkedRequest (mk_auth_request client_id redirect_uri (requested_scopes p)
                                          (ap_state p) (ap_nonce p) code_challenge)) AUTH_REQUEST_TTL ;;
        Done (LoginPage (html_escape req_id) (html_escape (oc_name client)))
  end.

Definition authorize (p : AuthorizeParams) : prog OidcWorld Response :=
  match ap_client_id p with
  | None => Done (Page 400 "missing client_id")
  | Some raw =>
      match parse_uuid crates raw with
      | None => Done (Page 400 "invalid client_id")
      | Some client_id =>
          found <-- db (fun _ => oauth_client (parse_uuid crates) client_id) ;;
          match found with
          | Err _ => Done (Status 500)
          | Ok (Some client) =>
              if oc_disabled client then Done (Page 400 "unknown or disabled client")
              else match ap_redirect_uri p with
                   | None => Done (Page 400 "missing redirect_uri")
                   | Some redirect_uri =>
                       if negb (existsb (String.eqb redirect_uri) (oc_redirect_uris client))
                       then Done (Page 400 "redirect_uri not registered for this client")
                       else authorize_checked client client_id redirect_uri p
                   end
          | Ok None => Done (Page 400 "unknown or disabled client")
          end
      end
  end.

(** [convert_cred]. *)
Definition convert_cred (k : PasskeyRow) : result AuthError PasskeyCredential :=
  passkey <-? passkey_from_bytes (k_public_key k) ;;
  Ok (mk_credential (k_id k) (k_account k) (k_device_name k) passkey (k_counter k)
        (k_backup_eligible k) (k_backup_state k) (k_created_at k) (k_last_used_at k) (k_disabled k)).

Definition no_passkey : prog OidcWorld Response := Done (JsonError 400 "no passkey for that account").

(** [login_start]. *)
Definition login_start (req mail : string) : prog OidcWorld Response :=
  alive <-- peek_at req ;;
  match alive with
  | None => Done (JsonError 400 "authorization request expired")
  | Some _ =>
      found <-- db (fun _ => on_core (account_by_email (parse_uuid crates) (to_lowercase (trim mail)))) ;;
      match found with
      | Ok (Some account) =>
          stored <-- db (fun m => list_passkeys_for_account (representable crates) (unix m) (id account)) ;;
          match stored with
          | Ok ((_ :: _) as creds) =>
              match collect_results (map convert_cred creds) with
              | Err _ => Done (Status 500)
              | Ok credentials =>
                  started <-- ask (fun m => start_authentication (at_entropy m) credentials) ;;
                  match started with
                  | Err _ => no_passkey
                  | Ok (options, auth) =>
                      ceremony_id <-- park (ParkedLogin (mk_login req (id account) auth)) AUTH_REQUEST_TTL ;;
                      Done (Ceremony ceremony_id options)
                  end
              end
          | _ => no_passkey
          end
      | _ => no_passkey
      end
  end.

(** The code for a request, and the redirect that carries it. *)
Definition redirect_with_code (account_id : string) (request : AuthRequest) : prog OidcWorld string :=
  code <-- mint_code (mk_code_grant account_id (rq_client_id request) (rq_redirect_uri request)
                        (rq_code_challenge request) (rq_nonce request) (rq_scopes request)) ;;
  Done (redirect_with (url_encode crates) (rq_redirect_uri request)
          (with_state (rq_state request) [("code", code)])).

(** [login_finish] once the assertion is verified: a code if earlier consent
    covers the request, the consent page otherwise. *)
Definition after_login (req account : string) (request : AuthRequest) : prog OidcWorld Response :=
  match parse_uuid crates account, parse_uuid crates (rq_client_id request) with
  | Some account_id, Some client_id =>
      found <-- db (fun _ => oauth_grant account_id client_id) ;;
      match found with
      | Err _ => Done (Status 500)
      | Ok grant =>
          if match grant with Some g => covers (og_scopes g) (rq_scopes request) | None => false end
          then
            _ <-- retrieve req ;;
            location <-- redirect_with_code account request ;;
            Done (JsonRedirect location)
          else
            authok <-- park (ParkedAccount account) AUTHOK_TTL ;;
            Done (JsonRedirect (redirect_with (url_encode crates) (issuer provider +:+ "/oidc/consent")
                                  [("req", req); ("auth", authok)]))
      end
  | _, _ => Done (Status 500)
  end.

(** [login_finish]; [credential] is the decoded assertion. *)
Definition login_finish (req ceremony : string) (credential : option Assertion) : prog OidcWorld Response :=
  taken <-- retrieve ceremony ;;
  match taken with
  | None => Done (JsonError 400 "login session expired")
  | Some parked =>
      match as_login parked with
      | None => Done (JsonError 400 "corrupt login session")
      | Some ceremony =>
          if negb (String.eqb (lc_req_id ceremony) req) then Done (JsonError 400 "login session mismatch")
          else
            alive <-- peek_at req ;;
            match alive with
            | None => Done (JsonError 400 "authorization request expired")
            | Some p =>
                match as_request p, credential with
                | None, _ => Done (JsonError 400 "corrupt authorization request")
                | Some _, None => Done (JsonError 400 "invalid assertion")
                | Some request, Some response =>
                    found <-- db (fun m => get_passkey_credential (representable crates) (unix m) (raw_id response)) ;;
                    match found with
                    | Ok (Some stored) =>
                        if negb (String.eqb (k_account stored) (lc_account_id ceremony))
                        then Done (JsonError 403 "credential does not belong to this account")
                        else match convert_cred stored with
                        | Err _ => Done (Status 500)
                        | Ok cred =>
                            checked <-- ask (fun m => finish_authentication (unix m) response (lc_auth ceremony) cred) ;;
                            match checked with
                            | Err _ => Done (JsonError 401 "assertion verification failed")
                            | Ok (_, cred) =>
                                _ <-- note_login (lc_account_id ceremony) ;;
                                updated <-- db (fun m => update_passkey_counter (unix m) (raw_id response) (pc_counter cred)) ;;
                                match updated with
                                | Err _ => Done (Status 500)
                                | Ok _ => after_login req (lc_account_id ceremony) request
                                end
                            end
                        end
                    | _ => Done (JsonError 400 "credential not recognized")
                    end
                end
            end
      end
  end.

(** ** [consent.rs] *)

Definition parked_request (req : string) : prog OidcWorld (option AuthRequest) :=
  p <-- peek_at req ;; Done (p ≫= as_request).

(** [consent_page]. *)
Definition consent_page (req auth : string) : prog OidcWorld Response :=
  marker <-- peek_at auth ;;
  match marker with
  | None => Done (TextError 400 "login expired; start over")
  | Some _ =>
      parked <-- parked_request req ;;
      match parked with
      | None => Done (TextError 400 "authorization request expired")
      | Some request =>
          name <-- match parse_uuid crates (rq_client_id request) with
                   | Some i =>
                       found <-- db (fun _ => oauth_client (parse_uuid crates) i) ;;
                       Done (match found with Ok (Some c) => oc_name c | _ => rq_client_id request end)
                   | None => Done (rq_client_id request)
                   end ;;
          Done (ConsentPage (html_escape name) (map (fun s => html_escape (scope_label s)) (rq_scopes request))
                  (html_escape req) (html_escape auth))
      end
  end.

(** [consent_submit]. *)
Definition consent_submit (req auth decision : string) : prog OidcWorld Response :=
  marker <-- retrieve auth ;;
  match marker with
  | None => Done (TextError 400 "login expired; start over")
  | Some marker =>
      parked <-- parked_request req ;;
      match parked with
      | None => Done (TextError 400 "authorization request expired")
      | Some request =>
          _ <-- retrieve req ;;
          if negb (String.eqb decision "approve")
          then Done (SeeOther (error_redirect (url_encode crates) (rq_redirect_uri request) "access_denied"
                                 (rq_state request)))
          else match as_account marker, parse_uuid crates (rq_client_id request) with
          | Some account_id, Some client_id =>
              recorded <-- record_consent account_id client_id (rq_scopes request) ;;
              match recorded with
              | Err _ => Done (Status 500)
              | Ok _ =>
                  location <-- redirect_with_code (as_text marker) request ;;
                  Done (SeeOther location)
              end
          | _, _ => Done (Status 500)
          end
      end
  end.

(** ** [token.rs] *)

(** [parse_basic_auth]; [authorization] is the header's value as text. *)
Definition parse_basic_auth (authorization : option string) : option (string * string) :=
  raw ← authorization; encoded ← strip_prefix "Basic " raw;
  decoded ← basic_decode crates encoded; split_once ":" decoded.

(** [authenticate_client]. *)
Definition authenticate_client (authorization client_id client_secret : option string)
  : prog OidcWorld (result Response OAuthClient) :=
  let refused := Done (Err (OauthError "invalid_client")) in
  match (match parse_basic_auth authorization with
         | Some (i, secret) => Some (i, Some secret)
         | None => match client_id with Some i => Some (i, client_secret) | None => None end
         end) with
  | None => refused
  | Some (raw, secret) =>
      match parse_uuid crates raw with
      | None => refused
      | Some i =>
          found <-- db (fun _ => oauth_client (parse_uuid crates) i) ;;
          match found with
          | Err _ => Done (Err (Status 500))
          | Ok None => refused
          | Ok (Some client) =>
              if oc_disabled client then refused
              else if oc_public client then Done (Ok client)
              else match secret with
                   | None => refused
                   | Some secret =>
                       checked <-- db (fun _ => verify_oauth_client_secret (hash_text crates) i secret) ;;
                       match checked with
                       | Ok true => Done (Ok client)
                       | Ok false => refused
                       | Err _ => Done (Err (Status 500))
                       end
                   end
          end
      end
  end.

(** The claims of the ID token of [issue_tokens]. *)
Definition id_claims (account_id client_id : string) (account : Account) (scopes : list string)
    (nonce : option string) (issued : Z) : IdTokenClaims :=
  mk_claims (issuer provider) account_id client_id (issued + as_i64 (id_ttl provider))%Z issued (Some issued)
    nonce
    (if has_scope SCOPE_EMAIL scopes then Some (email account) else None)
    (if has_scope SCOPE_EMAIL scopes then Some true else None)
    (if has_scope SCOPE_PROFILE scopes then display_name account else None).

(** The refresh token of [issue_tokens]: [None] when none is due. *)
Definition issue_refresh (account_id client_id : string) (scopes : list string) (access_hash : string)
    (rotate_from : option string) : prog OidcWorld (result StorageError (option string)) :=
  if has_scope SCOPE_OFFLINE scopes then
    refresh_expires <-- ask (fun m => unix m + as_i64 (refresh_ttl provider))%Z ;;
    minted <-- db (fun m =>
      match rotate_from with
      | Some old_hash =>
          rotate_refresh_token (parse_uuid crates) (hash_text crates) (unix m) (at_rng m) old_hash
            (Some access_hash) refresh_expires
      | None =>
          create_refresh_token (hash_text crates) (at_uuid m) (unix m) (at_rng m) account_id client_id
            scopes None (Some access_hash) refresh_expires
      end) ;;
    Done (t <-? minted ;; Ok (Some t))
  else match rotate_from with
  | Some old_hash => _ <-- db (fun _ => revoke_token_by_hash old_hash) ;; Done (Ok None)
  | None => Done (Ok None)
  end.

(** [issue_tokens]. *)
Definition issue_tokens (account_id client_id : string) (scopes : list string) (nonce : option string)
    (rotate_from : option string) : prog OidcWorld Response :=
  found <-- db (fun _ => on_core (account (parse_uuid crates) account_id)) ;;
  match found with
  | Err _ => Done (Status 500)
  | Ok None => Done (OauthError "invalid_grant")
  | Ok (Some account) =>
      access_expires <-- ask (fun m => unix m + as_i64 (access_ttl provider))%Z ;;
      access <-- db (fun m => create_scoped_token (hash_text crates) (unix m) (at_rng m) account_id
                                "oidc access" scopes access_expires client_id) ;;
      match access with
      | Err _ => Done (Status 500)
      | Ok (token, access_hash) =>
          id_token <-- (if has_scope SCOPE_OPENID scopes then
                          issued <-- ask unix ;;
                          Done (Some (sign crates (id_claims account_id client_id account scopes nonce issued)))
                        else Done None) ;;
          match id_token with
          | Some None => Done (Status 500)
          | _ =>
              refresh <-- issue_refresh account_id client_id scopes access_hash rotate_from ;;
              match refresh with
              | Err _ => Done (Status 500)
              | Ok refresh =>
                  Done (TokensIssued (mk_token_response token (as_i64 (access_ttl provider)) (join " " scopes)
                                        (id_token ≫= fun t => t) refresh))
              end
          end
      end
  end.

(** [code_grant]. *)
Definition code_grant (client : OAuthClient) (form : TokenForm) : prog OidcWorld Response :=
  match tf_code form, tf_code_verifier form with
  | Some code, Some verifier =>
      taken <-- take_code code ;;
      match taken with
      | None => Done (OauthError "invalid_grant")
      | Some grant =>
          if negb (String.eqb (cg_client_id grant) (oc_id client)) then Done (OauthError "invalid_grant")
          else if negb (opt_eqb (tf_redirect_uri form) (Some (cg_redirect_uri grant)))
          then Done (OauthError "invalid_grant")
          else if negb (String.eqb (s256 crates verifier) (cg_code_challenge grant))
          then Done (OauthError "invalid_grant")
          else match parse_uuid crates (cg_account_id grant) with
               | None => Done (Status 500)
               | Some account_id =>
                   issue_tokens account_id (oc_id client) (cg_scopes grant) (cg_nonce grant) None
               end
      end
  | _, _ => Done (OauthError "invalid_request")
  end.

(** [refresh_grant]. *)
Definition refresh_grant (client : OAuthClient) (form : TokenForm) : prog OidcWorld Response :=
  match tf_refresh_token form with
  | None => Done (OauthError "invalid_request")
  | Some token =>
      found <-- db (fun _ => refresh_token_by_plaintext (parse_uuid crates) (hash_text crates) token) ;;
      match found with
      | Err _ => Done (Status 500)
      | Ok None => Done (OauthError "invalid_grant")
      | Ok (Some row) =>
          if negb (String.eqb (rt_client_id row) (oc_id client)) then Done (OauthError "invalid_grant")
          else match rt_used_at row with
          | Some _ =>
              _ <-- db (fun m => revoke_refresh_family (unix m) (rt_family_id row)) ;;
              Done (OauthError "invalid_grant")
          | None =>
              now <-- ask unix ;;
              if match rt_revoked_at row with Some _ => true | None => (rt_expires_at row <=? now)%Z end
              then Done (OauthError "invalid_grant")
              else
                let requested := match tf_scope form with
                                 | Some s => split_whitespace s
                                 | None => rt_scopes row
                                 end in
                if negb (covers (rt_scopes row) requested) then Done (OauthError "invalid_scope")
                else issue_tokens (rt_account_id row) (oc_id client) requested None (Some (rt_token_hash row))
          end
      end
  end.

(** [token]. *)
Definition token (authorization : option string) (form : TokenForm) : prog OidcWorld Response :=
  auth <-- authenticate_client authorization (tf_client_id form) (tf_client_secret form) ;;
  match auth with
  | Err response => Done response
  | Ok client =>
      if opt_eqb (tf_grant_type form) (Some "authorization_code") then code_grant client form
      else if opt_eqb (tf_grant_type form) (Some "refresh_token") then refresh_grant client form
      else Done (OauthError "unsupported_grant_type")
  end.

(** [revoke]. *)
Definition revoke (authorization client_id client_secret token : option string) : prog OidcWorld Response :=
  auth <-- authenticate_client authorization client_id client_secret ;;
  match auth with
  | Err response => Done response
  | Ok client =>
      match token with
      | None => Done (Status 200)
      | Some token =>
          if starts_with "mrt_" token then
            found <-- db (fun _ => refresh_token_by_plaintext (parse_uuid crates) (hash_text crates) token) ;;
            match found with
            | Ok (Some row) =>
                if String.eqb (rt_client_id row) (oc_id client)
                then _ <-- db (fun m => revoke_refresh_family (unix m) (rt_family_id row)) ;; Done (Status 200)
                else Done (Status 200)
            | _ => Done (Status 200)
            end
          else if starts_with "msk_" token then
            _ <-- db (fun _ => revoke_token_by_hash (hash_text crates token)) ;; Done (Status 200)
          else Done (Status 200)
      end
  end.

(** [userinfo]. *)
Definition bearer (authorization : option string) : option string :=
  authorization ≫= strip_prefix "Bearer ".

Definition userinfo (authorization : option string) : prog OidcWorld Response :=
  match bearer authorization with
  | None => Done Challenge401
  | Some token =>
      found <-- db (fun m => account_and_access_by_token (parse_uuid crates) (hash_text crates) (unix m) token) ;;
      match found with
      | Err _ => Done (Status 500)
      | Ok None => Done Challenge401
      | Ok (Some (account, access)) =>
          if negb (allows access SCOPE_OPENID) then Done InsufficientScope
          else Done (UserInfo (id account)
                       (if allows access SCOPE_EMAIL then Some (email account) else None)
                       (if allows access SCOPE_PROFILE then display_name account else None))
      end
  end.

(** ** [enroll.rs], with [authenticate] of [lib.rs] *)

Definition authenticate (authorization : option string) : prog OidcWorld (result Response Account) :=
  match bearer authorization with
  | None => Done (Err Challenge401)
  | Some token =>
      found <-- db (fun m => account_by_token (parse_uuid crates) (hash_text crates) (unix m) token) ;;
      Done (match found with
            | Ok (Some account) => Ok account
            | Ok None => Err Challenge401
            | Err _ => Err (Status 500)
            end)
  end.

Definition enroll_start (authorization : option string) : prog OidcWorld Response :=
  auth <-- authenticate authorization ;;
  match auth with
  | Err response => Done response
  | Ok account =>
      existing <-- db (fun m => list_passkeys_for_account (representable crates) (unix m) (id account)) ;;
      match existing with
      | Err _ => Done (Status 500)
      | Ok creds =>
          let exclude := match creds with [] => None | _ => Some (map k_id creds) end in
          started <-- ask (fun m => start_registration (at_entropy m) (email account)
                                      (default (email account) (display_name account)) exclude) ;;
          match started with
          | Err _ => Done (Status 500)
          | Ok (options, reg) =>
              session_id <-- park (ParkedEnroll (mk_enroll (id account) reg)) (300 * ns_per_s) ;;
              Done (Ceremony session_id options)
          end
      end
  end.

Definition enroll_finish (authorization : option string) (session_id : string) (device_name : option string)
    (credential : option Attestation) : prog OidcWorld Response :=
  auth <-- authenticate authorization ;;
  match auth with
  | Err response => Done response
  | Ok account =>
      taken <-- retrieve session_id ;;
      match taken with
      | None => Done (JsonError 400 "unknown or expired session")
      | Some parked =>
          match as_enroll parked with
          | None => Done (JsonError 400 "corrupt session state")
          | Some stored =>
              if negb (String.eqb (en_account_id stored) (id account))
              then Done (JsonError 403 "session belongs to another account")
              else match credential with
              | None => Done (JsonError 400 "invalid credential")
              | Some response =>
                  let device := match device_name with
                                | Some n => if String.eqb (trim n) "" then "Passkey" else n
                                | None => "Passkey"
                                end in
                  made <-- ask (fun m => finish_registration (unix m) (id account) device response (en_reg stored)) ;;
                  match made with
                  | Err _ => Done (JsonError 400 "registration verification failed")
                  | Ok cred =>
                      match passkey_bytes cred with
                      | Err _ => Done (Status 500)
                      | Ok bytes =>
                          saved <-- db (fun _ => save_passkey_credential
                            (mk_passkey (pc_id cred) (id account) (pc_device_name cred) bytes (pc_counter cred)
                               (pc_backup_eligible cred) (pc_backup_state cred) None
                               (pc_created_at cred) (pc_last_used_at cred) (pc_disabled cred))) ;;
                          match saved with
                          | Err _ => Done (Status 500)
                          | Ok _ => Done (Enrolled (pc_device_name cred))
                          end
                      end
                  end
              end
          end
      end
  end.

(** ** All requests *)

Inductive Request :=
  | ReqAuthorize (p : AuthorizeParams)
  | ReqLoginStart (req mail : string)
  | ReqLoginFinish (req ceremony : string) (credential : option Assertion)
  | ReqConsentPage (req auth : string)
  | ReqConsentSubmit (req auth decision : string)
  | ReqToken (authorization : option string) (form : TokenForm)
  | ReqRevoke (authorization client_id client_secret token : option string)
  | ReqUserInfo (authorization : option string)
  | ReqEnrollStart (authorization : option string)
  | ReqEnrollFinish (authorization : option string) (session_id : string) (device_name : option string)
      (credential : option Attestation).

(** [routes]. *)
Definition route (r : Request) : prog OidcWorld Response :=
  match r with
  | ReqAuthorize p => authorize p
  | ReqLoginStart req mail => login_start req mail
  | ReqLoginFinish req ceremony credential => login_finish req ceremony credential
  | ReqConsentPage req auth => consent_page req auth
  | ReqConsentSubmit req auth decision => consent_submit req auth decision
  | ReqToken authorization form => token authorization form
  | ReqRevoke authorization client_id client_secret t => revoke authorization client_id client_secret t
  | ReqUserInfo authorization => userinfo authorization
  | ReqEnrollStart authorization => enroll_start authorization
  | ReqEnrollFinish authorization session_id device_name credential =>
      enroll_finish authorization session_id device_name credential
  end.
End Endpoints.
