(* ===== verification/OidcFacts.v ===== *)
(** The provider's promises under any interleaving of requests: tokens carry
    only scopes their account consented to after a passkey login, and redirects
    go only to registered addresses. *)
From S2P Require Import Prelude Text Bytes Ident Store StoreFacts Tokens TokensFacts Challenges Interleave Oidc.

Open Scope string_scope.

(** ** What the operations do to the tables *)

Lemma insert_password_cases row d r d' :
  insert_password row d = (r, d') ->
  (exists e, r = Err e /\ d' = d) \/ (r = Ok tt /\ d' = on_passwords (fun l => (l ++ [row])%list) d).
Proof.
  unfold insert_password, bind, require_auth, modify.
  destruct (known_account _ d); [|intros [= <- <-]; left; eauto].
  destruct (match p_client row with None => true | Some c => known_client c d end);
    [|intros [= <- <-]; left; eauto].
  destruct (negb _); intros [= <- <-]; [right|left]; eauto.
Qed.

Lemma merge_scopes_elem existing scopes s :
  s ∈ merge_scopes existing scopes -> s ∈ existing \/ s ∈ scopes.
Proof.
  unfold merge_scopes. rewrite order_by_elem. revert existing.
  induction scopes as [|x scopes IH]; intros existing; cbn [fold_left]; [by left|].
  intros H%IH. destruct H as [H|H]; [|by right; right].
  destruct (existsb _ _); [by left|]. apply elem_of_app in H as [H|H%list_elem_of_singleton]; [by left|].
  subst. right. by left.
Qed.

Lemma has_scope_elem s l : has_scope s l = true <-> s ∈ l.
Proof.
  unfold has_scope. rewrite existsb_elem. split.
  - intros (x & Hx & E%String.eqb_eq). by subst.
  - intros Hs. exists s. by rewrite String.eqb_refl.
Qed.

Lemma covers_elem granted l : covers granted l = true <-> forall s, s ∈ l -> s ∈ granted.
Proof.
  unfold covers. rewrite forallb_forall. setoid_rewrite has_scope_elem.
  split; intros H s Hs; apply H; by apply list_elem_of_In.
Qed.

Lemma supported_words l : covers SUPPORTED_SCOPES l = true -> forallb word l = true.
Proof.
  rewrite covers_elem. intros H. apply forallb_forall. intros s Hs%list_elem_of_In%H.
  assert (forallb word SUPPORTED_SCOPES = true) as Hw by done.
  rewrite forallb_forall in Hw. apply Hw. by apply list_elem_of_In.
Qed.

Section Promises.
Context `{WebAuthn}.
Variable crates : Crates.
Variable provider : Provider.
Variable moment : nat -> Moment.

Abbreviation World := OidcWorld.
Abbreviation Approved a c s w := ((a, c, s) ∈ approvals w).

(** ** The invariant *)

Definition registered (d : AuthDb) (c uri : string) : Prop :=
  exists r, r ∈ clients d /\ c_id r = c /\ uri ∈ c_redirect_uris r.

(** An account with a passkey, enabled or not. *)
Definition enrolled (d : AuthDb) (a : string) : Prop := exists k, k ∈ passkeys d /\ k_account k = a.

(** The scopes an account, named by the text of its id, granted a client. *)
Definition vouched (w : World) (account client : string) (scopes : list string) : Prop :=
  forall s, s ∈ scopes -> exists a c, parse_uuid crates account = Some a
    /\ parse_uuid crates client = Some c /\ Approved a c s w.

Definition request_ok (w : World) (r : AuthRequest) : Prop :=
  registered (odb w) (rq_client_id r) (rq_redirect_uri r)
  /\ covers SUPPORTED_SCOPES (rq_scopes r) = true.

Definition code_ok (w : World) (g : CodeGrant) : Prop :=
  registered (odb w) (cg_client_id g) (cg_redirect_uri g)
  /\ covers SUPPORTED_SCOPES (cg_scopes g) = true
  /\ vouched w (cg_account_id g) (cg_client_id g) (cg_scopes g).

Definition parked_ok (w : World) (p : Parked) : Prop :=
  match p with
  | ParkedRequest r => request_ok w r
  | ParkedCode g => code_ok w g
  | ParkedAccount a => a ∈ logins w
  | _ => True
  end.

Record oidc_ok (w : World) : Prop := {
  ok_parked : forall key e, challenges w !! key = Some e -> parked_ok w (data e);
  ok_approvals : forall a c s, Approved a c s w ->
    s ∈ SUPPORTED_SCOPES /\ exists x, x ∈ logins w /\ parse_uuid crates x = Some a;
  ok_logins : forall x, x ∈ logins w -> enrolled (odb w) x;
  ok_grants : forall g, g ∈ grants (odb w) -> forall s, s ∈ split_scopes (g_scopes g) ->
    Approved (g_account g) (g_client g) s w;
  ok_passwords : forall p, p ∈ passwords (odb w) ->
    match p_scopes p with
    | None => p_client p = None
    | Some text => exists c, p_client p = Some c
                     /\ forall s, s ∈ split_scopes text -> Approved (p_account p) c s w
    end;
  ok_refresh : forall r, r ∈ refresh_tokens (odb w) -> forall s, s ∈ split_scopes (r_scopes r) ->
    Approved (r_account r) (r_client r) s w;
  ok_ids : ids_canonical (parse_uuid crates) (refresh_tokens (odb w))
}.

(** What never goes away. *)
Record evolves (w w' : World) : Prop := {
  ev_approvals : approvals w ⊆ approvals w';
  ev_logins : logins w ⊆ logins w';
  ev_registered : forall c uri, registered (odb w) c uri -> registered (odb w') c uri;
  ev_enrolled : forall a, enrolled (odb w) a -> enrolled (odb w') a
}.

#[export] Instance evolves_pre : PreOrder evolves.
Proof.
  split.
  - intros w. split; [done|done|auto|auto].
  - intros w1 w2 w3 [] []. split; [by etransitivity|by etransitivity|auto|auto].
Qed.

Lemma vouched_evolves w w' a c scopes : evolves w w' -> vouched w a c scopes -> vouched w' a c scopes.
Proof. intros E Hv s Hs. destruct (Hv s Hs) as (x & y & ? & ? & ?%(ev_approvals _ _ E)). eauto. Qed.

Lemma request_ok_evolves w w' r : evolves w w' -> request_ok w r -> request_ok w' r.
Proof. intros E []. split; [by apply (ev_registered _ _ E)|done]. Qed.

Lemma code_ok_evolves w w' g : evolves w w' -> code_ok w g -> code_ok w' g.
Proof.
  intros E (? & ? & ?). split; [by apply (ev_registered _ _ E)|]. split; [done|].
  by apply (vouched_evolves w).
Qed.

Lemma parked_ok_evolves w w' p : evolves w w' -> parked_ok w p -> parked_ok w' p.
Proof.
  intros E. destruct p; cbn; [by apply request_ok_evolves|by apply code_ok_evolves|done|done|].
  apply (ev_logins _ _ E).
Qed.

(** ** Single operations *)

(** The state after a storage operation and after one of the challenge store. *)
Definition with_db (d : AuthDb) (w : World) : World :=
  mk_oidc_world d (challenges w) (approvals w) (logins w) (S (ticks w)).
Definition with_store (c : gmap string (Entry Parked)) (w : World) : World :=
  mk_oidc_world (odb w) c (approvals w) (logins w) (S (ticks w)).

(** Changes of the tables that give no new right. *)
Record harmless (d d' : AuthDb) : Prop := {
  h_clients : forall c uri, registered d c uri -> registered d' c uri;
  h_grants : forall g, g ∈ grants d' -> exists g0, g0 ∈ grants d /\ g_account g = g_account g0
               /\ g_client g = g_client g0 /\ g_scopes g = g_scopes g0;
  h_passwords : forall p, p ∈ passwords d' -> (p_scopes p = None /\ p_client p = None)
                  \/ exists p0, p0 ∈ passwords d /\ p_account p = p_account p0
                       /\ p_scopes p = p_scopes p0 /\ p_client p = p_client p0;
  h_refresh : forall r, r ∈ refresh_tokens d' -> exists r0, r0 ∈ refresh_tokens d
                /\ r_account r = r_account r0 /\ r_client r = r_client r0
                /\ split_scopes (r_scopes r) = split_scopes (r_scopes r0);
  h_passkeys : forall k, k ∈ passkeys d -> exists k', k' ∈ passkeys d' /\ k_account k' = k_account k
}.

#[export] Instance harmless_refl : Reflexive harmless.
Proof. intros d. split; naive_solver. Qed.

Lemma ok_after w w' :
  oidc_ok w -> evolves w w' ->
  (forall key e, challenges w' !! key = Some e -> parked_ok w' (data e)) ->
  approvals w' = approvals w -> logins w' = logins w -> harmless (odb w) (odb w') -> oidc_ok w'.
Proof.
  intros Hok Hev Hp Ha Hl Hh. split; [done|..].
  - rewrite Ha, Hl. apply Hok.
  - rewrite Hl. intros x (k & Hk & <-)%(ok_logins _ Hok).
    destruct (h_passkeys _ _ Hh k Hk) as (k' & ? & ?). by exists k'.
  - intros g (g0 & Hg0 & -> & -> & ->)%(h_grants _ _ Hh). rewrite Ha. by apply Hok.
  - intros p [[-> ->]|(p0 & Hp0 & -> & -> & ->)]%(h_passwords _ _ Hh); [done|].
    rewrite Ha. by apply (ok_passwords _ Hok).
  - intros r (r0 & Hr0 & -> & -> & ->)%(h_refresh _ _ Hh). rewrite Ha. by apply (ok_refresh _ Hok).
  - intros r (r0 & Hr0 & -> & -> & _)%(h_refresh _ _ Hh). by apply (ok_ids _ Hok).
Qed.

Lemma db_harmless w d' :
  oidc_ok w -> harmless (odb w) d' -> oidc_ok (with_db d' w) /\ evolves w (with_db d' w).
Proof.
  intros Hok Hh.
  assert (evolves w (with_db d' w)) as Hev.
  { split; [done|done|apply (h_clients _ _ Hh)|].
    intros a (k & Hk & <-). destruct (h_passkeys _ _ Hh k Hk) as (k' & ? & ?). by exists k'. }
  split; [|done]. apply (ok_after w); try done.
  intros key e He. apply (parked_ok_evolves w); [done|]. by apply (ok_parked _ Hok key).
Qed.

Lemma store_ok w c' :
  oidc_ok w ->
  (forall key e, c' !! key = Some e -> challenges w !! key = Some e \/ parked_ok w (data e)) ->
  oidc_ok (with_store c' w) /\ evolves w (with_store c' w).
Proof.
  intros Hok Hc.
  assert (evolves w (with_store c' w)) as Hev by by split.
  split; [|done]. apply (ok_after w); try done.
  intros key e [He|He]%Hc; apply (parked_ok_evolves w); try done. by apply (ok_parked _ Hok key).
Qed.

Lemma tick_ok w : oidc_ok w -> oidc_ok (with_db (odb w) w) /\ evolves w (with_db (odb w) w).
Proof. intros Hok. by apply db_harmless. Qed.

(** ** Harmless operations *)

Lemma update_where_elem {R} test (f : R -> R) rows x :
  x ∈ update_where test f rows <-> exists r, r ∈ rows /\ x = if test r then f r else r.
Proof. apply elem_of_map. Qed.

Lemma harmless_trans d1 d2 d3 : harmless d1 d2 -> harmless d2 d3 -> harmless d1 d3.
Proof.
  intros A B. split.
  - intros c uri Hr. by apply (h_clients _ _ B), (h_clients _ _ A).
  - intros g (g1 & (g0 & ? & -> & -> & ->)%(h_grants _ _ A) & -> & -> & ->)%(h_grants _ _ B). eauto.
  - intros p [?|(p1 & [[? ?]|(p0 & ? & ? & ? & ?)]%(h_passwords _ _ A) & ? & ? & ?)]%(h_passwords _ _ B).
    + by left.
    + left. split; congruence.
    + right. exists p0. repeat split; congruence.
  - intros r (r1 & (r0 & ? & -> & -> & ->)%(h_refresh _ _ A) & -> & -> & ->)%(h_refresh _ _ B). eauto.
  - intros k (k1 & (k2 & ? & ?)%(h_passkeys _ _ B) & ?)%(h_passkeys _ _ A). exists k2. split; congruence.
Qed.

(** A storage operation none of whose outcomes gives a new right. *)
Definition quiet {A} (m : AM A) : Prop := forall d, harmless d (snd (m d)).

Lemma quiet_bind {A B} (m : AM A) (k : A -> AM B) : quiet m -> (forall a, quiet (k a)) -> quiet (bind m k).
Proof.
  intros Hm Hk d. unfold bind. specialize (Hm d). destruct (m d) as [[a|e] d1]; cbn in *; [|done].
  eapply harmless_trans; [exact Hm|apply Hk].
Qed.

Lemma quiet_pure {A} (m : AM A) : (forall d, snd (m d) = d) -> quiet m.
Proof. intros Hm d. by rewrite Hm. Qed.

Lemma quiet_transaction {A} (m : AM A) : quiet m -> quiet (transaction m).
Proof.
  intros Hm d. unfold transaction. specialize (Hm d). by destruct (m d) as [[a|e] d1].
Qed.

Lemma quiet_ret {A} (a : A) : quiet (ret a).
Proof. intros d. reflexivity. Qed.
Lemma quiet_fail {A} e : quiet (fail e : AM A).
Proof. intros d. reflexivity. Qed.
Lemma quiet_gets {A} (f : AuthDb -> A) : quiet (gets f).
Proof. intros d. reflexivity. Qed.
Lemma quiet_lift {A} (r : result StorageError A) : quiet (lift r).
Proof. intros d. reflexivity. Qed.
Lemma quiet_require test what : quiet (require_auth test what).
Proof. apply quiet_pure. intros d. unfold require_auth. by destruct (test d). Qed.
Lemma quiet_core {A} (m : SM A) : quiet (on_core m).
Proof. intros d. unfold on_core. destruct (m (core d)). split; cbn; naive_solver. Qed.

Create HintDb quiet.
#[local] Hint Resolve quiet_ret quiet_fail quiet_gets quiet_lift
  quiet_require quiet_core : quiet.
Ltac quiet := repeat first
  [ progress intros | solve [auto 2 with quiet]
  | match goal with |- quiet (match ?x with _ => _ end) => destruct x end
  | apply quiet_transaction | apply quiet_bind ].

Lemma quiet_passwords_sub f : (forall d p, p ∈ f d (passwords d) -> p ∈ passwords d) ->
  quiet (modify (fun d => on_passwords (f d) d)).
Proof. intros Hf d. split; cbn; naive_solver. Qed.

Lemma quiet_delete_passwords test : quiet (delete_passwords test).
Proof. apply (quiet_passwords_sub (fun d => _)). by intros d p [? _]%elem_of_filter_bool. Qed.

Lemma quiet_revoke_token hash : quiet (revoke_token_by_hash hash).
Proof. apply (quiet_passwords_sub (fun _ => _)). by intros d p [? _]%elem_of_filter_bool. Qed.

Lemma quiet_refresh_marks test f :
  (forall r, same_token r (f r)) -> quiet (modify (on_refresh (update_where test f))).
Proof.
  intros Hf d. split; cbn; try naive_solver.
  intros r (r0 & Hr0 & ->)%update_where_elem. exists r0. split; [done|].
  destruct (test r0); [|done]. by destruct (Hf r0) as (_ & _ & -> & -> & -> & _).
Qed.

Lemma quiet_revoke_rows now test : quiet (revoke_rows now test).
Proof. apply quiet_refresh_marks. apply mark_revoked_same. Qed.

Lemma quiet_touch now hash : quiet (touch_password now hash).
Proof.
  intros d. split; cbn; try naive_solver. intros p (p0 & Hp0 & ->)%update_where_elem. right. exists p0.
  by destruct (String.eqb _ _).
Qed.

Lemma quiet_update_passkey test f :
  (forall k, k_account (f k) = k_account k) -> quiet (modify (on_passkeys (update_where test f))).
Proof.
  intros Hf d. split; cbn; try naive_solver. intros k Hk. eexists.
  split; [apply update_where_elem; eauto|]. by destruct (test k).
Qed.

Lemma quiet_save_passkey k : quiet (save_passkey_credential k).
Proof.
  intros d. unfold save_passkey_credential. destruct (negb _); [done|]. destruct (existsb _ _); [done|].
  split; cbn; try naive_solver. intros x Hx. exists x. rewrite elem_of_app. auto.
Qed.

Lemma quiet_insert_client row : quiet (insert_client row).
Proof.
  apply quiet_bind; [apply quiet_require|]. intros _ d. split; cbn; try naive_solver.
  intros c uri (r & Hr & Hc & Hu). exists r. split; [|done]. cbn. apply elem_of_app. by left.
Qed.

Lemma quiet_disable_row i : quiet (modify (on_clients (update_where (fun r => String.eqb (c_id r) i)
  (fun r => mk_client (c_id r) (c_name r) (c_redirect_uris r) (c_secret_hash r) true (c_created_at r))))).
Proof.
  intros d. split; cbn; try naive_solver. intros c uri (r & Hr & <- & Hu). eexists.
  split; [apply update_where_elem; eauto|]. by destruct (String.eqb _ _).
Qed.

Lemma quiet_delete_grants test : quiet (modify (on_grants (List.filter test))).
Proof. intros d. split; cbn; try naive_solver. intros g [? _]%elem_of_filter_bool. naive_solver. Qed.

Lemma quiet_insert_plain hash account name now :
  quiet (insert_password (mk_password hash account name now None None None None)).
Proof.
  intros d. destruct (insert_password _ d) as [r d'] eqn:E.
  apply insert_password_cases in E as [(e & -> & ->)|(-> & ->)]; cbn; [done|].
  split; cbn; try naive_solver. intros p [Hp| ->%list_elem_of_singleton]%elem_of_app; naive_solver.
Qed.
#[local] Hint Resolve quiet_delete_passwords quiet_revoke_token quiet_revoke_rows quiet_touch
  quiet_save_passkey quiet_insert_client quiet_disable_row quiet_delete_grants quiet_insert_plain : quiet.

Lemma quiet_revoke_family now f : quiet (revoke_refresh_family now f).
Proof. unfold revoke_refresh_family. quiet. Qed.
Lemma quiet_disable_client now i : quiet (disable_oauth_client now i).
Proof. unfold disable_oauth_client. quiet. Qed.
Lemma quiet_revoke_grant now a c : quiet (revoke_oauth_grant now a c).
Proof. unfold revoke_oauth_grant. quiet. Qed.
Lemma quiet_create_token hash now rng a n : quiet (create_token hash now rng a n).
Proof. unfold create_token. quiet. Qed.
Lemma quiet_create_client parse hash fresh now rng name uris public :
  quiet (create_oauth_client parse hash fresh now rng name uris public).
Proof. unfold create_oauth_client. quiet. Qed.
Lemma quiet_update_counter now i c : quiet (update_passkey_counter now i c).
Proof. by apply quiet_update_passkey. Qed.
Lemma quiet_disable_passkey i : quiet (disable_passkey i).
Proof. by apply quiet_update_passkey. Qed.
Lemma quiet_account_by_token parse hash now t : quiet (account_by_token parse hash now t).
Proof. unfold account_by_token. quiet. by apply quiet_pure. Qed.
Lemma quiet_access_by_token parse hash now t : quiet (account_and_access_by_token parse hash now t).
Proof. unfold account_and_access_by_token. quiet. Qed.

(** ** Operations that give a right *)

Lemma scoped_token_ok w now rng account name scopes expires client r d' :
  oidc_ok w -> forallb word scopes = true ->
  (forall s, s ∈ scopes -> Approved account client s w) ->
  create_scoped_token (hash_text crates) now rng account name scopes expires client (odb w) = (r, d') ->
  oidc_ok (with_db d' w) /\ evolves w (with_db d' w).
Proof.
  intros Hok Hw Happ. unfold create_scoped_token, bind at 1, lift.
  destruct (new_secret _ _ _) as [s|]; [|intros [= <- <-]; by apply tick_ok].
  unfold bind. destruct (insert_password _ _) as [ri di] eqn:E.
  apply insert_password_cases in E as [(e & -> & ->)|(-> & ->)]; intros [= <- <-]; [by apply tick_ok|].
  split; [|by split]. destruct Hok. split; try done.
  cbn. intros p [Hp| ->%list_elem_of_singleton]%elem_of_app; [by apply ok_passwords0|].
  cbn. exists client. split; [done|]. by rewrite split_scopes_join.
Qed.

Lemma refresh_row_ok w row :
  oidc_ok w -> (forall s, s ∈ split_scopes (r_scopes row) -> Approved (r_account row) (r_client row) s w) ->
  parse_uuid crates (r_account row) = Some (r_account row) ->
  parse_uuid crates (r_client row) = Some (r_client row) ->
  let w' := with_db (on_refresh (fun l => (l ++ [row])%list) (odb w)) w in oidc_ok w' /\ evolves w w'.
Proof.
  intros Hok Happ Ha Hc w'. split; [|by split]. destruct Hok. split; try done; cbn.
  - intros r [Hr| ->%list_elem_of_singleton]%elem_of_app; [by apply ok_refresh0|done].
  - by apply ids_canonical_snoc.
Qed.

Lemma refresh_minted_ok w fresh now rng account client scopes access expires r d' :
  oidc_ok w -> forallb word scopes = true ->
  (forall s, s ∈ scopes -> Approved account client s w) ->
  parse_uuid crates account = Some account -> parse_uuid crates client = Some client ->
  create_refresh_token (hash_text crates) fresh now rng account client scopes None access expires (odb w) = (r, d') ->
  oidc_ok (with_db d' w) /\ evolves w (with_db d' w).
Proof.
  intros Hok Hw Happ Ha Hc. unfold create_refresh_token, bind at 1, lift.
  destruct (new_secret _ _ _) as [s|]; [|intros [= <- <-]; by apply tick_ok].
  unfold bind. destruct (insert_refresh _ _) as [ri di] eqn:E.
  apply insert_refresh_cases in E as [(e & -> & ->)|(-> & -> & _)]; intros [= <- <-]; [by apply tick_ok|].
  apply refresh_row_ok; cbn [r_scopes r_account r_client]; try done. by rewrite split_scopes_join.
Qed.

Lemma rotated_ok w now rng old access expires r d' :
  oidc_ok w ->
  rotate_refresh_token (parse_uuid crates) (hash_text crates) now rng old access expires (odb w) = (r, d') ->
  oidc_ok (with_db d' w) /\ evolves w (with_db d' w).
Proof.
  intros Hok E. apply rotate_cases in E; [|apply Hok].
  destruct E as [(e & _ & ->)|(row & t & _ & Hrow & _ & _ & _ & _ & ->)]; [by apply tick_ok|].
  apply db_harmless; [done|]. split; cbn; try naive_solver.
  intros x [(y & Hy & ->)%update_where_elem| ->%list_elem_of_singleton]%elem_of_app.
  - exists y. by destruct (String.eqb _ _).
  - exists row. cbn [r_account r_client r_scopes]. by rewrite rejoin_scopes.
Qed.

Lemma upsert_grant_cases fresh now account client scopes d r d' :
  upsert_oauth_grant fresh now account client scopes d = (r, d') ->
  (exists e, r = Err e /\ d' = d)
  \/ (r = Ok tt /\ clients d' = clients d /\ passwords d' = passwords d
      /\ refresh_tokens d' = refresh_tokens d /\ passkeys d' = passkeys d
      /\ exists existing, (existing = [] \/ exists g, g ∈ grants d /\ g_account g = account /\ g_client g = client
                                             /\ existing = split_scopes (g_scopes g))
         /\ forall g, g ∈ grants d' -> g ∈ grants d
              \/ (g_account g = account /\ g_client g = client
                  /\ g_scopes g = join " " (merge_scopes existing scopes))).
Proof.
  unfold upsert_oauth_grant, transaction. unfold bind at 1, gets.
  destruct (select_first _ _) as [g|] eqn:Eg.
  - apply find_Some_elem in Eg as [Hg [Ha%String.eqb_eq Hc%String.eqb_eq]%andb_true_iff].
    unfold modify. intros [= <- <-]. right. repeat (split; [done|]).
    exists (split_scopes (g_scopes g)). split; [right; by exists g|].
    cbn. intros x (y & Hy & ->)%update_where_elem.
    destruct (grant_key account client y) eqn:Ek; [|by left]. right.
    apply andb_true_iff in Ek as [?%String.eqb_eq ?%String.eqb_eq]. done.
  - unfold bind, require_auth, modify.
    destruct (known_account _ d); [|intros [= <- <-]; left; eauto].
    destruct (known_client _ d); [|intros [= <- <-]; left; eauto].
    destruct (negb _); intros [= <- <-]; [right|left; eauto]. repeat (split; [done|]).
    exists []. split; [by left|]. cbn. intros x [Hx| ->%list_elem_of_singleton]%elem_of_app; [by left|by right].
Qed.

Lemma merged_words existing scopes :
  forallb word existing = true -> forallb word scopes = true ->
  forallb word (merge_scopes existing scopes) = true.
Proof.
  rewrite !forallb_forall. setoid_rewrite <- list_elem_of_In. intros He Hs s [?|?]%merge_scopes_elem; auto.
Qed.

(** The state after a consent. *)
Definition consented (d : AuthDb) (a c : string) (scopes : list string) (w : World) : World :=
  mk_oidc_world d (challenges w) (map (pair (a, c)) scopes ++ approvals w)%list (logins w) (S (ticks w)).

Lemma consent_ok w fresh now a c scopes d' :
  oidc_ok w -> covers SUPPORTED_SCOPES scopes = true ->
  (exists x, x ∈ logins w /\ parse_uuid crates x = Some a) ->
  upsert_oauth_grant fresh now a c scopes (odb w) = (Ok tt, d') ->
  oidc_ok (consented d' a c scopes w) /\ evolves w (consented d' a c scopes w)
  /\ forall s, s ∈ scopes -> Approved a c s (consented d' a c scopes w).
Proof.
  intros Hok Hcov Hlog E.
  apply upsert_grant_cases in E as [(e & ? & _)|(_ & Ec & Ep & Er & Ek & existing & Hex & Hg)]; [done|].
  assert (forall s, s ∈ scopes -> Approved a c s (consented d' a c scopes w)) as Hnew.
  { intros s Hs. cbn. apply elem_of_app. left. apply elem_of_map. by exists s. }
  assert (evolves w (consented d' a c scopes w)) as Hev.
  { split; [|done|..].
    - intros x Hx. cbn. apply elem_of_app. by right.
    - intros c0 uri (r & Hr & ?). exists r. cbn. by rewrite Ec.
    - intros x (k & Hk & ?). exists k. cbn. by rewrite Ek. }
  split; [|done]. split; cbn.
  - intros key e He. apply (parked_ok_evolves w); [done|]. by apply (ok_parked _ Hok key).
  - intros a0 c0 s [(x & Hx & [= -> -> ->])%elem_of_map|Hx]%elem_of_app; [|by apply (ok_approvals _ Hok a0 c0)].
    split; [|done]. by eapply covers_elem.
  - intros x Hx. apply (ev_enrolled _ _ Hev). by apply Hok.
  - intros g [Hg0|(-> & -> & Es)]%Hg s Hs.
    + apply (ev_approvals _ _ Hev). by apply (ok_grants _ Hok).
    + assert (forallb word existing = true) as Hw.
      { destruct Hex as [->|(g0 & _ & _ & _ & ->)]; [done|apply split_whitespace_words]. }
      rewrite Es, split_scopes_join in Hs by (by apply merged_words; [|apply supported_words]).
      apply merge_scopes_elem in Hs as [Hs|Hs]; [|by apply Hnew].
      destruct Hex as [->|(g0 & Hg0 & <- & <- & ->)]; [by apply elem_of_nil in Hs|].
      apply (ev_approvals _ _ Hev). by apply (ok_grants _ Hok).
  - intros p Hp. rewrite Ep in Hp. pose proof (ok_passwords _ Hok p Hp) as Hold.
    destruct (p_scopes p); [|done]. destruct Hold as (c0 & ? & Hs). exists c0. split; [done|].
    intros sc Hin. apply (ev_approvals _ _ Hev). by apply Hs.
  - intros r Hr s Hs. rewrite Er in Hr. apply (ev_approvals _ _ Hev). by apply (ok_refresh _ Hok).
  - rewrite Er. apply Hok.
Qed.
End Promises.
