(* ===== verification/OidcSafety.v ===== *)
(** Every endpoint of the provider is safe under interference, hence the
    provider's promises hold in every interleaving of requests. *)
From S2P Require Import Prelude Text Bytes Ident Store StoreFacts Tokens TokensFacts Challenges Interleave Oidc OidcFacts.

Open Scope string_scope.

Section Safety.
Context `{WebAuthn}.
Variable crates : Crates.
Variable provider : Provider.
Variable moment : nat -> Moment.
(** Printing a parsed id gives a text that parses to itself. *)
Hypothesis canonical : forall s u, parse_uuid crates s = Some u -> parse_uuid crates u = Some u.

Abbreviation World := OidcWorld.
Abbreviation ok := (oidc_ok crates).
Abbreviation Safe := (safe ok evolves).

(** What an answer may say: a browser is sent to a registered address of a
    client (or to the consent page), and the scopes of issued tokens were
    granted by one account to one client. *)
Definition to_client (w : World) (location : string) : Prop :=
  exists c base params, registered (odb w) c base /\ location = redirect_with (url_encode crates) base params.

Definition answer_ok (r : Response) (w : World) : Prop :=
  match r with
  | SeeOther location => to_client w location
  | JsonRedirect location =>
      to_client w location
      \/ exists params, location = redirect_with (url_encode crates) (issuer provider +:+ "/oidc/consent") params
  | TokensIssued body =>
      exists a c, forall s, s ∈ split_scopes (scope body) -> (a, c, s) ∈ approvals w
  | _ => True
  end.

Lemma answer_stable : stable evolves answer_ok.
Proof.
  assert (forall w w' l, evolves w w' -> to_client w l -> to_client w' l) as Hc.
  { intros w w' l E (c & b & p & Hr & ->). exists c, b, p. split; [by apply (ev_registered _ _ E)|done]. }
  intros r w w' E. destruct r; cbn; try done; [by apply Hc| |].
  - intros [?|?]; [left; by eapply Hc|by right].
  - intros (a & c & Hs). exists a, c. intros s Hin. apply (ev_approvals _ _ E). by apply Hs.
Qed.

(** ** Rules for the operations *)

Section Rules.
Context {B : Type} (Q : B -> World -> Prop) (w : World).

Lemma safe_quiet {A} (f : Moment -> AM A) (k : result StorageError A -> prog World B) :
  (forall m, quiet (f m)) ->
  (forall w1 w2 r, evolves w w2 -> evolves w1 w2 -> ok w1 -> ok w2 ->
     fst (f (now_moment moment w1) (odb w1)) = r -> Safe Q (k r) w2) ->
  Safe Q (pbind (db moment f) k) w.
Proof.
  intros Hq Hk. apply safe_op. intros w1 Hev Hok r w2 Hm.
  pose proof (Hq (now_moment moment w1) (odb w1)) as Hh.
  destruct (f _ (odb w1)) as [r1 d1] eqn:E. injection Hm as <- <-.
  destruct (db_harmless crates w1 d1 Hok Hh) as [Hok' Hev'].
  split; [exact Hok'|]. split; [exact Hev'|]. apply (Hk w1); try done.
  - by transitivity w1.
  - by rewrite E.
Qed.

Lemma safe_store {A} (f : Moment -> gmap string (Entry Parked) -> A * gmap string (Entry Parked))
    (k : A -> prog World B) :
  (forall w1 r c, evolves w w1 -> ok w1 -> f (now_moment moment w1) (challenges w1) = (r, c) ->
     (forall key e, c !! key = Some e -> challenges w1 !! key = Some e \/ parked_ok crates w1 (data e))
     /\ forall w2, evolves w w2 -> evolves w1 w2 -> ok w2 -> Safe Q (k r) w2) ->
  Safe Q (pbind (store moment f) k) w.
Proof.
  intros Hk. apply safe_op. intros w1 Hev Hok r w2 Hm.
  destruct (f _ (challenges w1)) as [r1 c1] eqn:E. injection Hm as <- <-.
  destruct (Hk w1 r1 c1 Hev Hok E) as [Hc Hs].
  destruct (store_ok crates w1 c1 Hok Hc) as [Hok' Hev'].
  split; [exact Hok'|]. split; [exact Hev'|]. apply Hs; try done. by transitivity w1.
Qed.

Lemma safe_ask {A} (f : Moment -> A) (k : A -> prog World B) :
  (forall m w2, evolves w w2 -> ok w2 -> Safe Q (k (f m)) w2) ->
  Safe Q (pbind (ask moment f) k) w.
Proof.
  intros Hk. apply safe_op. intros w1 Hev Hok a w2 [= <- <-].
  destruct (tick_ok crates w1 Hok) as [Hok' Hev'].
  split; [exact Hok'|]. split; [exact Hev'|]. apply Hk; [|exact Hok'].
  transitivity w1; [done|exact Hev'].
Qed.

Lemma safe_park p ttl (k : string -> prog World B) :
  parked_ok crates w p -> (forall key w2, evolves w w2 -> ok w2 -> Safe Q (k key) w2) ->
  Safe Q (pbind (park moment p ttl) k) w.
Proof.
  intros Hp Hk. apply safe_store. intros w1 r c Hev Hok [= <- <-]. split; [|intros; by apply Hk].
  intros key e [[_ <-]|[_ ?]]%lookup_insert_Some; [right|by left]. by apply (parked_ok_evolves crates w).
Qed.

Lemma safe_peek key (k : option Parked -> prog World B) :
  (forall o w2, evolves w w2 -> ok w2 -> (forall p, o = Some p -> parked_ok crates w2 p) -> Safe Q (k o) w2) ->
  Safe Q (pbind (peek_at moment key) k) w.
Proof.
  intros Hk. apply safe_store. intros w1 r c Hev Hok. unfold peek.
  destruct (challenges w1 !! key) as [e|] eqn:E.
  - destruct (_ <=? _)%Z; intros [= <- <-].
    + split; [by left|]. intros w2 ? He ?. apply Hk; [done..|]. intros p [= <-].
      apply (parked_ok_evolves crates w1); [done|]. by apply (ok_parked _ _ Hok key).
    + split; [|intros; by apply Hk]. intros x y [_ ?]%lookup_delete_Some. by left.
  - intros [= <- <-]. split; [by left|intros; by apply Hk].
Qed.

Lemma safe_retrieve key (k : option Parked -> prog World B) :
  (forall o w2, evolves w w2 -> ok w2 -> (forall p, o = Some p -> parked_ok crates w2 p) -> Safe Q (k o) w2) ->
  Safe Q (pbind (retrieve moment key) k) w.
Proof.
  intros Hk. unfold retrieve. change (Safe Q (pbind (store moment (fun m => retrieve_challenge (at_ns m) key))
    (fun r => k match r with Ok p => Some p | Err _ => None end)) w).
  apply safe_store. intros w1 r c Hev Hok. unfold retrieve_challenge.
  destruct (challenges w1 !! key) as [e|] eqn:E; intros [= <- <-].
  - split; [intros x y [_ ?]%lookup_delete_Some; by left|]. intros w2 ? He ?.
    apply Hk; [done..|]. destruct (_ <? _)%Z; [done|]. intros p [= <-].
    apply (parked_ok_evolves crates w1); [done|]. by apply (ok_parked _ _ Hok key).
  - split; [by left|intros; by apply Hk].
Qed.
End Rules.

Ltac plain := repeat first
  [ progress cbn [pbind safe answer_ok no_passkey] | done
  | match goal with |- safe _ _ _ (match ?x with _ => _ end) _ => destruct x eqn:? end
  | match goal with |- safe _ _ _ (pbind (match ?x with _ => _ end) _) _ => destruct x eqn:? end
  | apply safe_ask; intros ].

(** ** The endpoints *)

Lemma client_found d i c :
  fst (oauth_client (parse_uuid crates) i d) = Ok (Some c) ->
  exists r, r ∈ clients d /\ c_id r = i /\ row_to_client (parse_uuid crates) r = Ok c.
Proof.
  unfold oauth_client. destruct (select_first _ _) as [r|] eqn:E; [|done].
  apply find_Some_elem in E as [Hr Hi%String.eqb_eq]. cbn.
  destruct (row_to_client _ r) eqn:Er; [|done]. intros [= <-]. eauto.
Qed.

Lemma row_to_client_ok r c :
  row_to_client (parse_uuid crates) r = Ok c ->
  parse_uuid crates (c_id r) = Some (oc_id c) /\ oc_redirect_uris c = c_redirect_uris r.
Proof. unfold row_to_client. destruct (parse_uuid crates (c_id r)); [|done]. by intros [= <-]. Qed.

Lemma quiet_oauth_client parse i : quiet (oauth_client parse i).
Proof. by apply quiet_pure. Qed.

Lemma authorize_safe p w : Safe answer_ok (authorize crates moment p) w.
Proof.
  unfold authorize. destruct (ap_client_id p) as [raw|]; [|done].
  destruct (parse_uuid crates raw) as [i|] eqn:Ei; [|done].
  apply safe_quiet; [intros; apply quiet_oauth_client|]. intros w1 w2 r Hw Hw1 _ _ Hr.
  destruct r as [[c|]|]; [|done|done]. destruct (oc_disabled c); [done|].
  destruct (ap_redirect_uri p) as [uri|]; [|done]. destruct (existsb _ _) eqn:Eu; [|done]. cbn [negb].
  apply client_found in Hr as (row & Hrow & Hid & Hc). apply row_to_client_ok in Hc as [_ Hu].
  apply (has_scope_elem uri) in Eu. rewrite Hu in Eu.
  assert (registered (odb w2) i uri) as Hreg by (apply (ev_registered _ _ Hw1); by exists row).
  unfold authorize_checked.
  assert (forall error, answer_ok (SeeOther (error_redirect (url_encode crates) uri error (ap_state p))) w2) as Hse.
  { intros error. exists i, uri. eexists. by split. }
  destruct (negb _); [apply Hse|]. destruct (non_empty _) as [challenge|]; [|apply Hse].
  destruct (negb _); [apply Hse|]. destruct (scopes_ok _) eqn:Es; [|apply Hse]. cbn [negb].
  apply safe_park; [|done]. split; [done|]. unfold scopes_ok in Es. cbn [rq_scopes].
  destruct (requested_scopes p); [done|]. by apply andb_true_iff in Es as [? _].
Qed.

Lemma login_start_safe req mail w : Safe answer_ok (login_start crates moment req mail) w.
Proof.
  unfold login_start. apply safe_peek. intros [q|] w1 _ _ _; [|done].
  apply safe_quiet; [intros; apply quiet_core|]. intros _ w2 r _ _ _ _ _. destruct r as [[a|]|]; [|done|done].
  apply safe_quiet; [intros; apply quiet_gets|]. intros _ w3 r _ _ _ _ _. destruct r as [[|c cs]|]; [done| |done].
  destruct (collect_results _); [|done]. apply safe_ask. intros m w4 _ _.
  destruct (start_authentication _ _) as [[options auth]|]; [|done]. by apply safe_park.
Qed.

(** A code for a request whose scopes the account granted, and its redirect. *)
Lemma redirect_with_code_safe (Q : string -> World -> Prop) account request w :
  request_ok w request -> vouched crates w account (rq_client_id request) (rq_scopes request) ->
  (forall location w', evolves w w' -> to_client w' location -> Q location w') ->
  Safe Q (redirect_with_code crates moment account request) w.
Proof.
  intros Hreq Hv HQ. unfold redirect_with_code, mint_code.
  change (Safe Q (pbind (ask moment (fun m => CODE_PREFIX +:+ to_hex (at_bytes m))) (fun code =>
    pbind (store moment (fun m => store_keyed (at_ns m) code (ParkedCode (mk_code_grant account (rq_client_id request)
      (rq_redirect_uri request) (rq_code_challenge request) (rq_nonce request) (rq_scopes request))) (Some CODE_TTL)))
    (fun _ => Done (redirect_with (url_encode crates) (rq_redirect_uri request)
       (with_state (rq_state request) [("code", code)]))))) w).
  apply safe_ask. intros m w1 Hw1 _. apply safe_store. intros w2 r c Hw2 _ [= <- <-]. split.
  - intros key e [[_ <-]|[_ ?]]%lookup_insert_Some; [right|by left].
    destruct (request_ok_evolves w w2 request ltac:(by transitivity w1) Hreq) as [? ?].
    split; [done|]. split; [done|]. apply (vouched_evolves crates w); [by transitivity w1|done].
  - intros w3 Hw3 _ _. cbn. apply HQ; [by transitivity w1|].
    destruct (request_ok_evolves w w3 request ltac:(by transitivity w1) Hreq) as [? _].
    exists (rq_client_id request), (rq_redirect_uri request). eexists. by split.
Qed.

Lemma after_login_safe req account request w :
  request_ok w request -> account ∈ logins w ->
  Safe answer_ok (after_login crates provider moment req account request) w.
Proof.
  intros Hreq Hlog. unfold after_login.
  destruct (parse_uuid crates account) as [a|] eqn:Ea; [|done].
  destruct (parse_uuid crates (rq_client_id request)) as [c|] eqn:Ec; [|done].
  apply safe_quiet; [intros; apply quiet_gets|]. intros w1 w2 r Hw Hw1 Hok1 _ Hr.
  destruct r as [grant|]; [|done]. destruct (match grant with Some _ => _ | None => _ end) eqn:Eg.
  - destruct grant as [g|]; [|done]. cbn in Hr. injection Hr as Hr.
    destruct (select_first _ _) as [row|] eqn:Es; [|done]. injection Hr as <-. cbn in Eg.
    apply find_Some_elem in Es as [Hrow [Ha%String.eqb_eq Hc%String.eqb_eq]%andb_true_iff].
    assert (vouched crates w2 account (rq_client_id request) (rq_scopes request)) as Hv.
    { intros s Hs. exists a, c. split; [done|]. split; [done|]. apply (ev_approvals _ _ Hw1).
      rewrite <- Ha, <- Hc. apply (ok_grants _ _ Hok1); [done|]. by eapply covers_elem. }
    apply safe_retrieve. intros _ w3 Hw3 _ _. apply safe_pbind. apply redirect_with_code_safe.
    + apply (request_ok_evolves w); [by transitivity w2|done].
    + by apply (vouched_evolves crates w2).
    + intros location w4 _ ?. cbn. by left.
  - apply safe_park; [by apply (ev_logins _ _ Hw)|]. intros key w3 _ _. cbn. right. eauto.
Qed.

(** The state after a verified login. *)
Definition with_login (a : string) (w : World) : World :=
  mk_oidc_world (odb w) (challenges w) (approvals w) (a :: logins w) (ticks w).

Lemma login_noted w a : ok w -> enrolled (odb w) a -> ok (with_login a w) /\ evolves w (with_login a w).
Proof.
  intros Hok Ha.
  assert (evolves w (with_login a w)) as Hev.
  { split; [done| |done|done]. intros x Hx. by right. }
  split; [|done]. split; cbn; try by apply Hok.
  - intros key e He. apply (parked_ok_evolves crates w); [done|]. by apply (ok_parked _ _ Hok key).
  - intros x c s Hx. destruct (ok_approvals _ _ Hok x c s Hx) as (? & y & ? & ?). split; [done|].
    exists y. split; [by right|done].
  - intros x [->|Hx]%elem_of_cons; [done|by apply (ok_logins _ _ Hok)].
Qed.

Lemma login_finish_safe req ceremony credential w :
  Safe answer_ok (login_finish crates provider moment req ceremony credential) w.
Proof.
  unfold login_finish. apply safe_retrieve. intros [parked|] w1 _ _ _; [|done].
  destruct (as_login parked) as [c|]; [|done]. destruct (negb _); [done|].
  apply safe_peek. intros [p|] w2 _ _ Hp; [|done].
  destruct (as_request p) as [request|] eqn:Er; [|done]. destruct credential as [response|]; [|done].
  assert (request_ok w2 request) as Hreq.
  { specialize (Hp p eq_refl). destruct p; cbn in Er; try done; injection Er as <-; [done|].
    destruct Hp as (? & ? & _). by split. }
  apply safe_quiet; [intros; apply quiet_gets|]. intros w3 w4 r Hw4 Hw34 _ _ Hr.
  destruct r as [[stored|]|]; [|done|done]. destruct (String.eqb_spec (k_account stored) (lc_account_id c)) as [Hacc|]; [|done].
  cbn [negb]. destruct (convert_cred stored) as [cred|]; [|done]. apply safe_ask. intros m w5 Hw5 _.
  destruct (finish_authentication _ _ _ _) as [[ar cred']|]; [|done].
  assert (enrolled (odb w4) (lc_account_id c)) as Hk.
  { apply (ev_enrolled _ _ Hw34). cbn in Hr. injection Hr as Hr.
    destruct (select_first _ _) as [k|] eqn:Ek; [|done].
    injection Hr as <-. apply find_Some_elem in Ek as [? _]. by exists k. }
  apply safe_op. intros w6 Hw6 Hok6 u w7 [= <- <-].
  assert (evolves w4 w6) as Hw46 by by transitivity w5.
  destruct (login_noted w6 (lc_account_id c) Hok6) as [Hok7 Hev7]; [by apply (ev_enrolled _ _ Hw46)|].
  split; [done|]. split; [done|].
  apply safe_quiet; [intros; apply quiet_update_counter|]. intros _ w8 r2 Hw8 _ _ _ _.
  destruct r2; [|done]. apply after_login_safe.
  - apply (request_ok_evolves w2); [|done].
    transitivity w4; [done|]. transitivity w6; [done|]. by etransitivity.
  - apply (ev_logins _ _ Hw8). cbn. by left.
Qed.

(** ** Consent *)

Lemma as_request_ok w p r : parked_ok crates w p -> as_request p = Some r -> request_ok w r.
Proof.
  intros Hp Er. destruct p; cbn in Er; try done; injection Er as <-; [done|].
  destruct Hp as (? & ? & _). by split.
Qed.

Lemma safe_parked_request {B} (Q : B -> World -> Prop) key (k : option AuthRequest -> prog World B) w :
  (forall o w2, evolves w w2 -> ok w2 -> (forall r, o = Some r -> request_ok w2 r) -> Safe Q (k o) w2) ->
  Safe Q (pbind (parked_request moment key) k) w.
Proof.
  intros Hk. unfold parked_request.
  change (Safe Q (pbind (peek_at moment key) (fun p => k (p ≫= as_request))) w).
  apply safe_peek. intros o w2 ? ? Hp. apply Hk; [done..|]. intros r Hr.
  destruct o as [p|]; [|done]. eapply as_request_ok; [by apply Hp|done].
Qed.

Lemma consent_page_safe req auth w : Safe answer_ok (consent_page crates moment req auth) w.
Proof.
  unfold consent_page. apply safe_peek. intros [m|] w1 _ _ _; [|done].
  apply safe_parked_request. intros [request|] w2 _ _ _; [|done].
  destruct (parse_uuid crates (rq_client_id request)); [|done].
  apply safe_pbind. apply safe_quiet; [intros; apply quiet_oauth_client|done].
Qed.

Lemma safe_consent {B} (Q : B -> World -> Prop) a c scopes (k : result StorageError unit -> prog World B) w :
  covers SUPPORTED_SCOPES scopes = true -> (exists x, x ∈ logins w /\ parse_uuid crates x = Some a) ->
  (forall e w2, evolves w w2 -> Safe Q (k (Err e)) w2) ->
  (forall w2, evolves w w2 -> (forall s, s ∈ scopes -> (a, c, s) ∈ approvals w2) -> Safe Q (k (Ok tt)) w2) ->
  Safe Q (pbind (record_consent moment a c scopes) k) w.
Proof.
  intros Hcov (x & Hx & Hp) Herr Hok. apply safe_op. intros w1 Hw1 Hok1 r w2 Hm.
  cbv zeta in Hm. destruct (upsert_oauth_grant _ _ a c scopes (odb w1)) as [r1 d1] eqn:E. injection Hm as <- <-.
  destruct r1 as [[]|e].
  - apply (consent_ok crates w1) in E as (? & Hev & ?); [|done|done|exists x; split; [by apply (ev_logins _ _ Hw1)|done]].
    split; [done|]. split; [exact Hev|]. apply Hok; [by transitivity w1|done].
  - apply upsert_grant_cases in E as [(e' & _ & ->)|(? & _)]; [|done].
    destruct (tick_ok crates w1 Hok1) as [? Hev]. split; [done|]. split; [exact Hev|]. apply Herr.
    transitivity w1; [done|exact Hev].
Qed.

Lemma consent_submit_safe req auth decision w :
  Safe answer_ok (consent_submit crates moment req auth decision) w.
Proof.
  unfold consent_submit. apply safe_retrieve. intros [marker|] w1 _ _ Hm; [|done].
  specialize (Hm marker eq_refl).
  apply safe_parked_request. intros [request|] w2 Hw2 _ Hreq; [|done]. specialize (Hreq request eq_refl).
  apply safe_retrieve. intros _ w3 Hw3 _ _. apply (request_ok_evolves w2 w3) in Hreq; [|done].
  destruct (negb _).
  { exists (rq_client_id request), (rq_redirect_uri request). eexists. by split; [apply Hreq|]. }
  destruct (as_account crates marker) as [a|] eqn:Ea; [|done].
  destruct (parse_uuid crates (rq_client_id request)) as [c|] eqn:Ec; [|done].
  destruct marker as [| | | |x]; try done. cbn in Ea.
  apply safe_consent; [apply Hreq| |done|].
  - exists x. split; [|done]. apply (ev_logins _ _ Hw3), (ev_logins _ _ Hw2). done.
  - intros w4 Hw4 Happ. apply safe_pbind. apply redirect_with_code_safe.
    + by apply (request_ok_evolves w3).
    + intros s Hs. exists a, c. auto.
    + done.
Qed.

(** ** Tokens *)

Lemma safe_client {B} (Q : B -> World -> Prop) authorization i secret
    (k : result Response OAuthClient -> prog World B) w :
  (forall response w2, evolves w w2 -> answer_ok response w2 -> Safe Q (k (Err response)) w2) ->
  (forall c w2, evolves w w2 -> parse_uuid crates (oc_id c) = Some (oc_id c) -> Safe Q (k (Ok c)) w2) ->
  Safe Q (pbind (authenticate_client crates moment authorization i secret) k) w.
Proof.
  intros Herr Hok. unfold authenticate_client.
  destruct (match parse_basic_auth crates authorization with Some _ => _ | None => _ end) as [[raw sec]|];
    [|by apply Herr]. destruct (parse_uuid crates raw) as [u|] eqn:Eu; [|by apply Herr].
  apply safe_pbind. apply safe_quiet; [intros; apply quiet_oauth_client|]. intros w1 w2 r Hw2 _ _ _ Hr.
  destruct r as [[c|]|]; [|by apply Herr|by apply Herr].
  apply client_found in Hr as (row & _ & Hid & Hc). apply row_to_client_ok in Hc as [Hc _].
  apply canonical in Hc.
  destruct (oc_disabled c); [by apply Herr|]. destruct (oc_public c); [by apply Hok|].
  destruct sec as [sec|]; [|by apply Herr].
  apply safe_quiet; [intros; apply quiet_gets|]. intros _ w3 r Hw3 _ _ _ _.
  destruct r as [[]|]; [apply Hok|apply Herr|apply Herr]; try done; by transitivity w2.
Qed.

(** What an account granted a client. *)
Definition granted (w : World) (a c : string) (scopes : list string) : Prop :=
  parse_uuid crates a = Some a /\ parse_uuid crates c = Some c
  /\ forallb word scopes = true /\ forall s, s ∈ scopes -> (a, c, s) ∈ approvals w.

Lemma granted_evolves w w' a c scopes : evolves w w' -> granted w a c scopes -> granted w' a c scopes.
Proof. intros E (? & ? & ? & Hs). repeat (split; [done|]). intros s Hin. by apply (ev_approvals _ _ E), Hs. Qed.

Lemma safe_refresh {B} (Q : B -> World -> Prop) a c scopes hash rotate
    (k : result StorageError (option string) -> prog World B) w :
  granted w a c scopes ->
  (forall r w2, evolves w w2 -> Safe Q (k r) w2) ->
  Safe Q (pbind (issue_refresh crates provider moment a c scopes hash rotate) k) w.
Proof.
  intros Hg Hk. unfold issue_refresh. destruct (has_scope _ _).
  - apply safe_pbind. apply safe_ask. intros m w1 Hw1 _. apply safe_op. intros w2 Hw2 Hok2 r w3 Hm.
    assert (granted w2 a c scopes) as (Ha & Hc & Hw & Happ) by (apply (granted_evolves w); [by transitivity w1|done]).
    destruct rotate as [old|].
    + destruct (rotate_refresh_token _ _ _ _ _ _ _ (odb w2)) as [r1 d1] eqn:E. injection Hm as <- <-.
      apply rotated_ok in E as [? Hev]; [|done]. split; [done|]. split; [exact Hev|]. apply Hk.
      transitivity w1; [done|]. transitivity w2; [done|exact Hev].
    + destruct (create_refresh_token _ _ _ _ _ _ _ _ _ _ (odb w2)) as [r1 d1] eqn:E. injection Hm as <- <-.
      eapply refresh_minted_ok in E as [? Hev]; [|done..]. split; [done|]. split; [exact Hev|]. apply Hk.
      transitivity w1; [done|]. transitivity w2; [done|exact Hev].
  - destruct rotate as [old|]; [|by apply Hk]. apply safe_pbind.
    apply safe_quiet; [intros; apply quiet_revoke_token|]. intros. by apply Hk.
Qed.

Lemma issue_tokens_safe a c scopes nonce rotate w :
  granted w a c scopes -> Safe answer_ok (issue_tokens crates provider moment a c scopes nonce rotate) w.
Proof.
  intros Hg. unfold issue_tokens. apply safe_quiet; [intros; apply quiet_core|].
  intros _ w1 r Hw1 _ _ _ _. destruct r as [[account|]|]; [|done|done].
  apply safe_ask. intros m w2 Hw2 _. apply safe_op. intros w3 Hw3 Hok3 r w4 Hm.
  assert (evolves w w3) as Hw03 by (transitivity w1; [done|by transitivity w2]).
  destruct (create_scoped_token _ _ _ _ _ _ _ _ (odb w3)) as [r1 d1] eqn:E. injection Hm as <- <-.
  destruct (granted_evolves w w3 _ _ _ Hw03 Hg) as (Ha & Hc & Hw & Happ).
  eapply scoped_token_ok in E as [? Hev]; [|done..]. split; [done|]. split; [exact Hev|].
  destruct r1 as [[t hash]|]; [|done].
  assert (forall body w5, evolves (with_db d1 w3) w5 -> scope body = join " " scopes ->
            answer_ok (TokensIssued body) w5) as Hbody.
  { intros body w5 Hw5 Hscope. exists a, c. intros s. rewrite Hscope, split_scopes_join by done. intros Hs.
    apply (ev_approvals _ _ Hw5), (ev_approvals _ _ Hev). by apply Happ. }
  assert (forall idt w5, evolves (with_db d1 w3) w5 -> Safe answer_ok
    (refresh <-- issue_refresh crates provider moment a c scopes hash rotate ;;
     match refresh with
     | Err _ => Done (Status 500)
     | Ok refresh => Done (TokensIssued (mk_token_response t (as_i64 (access_ttl provider)) (join " " scopes)
                             (idt ≫= (fun x => x)) refresh))
     end) w5) as Hrest.
  { intros idt w5 Hw5. apply safe_refresh.
    - apply (granted_evolves w); [|done]. transitivity w3; [done|]. by transitivity (with_db d1 w3).
    - intros [x|] w6 Hw6; [|done]. apply Hbody; [by transitivity w5|done]. }
  destruct (has_scope SCOPE_OPENID scopes).
  - apply safe_pbind. apply safe_ask. intros m5 w5 Hw5 _. cbn [safe].
    destruct (sign crates _); [by apply (Hrest (Some (Some _)))|done].
  - by apply (Hrest None).
Qed.

Lemma safe_take_code {B} (Q : B -> World -> Prop) code (k : option CodeGrant -> prog World B) w :
  (forall w2, Safe Q (k None) w2) -> (forall g w2, code_ok crates w2 g -> Safe Q (k (Some g)) w2) ->
  Safe Q (pbind (take_code moment code) k) w.
Proof.
  intros Hnone Hsome. unfold take_code. destruct (negb _); [apply Hnone|].
  change (Safe Q (pbind (retrieve moment code) (fun p => k (p ≫= as_code))) w).
  apply safe_retrieve. intros [p|] w1 _ _ Hp; [|apply Hnone]. specialize (Hp p eq_refl).
  destruct p; try apply Hnone. by apply Hsome.
Qed.

Lemma code_grant_safe client form w :
  parse_uuid crates (oc_id client) = Some (oc_id client) ->
  Safe answer_ok (code_grant crates provider moment client form) w.
Proof.
  intros Hc. unfold code_grant. destruct (tf_code form) as [code|]; [|done].
  destruct (tf_code_verifier form) as [verifier|]; [|done].
  apply safe_take_code; [done|]. intros g w1 (_ & Hcov & Hv).
  destruct (String.eqb_spec (cg_client_id g) (oc_id client)) as [Hcl|]; [|done]. cbn [negb].
  destruct (negb _); [done|]. destruct (negb _); [done|].
  destruct (parse_uuid crates (cg_account_id g)) as [a|] eqn:Ea; [|done].
  apply issue_tokens_safe. split; [by eapply canonical|]. split; [done|]. split; [by apply supported_words|].
  intros s Hs. destruct (Hv s Hs) as (a' & c' & Ha' & Hc' & Happ). congruence.
Qed.

Lemma quiet_refresh_lookup parse hash t : quiet (refresh_token_by_plaintext parse hash t).
Proof. unfold refresh_token_by_plaintext. destruct (negb _); [apply quiet_ret|by apply quiet_pure]. Qed.

Lemma refresh_row_found w t row :
  ok w -> fst (refresh_token_by_plaintext (parse_uuid crates) (hash_text crates) t (odb w)) = Ok (Some row) ->
  granted w (rt_account_id row) (rt_client_id row) (rt_scopes row).
Proof.
  intros Hok. unfold refresh_token_by_plaintext. destruct (negb _); [done|].
  unfold refresh_by_hash. destruct (select_first _ _) as [r|] eqn:E; [|done].
  apply find_Some_elem in E as [Hr _]. destruct (ok_ids _ _ Hok r Hr) as [Ha Hc].
  cbn. unfold row_to_refresh. rewrite Ha, Hc. cbn. intros [= <-]. cbn.
  repeat (split; [done|]). split; [apply split_whitespace_words|]. by apply (ok_refresh _ _ Hok).
Qed.

Lemma granted_narrow w a c scopes scopes' :
  granted w a c scopes -> covers scopes scopes' = true -> granted w a c scopes'.
Proof.
  intros (Ha & Hc & Hw & Happ) Hcov. rewrite covers_elem in Hcov.
  repeat (split; [done|]). split; [|auto].
  rewrite forallb_forall in *. intros s Hs. apply Hw. apply list_elem_of_In, Hcov. by apply list_elem_of_In.
Qed.

Lemma covers_refl l : covers l l = true.
Proof. by apply covers_elem. Qed.

Lemma refresh_grant_safe client form w :
  Safe answer_ok (refresh_grant crates provider moment client form) w.
Proof.
  unfold refresh_grant. destruct (tf_refresh_token form) as [t|]; [|done].
  apply safe_quiet; [intros; apply quiet_refresh_lookup|]. intros w1 w2 r _ Hw2 Hok1 _ Hr.
  destruct r as [[row|]|]; [|done|done]. apply refresh_row_found in Hr; [|done].
  apply (granted_evolves w1 w2) in Hr; [|done].
  destruct (String.eqb_spec (rt_client_id row) (oc_id client)) as [Hcl|]; [|done]. cbn [negb].
  destruct (rt_used_at row).
  - by apply safe_quiet; [intros; apply quiet_revoke_family|].
  - apply safe_ask. intros m w3 Hw3 _.
    destruct (match rt_revoked_at row with Some _ => true | None => _ end); [done|].
    cbv zeta. destruct (covers _ _) eqn:Ec; [|done]. cbn [negb].
    apply issue_tokens_safe. apply (granted_evolves w2); [done|]. rewrite <- Hcl.
    by apply (granted_narrow _ _ _ (rt_scopes row)).
Qed.

Lemma token_safe authorization form w : Safe answer_ok (token crates provider moment authorization form) w.
Proof.
  unfold token. apply safe_client; [done|]. intros c w1 _ Hc.
  destruct (opt_eqb _ _); [by apply code_grant_safe|].
  destruct (opt_eqb _ _); [by apply refresh_grant_safe|done].
Qed.

Lemma revoke_safe authorization i secret t w : Safe answer_ok (revoke crates moment authorization i secret t) w.
Proof.
  unfold revoke. apply safe_client; [done|]. intros c w1 _ _. destruct t as [t|]; [|done].
  destruct (starts_with "mrt_" t).
  - apply safe_quiet; [intros; apply quiet_refresh_lookup|]. intros _ w2 r _ _ _ _ _.
    destruct r as [[row|]|]; [|done|done]. destruct (String.eqb _ _); [|done].
    by apply safe_quiet; [intros; apply quiet_revoke_family|].
  - destruct (starts_with "msk_" t); [|done]. by apply safe_quiet; [intros; apply quiet_revoke_token|].
Qed.

Lemma userinfo_safe authorization w : Safe answer_ok (userinfo crates moment authorization) w.
Proof.
  unfold userinfo. destruct (bearer authorization); [|done].
  apply safe_quiet; [intros; apply quiet_access_by_token|]. intros _ w1 r _ _ _ _ _.
  destruct r as [[[a access]|]|]; [|done|done]. by destruct (negb _).
Qed.

(** ** Enrolment *)

Lemma safe_authenticate {B} (Q : B -> World -> Prop) authorization (k : result Response Account -> prog World B) w :
  (forall response w2, answer_ok response w2 -> Safe Q (k (Err response)) w2) ->
  (forall a w2, Safe Q (k (Ok a)) w2) ->
  Safe Q (pbind (authenticate crates moment authorization) k) w.
Proof.
  intros Herr Hok. unfold authenticate. destruct (bearer authorization); [|by apply Herr].
  apply safe_pbind. apply safe_quiet; [intros; apply quiet_account_by_token|]. intros _ w1 r _ _ _ _ _.
  destruct r as [[a|]|]; [apply Hok|by apply Herr|by apply Herr].
Qed.

Lemma enroll_start_safe authorization w : Safe answer_ok (enroll_start crates moment authorization) w.
Proof.
  unfold enroll_start. apply safe_authenticate; [done|]. intros a w1.
  apply safe_quiet; [intros; apply quiet_gets|]. intros _ w2 r _ _ _ _ _. destruct r; [|done].
  apply safe_ask. intros m w3 _ _. destruct (start_registration _ _ _ _) as [[o r]|]; [|done].
  by apply safe_park.
Qed.

Lemma enroll_finish_safe authorization session device credential w :
  Safe answer_ok (enroll_finish crates moment authorization session device credential) w.
Proof.
  unfold enroll_finish. apply safe_authenticate; [done|]. intros a w1.
  apply safe_retrieve. intros [p|] w2 _ _ _; [|done]. destruct (as_enroll p) as [e|]; [|done].
  destruct (negb _); [done|]. destruct credential as [response|]; [|done]. cbv zeta.
  apply safe_ask. intros m w3 _ _. destruct (finish_registration _ _ _ _ _) as [cred|]; [|done].
  destruct (passkey_bytes cred) as [bytes|]; [|done].
  apply safe_quiet; [intros; apply quiet_save_passkey|]. intros _ w4 r _ _ _ _ _. by destruct r.
Qed.

Lemma route_safe r w : Safe answer_ok (route crates provider moment r) w.
Proof.
  destruct r; cbn [route].
  - apply authorize_safe.
  - apply login_start_safe.
  - apply login_finish_safe.
  - apply consent_page_safe.
  - apply consent_submit_safe.
  - apply token_safe.
  - apply revoke_safe.
  - apply userinfo_safe.
  - apply enroll_start_safe.
  - apply enroll_finish_safe.
Qed.

(** ** The provider as a whole *)

(** What happens besides requests: the operator's commands, changes of the
    account tables, and the sweeper. *)
Inductive AdminOp :=
  | AdminCreateClient (name : string) (uris : list string) (public : bool)
  | AdminDisableClient (client : string)
  | AdminRevokeGrant (account client : string)
  | AdminCreateToken (account name : string)
  | AdminDisablePasskey (i : list Z)
  | AdminAccounts (m : SM unit)
  | AdminSweep.

Definition admin (o : AdminOp) : prog World unit :=
  match o with
  | AdminCreateClient name uris public =>
      _ <-- db moment (fun m => create_oauth_client (parse_uuid crates) (hash_text crates) (at_uuid m) (unix m)
                                  (at_rng m) name uris public) ;; Done tt
  | AdminDisableClient client => _ <-- db moment (fun m => disable_oauth_client (unix m) client) ;; Done tt
  | AdminRevokeGrant account client => _ <-- db moment (fun m => revoke_oauth_grant (unix m) account client) ;; Done tt
  | AdminCreateToken account name =>
      _ <-- db moment (fun m => create_token (hash_text crates) (unix m) (at_rng m) account name) ;; Done tt
  | AdminDisablePasskey i => _ <-- db moment (fun _ => disable_passkey i) ;; Done tt
  | AdminAccounts m => _ <-- db moment (fun _ => on_core m) ;; Done tt
  | AdminSweep => _ <-- store moment (fun m => cleanup_expired (at_ns m)) ;; Done tt
  end.

Lemma admin_safe o w : Safe (fun _ _ => True) (admin o) w.
Proof.
  destruct o; cbn [admin].
  - apply safe_quiet; [intros; apply quiet_create_client|done].
  - apply safe_quiet; [intros; apply quiet_disable_client|done].
  - apply safe_quiet; [intros; apply quiet_revoke_grant|done].
  - apply safe_quiet; [intros; apply quiet_create_token|done].
  - apply safe_quiet; [intros; apply quiet_disable_passkey|done].
  - apply safe_quiet; [intros; apply quiet_core|done].
  - apply safe_store. intros w1 r c _ _ [= <- <-]. split; [|done].
    intros key e He. left. by apply map_lookup_filter_Some in He as [? _].
Qed.

Definition requests (p : prog World Response) : Prop := exists r, p = route crates provider moment r.
Definition administered (w w' : World) : Prop := exists o, snd (run (admin o) w) = w'.

(** A provider without any right given yet. *)
Record pristine (w : World) : Prop := {
  pr_parked : challenges w = ∅;
  pr_history : approvals w = [] /\ logins w = [];
  pr_grants : grants (odb w) = [];
  pr_refresh : refresh_tokens (odb w) = [];
  pr_passwords : forall p, p ∈ passwords (odb w) -> p_scopes p = None /\ p_client p = None
}.

Lemma pristine_ok w : pristine w -> ok w.
Proof.
  intros [Hp [Ha Hl] Hg Hr Hw]. split.
  - intros key e. by rewrite Hp, lookup_empty.
  - intros a c s. by rewrite Ha, elem_of_nil.
  - intros x. by rewrite Hl, elem_of_nil.
  - intros g. by rewrite Hg, elem_of_nil.
  - intros p Hin. by destruct (Hw p Hin) as [-> ->].
  - intros r. by rewrite Hr, elem_of_nil.
  - intros r. by rewrite Hr, elem_of_nil.
Qed.

Lemma provider_safe w0 w pool :
  pristine w0 -> sys_reachable requests administered w0 (w, pool) ->
  ok w /\ Forall (fun p => Safe answer_ok p w) pool.
Proof.
  intros H0 Hr.
  destruct (interleaving_safe ok evolves requests administered answer_ok w0 w pool) as (? & _ & ?);
    [apply answer_stable|by apply pristine_ok| | |done|done].
  - intros p w1 (r & ->). apply route_safe.
  - intros w1 w2 Hok (o & Ho). destruct (run (admin o) w1) as [u w2'] eqn:E. cbn in Ho. subst w2'.
    destruct (safe_run ok evolves (fun _ _ => True) (admin o) w1 u w2 Hok (admin_safe o w1) E) as (? & ? & _). done.
Qed.

(** The account consented to the scope for the client, and logged in with a
    passkey of its own before it did. *)
Definition consented_to (w : World) (a c s : string) : Prop :=
  (a, c, s) ∈ approvals w /\ s ∈ SUPPORTED_SCOPES
  /\ exists x, x ∈ logins w /\ parse_uuid crates x = Some a /\ enrolled (odb w) x.

Lemma approved_consented w a c s : ok w -> (a, c, s) ∈ approvals w -> consented_to w a c s.
Proof.
  intros Hok Happ. destruct (ok_approvals _ _ Hok a c s Happ) as (Hs & x & Hx & Hp).
  repeat (split; [done|]). exists x. repeat (split; [done|]). by apply (ok_logins _ _ Hok).
Qed.

(** C3: However requests and the operator's commands interleave, every access
    token minted for a client and every refresh token carries only supported
    scopes that its account consented to for that client, after a login with a
    passkey of that account; and every answer sends a browser only to a
    redirect address registered for a client (or to the consent page). *)
Theorem tokens_need_consent w0 w pool :
  pristine w0 -> sys_reachable requests administered w0 (w, pool) ->
  (forall p text, p ∈ passwords (odb w) -> p_scopes p = Some text ->
     exists c, p_client p = Some c /\ forall s, s ∈ split_scopes text -> consented_to w (p_account p) c s)
  /\ (forall r s, r ∈ refresh_tokens (odb w) -> s ∈ split_scopes (r_scopes r) ->
        consented_to w (r_account r) (r_client r) s)
  /\ (forall r, Done r ∈ pool -> answer_ok r w).
Proof.
  intros H0 Hr. destruct (provider_safe w0 w pool H0 Hr) as [Hok Hall]. split; [|split].
  - intros p text Hp Ht. pose proof (ok_passwords _ _ Hok p Hp) as Hpw. rewrite Ht in Hpw.
    destruct Hpw as (c & Hc & Hs). exists c. split; [done|]. intros s Hin. apply approved_consented; auto.
  - intros r s Hin Hs. apply approved_consented; [done|]. by apply (ok_refresh _ _ Hok).
  - intros r Hin. rewrite Forall_forall in Hall. apply (Hall _ Hin).
Qed.
End Safety.
