(* ===== verification/OidcGrants.v ===== *)
(** The token endpoint by itself: exchange of a code, reuse of a refresh token,
    and two things the code does that its comments do not say. *)
From S2P Require Import Prelude Text Bytes Ident Store StoreFacts Tokens TokensFacts Challenges Interleave Oidc OidcFacts.

Open Scope string_scope.

Section Grants.
Context `{WebAuthn}.
Variable crates : Crates.
Variable provider : Provider.
Variable moment : nat -> Moment.

Abbreviation World := OidcWorld.

Lemma run_db {A B} (f : Moment -> AM A) (k : result StorageError A -> prog World B) w :
  run (pbind (db moment f) k) w
  = let '(r, d) := f (now_moment moment w) (odb w) in run (k r) (with_db d w).
Proof. unfold db. cbn. by destruct (f _ _). Qed.

Lemma run_ask {A B} (f : Moment -> A) (k : A -> prog World B) w :
  run (pbind (ask moment f) k) w = run (k (f (now_moment moment w))) (with_db (odb w) w).
Proof. done. Qed.

Lemma run_retrieve {B} key (k : option Parked -> prog World B) w :
  run (pbind (retrieve moment key) k) w
  = let w' := with_store (delete key (challenges w)) w in
    match challenges w !! key with
    | Some e => run (k (if (expires_at e <? at_ns (now_moment moment w))%Z then None else Some (data e))) w'
    | None => run (k None) (with_store (challenges w) w)
    end.
Proof.
  unfold retrieve, retrieve_challenge. cbn. destruct (challenges w !! key) as [e|]; [|done].
  by destruct (_ <? _)%Z.
Qed.

(** Handlers that leave the challenge store alone. *)
Definition same_store (w w' : World) : Prop := challenges w' = challenges w.
#[local] Instance same_store_pre : PreOrder same_store.
Proof. split; unfold same_store; [done|congruence]. Qed.

Lemma issue_tokens_store a c scopes nonce rotate w r w' :
  run (issue_tokens crates provider moment a c scopes nonce rotate) w = (r, w') ->
  challenges w' = challenges w.
Proof.
  intros Hrun. eapply (safe_run (fun _ => True) same_store (fun _ _ => True)) in Hrun as (_ & ? & _); [done|done|].
  assert (forall A B (f : Moment -> AM A) (k : result StorageError A -> prog World B) Q w1,
    (forall x w2, safe (fun _ => True) same_store Q (k x) w2) ->
    safe (fun _ => True) same_store Q (pbind (db moment f) k) w1) as Hdb.
  { intros A B f k Q w1 Hk w2 _ _ x w3 Hm. destruct (f _ _) as [y d]. injection Hm as <- <-. split; [done|].
    split; [done|]. apply Hk. }
  assert (forall A B (f : Moment -> A) (k : A -> prog World B) Q w1,
    (forall x w2, safe (fun _ => True) same_store Q (k x) w2) ->
    safe (fun _ => True) same_store Q (pbind (ask moment f) k) w1) as Hask.
  { intros A B f k Q w1 Hk w2 _ _ x w3 [= <- <-]. split; [done|]. split; [done|]. apply Hk. }
  unfold issue_tokens. apply Hdb. intros [[account|]|] w1; [|done|done].
  apply Hask. intros x1 w2. apply Hdb. intros [[t hash]|] w3; [|done].
  apply safe_pbind. assert (forall idt w4, safe (fun _ => True) same_store (fun _ _ => True)
    (refresh <-- issue_refresh crates provider moment a c scopes hash rotate ;;
     match refresh with
     | Err _ => Done (Status 500)
     | Ok refresh => Done (TokensIssued (mk_token_response t (as_i64 (access_ttl provider)) (join " " scopes)
                             (idt ≫= (fun x => x)) refresh))
     end) w4) as Hrest.
  { intros idt w4. apply safe_pbind. unfold issue_refresh. destruct (has_scope SCOPE_OFFLINE scopes).
    - apply Hask. intros x5 w5. apply Hdb. intros [x6|] w6; done.
    - destruct rotate; [apply Hdb; done|done]. }
  destruct (has_scope SCOPE_OPENID scopes).
  - apply Hask. intros x4 w4. cbn [safe]. destruct (sign crates _); [by apply (Hrest (Some (Some _)))|done].
  - by apply (Hrest None).
Qed.

(** What [issue_tokens] answers when it succeeds, and what becomes of the
    refresh tokens when it is not to issue one. *)
Lemma issue_tokens_answer a c scopes nonce rotate w body w' :
  run (issue_tokens crates provider moment a c scopes nonce rotate) w = (TokensIssued body, w') ->
  scope body = join " " scopes
  /\ (has_scope SCOPE_OFFLINE scopes = false ->
      refresh_token body = None /\ refresh_tokens (odb w') = refresh_tokens (odb w)).
Proof.
  unfold issue_tokens. rewrite run_db. unfold on_core.
  destruct (account _ a (core (odb w))) as [[[acc|]|] core'] eqn:Ea; [|done|done].
  rewrite run_ask, run_db. cbv zeta.
  destruct (create_scoped_token _ _ _ _ _ _ _ _ _) as [[[t hash]|] d] eqn:Ec; [|done].
  assert (refresh_tokens d = refresh_tokens (odb w)) as Hd.
  { revert Ec. unfold create_scoped_token, bind at 1, lift. destruct (new_secret _ _ _) as [s|]; [|done].
    unfold bind. destruct (insert_password _ _) as [ri di] eqn:Ei.
    apply insert_password_cases in Ei as [(e & -> & ->)|(-> & ->)]; intros [= _ <-]; done. }
  assert (forall idt w1, odb w1 = d ->
    run (refresh <-- issue_refresh crates provider moment a c scopes hash rotate ;;
         match refresh with
         | Err _ => Done (Status 500)
         | Ok refresh => Done (TokensIssued (mk_token_response t (as_i64 (access_ttl provider)) (join " " scopes)
                                 (idt ≫= (fun x => x)) refresh))
         end) w1 = (TokensIssued body, w') ->
    scope body = join " " scopes
    /\ (has_scope SCOPE_OFFLINE scopes = false ->
        refresh_token body = None /\ refresh_tokens (odb w') = refresh_tokens (odb w))) as Hrest.
  { intros idt w1 <- Hrun. rewrite run_pbind in Hrun.
    destruct (run (issue_refresh _ _ _ _ _ _ _ _) w1) as [[refresh|] w2] eqn:Er; [|done].
    injection Hrun as <- <-. split; [done|]. intros Hoff. revert Er. unfold issue_refresh. rewrite Hoff.
    destruct rotate as [old|].
    - rewrite run_db. cbn. intros [= <- <-]. cbn. by rewrite <- Hd.
    - cbn. intros [= <- <-]. by rewrite <- Hd. }
  rewrite run_pbind. destruct (has_scope SCOPE_OPENID scopes).
  - rewrite run_ask. cbn [run]. destruct (sign crates _); [|done].
    by apply (Hrest (Some (Some _))).
  - cbn [run]. by apply (Hrest None).
Qed.

(** The exchange, once the client is authenticated. *)
Lemma code_grant_run client form w r w' code :
  tf_code form = Some code -> tf_code_verifier form <> None ->
  run (code_grant crates provider moment client form) w = (r, w') ->
  (starts_with CODE_PREFIX code = true -> challenges w' !! code = None)
  /\ forall body, r = TokensIssued body ->
     exists g e, challenges w !! code = Some e /\ data e = ParkedCode g
       /\ (at_ns (now_moment moment w) <= expires_at e)%Z
       /\ cg_client_id g = oc_id client /\ tf_redirect_uri form = Some (cg_redirect_uri g)
       /\ option_map (s256 crates) (tf_code_verifier form) = Some (cg_code_challenge g)
       /\ scope body = join " " (cg_scopes g).
Proof.
  intros Hcode Hver. unfold code_grant. rewrite Hcode.
  destruct (tf_code_verifier form) as [verifier|]; [|done]. unfold take_code.
  destruct (starts_with CODE_PREFIX code); cbn [negb]; [|by intros [= <- <-]].
  change (run (pbind (retrieve moment code) (fun p => (fun taken => match taken with
    | None => Done (OauthError "invalid_grant")
    | Some grant =>
        if negb (String.eqb (cg_client_id grant) (oc_id client)) then Done (OauthError "invalid_grant")
        else if negb (opt_eqb (tf_redirect_uri form) (Some (cg_redirect_uri grant)))
        then Done (OauthError "invalid_grant")
        else if negb (String.eqb (s256 crates verifier) (cg_code_challenge grant))
        then Done (OauthError "invalid_grant")
        else match parse_uuid crates (cg_account_id grant) with
             | None => Done (Status 500)
             | Some account_id =>
                 issue_tokens crates provider moment account_id (oc_id client) (cg_scopes grant) (cg_nonce grant) None
             end
    end) (p ≫= as_code))) w = (r, w') ->
   (true = true -> challenges w' !! code = None) /\ forall body, r = TokensIssued body ->
     exists g e, challenges w !! code = Some e /\ data e = ParkedCode g
       /\ (at_ns (now_moment moment w) <= expires_at e)%Z
       /\ cg_client_id g = oc_id client /\ tf_redirect_uri form = Some (cg_redirect_uri g)
       /\ option_map (s256 crates) (Some verifier) = Some (cg_code_challenge g)
       /\ scope body = join " " (cg_scopes g)).
  rewrite run_retrieve. cbv zeta.
  destruct (challenges w !! code) as [e|] eqn:Ee; [|intros [= <- <-]; done].
  assert (delete code (challenges w) !! code = None) as Hgone by apply lookup_delete_eq.
  destruct (_ <? _)%Z eqn:Elt; [intros [= <- <-]; done|]. apply Z.ltb_ge in Elt.
  cbn [mbind option_bind]. destruct (as_code (data e)) as [g|] eqn:Eg; [|intros [= <- <-]; done].
  destruct (String.eqb_spec (cg_client_id g) (oc_id client)) as [Hc|]; cbn [negb]; [|intros [= <- <-]; done].
  destruct (opt_eqb _ _) eqn:Eu; cbn [negb]; [|intros [= <- <-]; done].
  destruct (String.eqb_spec (s256 crates verifier) (cg_code_challenge g)) as [Hp|]; cbn [negb]; [|intros [= <- <-]; done].
  destruct (parse_uuid crates (cg_account_id g)) as [a|]; [|intros [= <- <-]; done].
  intros Hrun. split; [intros _; by rewrite (issue_tokens_store _ _ _ _ _ _ _ _ Hrun)|].
  intros body ->. apply issue_tokens_answer in Hrun as [Hs _]. exists g, e.
  destruct (tf_redirect_uri form) as [uri|]; [|done]. apply String.eqb_eq in Eu as ->.
  cbn. rewrite Hp. destruct (data e); try done. injection Eg as ->. done.
Qed.

(** Authentication leaves the challenge store alone and issues nothing. *)
Lemma authenticate_keeps authorization i secret w auth w1 :
  run (authenticate_client crates moment authorization i secret) w = (auth, w1) ->
  challenges w1 = challenges w /\ forall response body, auth = Err response -> response <> TokensIssued body.
Proof.
  assert (Hdone : forall (a : result Response OAuthClient) w0, challenges w0 = challenges w ->
    (forall response body, a = Err response -> response <> TokensIssued body) ->
    run (Done a) w0 = (auth, w1) ->
    challenges w1 = challenges w /\ forall response body, auth = Err response -> response <> TokensIssued body)
    by (intros a w0 Hw Ha [= <- <-]; by split).
  unfold authenticate_client.
  destruct (match parse_basic_auth _ authorization with Some _ => _ | None => _ end) as [[raw given]|];
    [|by apply Hdone; [|intros ? ? [= <-]]].
  destruct (parse_uuid crates raw) as [u|]; [|by apply Hdone; [|intros ? ? [= <-]]].
  rewrite run_db. destruct (oauth_client _ _ _) as [[[client|]|] d]; [|by apply Hdone; [|intros ? ? [= <-]]..].
  destruct (oc_disabled client); [by apply Hdone; [|intros ? ? [= <-]]|].
  destruct (oc_public client); [by apply Hdone|].
  destruct given as [g|]; [|by apply Hdone; [|intros ? ? [= <-]]].
  rewrite run_db. destruct (verify_oauth_client_secret _ _ _ _) as [[[]|] d2];
    (apply Hdone; [done|]); (done || by intros ? ? [= <-]).
Qed.

(** C32: At the token endpoint an authorization code buys tokens only for the
    client that presents it authenticated, the redirect address and the PKCE
    verifier it was made for, with exactly the scopes it stands for, and while it
    is live.  Once an authenticated client presents it with a verifier, it is
    gone, whatever comes of it; a request whose client fails to authenticate, or
    that carries no verifier, is refused before the code is looked at, issues
    nothing and leaves every parked code and challenge as it was. *)
Theorem code_exchange authorization form w r w' code :
  tf_grant_type form = Some "authorization_code" -> tf_code form = Some code ->
  run (token crates provider moment authorization form) w = (r, w') ->
  exists auth w1,
    run (authenticate_client crates moment authorization (tf_client_id form) (tf_client_secret form)) w = (auth, w1)
    /\ match auth, tf_code_verifier form with
       | Ok client, Some verifier =>
           (starts_with CODE_PREFIX code = true -> challenges w' !! code = None)
           /\ forall body, r = TokensIssued body ->
              exists g e, challenges w !! code = Some e /\ data e = ParkedCode g
                /\ (at_ns (now_moment moment w1) <= expires_at e)%Z
                /\ cg_client_id g = oc_id client /\ tf_redirect_uri form = Some (cg_redirect_uri g)
                /\ s256 crates verifier = cg_code_challenge g
                /\ scope body = join " " (cg_scopes g)
       | _, _ => challenges w' = challenges w /\ forall body, r <> TokensIssued body
       end.
Proof.
  intros Hgrant Hcode Hrun. unfold token in Hrun. rewrite run_pbind in Hrun.
  destruct (run (authenticate_client _ _ _ _ _) w) as [auth w1] eqn:Ea. exists auth, w1. split; [done|].
  destruct (authenticate_keeps _ _ _ _ _ _ Ea) as [Hsame Herr]. destruct auth as [client|response].
  - rewrite Hgrant in Hrun. cbn in Hrun. destruct (tf_code_verifier form) as [verifier|] eqn:Ev.
    + destruct (code_grant_run client form w1 r w' code Hcode ltac:(by rewrite Ev) Hrun) as [Hgone Hbody].
      split; [done|]. intros body Hr. destruct (Hbody body Hr) as (g & e & Hg). exists g, e.
      rewrite Hsame, Ev in Hg. cbn in Hg. naive_solver.
    + unfold code_grant in Hrun. rewrite Hcode, Ev in Hrun. injection Hrun as <- <-. by split.
  - injection Hrun as <- <-. split; [done|]. intros body. by apply Herr.
Qed.

(** C33: When its client presents a refresh token a second time, the request is
    refused, the whole family of the token is retired, and of the access tokens
    exactly those recorded with a member of the family stop working; every other
    family stays as it was.  (An access token from a refresh that gave up
    [offline_access] is recorded with no member, so it is not among them:
    [narrowed_refresh_stays_live].) *)
Theorem refresh_reuse client form w token row :
  tf_refresh_token form = Some token -> refresh_ok (refresh_tokens (odb w)) ->
  fst (refresh_token_by_plaintext (parse_uuid crates) (hash_text crates) token (odb w)) = Ok (Some row) ->
  rt_client_id row = oc_id client -> rt_used_at row <> None ->
  exists w', run (refresh_grant crates provider moment client form) w = (OauthError "invalid_grant", w')
    /\ family_state (refresh_tokens (odb w')) (rt_family_id row) = Retired
    /\ (forall p, p ∈ passwords (odb w') <->
          p ∈ passwords (odb w) /\ p_hash p ∉ family_access (rt_family_id row) (odb w))
    /\ (forall f, f <> rt_family_id row ->
          family_state (refresh_tokens (odb w')) f = family_state (refresh_tokens (odb w)) f).
Proof.
  intros Ht Hok Hrow Hc Hused. unfold refresh_grant. rewrite Ht, run_db.
  destruct (refresh_token_by_plaintext _ _ token (odb w)) as [r d] eqn:El. cbn [fst] in Hrow. subst r.
  assert (d = odb w /\ exists x, x ∈ refresh_tokens (odb w) /\ r_family x = rt_family_id row) as [-> (x & Hx & Hf)].
  { revert El. unfold refresh_token_by_plaintext. destruct (negb _); [done|]. unfold refresh_by_hash.
    destruct (select_first _ _) as [x|] eqn:Ef; [|done]. apply find_Some_elem in Ef as [Hx _].
    unfold row_to_refresh. destruct (parse_uuid crates (r_account x)); [|done].
    destruct (parse_uuid crates (r_client x)); [|done]. cbn. intros [= <- <-]. split; [done|]. by exists x. }
  rewrite Hc, String.eqb_refl. cbn [negb]. destruct (rt_used_at row) as [u|]; [|done].
  rewrite run_db, revoke_family_run. eexists. split; [reflexivity|]. cbn [odb with_db refresh_tokens on_refresh on_passwords].
  destruct (retire_families (unix (now_moment moment (with_db (odb w) w))) (in_family (rt_family_id row)) (refresh_tokens (odb w)))
    as [_ Hs]; [done|intros r1 r2 _ _ E; unfold in_family; by rewrite E|]. split; [|split].
  - rewrite Hs. cbn. unfold family_test.
    replace (existsb _ _) with true; [|symmetry; apply existsb_elem; exists x; unfold in_family; by rewrite Hf, String.eqb_refl].
    pose proof (family_state_is (refresh_tokens (odb w)) (rt_family_id row)) as Hfam.
    destruct (family_state _ _); [by destruct (Hfam x Hx)|done|done].
  - intros p. cbn. rewrite elem_of_filter_bool, negb_true_iff.
    assert (existsb (String.eqb (p_hash p)) (family_access (rt_family_id row) (odb w)) = false
            <-> p_hash p ∉ family_access (rt_family_id row) (odb w)) as Hiff; [|tauto].
    split.
    + intros Hp Hin. pose proof (existsb_false_elem _ _ _ Hp Hin) as Hn. cbn beta in Hn.
      by rewrite String.eqb_refl in Hn.
    + intros Hn. destruct (existsb _ _) eqn:E; [|done].
      apply existsb_elem in E as (h & Hh & Heq%String.eqb_eq). by subst h.
  - intros f Hne. rewrite Hs. cbn. destruct (family_state _ f); [done| |];
      (destruct (family_test _ _ f) eqn:Et; [|done]; unfold family_test in Et;
       apply existsb_elem in Et as (y & _ & [E1%String.eqb_eq E2%String.eqb_eq]%andb_true_iff); congruence).
Qed.

(** A refresh that asks for scopes without offline_access leaves the
    presented refresh token as live as it was: nothing in the table of refresh
    tokens changes, although the comment says the token is retired. *)
Lemma narrowed_refresh_stays_live client form w body w' narrowed :
  tf_scope form = Some narrowed -> has_scope SCOPE_OFFLINE (split_whitespace narrowed) = false ->
  run (refresh_grant crates provider moment client form) w = (TokensIssued body, w') ->
  refresh_tokens (odb w') = refresh_tokens (odb w) /\ refresh_token body = None.
Proof.
  intros Hs Hoff. unfold refresh_grant. destruct (tf_refresh_token form) as [t|]; [|done].
  rewrite run_db. destruct (refresh_token_by_plaintext _ _ t (odb w)) as [r d] eqn:El.
  assert (d = odb w) as ->.
  { revert El. unfold refresh_token_by_plaintext, refresh_by_hash. destruct (negb _); by intros [= _ <-]. }
  destruct r as [[row|]|]; [|done|done]. destruct (negb _); [done|].
  destruct (rt_used_at row); [rewrite run_db; by destruct (revoke_refresh_family _ _ _)|].
  rewrite run_ask. destruct (match rt_revoked_at row with Some _ => true | None => _ end); [done|].
  rewrite Hs. cbv zeta. destruct (negb (covers _ _)); [done|].
  intros Hrun. apply issue_tokens_answer in Hrun as [_ Hr]. destruct (Hr Hoff) as [? ?]. done.
Qed.

(** Any client deletes any access token it knows, also one of another client or
    one without scopes. *)
Lemma revoke_ignores_owner w client i token w' r :
  parse_uuid crates i = Some i ->
  fst (oauth_client (parse_uuid crates) i (odb w)) = Ok (Some client) ->
  oc_disabled client = false -> oc_public client = true ->
  starts_with "mrt_" token = false -> starts_with "msk_" token = true ->
  run (revoke crates moment None (Some i) None (Some token)) w = (r, w') ->
  r = Status 200 /\ forall p, p ∈ passwords (odb w') -> p_hash p <> hash_text crates token.
Proof.
  intros Hi Hc Hd Hp Hm Hk. unfold revoke. rewrite run_pbind. unfold authenticate_client.
  cbn [parse_basic_auth mbind option_bind]. rewrite Hi, run_db.
  destruct (oauth_client _ i (odb w)) as [r1 d1] eqn:E. cbn [fst] in Hc. subst r1. rewrite Hd, Hp. cbn [run].
  rewrite Hm, Hk, run_db. cbn. intros [= <- <-]. split; [done|]. cbn.
  intros p [_ Hp']%elem_of_filter_bool. by apply negb_true_iff, String.eqb_neq in Hp'.
Qed.
End Grants.
