(* ===== verification/OidcWitness.v ===== *)
(** Concrete runs of the token tables and of the provider. *)
From S2P Require Import Prelude Text Bytes Ident Store Tokens TokensFacts Challenges Interleave Oidc OidcFacts OidcSafety OidcGrants.

Open Scope string_scope.

(** Ids start with [u]; the other crates are as plain as can be. *)
Definition toy_crates : Crates :=
  mk_crates (fun s => if starts_with "u" s then Some s else None) (fun s => "h:" +:+ s) (fun s => s)
    (fun v => "s:" +:+ v) (fun s => Some s) (fun _ => Some "jwt") (fun _ => true).
Definition toy_provider : Provider := mk_provider "https://mail.example" 3600 3600 86400.
Definition toy_moment (n : nat) : Moment :=
  mk_moment (Z.of_nat n * ns_per_s) ("u" +:+ pretty n) (Some [Z.of_nat n]) [Z.of_nat n] 0.

#[export] Instance toy_webauthn : WebAuthn := {
  Passkey := list Z;
  RegState := unit;
  LoginState := list (list Z);
  Attestation := list Z;
  Assertion := list Z;
  passkey_to_bytes := Some;
  passkey_of_bytes := Some;
  cred_id := fun k => k;
  update_credential := fun k _ => k;
  raw_id := fun a => a;
  start_passkey_registration := fun _ _ _ _ => Some ("register", tt);
  finish_passkey_registration := fun a _ => Some a;
  start_passkey_authentication := fun _ keys => Some ("login", keys);
  finish_passkey_authentication := fun a keys =>
    if existsb (bytes_eqb a) keys then Some (mk_auth_result a 1 false false) else None
}.

Lemma toy_canonical s u : parse_uuid toy_crates s = Some u -> parse_uuid toy_crates u = Some u.
Proof. cbn. destruct (starts_with "u" s) eqn:E; [|done]. intros [= <-]. by rewrite E. Qed.

(** Alice, with a passkey and a public client of another site. *)
Definition alice_db : AuthDb :=
  mk_auth_db (on_accounts (fun _ => [mk_account "u-alice" "alice@mail.example" None 0 None]) empty_db)
    [mk_password "h:msk_old" "u-alice" "imap" 0 None None None None]
    [mk_client "u-app" "App" ["https://app.example/cb"] None false 0] [] []
    [mk_passkey [7%Z] "u-alice" "phone" [7%Z] 0 false false None 0 None false].
Definition alice_world : OidcWorld := mk_oidc_world alice_db ∅ [] [] 0.

Definition visit : AuthorizeParams :=
  mk_authorize_params (Some "code") (Some "u-app") (Some "https://app.example/cb")
    (Some "openid offline_access") (Some "xyz") None (Some "s:verifier") (Some "S256").
Definition form (grant code refresh scope : option string) : TokenForm :=
  mk_token_form grant code (Some "https://app.example/cb") (Some "verifier") refresh scope (Some "u-app") None.

Abbreviation toy_route r := (route toy_crates toy_provider toy_moment r).

(** Authorize, log in, consent, exchange the code. *)
Definition the_visit : list Request :=
  [ReqAuthorize visit; ReqLoginStart "u1" "alice@mail.example"; ReqLoginFinish "u1" "u6" (Some [7%Z]);
   ReqConsentSubmit "u1" "u13" "approve";
   ReqToken None (form (Some "authorization_code") (Some "moc_12") None None)].
Definition serve (s : list Response * OidcWorld) (r : Request) : list Response * OidcWorld :=
  let '(a, w') := run (toy_route r) (snd s) in ((fst s ++ [a])%list, w').
Definition after_requests (l : list Request) (w : OidcWorld) : list Response * OidcWorld :=
  fold_left serve l ([], w).

Abbreviation toy_reachable := (sys_reachable (requests toy_crates toy_provider toy_moment)
  (administered toy_crates toy_moment) alice_world).

Lemma requests_reachable l w pool :
  toy_reachable (w, pool) -> exists pool', toy_reachable (snd (after_requests l w), pool').
Proof.
  assert (forall s pool, toy_reachable (snd s, pool) ->
            exists pool', toy_reachable (snd (fold_left serve l s), pool')) as Hall.
  { clear w pool. induction l as [|r l IH]; intros s pool Hr; cbn [fold_left]; [eauto|].
    destruct (run (toy_route r) (snd s)) as [a w'] eqn:E.
    apply (IH _ (pool ++ [Done a])%list). unfold serve. rewrite E. cbn [snd].
    eapply alone_reachable; [exact Hr|by exists r|exact E]. }
  apply (Hall ([], w)).
Qed.

Lemma alice_pristine : pristine alice_world.
Proof. split; try done. intros p [->|?%elem_of_nil]%elem_of_cons; done. Qed.

Lemma visit_passwords :
  map (fun p => (p_hash p, p_account p, p_client p, p_scopes p))
    (passwords (odb (snd (after_requests the_visit alice_world))))
  = [("h:msk_old", "u-alice", None, None);
     ("h:msk_18", "u-alice", Some "u-app", Some "openid offline_access")].
Proof. vm_compute. reflexivity. Qed.

Lemma tokens_need_consent_witness :
  exists pool p, toy_reachable (snd (after_requests the_visit alice_world), pool)
    /\ p ∈ passwords (odb (snd (after_requests the_visit alice_world)))
    /\ p_scopes p = Some "openid offline_access"
    /\ exists c, p_client p = Some c
         /\ forall s, s ∈ split_scopes "openid offline_access" ->
              consented_to toy_crates (snd (after_requests the_visit alice_world)) (p_account p) c s.
Proof.
  destruct (requests_reachable the_visit alice_world [] (sys_start _ _ _)) as [pool Hr].
  assert (exists p, p ∈ passwords (odb (snd (after_requests the_visit alice_world)))
                    /\ p_scopes p = Some "openid offline_access") as (p & Hp & Hs).
  { pose proof visit_passwords as Hv. destruct (passwords _) as [|p1 [|p2 l]]; try done.
    exists p2. split; [right; left|]. by injection Hv. }
  destruct (tokens_need_consent toy_crates toy_provider toy_moment toy_canonical alice_world _ pool
    alice_pristine Hr) as (Hall & _).
  exists pool, p. split; [exact Hr|]. split; [exact Hp|]. split; [exact Hs|]. by apply Hall.
Defined.

(** The exchange of the code. *)
Definition app_client : OAuthClient := mk_oauth_client "u-app" "App" ["https://app.example/cb"] true false 0.
Abbreviation code_form := (form (Some "authorization_code") (Some "moc_12") None None).

Abbreviation exchange_request := (token toy_crates toy_provider toy_moment None code_form).
Definition before_exchange : OidcWorld := snd (after_requests (take 4 the_visit) alice_world).

Lemma exchange_answer :
  fst (run exchange_request before_exchange)
  = TokensIssued (mk_token_response "msk_18" 3600 "openid offline_access" (Some "jwt") (Some "mrt_1b")).
Proof. vm_compute. reflexivity. Qed.

Lemma code_exchange_witness :
  exists w', run exchange_request before_exchange
    = (TokensIssued (mk_token_response "msk_18" 3600 "openid offline_access" (Some "jwt") (Some "mrt_1b")), w')
  /\ challenges w' !! "moc_12" = None.
Proof.
  pose proof exchange_answer as Ha.
  destruct (run exchange_request before_exchange) as [r w'] eqn:E. cbn [fst] in Ha. subst r.
  exists w'. split; [reflexivity|].
  destruct (code_exchange toy_crates toy_provider toy_moment None code_form _ _ w' "moc_12"
    eq_refl eq_refl E) as (auth & w1 & Hauth & H).
  assert (fst (run (authenticate_client toy_crates toy_moment None (Some "u-app") None) before_exchange)
          = Ok app_client) as Hc by (vm_compute; reflexivity).
  change (tf_client_id code_form) with (Some "u-app") in Hauth.
  change (tf_client_secret code_form) with (@None string) in Hauth.
  rewrite Hauth in Hc. cbn [fst] in Hc. subst auth. destruct H as [Hgone _]. by apply Hgone.
Defined.

(** A narrowed refresh, and the reuse of a rotated token. *)
Definition tokens_db : AuthDb :=
  mk_auth_db (core alice_db)
    [mk_password "h:msk_a" "u-alice" "oidc access" 0 None (Some 3600%Z) (Some "openid offline_access") (Some "u-app");
     mk_password "h:msk_b" "u-alice" "oidc access" 0 None (Some 3600%Z) (Some "openid offline_access") (Some "u-app");
     mk_password "h:msk_old" "u-alice" "imap" 0 None None None None]
    (clients alice_db) []
    [mk_refresh "h:mrt_a" "fam" "u-alice" "u-app" "openid offline_access" (Some "h:msk_a") 5000 (Some 5%Z) None 0;
     mk_refresh "h:mrt_b" "fam" "u-alice" "u-app" "openid offline_access" (Some "h:msk_b") 5000 None None 5;
     mk_refresh "h:mrt_c" "other" "u-alice" "u-app" "openid offline_access" None 5000 None None 5]
    (passkeys alice_db).
Definition tokens_world : OidcWorld := mk_oidc_world tokens_db ∅ [] [] 10.
Abbreviation refresh f := (refresh_grant toy_crates toy_provider toy_moment app_client f).

Lemma narrowed_answer :
  fst (run (refresh (form None None (Some "mrt_b") (Some "openid"))) tokens_world)
  = TokensIssued (mk_token_response "msk_0e" 3600 "openid" (Some "jwt") None).
Proof. vm_compute. reflexivity. Qed.

Lemma narrowed_refresh_stays_live_witness :
  exists w', run (refresh (form None None (Some "mrt_b") (Some "openid"))) tokens_world
    = (TokensIssued (mk_token_response "msk_0e" 3600 "openid" (Some "jwt") None), w')
  /\ refresh_tokens (odb w') = refresh_tokens tokens_db.
Proof.
  pose proof narrowed_answer as Ha.
  destruct (run (refresh _) tokens_world) as [r w'] eqn:E. cbn [fst] in Ha. subst r.
  exists w'. split; [reflexivity|].
  by destruct (narrowed_refresh_stays_live toy_crates toy_provider toy_moment app_client
    (form None None (Some "mrt_b") (Some "openid")) tokens_world _ w' "openid" eq_refl eq_refl E) as [? _].
Defined.

Lemma tokens_ok : refresh_ok (refresh_tokens tokens_db).
Proof. apply refresh_ok_checked. vm_compute. reflexivity. Qed.

Lemma refresh_reuse_witness :
  exists w', run (refresh (form None None (Some "mrt_a") None)) tokens_world
    = (OauthError "invalid_grant", w')
  /\ family_state (refresh_tokens (odb w')) "fam" = Retired.
Proof.
  destruct (refresh_reuse toy_crates toy_provider toy_moment app_client (form None None (Some "mrt_a") None)
    tokens_world "mrt_a"
    (mk_refresh_token "h:mrt_a" "fam" "u-alice" "u-app" ["openid"; "offline_access"] (Some "h:msk_a") 5000 (Some 5%Z) None 0)
    eq_refl tokens_ok eq_refl eq_refl ltac:(done)) as (w' & Hr & Hf & _).
  exists w'. by split.
Defined.

(** The token tables alone. *)
Abbreviation toy_uuid := (parse_uuid toy_crates).
Abbreviation toy_hash := (hash_text toy_crates).

Lemma tokens_inv : refresh_inv toy_uuid tokens_db.
Proof.
  split; [exact tokens_ok|]. intros r Hr.
  assert (forallb (fun r => bool_decide (toy_uuid (r_account r) = Some (r_account r)
                                         /\ toy_uuid (r_client r) = Some (r_client r)))
            (refresh_tokens tokens_db) = true) as Hall by (vm_compute; reflexivity).
  rewrite forallb_forall in Hall. apply list_elem_of_In, Hall in Hr.
  exact (bool_decide_eq_true_1 _ Hr).
Qed.

Definition rotate_b : Call := CallRotate 10 (Some [1%Z]) "h:mrt_b" (Some "h:msk_n") 6000.

Lemma families_refine_witness :
  let '(r, d') := run_call toy_uuid toy_hash rotate_b tokens_db in
  r = Ok (Some "mrt_01")
  /\ (forall g, family_state (refresh_tokens d') g
        = spec_step (Rotate "h:mrt_b" "h:mrt_01") (family_state (refresh_tokens tokens_db)) g).
Proof.
  destruct (run_call toy_uuid toy_hash rotate_b tokens_db) as [r d'] eqn:E.
  assert (r = Ok (Some "mrt_01")) as -> by (vm_compute in E; by injection E as <- _).
  destruct (families_refine toy_uuid toy_hash rotate_b tokens_db _ d' tokens_inv I E) as (_ & _ & Hs).
  split; [reflexivity|exact Hs].
Defined.

Lemma rotates_once_witness :
  exists t d1 e,
    rotate_refresh_token toy_uuid toy_hash 10 (Some [1%Z]) "h:mrt_b" None 6000 tokens_db = (Ok t, d1)
    /\ rotate_refresh_token toy_uuid toy_hash 11 (Some [2%Z]) "h:mrt_b" None 6000 d1 = (Err e, d1).
Proof.
  destruct (rotate_refresh_token toy_uuid toy_hash 10 (Some [1%Z]) "h:mrt_b" None 6000 tokens_db) as [r d1] eqn:E.
  assert (r = Ok "mrt_01") as -> by (vm_compute in E; by injection E as <- _).
  destruct (rotates_once toy_uuid toy_hash 10 (Some [1%Z]) "h:mrt_b" None 6000 tokens_db d1 d1 "mrt_01"
    tokens_inv (or_introl E) (calls_nil _ _ _) 11%Z (Some [2%Z]) None 6000%Z) as [e He].
  exists "mrt_01", d1, e. split; [reflexivity|exact He].
Defined.

Lemma bearer_lookup_witness :
  fst (account_and_access_by_token toy_uuid toy_hash 10 "msk_a" tokens_db)
    = Ok (Some (mk_account_view "u-alice" "alice@mail.example" None 0, Scoped ["openid"; "offline_access"]))
  /\ fst (account_by_token toy_uuid toy_hash 10 "msk_a" tokens_db) = Ok None
  /\ fst (account_by_token toy_uuid toy_hash 10 "msk_old" tokens_db)
     = Ok (Some (mk_account_view "u-alice" "alice@mail.example" None 0)).
Proof.
  split; [vm_compute; reflexivity|]. split; [vm_compute; reflexivity|].
  assert (NoDup (map p_hash (passwords tokens_db))) as Hp by (apply (bool_decide_unpack _); vm_compute; exact I).
  assert (NoDup (map a_id (accounts (core tokens_db)))) as Ha by (apply (bool_decide_unpack _); vm_compute; exact I).
  apply (bearer_lookup toy_uuid toy_hash 10 tokens_db Hp Ha "msk_old" _ FullAccess).
  vm_compute. reflexivity.
Defined.
