(* ===== verification/Calendars.v ===== *)
(** [crates/owney-storage/src/calendar.rs]: calendars and their events, over the
    calendar tables of src/migrations.rs (steps 14, 16, 17, 19 and 21), which the
    sharing, scheduling and federation modules read and write too.

    A column of JSON text goes through [Serde], which stands for the derived
    [serde_json] codec of its type.  An event is stored once; its recurrence rule
    is kept as text and never expanded. *)
From S2P Require Import Prelude Text Bytes Ident Store.

Open Scope string_scope.

(** [serde_json::to_string] and [from_str] at a type. *)
Class Serde (A : Type) := {
  to_json : A -> string;
  of_json : string -> option A
}.
Class SerdeLaws (A : Type) `{Serde A} := { of_to_json : forall a, of_json (to_json a) = Some a }.

(** ** Rows *)

Record CalendarRow := mk_calendar_row {
  cal_id : string;
  cal_account : string;
  cal_name : string;
  cal_description : option string;
  cal_created_at : Z;
  cal_updated_at : Z
}.

(** [origin] and [origin_federation] are set for events synced in from a peer. *)
Record EventRow := mk_event_row {
  ev_id : string;
  ev_calendar : string;
  ev_title : string;
  ev_description : option string;
  ev_start : Z;
  ev_end : Z;
  ev_rrule : option string;
  ev_created_at : Z;
  ev_updated_at : Z;
  ev_origin : option string;
  ev_origin_federation : option string
}.

Record SharingRow := mk_sharing_row {
  sh_id : string;
  sh_calendar : string;
  sh_account : string;
  sh_type : string;
  sh_permissions : string;
  sh_status : string;
  sh_created_at : Z;
  sh_accepted_at : option Z
}.

Record InvitationRow := mk_invitation_row {
  iv_id : string;
  iv_calendar : string;
  iv_inviter : string;
  iv_invitee_email : string;
  iv_server_url : option string;
  iv_type : string;
  iv_status : string;
  iv_created_at : Z
}.

Record FederationRow := mk_federation_row {
  fr_id : string;
  fr_calendar : string;
  fr_target_email : string;
  fr_target_server_url : string;
  fr_type : string;
  fr_permissions : string;
  fr_status : string;
  fr_sync_token : option string;
  fr_last_sync_at : option Z;
  fr_created_at : Z;
  fr_peer_domain : option string;
  fr_peer_fingerprint : option string;
  fr_capability : option string;
  fr_direction : option string
}.

Record PageRow := mk_page_row {
  pg_id : string;
  pg_account : string;
  pg_slug : string;
  pg_title : string;
  pg_description : option string;
  pg_calendar : string;
  pg_timezone : string;
  pg_availability : string;
  pg_durations : string;
  pg_buffer_before : Z;
  pg_buffer_after : Z;
  pg_min_notice : Z;
  pg_max_per_day : option Z;
  pg_valid_from : option string;
  pg_valid_until : option string;
  pg_status : string;
  pg_created_at : Z;
  pg_updated_at : Z
}.

Record BookingRow := mk_booking_row {
  bk_id : string;
  bk_page : string;
  bk_account : string;
  bk_event : string;
  bk_visitor_name : string;
  bk_visitor_email : string;
  bk_note : option string;
  bk_start : Z;
  bk_end : Z;
  bk_status : string;
  bk_cancel_token : string;
  bk_created_at : Z
}.

Record EventMapRow := mk_map_row {
  mp_federation : string;
  mp_remote_uid : string;
  mp_local_event : string;
  mp_author : string;
  mp_updated_at : Z
}.

Record PeerRow := mk_peer_row {
  pr_domain : string;
  pr_server_url : string;
  pr_cert : list Z;
  pr_fingerprint : string;
  pr_pinned_at : Z;
  pr_last_seen : option Z
}.

Record OutboxRow := mk_outbox_row {
  ob_id : string;
  ob_federation : string;
  ob_peer_domain : string;
  ob_payload : string;
  ob_attempts : Z;
  ob_next_attempt : Z;
  ob_status : string;
  ob_last_error : option string;
  ob_created_at : Z;
  ob_updated_at : Z
}.

(** The account tables of [Store] and the calendar tables. *)
Record CalDb := mk_cal_db {
  cal_core : Db;
  calendars : list CalendarRow;
  events : list EventRow;
  sharings : list SharingRow;
  invitations : list InvitationRow;
  federations : list FederationRow;
  pages : list PageRow;
  bookings : list BookingRow;
  event_map : list EventMapRow;
  fed_peers : list PeerRow;
  nonces : list (string * string * Z);
  outbox : list OutboxRow;
  identity : option (string * string)
}.

Definition empty_cal_db (core : Db) : CalDb :=
  mk_cal_db core [] [] [] [] [] [] [] [] [] [] [] None.

Definition on_calendars f (d : CalDb) : CalDb :=
  mk_cal_db (cal_core d) (f (calendars d)) (events d) (sharings d) (invitations d) (federations d)
    (pages d) (bookings d) (event_map d) (fed_peers d) (nonces d) (outbox d) (identity d).
Definition on_events f (d : CalDb) : CalDb :=
  mk_cal_db (cal_core d) (calendars d) (f (events d)) (sharings d) (invitations d) (federations d)
    (pages d) (bookings d) (event_map d) (fed_peers d) (nonces d) (outbox d) (identity d).
Definition on_sharings f (d : CalDb) : CalDb :=
  mk_cal_db (cal_core d) (calendars d) (events d) (f (sharings d)) (invitations d) (federations d)
    (pages d) (bookings d) (event_map d) (fed_peers d) (nonces d) (outbox d) (identity d).
Definition on_invitations f (d : CalDb) : CalDb :=
  mk_cal_db (cal_core d) (calendars d) (events d) (sharings d) (f (invitations d)) (federations d)
    (pages d) (bookings d) (event_map d) (fed_peers d) (nonces d) (outbox d) (identity d).
Definition on_federations f (d : CalDb) : CalDb :=
  mk_cal_db (cal_core d) (calendars d) (events d) (sharings d) (invitations d) (f (federations d))
    (pages d) (bookings d) (event_map d) (fed_peers d) (nonces d) (outbox d) (identity d).
Definition on_pages f (d : CalDb) : CalDb :=
  mk_cal_db (cal_core d) (calendars d) (events d) (sharings d) (invitations d) (federations d)
    (f (pages d)) (bookings d) (event_map d) (fed_peers d) (nonces d) (outbox d) (identity d).
Definition on_bookings f (d : CalDb) : CalDb :=
  mk_cal_db (cal_core d) (calendars d) (events d) (sharings d) (invitations d) (federations d)
    (pages d) (f (bookings d)) (event_map d) (fed_peers d) (nonces d) (outbox d) (identity d).
Definition on_event_map f (d : CalDb) : CalDb :=
  mk_cal_db (cal_core d) (calendars d) (events d) (sharings d) (invitations d) (federations d)
    (pages d) (bookings d) (f (event_map d)) (fed_peers d) (nonces d) (outbox d) (identity d).
Definition on_fed_peers f (d : CalDb) : CalDb :=
  mk_cal_db (cal_core d) (calendars d) (events d) (sharings d) (invitations d) (federations d)
    (pages d) (bookings d) (event_map d) (f (fed_peers d)) (nonces d) (outbox d) (identity d).
Definition on_nonces f (d : CalDb) : CalDb :=
  mk_cal_db (cal_core d) (calendars d) (events d) (sharings d) (invitations d) (federations d)
    (pages d) (bookings d) (event_map d) (fed_peers d) (f (nonces d)) (outbox d) (identity d).
Definition on_outbox f (d : CalDb) : CalDb :=
  mk_cal_db (cal_core d) (calendars d) (events d) (sharings d) (invitations d) (federations d)
    (pages d) (bookings d) (event_map d) (fed_peers d) (nonces d) (f (outbox d)) (identity d).
Definition on_identity f (d : CalDb) : CalDb :=
  mk_cal_db (cal_core d) (calendars d) (events d) (sharings d) (invitations d) (federations d)
    (pages d) (bookings d) (event_map d) (fed_peers d) (nonces d) (outbox d) (f (identity d)).

Abbreviation KM A := (action CalDb StorageError A).

(** A statement on the account tables. *)
Definition on_cal_core {A} (m : SM A) : KM A :=
  fun d => let '(r, c) := m (cal_core d) in
           (r, mk_cal_db c (calendars d) (events d) (sharings d) (invitations d) (federations d)
                 (pages d) (bookings d) (event_map d) (fed_peers d) (nonces d) (outbox d)
                 (identity d)).

Definition require_cal (test : CalDb -> bool) (what : string) : KM unit :=
  fun d => if test d then (Ok tt, d) else (Err (Sqlite what), d).

(** ** Shared tests *)

Definition FK : string := "FOREIGN KEY constraint failed".

Definition account_known (a : string) (d : CalDb) : bool := account_exists a (cal_core d).
Definition calendar_known (c : string) (d : CalDb) : bool :=
  existsb (fun r => String.eqb (cal_id r) c) (calendars d).
(** [SELECT 1 FROM calendars WHERE id = ? AND account_id = ?]. *)
Definition owns_calendar (c a : string) (d : CalDb) : bool :=
  existsb (fun r => String.eqb (cal_id r) c && String.eqb (cal_account r) a) (calendars d).
Definition event_known (e : string) (d : CalDb) : bool :=
  existsb (fun r => String.eqb (ev_id r) e) (events d).

(** Half-open intervals: [start < to AND end > from]. *)
Definition overlapping (from to s e : Z) : bool := (s <? to)%Z && (from <? e)%Z.

Definition insert_calendar (row : CalendarRow) : KM unit :=
  require_cal (account_known (cal_account row)) FK ;;;
  require_cal (fun d => negb (calendar_known (cal_id row) d)) "UNIQUE constraint failed: calendars.id" ;;;
  modify (on_calendars (fun l => (l ++ [row])%list)).

Definition insert_event (row : EventRow) : KM unit :=
  require_cal (calendar_known (ev_calendar row)) FK ;;;
  require_cal (fun d => negb (event_known (ev_id row) d)) "UNIQUE constraint failed: calendar_events.id" ;;;
  modify (on_events (fun l => (l ++ [row])%list)).

(** ** Views *)

Record Calendar := mk_calendar {
  cv_id : string;
  cv_account_id : string;
  cv_name : string;
  cv_description : option string;
  cv_created_at : Z;
  cv_updated_at : Z
}.

Record CalendarEvent := mk_event {
  ce_id : string;
  ce_calendar_id : string;
  ce_title : string;
  ce_description : option string;
  ce_start : Z;
  ce_end : Z;
  ce_rrule : option string;
  ce_created_at : Z;
  ce_updated_at : Z
}.

Section Calendars.
(** Parsing the text of a UUID; an id that does not parse is replaced by a new
    one, [fresh] of the unreadable text. *)
Variable parse_uuid : string -> option string.
Variable fresh : string -> string.

Definition read_id (s : string) : string := default (fresh s) (parse_uuid s).

Definition row_to_calendar (r : CalendarRow) : Calendar :=
  mk_calendar (read_id (cal_id r)) (read_id (cal_account r)) (cal_name r) (cal_description r)
    (cal_created_at r) (cal_updated_at r).
(** The readers that know the account keep the caller's id. *)
Definition row_to_own_calendar (account : string) (r : CalendarRow) : Calendar :=
  mk_calendar (read_id (cal_id r)) account (cal_name r) (cal_description r) (cal_created_at r)
    (cal_updated_at r).

Definition row_to_event (r : EventRow) : CalendarEvent :=
  mk_event (read_id (ev_id r)) (read_id (ev_calendar r)) (ev_title r) (ev_description r) (ev_start r)
    (ev_end r) (ev_rrule r) (ev_created_at r) (ev_updated_at r).
Definition row_to_event_of (calendar : string) (r : EventRow) : CalendarEvent :=
  mk_event (read_id (ev_id r)) calendar (ev_title r) (ev_description r) (ev_start r)
    (ev_end r) (ev_rrule r) (ev_created_at r) (ev_updated_at r).
(** The page query refuses an unreadable id. *)
Definition row_to_event_checked (r : EventRow) : result StorageError CalendarEvent :=
  match parse_uuid (ev_id r), parse_uuid (ev_calendar r) with
  | Some i, Some c => Ok (mk_event i c (ev_title r) (ev_description r) (ev_start r) (ev_end r)
                            (ev_rrule r) (ev_created_at r) (ev_updated_at r))
  | _, _ => Err (Sqlite "Query is not read-only")
  end.

(** ** Calendars *)

(** [Storage::create_calendar]. *)
Definition create_calendar (calendar_id : string) (now : Z) (account_id name : string)
    (description : option string) : KM Calendar :=
  insert_calendar (mk_calendar_row calendar_id account_id name description now now) ;;;
  ret (mk_calendar calendar_id account_id name description now now).

(** [Storage::get_calendar]. *)
Definition get_calendar (account_id calendar_id : string) : KM (option Calendar) :=
  gets (fun d => option_map (row_to_own_calendar account_id)
    (select_first (fun r => String.eqb (cal_id r) calendar_id && String.eqb (cal_account r) account_id)
       (calendars d))).

(** [Storage::get_calendar_by_id]. *)
Definition get_calendar_by_id (calendar_id : string) : KM (option Calendar) :=
  gets (fun d => option_map row_to_calendar
    (select_first (fun r => String.eqb (cal_id r) calendar_id) (calendars d))).

(** [Storage::list_calendars]. *)
Definition list_calendars (account_id : string) : KM (list Calendar) :=
  gets (fun d => map (row_to_own_calendar account_id)
    (order_by (fun a b => (cal_created_at a <=? cal_created_at b)%Z)
       (List.filter (fun r => String.eqb (cal_account r) account_id) (calendars d)))).

(** ** Events *)

(** [Storage::create_calendar_event]. *)
Definition create_calendar_event (event_id : string) (now : Z) (calendar_id title : string)
    (description : option string) (start end_ : Z) (rrule : option string) : KM CalendarEvent :=
  insert_event (mk_event_row event_id calendar_id title description start end_ rrule now now None None) ;;;
  ret (mk_event event_id calendar_id title description start end_ rrule now now).

(** [Storage::get_calendar_event]. *)
Definition get_calendar_event (event_id : string) : KM (option CalendarEvent) :=
  gets (fun d => option_map row_to_event
    (select_first (fun r => String.eqb (ev_id r) event_id) (events d))).

(** [Storage::list_calendar_events]. *)
Definition list_calendar_events (calendar_id : string) : KM (list CalendarEvent) :=
  gets (fun d => map (row_to_event_of calendar_id)
    (order_by (fun a b => (ev_start a <=? ev_start b)%Z)
       (List.filter (fun r => String.eqb (ev_calendar r) calendar_id) (events d)))).

(** The INNER JOIN of events with their calendars, for one account. *)
Definition account_events (account_id : string) (d : CalDb) : list EventRow :=
  flat_map (fun e => map (fun _ => e)
    (List.filter (fun c => String.eqb (cal_id c) (ev_calendar e)
                           && String.eqb (cal_account c) account_id) (calendars d))) (events d).

(** [Storage::events_overlapping]. *)
Definition events_overlapping (account_id : string) (from to : Z) : KM (list (Z * Z)) :=
  gets (fun d => map (fun e => (ev_start e, ev_end e))
    (order_by (fun a b => (ev_start a <=? ev_start b)%Z)
       (List.filter (fun e => overlapping from to (ev_start e) (ev_end e))
          (account_events account_id d)))).

(** [Storage::update_calendar_event]: only the given columns. *)
Definition update_calendar_event (now : Z) (event_id : string) (title description : option string)
    (start end_ : option Z) (rrule : option string) : KM unit :=
  modify (on_events (update_where (fun r => String.eqb (ev_id r) event_id)
    (fun r => mk_event_row (ev_id r) (ev_calendar r) (default (ev_title r) title)
                (match description with Some x => Some x | None => ev_description r end)
                (default (ev_start r) start) (default (ev_end r) end_)
                (match rrule with Some x => Some x | None => ev_rrule r end)
                (ev_created_at r) now (ev_origin r) (ev_origin_federation r)))).

(** [Storage::delete_calendar_event]: refused while a booking or a synced uid
    refers to the event. *)
Definition event_referenced (event_id : string) (d : CalDb) : bool :=
  existsb (fun b => String.eqb (bk_event b) event_id) (bookings d)
  || existsb (fun m => String.eqb (mp_local_event m) event_id) (event_map d).

Definition delete_calendar_event (event_id : string) : KM unit :=
  require_cal (fun d => negb (event_known event_id d && event_referenced event_id d)) FK ;;;
  modify (on_events (List.filter (fun r => negb (String.eqb (ev_id r) event_id)))).

(** [Storage::list_calendar_events_since]. *)
Definition list_calendar_events_since (calendar_id : string) (since : Z) : KM (list CalendarEvent) :=
  gets (fun d => map row_to_event
    (order_by (fun a b => (ev_updated_at a <=? ev_updated_at b)%Z)
       (List.filter (fun r => String.eqb (ev_calendar r) calendar_id && (since <? ev_updated_at r)%Z)
          (events d)))).

(** ORDER BY updated_at, id. *)
Definition page_leb (a b : EventRow) : bool :=
  (ev_updated_at a <? ev_updated_at b)%Z
  || ((ev_updated_at a =? ev_updated_at b)%Z && String.leb (ev_id a) (ev_id b)).
(** The keyset cursor: strictly after (updated_at, id). *)
Definition after_cursor (t : Z) (i : string) (r : EventRow) : bool :=
  (t <? ev_updated_at r)%Z
  || ((ev_updated_at r =? t)%Z && negb (String.leb (ev_id r) i)).
Definition served (calendar_id : string) (exclude_remote : bool) (r : EventRow) : bool :=
  String.eqb (ev_calendar r) calendar_id
  && (negb exclude_remote
      || match ev_origin r with None => true | Some o => negb (String.eqb o "remote") end).

(** [Storage::list_calendar_events_page]. *)
Definition list_calendar_events_page (calendar_id : string) (after_updated_at : Z) (after_id : string)
    (limit : Z) (exclude_remote : bool) : KM (list CalendarEvent) :=
  fun d => (collect_results (map row_to_event_checked
    (sql_limit (as_i64 limit)
       (order_by page_leb
          (List.filter (fun r => served calendar_id exclude_remote r
                                 && after_cursor after_updated_at after_id r) (events d))))), d).

(** [Storage::create_remote_calendar_event]. *)
Definition create_remote_calendar_event (event_id : string) (now : Z) (calendar_id federation_id title : string)
    (description : option string) (start end_ : Z) (rrule : option string) : KM string :=
  insert_event (mk_event_row event_id calendar_id title description start end_ rrule now now
                  (Some "remote") (Some federation_id)) ;;;
  ret event_id.

(** [Storage::update_remote_calendar_event]. *)
Definition update_remote_calendar_event (now : Z) (event_id title : string)
    (description : option string) (start end_ : Z) (rrule : option string) : KM unit :=
  modify (on_events (update_where
    (fun r => String.eqb (ev_id r) event_id && opt_eqb (ev_origin r) (Some "remote"))
    (fun r => mk_event_row (ev_id r) (ev_calendar r) title description start end_ rrule
                (ev_created_at r) now (ev_origin r) (ev_origin_federation r)))).

(** [Storage::get_calendar_events_by_ids]. *)
Definition get_calendar_events_by_ids (calendar_id : string) (event_ids : list string)
  : KM (list CalendarEvent) :=
  match event_ids with
  | [] => ret []
  | _ => gets (fun d => map row_to_event
           (List.filter (fun r => String.eqb (ev_calendar r) calendar_id
                                  && existsb (String.eqb (ev_id r)) event_ids) (events d)))
  end.

End Calendars.
