(* ===== verification/Sharing.v ===== *)
(** [crates/owney-storage/src/calendar_sharing.rs]: sharing a calendar with an
    account of this server, the decision which permissions an account has on a
    calendar, invitations, and the rows of calendar federations.

    Permissions and sharing types are stored as text; a permissions column that
    does not decode is an error, an unknown sharing type reads as the weaker one. *)
From S2P Require Import Prelude Text Bytes Ident Store Calendars.

Open Scope string_scope.

Inductive SharingType := SharingOnly | Delegation.

Definition sharing_as_str (t : SharingType) : string :=
  match t with SharingOnly => "sharing" | Delegation => "delegation" end.
Definition sharing_of_str (s : string) : SharingType :=
  if String.eqb s "delegation" then Delegation else SharingOnly.

Record Permissions := mk_permissions {
  view_calendar : bool;
  view_events : bool;
  edit_events : bool;
  delete_events : bool;
  change_sharing : bool;
  admin : bool
}.

Definition permissions_sharing : Permissions := mk_permissions true true false false false false.
Definition permissions_delegation : Permissions := mk_permissions true true true true true true.
Definition permissions_owner : Permissions := permissions_delegation.
Definition permissions_of (t : SharingType) : Permissions :=
  match t with SharingOnly => permissions_sharing | Delegation => permissions_delegation end.

Record CalendarSharing := mk_sharing {
  cs_id : string;
  cs_calendar : string;
  cs_account : string;
  cs_type : SharingType;
  cs_permissions : Permissions;
  cs_status : string;
  cs_created_at : Z;
  cs_accepted_at : option Z
}.

Record CalendarFederation := mk_federation {
  fd_id : string;
  fd_calendar : string;
  fd_target_email : string;
  fd_target_server_url : string;
  fd_type : SharingType;
  fd_permissions : Permissions;
  fd_status : string;
  fd_last_sync_at : option Z;
  fd_sync_token : option string;
  fd_created_at : Z;
  fd_peer_domain : option string;
  fd_peer_fingerprint : option string;
  fd_capability : option string;
  fd_direction : option string
}.

Record CalendarInvitation := mk_invitation {
  ci_id : string;
  ci_calendar : string;
  ci_inviter : string;
  ci_invitee_email : string;
  ci_server_url : option string;
  ci_type : SharingType;
  ci_status : string;
  ci_message : option string;
  ci_created_at : Z
}.

Definition conversion {A} : result StorageError A := Err (Sqlite "conversion failure").

Section Sharing.
Context `{Serde Permissions}.
Variable parse_uuid : string -> option string.

(** [parse_permissions] and [parse_id]. *)
Definition parse_permissions (json : string) : result StorageError Permissions :=
  match of_json json with Some p => Ok p | None => conversion end.
Definition parse_id (raw : string) : result StorageError string :=
  match parse_uuid raw with Some i => Ok i | None => conversion end.

(** [federation_from_row]. *)
Definition federation_from_row (r : FederationRow) : result StorageError CalendarFederation :=
  calendar <-? parse_id (fr_calendar r) ;;
  permissions <-? parse_permissions (fr_permissions r) ;;
  Ok (mk_federation (fr_id r) calendar (fr_target_email r) (fr_target_server_url r)
        (sharing_of_str (fr_type r)) permissions (fr_status r) (fr_last_sync_at r) (fr_sync_token r)
        (fr_created_at r) (fr_peer_domain r) (fr_peer_fingerprint r) (fr_capability r)
        (fr_direction r)).

(** ** Sharing with an account of this server *)

Definition insert_sharing (row : SharingRow) : KM unit :=
  require_cal (fun d => calendar_known (sh_calendar row) d && account_known (sh_account row) d) FK ;;;
  require_cal (fun d => negb (existsb (fun r => String.eqb (sh_id r) (sh_id row)
       || (String.eqb (sh_calendar r) (sh_calendar row) && String.eqb (sh_account r) (sh_account row)))
       (sharings d))) "UNIQUE constraint failed: calendar_sharing" ;;;
  modify (on_sharings (fun l => (l ++ [row])%list)).

(** [Storage::share_calendar]. *)
Definition share_calendar (sharing_id : string) (now : Z) (calendar_id owner_account_id target_account_id : string)
    (t : SharingType) : KM CalendarSharing :=
  owns <- gets (owns_calendar calendar_id owner_account_id) ;;
  if negb owns then fail NotAuthorized
  else
    insert_sharing (mk_sharing_row sharing_id calendar_id target_account_id (sharing_as_str t)
                      (to_json (permissions_of t)) "pending" now None) ;;;
    ret (mk_sharing sharing_id calendar_id target_account_id t (permissions_of t) "pending" now None).

Definition set_sharing_status (status : string) (accepted : option Z) (r : SharingRow) : SharingRow :=
  mk_sharing_row (sh_id r) (sh_calendar r) (sh_account r) (sh_type r) (sh_permissions r) status
    (sh_created_at r) (match accepted with Some t => Some t | None => sh_accepted_at r end).

(** An UPDATE that must touch a row, or the caller is not authorized. *)
Definition update_sharing (test : SharingRow -> bool) (f : SharingRow -> SharingRow) : KM unit :=
  affected <- gets (fun d => existsb test (sharings d)) ;;
  modify (on_sharings (update_where test f)) ;;;
  if affected then ret tt else fail NotAuthorized.

Definition addressed (sharing_id account_id : string) (r : SharingRow) : bool :=
  String.eqb (sh_id r) sharing_id && String.eqb (sh_account r) account_id.

(** [Storage::accept_sharing] and [reject_sharing]. *)
Definition accept_sharing (now : Z) (sharing_id account_id : string) : KM unit :=
  update_sharing (addressed sharing_id account_id) (set_sharing_status "accepted" (Some now)).
Definition reject_sharing (sharing_id account_id : string) : KM unit :=
  update_sharing (addressed sharing_id account_id) (set_sharing_status "rejected" None).

(** [Storage::get_shared_calendars]. *)
Definition get_shared_calendars (account_id : string) : KM (list CalendarSharing) :=
  fun d => (collect_results (map (fun r =>
      permissions <-? parse_permissions (sh_permissions r) ;;
      calendar <-? parse_id (sh_calendar r) ;;
      Ok (mk_sharing (sh_id r) calendar account_id (sharing_of_str (sh_type r)) permissions
            (sh_status r) (sh_created_at r) (sh_accepted_at r)))
    (List.filter (fun r => String.eqb (sh_account r) account_id
                           && (String.eqb (sh_status r) "pending" || String.eqb (sh_status r) "accepted"))
       (sharings d))), d).

(** [Storage::calendar_access]. *)
Definition accepted_share (calendar_id account_id : string) (r : SharingRow) : bool :=
  String.eqb (sh_calendar r) calendar_id && String.eqb (sh_account r) account_id
  && String.eqb (sh_status r) "accepted".

Definition calendar_access (account_id calendar_id : string) : KM (option Permissions) :=
  is_owner <- gets (owns_calendar calendar_id account_id) ;;
  if is_owner : bool then ret (Some permissions_owner)
  else
    row <- gets (fun d => select_first (accepted_share calendar_id account_id) (sharings d)) ;;
    match row with
    | Some r => p <- lift (parse_permissions (sh_permissions r)) ;; ret (Some p)
    | None => ret None
    end.

(** [Storage::list_accepted_shared_calendar_ids]. *)
Definition list_accepted_shared_calendar_ids (account_id : string) : KM (list (string * Permissions)) :=
  fun d => (collect_results (map (fun r =>
      calendar <-? parse_id (sh_calendar r) ;;
      permissions <-? parse_permissions (sh_permissions r) ;;
      Ok (calendar, permissions))
    (List.filter (fun r => String.eqb (sh_account r) account_id && String.eqb (sh_status r) "accepted")
       (sharings d))), d).

(** ** Invitations *)

Definition insert_invitation (row : InvitationRow) : KM unit :=
  require_cal (fun d => calendar_known (iv_calendar row) d && account_known (iv_inviter row) d) FK ;;;
  require_cal (fun d => negb (existsb (fun r => String.eqb (iv_id r) (iv_id row)) (invitations d)))
    "UNIQUE constraint failed: calendar_invitations.id" ;;;
  modify (on_invitations (fun l => (l ++ [row])%list)).

(** [Storage::create_federation_invitation]. *)
Definition create_federation_invitation (invitation_id : string) (now : Z)
    (calendar_id inviter_account_id target_email : string) (target_server_url : option string)
    (t : SharingType) : KM CalendarInvitation :=
  insert_invitation (mk_invitation_row invitation_id calendar_id inviter_account_id target_email
                       target_server_url (sharing_as_str t) "pending" now) ;;;
  ret (mk_invitation invitation_id calendar_id inviter_account_id target_email target_server_url t
         "pending" None now).

(** [invitee_email IN (SELECT email FROM accounts WHERE id = ?)]: the column of
    the invitation has the default collation, so the texts must be equal. *)
Definition invited (account_id : string) (d : CalDb) (r : InvitationRow) : bool :=
  existsb (fun a => String.eqb (a_id a) account_id && String.eqb (a_email a) (iv_invitee_email r))
    (accounts (cal_core d)).

(** [Storage::get_pending_invitations]. *)
Definition get_pending_invitations (account_id : string) : KM (list CalendarInvitation) :=
  fun d => (collect_results (map (fun r =>
      calendar <-? parse_id (iv_calendar r) ;;
      inviter <-? parse_id (iv_inviter r) ;;
      Ok (mk_invitation (iv_id r) calendar inviter (iv_invitee_email r) (iv_server_url r)
            (sharing_of_str (iv_type r)) (iv_status r) None (iv_created_at r)))
    (List.filter (fun r => invited account_id d r && String.eqb (iv_status r) "pending")
       (invitations d))), d).

(** [Storage::accept_federation_invitation] and [reject_invitation]. *)
Definition answer_invitation (status invitation_id account_id : string) : KM unit :=
  test <- gets (fun d r => String.eqb (iv_id r) invitation_id && String.eqb (iv_status r) "pending"
                           && invited account_id d r) ;;
  affected <- gets (fun d => existsb test (invitations d)) ;;
  modify (on_invitations (update_where test
    (fun r => mk_invitation_row (iv_id r) (iv_calendar r) (iv_inviter r) (iv_invitee_email r)
                (iv_server_url r) (iv_type r) status (iv_created_at r)))) ;;;
  if affected : bool then ret tt else fail NotAuthorized.

Definition accept_federation_invitation : string -> string -> KM unit := answer_invitation "accepted".
Definition reject_invitation : string -> string -> KM unit := answer_invitation "rejected".

(** ** Federations *)

Definition insert_federation (row : FederationRow) : KM unit :=
  require_cal (calendar_known (fr_calendar row)) FK ;;;
  require_cal (fun d => negb (existsb (fun r => String.eqb (fr_id r) (fr_id row)
       || (String.eqb (fr_calendar r) (fr_calendar row)
           && String.eqb (fr_target_email r) (fr_target_email row))) (federations d)))
    "UNIQUE constraint failed: calendar_federation" ;;;
  modify (on_federations (fun l => (l ++ [row])%list)).

(** [Storage::create_outbound_federation]; [cap1], [cap2] are two random UUIDs. *)
Definition create_outbound_federation (fed_id cap1 cap2 : string) (now : Z)
    (calendar_id target_email target_server_url : string) (t : SharingType)
    (peer_domain peer_fingerprint : string) : KM (string * string) :=
  let capability := cap1 +:+ cap2 in
  insert_federation (mk_federation_row fed_id calendar_id target_email target_server_url
    (sharing_as_str t) (to_json (permissions_of t)) "accepted" None None now (Some peer_domain)
    (Some peer_fingerprint) (Some capability) (Some "outbound")) ;;;
  ret (fed_id, capability).

(** [Storage::create_inbound_federation]. *)
Definition create_inbound_federation (now : Z) (federation_id calendar_id source_email source_server_url : string)
    (t : SharingType) (peer_domain peer_fingerprint capability_secret : string) : KM unit :=
  insert_federation (mk_federation_row federation_id calendar_id source_email source_server_url
    (sharing_as_str t) (to_json (permissions_of t)) "pending" None None now (Some peer_domain)
    (Some peer_fingerprint) (Some capability_secret) (Some "inbound")).

Definition set_federation_status (status : string) (r : FederationRow) : FederationRow :=
  mk_federation_row (fr_id r) (fr_calendar r) (fr_target_email r) (fr_target_server_url r) (fr_type r)
    (fr_permissions r) status (fr_sync_token r) (fr_last_sync_at r) (fr_created_at r)
    (fr_peer_domain r) (fr_peer_fingerprint r) (fr_capability r) (fr_direction r).

Definition pending_inbound (account_id : string) (d : CalDb) (r : FederationRow) : bool :=
  opt_eqb (fr_direction r) (Some "inbound") && String.eqb (fr_status r) "pending"
  && owns_calendar (fr_calendar r) account_id d.

(** [Storage::accept_inbound_federation] and [reject_inbound_federation]. *)
Definition answer_federation (status federation_id account_id : string) : KM unit :=
  test <- gets (fun d r => String.eqb (fr_id r) federation_id && pending_inbound account_id d r) ;;
  affected <- gets (fun d => existsb test (federations d)) ;;
  modify (on_federations (update_where test (set_federation_status status))) ;;;
  if affected : bool then ret tt else fail NotAuthorized.

Definition accept_inbound_federation : string -> string -> KM unit := answer_federation "accepted".
Definition reject_inbound_federation : string -> string -> KM unit := answer_federation "rejected".

(** [Storage::get_federation]. *)
Definition get_federation (federation_id : string) : KM (option CalendarFederation) :=
  fun d => (match select_first (fun r => String.eqb (fr_id r) federation_id) (federations d) with
            | Some r => f <-? federation_from_row r ;; Ok (Some f)
            | None => Ok None
            end, d).

(** [Storage::update_federation_sync_token]. *)
Definition update_federation_sync_token (now : Z) (federation_id : string) (token : option string) : KM unit :=
  modify (on_federations (update_where (fun r => String.eqb (fr_id r) federation_id)
    (fun r => mk_federation_row (fr_id r) (fr_calendar r) (fr_target_email r) (fr_target_server_url r)
                (fr_type r) (fr_permissions r) "syncing" token (Some now) (fr_created_at r)
                (fr_peer_domain r) (fr_peer_fingerprint r) (fr_capability r) (fr_direction r)))).

(** [Storage::list_calendar_event_ids_since]. *)
Definition list_calendar_event_ids_since (calendar_id : string) (since : Z) : KM (list (string * bool)) :=
  fun d => (collect_results (map (fun r => i <-? parse_id (ev_id r) ;; Ok (i, false))
    (order_by (fun a b => (ev_updated_at a <=? ev_updated_at b)%Z)
       (List.filter (fun r => String.eqb (ev_calendar r) calendar_id && (since <? ev_updated_at r)%Z)
          (events d)))), d).

(** [Storage::list_pending_inbound_federations]. *)
Definition list_pending_inbound_federations (account_id : string) : KM (list CalendarFederation) :=
  fun d => (collect_results (map federation_from_row
    (order_by (fun a b => (fr_created_at a <=? fr_created_at b)%Z)
       (List.filter (pending_inbound account_id d) (federations d)))), d).

(** ORDER BY last_sync_at ASC NULLS FIRST. *)
Definition last_sync_leb (a b : FederationRow) : bool :=
  match fr_last_sync_at a, fr_last_sync_at b with
  | None, _ => true
  | Some _, None => false
  | Some x, Some y => (x <=? y)%Z
  end.

(** [Storage::list_active_federations]. *)
Definition active_status (s : string) : bool := String.eqb s "accepted" || String.eqb s "syncing".
Definition list_active_federations : KM (list CalendarFederation) :=
  fun d => (collect_results (map federation_from_row (order_by last_sync_leb
    (List.filter (fun r => active_status (fr_status r) && opt_eqb (fr_direction r) (Some "inbound"))
       (federations d)))), d).

(** [Storage::mark_federation_error]. *)
Definition mark_federation_error (federation_id : string) : KM unit :=
  modify (on_federations (update_where (fun r => String.eqb (fr_id r) federation_id)
    (set_federation_status "error"))).

End Sharing.
