(* ===== verification/FedStore.v ===== *)
(** [crates/owney-storage/src/federation_store.rs]: the identity of this server,
    pinned peers, the nonces already seen, the map from a peer's event uids to
    local events, and the outbox of notifications. *)
From S2P Require Import Prelude Text Bytes Ident Store Calendars.

Open Scope string_scope.

Record PeerServer := mk_peer_server {
  ps_domain : string;
  ps_server_url : string;
  ps_cert : list Z;
  ps_fingerprint : string;
  ps_pinned_at : Z
}.

Record FederationOutboxItem := mk_outbox_item {
  oi_id : string;
  oi_federation : string;
  oi_peer_domain : string;
  oi_payload : string;
  oi_attempts : Z
}.

Section FedStore.
Variable parse_uuid : string -> option string.

(** ** Identity *)

(** [Storage::server_identity]: the hex text must be a blob id. *)
Definition server_identity : KM (option (string * BlobId)) :=
  fun d => (match identity d with
            | None => Ok None
            | Some (fp, hex) =>
                match from_str hex with
                | Parsed b => Ok (Some (fp, b))
                | _ => Err (Corrupt ("bad server identity blob id " +:+ hex))
                end
            end, d).

(** [Storage::set_server_identity]. *)
Definition set_server_identity (fingerprint : string) (blob_id : BlobId) : KM unit :=
  modify (on_identity (fun _ => Some (fingerprint, to_hex blob_id))).

(** ** Peers *)

Definition peer_key (domain : string) : string := to_lowercase (trim domain).

(** [Storage::upsert_federation_peer]: [true] when a pinned fingerprint changed. *)
Definition upsert_federation_peer (now : Z) (domain server_url : string) (cert : list Z)
    (fingerprint : string) : KM bool :=
  let domain := peer_key domain in
  let here := fun r => String.eqb (pr_domain r) domain in
  previous <- gets (fun d => option_map pr_fingerprint (select_first here (fed_peers d))) ;;
  modify (on_fed_peers (fun l =>
    if existsb here l
    then update_where here (fun r => mk_peer_row (pr_domain r) server_url cert fingerprint
                                       (pr_pinned_at r) (Some now)) l
    else (l ++ [mk_peer_row domain server_url cert fingerprint now (Some now)])%list)) ;;;
  ret (match previous with Some old => negb (String.eqb old fingerprint) | None => false end).

(** [Storage::federation_peer]. *)
Definition federation_peer (domain : string) : KM (option PeerServer) :=
  let domain := peer_key domain in
  gets (fun d => option_map (fun r => mk_peer_server (pr_domain r) (pr_server_url r) (pr_cert r)
                                        (pr_fingerprint r) (pr_pinned_at r))
    (select_first (fun r => String.eqb (pr_domain r) domain) (fed_peers d))).

(** ** Nonces *)

Definition seen_nonce (fp nonce : string) (n : string * string * Z) : bool :=
  String.eqb (fst (fst n)) fp && String.eqb (snd (fst n)) nonce.

(** [Storage::check_and_record_nonce]: [true] when it was fresh. *)
Definition check_and_record_nonce (sender_fp nonce : string) (expires_at : Z) : KM bool :=
  fun d => if existsb (seen_nonce sender_fp nonce) (nonces d) then (Ok false, d)
           else (Ok true, on_nonces (fun l => (l ++ [(sender_fp, nonce, expires_at)])%list) d).

(** [Storage::prune_expired_nonces]. *)
Definition prune_expired_nonces (now : Z) : KM nat :=
  n <- gets (fun d => length (List.filter (fun n => (snd n <=? now)%Z) (nonces d))) ;;
  modify (on_nonces (List.filter (fun n => negb (snd n <=? now)%Z))) ;;;
  ret n.

(** ** Uids of a peer *)

Definition map_key (federation_id uid : string) (m : EventMapRow) : bool :=
  String.eqb (mp_federation m) federation_id && String.eqb (mp_remote_uid m) uid.

(** [Storage::federation_local_event]. *)
Definition federation_local_event (federation_id remote_uid : string) : KM (option string) :=
  fun d => (match select_first (map_key federation_id remote_uid) (event_map d) with
            | None => Ok None
            | Some m => match parse_uuid (mp_local_event m) with
                        | Some i => Ok (Some i)
                        | None => Err (Corrupt ("bad mapped event id " +:+ mp_local_event m))
                        end
            end, d).

(** [Storage::set_federation_event_map]. *)
Definition set_federation_event_map (now : Z) (federation_id remote_uid local_event_id author : string) : KM unit :=
  require_cal (fun d => existsb (fun f => String.eqb (fr_id f) federation_id) (federations d)
                        && event_known local_event_id d) FK ;;;
  modify (on_event_map (fun l =>
    if existsb (map_key federation_id remote_uid) l
    then update_where (map_key federation_id remote_uid)
           (fun m => mk_map_row (mp_federation m) (mp_remote_uid m) local_event_id author now) l
    else (l ++ [mk_map_row federation_id remote_uid local_event_id author now])%list)).

(** ** The outbox *)

(** [Storage::fed_enqueue]. *)
Definition fed_enqueue (id : string) (now : Z) (federation_id peer_domain payload : string) : KM string :=
  require_cal (fun d => existsb (fun f => String.eqb (fr_id f) federation_id) (federations d)) FK ;;;
  require_cal (fun d => negb (existsb (fun o => String.eqb (ob_id o) id) (outbox d)))
    "UNIQUE constraint failed: federation_outbox.id" ;;;
  modify (on_outbox (fun l =>
    (l ++ [mk_outbox_row id federation_id peer_domain payload 0 now "queued" None now now])%list)) ;;;
  ret id.

Definition outbox_due (now : Z) (o : OutboxRow) : bool :=
  String.eqb (ob_status o) "queued" && (ob_next_attempt o <=? now)%Z.

Definition due_ids (now limit : Z) (d : CalDb) : list string :=
  map ob_id (sql_limit (as_i64 limit)
    (order_by (fun a b => (ob_next_attempt a <=? ob_next_attempt b)%Z)
       (List.filter (outbox_due now) (outbox d)))).

Definition set_outbox (status : string) (now : Z) (o : OutboxRow) : OutboxRow :=
  mk_outbox_row (ob_id o) (ob_federation o) (ob_peer_domain o) (ob_payload o) (ob_attempts o)
    (ob_next_attempt o) status (ob_last_error o) (ob_created_at o) now.

(** [Storage::fed_due_items]: the rows claimed, as the UPDATE returns them. *)
Definition fed_due_items (now limit : Z) : KM (list FederationOutboxItem) :=
  ids <- gets (due_ids now limit) ;;
  let claimed := fun o => existsb (String.eqb (ob_id o)) ids in
  modify (on_outbox (update_where claimed (set_outbox "sending" now))) ;;;
  gets (fun d => map (fun o => mk_outbox_item (ob_id o) (ob_federation o) (ob_peer_domain o)
                                 (ob_payload o) (ob_attempts o))
    (List.filter claimed (outbox d))).

(** [2_i64.saturating_pow(attempts.min(12) as u32).min(3600)]. *)
Definition fed_backoff (attempts : Z) : Z :=
  Z.min (Z.min (2 ^ (Z.min attempts 12 mod 2 ^ 32)) i64_max) 3600.

(** [Storage::fed_record_attempt]. *)
Definition fed_record_attempt (now : Z) (id : string) (success : bool) (error : option string)
    (max_attempts : Z) : KM unit :=
  let here := fun o => String.eqb (ob_id o) id in
  if success then modify (on_outbox (List.filter (fun o => negb (here o))))
  else
    row <- gets (fun d => select_first here (outbox d)) ;;
    match row with
    | None => fail (Sqlite "Query returned no rows")
    | Some o =>
        let attempts := (ob_attempts o + 1)%Z in
        if (max_attempts <=? attempts)%Z
        then modify (on_outbox (update_where here (fun o =>
               mk_outbox_row (ob_id o) (ob_federation o) (ob_peer_domain o) (ob_payload o) attempts
                 (ob_next_attempt o) "failed" error (ob_created_at o) now)))
        else modify (on_outbox (update_where here (fun o =>
               mk_outbox_row (ob_id o) (ob_federation o) (ob_peer_domain o) (ob_payload o) attempts
                 (now + fed_backoff attempts) "queued" error (ob_created_at o) now)))
    end.

(** [Storage::fed_reset_stale_claims]. *)
Definition fed_reset_stale_claims (now : Z) : KM nat :=
  n <- gets (fun d => length (List.filter (fun o => String.eqb (ob_status o) "sending") (outbox d))) ;;
  modify (on_outbox (update_where (fun o => String.eqb (ob_status o) "sending") (set_outbox "queued" now))) ;;;
  ret n.

(** [Storage::outbound_federations_for_calendar]. *)
Definition outbound_federations_for_calendar (calendar_id : string) : KM (list (string * string)) :=
  gets (fun d => flat_map (fun r =>
      if String.eqb (fr_calendar r) calendar_id && opt_eqb (fr_direction r) (Some "outbound")
         && (String.eqb (fr_status r) "accepted" || String.eqb (fr_status r) "syncing")
      then match fr_peer_domain r with Some p => [(fr_id r, p)] | None => [] end
      else []) (federations d)).

End FedStore.
