(* ===== verification/Scheduling.v ===== *)
(** [crates/owney-storage/src/scheduling.rs]: public scheduling pages, their
    availability document, and the transaction that books a slot.

    A [BTreeMap] is a [gmap], read in key order where the order shows.  The JSON
    columns go through [Serde]; chrono-tz's table of zone names is a parameter. *)
From S2P Require Import Prelude Text Bytes Ident Store Calendars.

Open Scope string_scope.

Definition WEEKDAY_KEYS : list string := ["mon"; "tue"; "wed"; "thu"; "fri"; "sat"; "sun"].

(** ** The availability document *)

Record TimeWindow := mk_window { w_start : string; w_end : string }.

Definition bad_time (value : string) : StorageError :=
  BadInput ("bad time " +:+ str_of quote +:+ value +:+ str_of quote).

(** The closure [parse] of [TimeWindow::parse_minutes]. *)
Definition parse_clock (value : string) : result StorageError Z :=
  match split_once ":" value with
  | None => Err (bad_time value)
  | Some (h, m) =>
      match parse_u32 h, parse_u32 m with
      | Some h, Some m => if (h <? 24)%Z && (m <? 60)%Z && (h <? 100)%Z then Ok (h * 60 + m)%Z
                          else Err (bad_time value)
      | _, _ => Err (bad_time value)
      end
  end.

(** [TimeWindow::parse_minutes]. *)
Definition parse_minutes (w : TimeWindow) : result StorageError (Z * Z) :=
  s <-? parse_clock (w_start w) ;; e <-? parse_clock (w_end w) ;; Ok (s, e).

Abbreviation WindowMap := (gmap string (list TimeWindow)).

Record Availability := mk_availability {
  av_version : Z;
  weekly : WindowMap;
  overrides : WindowMap
}.

(** The pairs of a [BTreeMap] in key order. *)
Definition in_key_order (m : WindowMap) : list (string * list TimeWindow) :=
  order_by (fun a b => String.leb (fst a) (fst b)) (map_to_list m).

(** [Availability::default_business_hours]. *)
Definition default_business_hours : Availability :=
  mk_availability 1
    (list_to_map (map (fun day => (day, [mk_window "09:00" "17:00"])) ["mon"; "tue"; "wed"; "thu"; "fri"]))
    ∅.

(** [parse_date]: both dashes are ASCII, so the slices are at boundaries. *)
Definition byte_at (n : nat) (s : string) : option ascii := String.get n s.
Definition parse_date (value : string) : option (Z * Z * Z) :=
  if negb (String.length value =? 10)%nat
     || negb (bool_decide (byte_at 4 value = Some "-"%char))
     || negb (bool_decide (byte_at 7 value = Some "-"%char))
  then None
  else
    year ← parse_i32 (String.substring 0 4 value);
    month ← parse_u32 (String.substring 5 2 value);
    day ← parse_u32 (String.substring 8 2 value);
    if (1 <=? month)%Z && (month <=? 12)%Z && (1 <=? day)%Z && (day <=? 31)%Z
    then Some (year, month, day) else None.

(** The loop over the windows of one day. *)
Fixpoint validate_windows (previous_end : Z) (windows : list TimeWindow) : result StorageError unit :=
  match windows with
  | [] => Ok tt
  | w :: rest =>
      se <-? parse_minutes w ;;
      let '(s, e) := se in
      if (e <=? s)%Z
      then Err (BadInput ("window " +:+ w_start w +:+ "-" +:+ w_end w +:+ " is empty or reversed"))
      else if (s <? previous_end)%Z
      then Err (BadInput "windows must be sorted and non-overlapping")
      else validate_windows e rest
  end.

Fixpoint first_error {A} (f : A -> result StorageError unit) (l : list A) : result StorageError unit :=
  match l with
  | [] => Ok tt
  | a :: l' => _ <-? f a ;; first_error f l'
  end.

(** [Availability::validate]. *)
Definition validate (a : Availability) : result StorageError unit :=
  if negb (av_version a =? 1)%Z
  then Err (BadInput ("unsupported availability version " +:+ pretty (av_version a)))
  else
    _ <-? first_error (fun p => if existsb (String.eqb (fst p)) WEEKDAY_KEYS then Ok tt
            else Err (BadInput ("unknown weekday " +:+ str_of quote +:+ fst p +:+ str_of quote)))
          (in_key_order (weekly a)) ;;
    _ <-? first_error (fun p => match parse_date (fst p) with
            | Some _ => Ok tt
            | None => Err (BadInput ("bad override date " +:+ str_of quote +:+ fst p +:+ str_of quote
                                     +:+ " (want YYYY-MM-DD)"))
            end) (in_key_order (overrides a)) ;;
    first_error (fun p => validate_windows 0 (snd p))
      (in_key_order (weekly a) ++ in_key_order (overrides a))%list.

(** ** Pages *)

Inductive PageStatus := Active | Paused.
Definition status_as_str (s : PageStatus) : string :=
  match s with Active => "active" | Paused => "paused" end.
Definition status_parse (s : string) : result StorageError PageStatus :=
  if String.eqb s "active" then Ok Active
  else if String.eqb s "paused" then Ok Paused
  else Err (Corrupt ("bad page status " +:+ str_of quote +:+ s +:+ str_of quote)).

Record SchedulingPage := mk_page {
  sp_id : string;
  sp_account : string;
  sp_slug : string;
  sp_title : string;
  sp_description : option string;
  sp_calendar : string;
  sp_timezone : string;
  sp_availability : Availability;
  sp_durations : list Z;
  sp_buffer_before : Z;
  sp_buffer_after : Z;
  sp_min_notice : Z;
  sp_max_per_day : option Z;
  sp_valid_from : option string;
  sp_valid_until : option string;
  sp_status : PageStatus;
  sp_created_at : Z;
  sp_updated_at : Z
}.

Record NewSchedulingPage := mk_new_page {
  np_slug : string;
  np_title : string;
  np_description : option string;
  np_calendar : string;
  np_timezone : string;
  np_availability : Availability;
  np_durations : list Z;
  np_buffer_before : Z;
  np_buffer_after : Z;
  np_min_notice : Z;
  np_max_per_day : option Z;
  np_valid_from : option string;
  np_valid_until : option string
}.

Record SchedulingPagePatch := mk_patch {
  pt_title : option string;
  pt_description : option (option string);
  pt_timezone : option string;
  pt_availability : option Availability;
  pt_durations : option (list Z);
  pt_buffer_before : option Z;
  pt_buffer_after : option Z;
  pt_min_notice : option Z;
  pt_max_per_day : option (option Z);
  pt_valid_from : option (option string);
  pt_valid_until : option (option string);
  pt_status : option PageStatus
}.

Record Booking := mk_booking {
  bo_id : string;
  bo_page : string;
  bo_account : string;
  bo_event : string;
  bo_visitor_name : string;
  bo_visitor_email : string;
  bo_note : option string;
  bo_start : Z;
  bo_end : Z;
  bo_status : string;
  bo_created_at : Z
}.

Record BookSlotRequest := mk_request {
  rq_page : string;
  rq_visitor_name : string;
  rq_visitor_email : string;
  rq_note : option string;
  rq_start : Z;
  rq_end : Z;
  rq_busy_from : Z;
  rq_busy_to : Z;
  rq_event_title : string;
  rq_event_description : option string;
  rq_day_bounds : Z * Z
}.

(** [validate_slug]. *)
Definition slug_char (c : ascii) : bool :=
  (Ascii.leb "a" c && Ascii.leb c "z") || is_digit c || Ascii.eqb c "-".
Definition ends_with_char (c : ascii) (s : string) : bool :=
  bool_decide (String.get (String.length s - 1) s = Some c).
Definition validate_slug (slug : string) : result StorageError unit :=
  let n := String.length slug in
  if negb ((2 <=? n)%nat && (n <=? 64)%nat) || negb (str_all slug_char slug)
     || starts_with "-" slug || ends_with_char "-" slug
  then Err (BadInput ("slug " +:+ str_of quote +:+ slug +:+ str_of quote
                      +:+ " must be 2-64 chars of [a-z0-9-], not edged with '-'"))
  else Ok tt.

Definition title_ok (title : string) : bool :=
  negb (String.eqb title "") && (String.length title <=? 200)%nat.
Definition bad_title : StorageError := BadInput "title must be 1-200 chars".

(** [value as u32]. *)
Definition as_u32 (z : Z) : Z := z mod 2 ^ 32.

Section Scheduling.
Context `{Serde Availability} `{Serde (list Z)}.
Variable parse_uuid : string -> option string.
(** [timezone.parse::<chrono_tz::Tz>()]. *)
Variable known_zone : string -> bool.

(** [validate_common]. *)
Definition duration_ok (d : Z) : bool := (5 <=? d)%Z && (d <=? 480)%Z.
Definition validate_common (timezone : string) (availability : Availability) (durations : list Z)
    (buffer_before buffer_after min_notice : Z) (valid_from valid_until : option string)
  : result StorageError unit :=
  if negb (known_zone timezone)
  then Err (BadInput ("unknown IANA timezone " +:+ str_of quote +:+ timezone +:+ str_of quote))
  else
    _ <-? validate availability ;;
    if (match durations with [] => true | _ => false end) || existsb (fun d => negb (duration_ok d)) durations
    then Err (BadInput "durations must be 1+ values between 5 and 480 minutes")
    else if (24 * 60 <? buffer_before)%Z || (24 * 60 <? buffer_after)%Z || (90 * 24 * 60 <? min_notice)%Z
    then Err (BadInput "buffers must be <= 24h and notice <= 90 days")
    else
      _ <-? first_error (fun date => match parse_date date with
              | Some _ => Ok tt
              | None => Err (BadInput ("bad date " +:+ str_of quote +:+ date +:+ str_of quote
                                       +:+ " (want YYYY-MM-DD)"))
              end) (option_list valid_from ++ option_list valid_until)%list ;;
      match valid_from, valid_until with
      | Some from, Some until => if String.leb from until then Ok tt
                                 else Err (BadInput "validFrom must not be after validUntil")
      | _, _ => Ok tt
      end.

Definition unreadable {A} : result StorageError A := Err (Sqlite "conversion failure").
Definition or_unreadable {A} (o : option A) : result StorageError A := ok_or o (Sqlite "conversion failure").

(** [row_to_page]. *)
Definition row_to_page (r : PageRow) : result StorageError SchedulingPage :=
  i <-? or_unreadable (parse_uuid (pg_id r)) ;;
  account <-? or_unreadable (parse_uuid (pg_account r)) ;;
  calendar <-? or_unreadable (parse_uuid (pg_calendar r)) ;;
  availability <-? or_unreadable (of_json (pg_availability r)) ;;
  durations <-? or_unreadable (of_json (pg_durations r)) ;;
  status <-? match status_parse (pg_status r) with Ok s => Ok s | Err _ => unreadable end ;;
  Ok (mk_page i account (pg_slug r) (pg_title r) (pg_description r) calendar (pg_timezone r)
        availability durations (as_u32 (pg_buffer_before r)) (as_u32 (pg_buffer_after r))
        (as_u32 (pg_min_notice r)) (option_map as_u32 (pg_max_per_day r)) (pg_valid_from r)
        (pg_valid_until r) status (pg_created_at r) (pg_updated_at r)).

(** [row_to_booking]. *)
Definition row_to_booking (r : BookingRow) : result StorageError Booking :=
  i <-? or_unreadable (parse_uuid (bk_id r)) ;;
  page <-? or_unreadable (parse_uuid (bk_page r)) ;;
  account <-? or_unreadable (parse_uuid (bk_account r)) ;;
  event <-? or_unreadable (parse_uuid (bk_event r)) ;;
  Ok (mk_booking i page account event (bk_visitor_name r) (bk_visitor_email r) (bk_note r)
        (bk_start r) (bk_end r) (bk_status r) (bk_created_at r)).

Definition read_page (test : PageRow -> bool) : KM (option SchedulingPage) :=
  fun d => (match select_first test (pages d) with
            | Some r => p <-? row_to_page r ;; Ok (Some p)
            | None => Ok None
            end, d).
Definition the_page (page_id : string) : KM SchedulingPage :=
  found <- read_page (fun r => String.eqb (pg_id r) page_id) ;;
  lift (ok_or found (Sqlite "Query returned no rows")).

(** INSERT ... ON CONFLICT (slug) DO NOTHING: whether a row was added. *)
Definition insert_page (row : PageRow) : KM bool :=
  taken <- gets (fun d => existsb (fun r => String.eqb (pg_slug r) (pg_slug row)) (pages d)) ;;
  if taken : bool then ret false
  else
    require_cal (fun d => account_known (pg_account row) d && calendar_known (pg_calendar row) d) FK ;;;
    require_cal (fun d => negb (existsb (fun r => String.eqb (pg_id r) (pg_id row)) (pages d)))
      "UNIQUE constraint failed: scheduling_pages.id" ;;;
    modify (on_pages (fun l => (l ++ [row])%list)) ;;;
    ret true.

(** [Storage::create_scheduling_page]. *)
Definition create_scheduling_page (page_id : string) (now : Z) (account_id : string)
    (new : NewSchedulingPage) : KM SchedulingPage :=
  lift (validate_slug (np_slug new)) ;;;
  lift (validate_common (np_timezone new) (np_availability new) (np_durations new)
          (np_buffer_before new) (np_buffer_after new) (np_min_notice new)
          (np_valid_from new) (np_valid_until new)) ;;;
  if negb (title_ok (np_title new)) then fail bad_title
  else transaction (
    owns <- gets (owns_calendar (np_calendar new) account_id) ;;
    if negb owns then fail NotAuthorized
    else
      inserted <- insert_page (mk_page_row page_id account_id (np_slug new) (np_title new)
        (np_description new) (np_calendar new) (np_timezone new) (to_json (np_availability new))
        (to_json (np_durations new)) (np_buffer_before new) (np_buffer_after new)
        (np_min_notice new) (np_max_per_day new) (np_valid_from new) (np_valid_until new)
        "active" now now) ;;
      if negb inserted
      then fail (BadInput ("slug " +:+ str_of quote +:+ np_slug new +:+ str_of quote
                           +:+ " is already in use"))
      else the_page page_id).

(** [Storage::update_scheduling_page]. *)
Definition update_scheduling_page (now : Z) (account_id page_id : string)
    (patch : SchedulingPagePatch) : KM SchedulingPage :=
  transaction (
    found <- read_page (fun r => String.eqb (pg_id r) page_id && String.eqb (pg_account r) account_id) ;;
    current <- lift (ok_or found NotAuthorized) ;;
    let title := default (sp_title current) (pt_title patch) in
    let description := default (sp_description current) (pt_description patch) in
    let timezone := default (sp_timezone current) (pt_timezone patch) in
    let availability := default (sp_availability current) (pt_availability patch) in
    let durations := default (sp_durations current) (pt_durations patch) in
    let buffer_before := default (sp_buffer_before current) (pt_buffer_before patch) in
    let buffer_after := default (sp_buffer_after current) (pt_buffer_after patch) in
    let min_notice := default (sp_min_notice current) (pt_min_notice patch) in
    let max_per_day := default (sp_max_per_day current) (pt_max_per_day patch) in
    let valid_from := default (sp_valid_from current) (pt_valid_from patch) in
    let valid_until := default (sp_valid_until current) (pt_valid_until patch) in
    let status := default (sp_status current) (pt_status patch) in
    if negb (title_ok title) then fail bad_title
    else
      lift (validate_common timezone availability durations buffer_before buffer_after min_notice
              valid_from valid_until) ;;;
      modify (on_pages (update_where (fun r => String.eqb (pg_id r) page_id)
        (fun r => mk_page_row (pg_id r) (pg_account r) (pg_slug r) title description (pg_calendar r)
                    timezone (to_json availability) (to_json durations) buffer_before buffer_after
                    min_notice max_per_day valid_from valid_until (status_as_str status)
                    (pg_created_at r) now))) ;;;
      the_page page_id).

(** [Storage::get_scheduling_page], [get_scheduling_page_by_slug], [list_scheduling_pages]. *)
Definition get_scheduling_page (account_id page_id : string) : KM (option SchedulingPage) :=
  read_page (fun r => String.eqb (pg_id r) page_id && String.eqb (pg_account r) account_id).
Definition get_scheduling_page_by_slug (slug : string) : KM (option SchedulingPage) :=
  read_page (fun r => String.eqb (pg_slug r) slug).
Definition list_scheduling_pages (account_id : string) : KM (list SchedulingPage) :=
  fun d => (collect_results (map row_to_page
    (order_by (fun a b => (pg_created_at a <=? pg_created_at b)%Z)
       (List.filter (fun r => String.eqb (pg_account r) account_id) (pages d)))), d).

(** ** Bookings *)

Definition by_start (a b : BookingRow) : bool := (bk_start a <=? bk_start b)%Z.

(** [Storage::list_bookings]. *)
Definition list_bookings (account_id : string) (page_id : option string) : KM (list Booking) :=
  fun d => (collect_results (map row_to_booking (order_by by_start
    (List.filter (fun r => String.eqb (bk_account r) account_id
                           && match page_id with Some p => String.eqb (bk_page r) p | None => true end)
       (bookings d)))), d).

(** The rows of the quota query: confirmed, for the page, starting in [lo, hi). *)
Definition counted (page_id : string) (lo hi : Z) (r : BookingRow) : bool :=
  String.eqb (bk_page r) page_id && String.eqb (bk_status r) "confirmed"
  && (lo <=? bk_start r)%Z && (bk_start r <? hi)%Z.

(** [Storage::list_confirmed_bookings_in_range]. *)
Definition list_confirmed_bookings_in_range (page_id : string) (from to : Z) : KM (list Booking) :=
  fun d => (collect_results (map row_to_booking (order_by by_start
    (List.filter (counted page_id from to) (bookings d)))), d).

Definition insert_booking (row : BookingRow) : KM unit :=
  require_cal (fun d => existsb (fun p => String.eqb (pg_id p) (bk_page row)) (pages d)
                        && account_known (bk_account row) d && event_known (bk_event row) d) FK ;;;
  require_cal (fun d => negb (existsb (fun b => String.eqb (bk_id b) (bk_id row)) (bookings d)))
    "UNIQUE constraint failed: bookings.id" ;;;
  modify (on_bookings (fun l => (l ++ [row])%list)).

(** The confirmed bookings of an account that overlap [from, to). *)
Definition double_booked (account_id : string) (from to : Z) (r : BookingRow) : bool :=
  String.eqb (bk_account r) account_id && String.eqb (bk_status r) "confirmed"
  && overlapping from to (bk_start r) (bk_end r).

Definition slot_taken : StorageError := Conflict "slot no longer available".

(** [Storage::book_slot]; the two ids and the token are fresh. *)
Definition book_slot (event_id booking_id token : string) (now : Z) (req : BookSlotRequest) : KM Booking :=
  if (rq_end req <=? rq_start req)%Z then fail (BadInput "slot must end after start")
  else transaction (
    found <- gets (fun d => select_first (fun r => String.eqb (pg_id r) (rq_page req)
                                                   && String.eqb (pg_status r) "active") (pages d)) ;;
    page <- lift (ok_or found (Conflict "page unavailable")) ;;
    let account_id := pg_account page in
    busy <- gets (fun d => existsb (fun e => overlapping (rq_busy_from req) (rq_busy_to req)
                                               (ev_start e) (ev_end e)) (account_events account_id d)) ;;
    if busy : bool then fail slot_taken
    else
      double <- gets (fun d => existsb (double_booked account_id (rq_busy_from req) (rq_busy_to req))
                                 (bookings d)) ;;
      if double : bool then fail slot_taken
      else
        full <- gets (fun d => match pg_max_per_day page with
                  | None => false
                  | Some limit =>
                      let '(lo, hi) := rq_day_bounds req in
                      (limit <=? Z.of_nat (length (List.filter (counted (rq_page req) lo hi) (bookings d))))%Z
                  end) ;;
        if full : bool then fail (Conflict "no more bookings that day")
        else
          insert_event (mk_event_row event_id (pg_calendar page) (rq_event_title req)
            (rq_event_description req) (rq_start req) (rq_end req) None now now None None) ;;;
          insert_booking (mk_booking_row booking_id (rq_page req) account_id event_id
            (rq_visitor_name req) (rq_visitor_email req) (rq_note req) (rq_start req) (rq_end req)
            "confirmed" token now) ;;;
          found <- gets (fun d => select_first (fun b => String.eqb (bk_id b) booking_id) (bookings d)) ;;
          row <- lift (ok_or found (Sqlite "Query returned no rows")) ;;
          lift (row_to_booking row)).

End Scheduling.
