(* ===== verification/Limiter.v ===== *)
(** [crates/owney-api/src/schedule/rate_limit.rs]: a fixed-window limiter per
    (address, action), and what it guarantees. *)
From S2P Require Import Prelude.

(** (window start, hits) per key. *)
Abbreviation Buckets := (gmap (string * string) (Z * Z)).

Definition window_of (now window_secs : Z) : Z := (now - now mod window_secs)%Z.

(** [retain]: what is left of the buckets when there are too many of them. *)
Definition retain_recent (now window_secs : Z) (buckets : Buckets) : Buckets :=
  if (10000 <? Z.of_nat (size buckets))%Z
  then filter (fun b => (now < b.2.1 + window_secs)%Z) buckets else buckets.

(** [RateLimiter::allow]; the hit count is a [u32] that wraps. *)
Definition allow (now : Z) (ip action : string) (limit window_secs : Z) (buckets : Buckets) : bool * Buckets :=
  let window := window_of now window_secs in
  let buckets := retain_recent now window_secs buckets in
  let entry := default (window, 0%Z) (buckets !! (ip, action)) in
  let entry := if (entry.1 =? window)%Z then entry else (window, 0%Z) in
  let hits := ((entry.2 + 1) mod 2 ^ 32)%Z in
  ((hits <=? limit)%Z, <[(ip, action) := (entry.1, hits)]> buckets).

(** ** Sequences of calls *)

Record call := mk_call {
  at_time : Z;
  key : string * string;
  the_limit : Z;
  window : Z
}.

Definition answer_call (c : call) : Buckets -> bool * Buckets :=
  allow (at_time c) (key c).1 (key c).2 (the_limit c) (window c).

(** The calls that passed, in order. *)
Fixpoint passed (cs : list call) (b : Buckets) : list call :=
  match cs with
  | [] => []
  | c :: cs' => let '(r, b') := answer_call c b in
                if r : bool then c :: passed cs' b' else passed cs' b'
  end.

(** No call with a shorter window prunes while the table is large. *)
Fixpoint calm (w : Z) (cs : list call) (b : Buckets) : Prop :=
  match cs with
  | [] => True
  | c :: cs' => ((w <= window c)%Z \/ (Z.of_nat (size b) <= 10000)%Z) /\ calm w cs' (snd (answer_call c b))
  end.

Fixpoint in_order (t : Z) (cs : list call) : Prop :=
  match cs with
  | [] => True
  | c :: cs' => (t <= at_time c)%Z /\ in_order (at_time c) cs'
  end.

Definition in_window (k : string * string) (w start : Z) (c : call) : bool :=
  bool_decide (key c = k) && (window_of (at_time c) w =? start)%Z.

Section Limit.
Variable k : string * string.
Variables limit w : Z.
Hypothesis limit_nonneg : (0 <= limit)%Z.
Hypothesis window_pos : (0 < w)%Z.

Lemma window_of_le t : (window_of t w <= t)%Z.
Proof. unfold window_of. pose proof (Z.mod_pos_bound t w window_pos). lia. Qed.
Lemma window_of_next t : (t < window_of t w + w)%Z.
Proof. unfold window_of. pose proof (Z.mod_pos_bound t w window_pos). lia. Qed.
Lemma window_of_mul t : window_of t w = (w * (t / w))%Z.
Proof. unfold window_of. rewrite Z.mod_eq by lia. ring. Qed.
Lemma window_of_mono s t : (s <= t)%Z -> (window_of s w <= window_of t w)%Z.
Proof. intros Hst. rewrite !window_of_mul. pose proof (Z.div_le_mono s t w window_pos Hst). nia. Qed.
(** A window that has run out is before the current one. *)
Lemma window_of_stale s t : (window_of s w + w <= t)%Z -> (window_of s w < window_of t w)%Z.
Proof.
  intros H. rewrite window_of_mul in H |- *. rewrite window_of_mul.
  pose proof (Z.div_mod t w ltac:(lia)). pose proof (Z.mod_pos_bound t w window_pos). nia.
Qed.

(** The hits a window has used up, as far as the table knows. *)
Definition used (b : Buckets) (start : Z) : Z :=
  match b !! k with Some (s, h) => if (s =? start)%Z then h else 0%Z | None => 0%Z end.

(** The entry of the key is of a window already begun, with a count in range. *)
Definition entry_ok (t : Z) (bound : Z) (b : Buckets) : Prop :=
  forall s h, b !! k = Some (s, h) ->
    (exists t0, (t0 <= t)%Z /\ s = window_of t0 w) /\ (0 <= h <= bound)%Z.

Lemma retain_lookup t v b :
  retain_recent t v b !! k = b !! k
  \/ (retain_recent t v b !! k = None /\ (10000 < Z.of_nat (size b))%Z
      /\ exists s h, b !! k = Some (s, h) /\ (s + v <= t)%Z).
Proof.
  unfold retain_recent. destruct (Z.ltb_spec 10000 (Z.of_nat (size b))) as [Hsz|]; [|by left].
  destruct (b !! k) as [[s h]|] eqn:E.
  - destruct (decide (t < s + v)%Z) as [Hlt|Hge].
    + left. by apply map_lookup_filter_Some.
    + right. split; [|split; [done|exists s, h; split; [done|lia]]].
      apply map_lookup_filter_None. right. intros x Hx. rewrite E in Hx. by injection Hx as <-.
  - left. apply map_lookup_filter_None. by left.
Qed.

Lemma retain_entry_ok t t' v n b :
  (t <= t')%Z -> entry_ok t n b -> entry_ok t' n (retain_recent t' v b).
Proof.
  intros Ht Hok s h Hs. destruct (retain_lookup t' v b) as [E|(E & _)]; rewrite E in Hs; [|done].
  destruct (Hok s h Hs) as [(t0 & ? & ?) ?]. split; [exists t0; split; [lia|done]|done].
Qed.

Lemma retain_used t t' v n b start :
  (t <= t')%Z -> entry_ok t n b -> (w <= v)%Z \/ (Z.of_nat (size b) <= 10000)%Z ->
  (window_of t' w <= start)%Z -> used (retain_recent t' v b) start = used b start.
Proof.
  intros Ht Hok Hcalm Hstart. unfold used.
  destruct (retain_lookup t' v b) as [->|(-> & Hsz & s & h & E & Hs)]; [done|].
  destruct Hcalm as [Hv|]; [|lia]. rewrite E.
  destruct (Hok s h E) as [(t0 & ? & ->) _]. pose proof (window_of_stale t0 t' ltac:(lia)).
  destruct (Z.eqb_spec (window_of t0 w) start); [lia|done].
Qed.

Lemma passed_elem cs b c : c ∈ passed cs b -> c ∈ cs.
Proof.
  revert b. induction cs as [|x cs IH]; intros b; cbn [passed]; [done|].
  destruct (answer_call x b) as [[|] b']; [intros [->|?]%elem_of_cons; [by left|right; by eapply IH]|].
  intros ?. right. by eapply IH.
Qed.

Lemma in_order_elem t cs c : in_order t cs -> c ∈ cs -> (t <= at_time c)%Z.
Proof.
  revert t. induction cs as [|x cs IH]; intros t; [intros _ Hc; by apply elem_of_nil in Hc|].
  intros [Ht Ho] [->|Hc]%elem_of_cons; [done|]. specialize (IH _ Ho Hc). lia.
Qed.

(** Once a window is over, no call falls into it. *)
Lemma window_over t cs b start :
  in_order t cs -> (start < window_of t w)%Z ->
  List.filter (in_window k w start) (passed cs b) = [].
Proof.
  intros Ho Hs. destruct (List.filter _ _) as [|c l] eqn:E; [done|]. exfalso.
  assert (c ∈ List.filter (in_window k w start) (passed cs b)) as Hc by (rewrite E; by left).
  apply elem_of_filter_bool in Hc as [Hc Hw]. apply passed_elem in Hc.
  pose proof (window_of_mono t (at_time c) (in_order_elem _ _ _ Ho Hc)).
  apply andb_true_iff in Hw as [_ Hw]. lia.
Qed.

(** One call of the key: the entry and the answer. *)
Lemma answer_own t n b c :
  key c = k -> window c = w -> the_limit c = limit -> (t <= at_time c)%Z -> entry_ok t n b ->
  (0 <= n)%Z -> (n + 1 < 2 ^ 32)%Z -> (w <= window c)%Z ->
  let start := window_of (at_time c) w in
  let '(r, b') := answer_call c b in
  r = (used b start + 1 <=? limit)%Z /\ b' !! k = Some (start, (used b start + 1)%Z)
  /\ (0 <= used b start <= n)%Z.
Proof.
  intros Hk Hw Hl Ht Hok Hn0 Hn Hwc. set (start := window_of (at_time c) w).
  pose proof (retain_used t (at_time c) w n b start Ht Hok ltac:(by left) ltac:(done)) as Hu.
  assert (0 <= used b start <= n)%Z as Hb.
  { unfold used. destruct (b !! k) as [[s h]|] eqn:E; [|lia].
    destruct (Hok s h E) as [_ ?]. destruct (s =? start)%Z; lia. }
  unfold answer_call, allow. rewrite Hk, Hw, Hl. fold start.
  replace (k.1, k.2) with k by (by destruct k).
  set (e := default _ _).
  assert ((if (e.1 =? start)%Z then e else (start, 0%Z)) = (start, used b start)) as ->.
  { rewrite <- Hu. unfold e, used. destruct (retain_recent _ _ b !! k) as [[s h]|]; simpl.
    - destruct (Z.eqb_spec s start) as [->|]; done.
    - by rewrite Z.eqb_refl. }
  simpl. rewrite Z.mod_small by lia. split; [done|]. split; [apply lookup_insert_eq|done].
Qed.

Lemma answer_other c b :
  key c <> k -> snd (answer_call c b) !! k = retain_recent (at_time c) (window c) b !! k.
Proof.
  intros Hk. unfold answer_call, allow. simpl. apply lookup_insert_ne. by destruct (key c).
Qed.

(** The limit for one window, from any table of earlier entries. *)
Lemma limited_from cs t b n start :
  entry_ok t n b -> (n + Z.of_nat (length cs) < 2 ^ 32)%Z -> (0 <= n)%Z ->
  in_order t cs -> calm w cs b ->
  Forall (fun c => key c = k -> the_limit c = limit /\ window c = w) cs ->
  (Z.of_nat (length (List.filter (in_window k w start) (passed cs b)))
   <= Z.max 0 (limit - used b start))%Z.
Proof.
  revert t b n. induction cs as [|c cs IH]; intros t b n Hok Hn Hn0 Hord Hcalm Hall;
    [cbn; lia|].
  destruct (decide (start < window_of (at_time c) w)%Z) as [Hover|Hnow].
  { assert (in_order (at_time c) (c :: cs)) as Hord' by (destruct Hord; split; [lia|done]).
    rewrite (window_over _ _ b _ Hord' Hover). simpl. lia. }
  destruct Hord as [Ht Hord]. destruct Hcalm as [Hc Hcalm]. apply Forall_cons in Hall as [Hck Hall].
  cbn [length] in Hn. cbn [passed]. destruct (answer_call c b) as [r b'] eqn:Ea. cbn [snd] in Hcalm.
  destruct (decide (key c = k)) as [Hk|Hk].
  - destruct (Hck Hk) as [Hl Hw].
    pose proof (answer_own t n b c Hk Hw Hl Ht Hok Hn0 ltac:(lia) ltac:(lia)) as Ho.
    rewrite Ea in Ho. destruct Ho as (Hr & Hb' & Hu).
    assert (entry_ok (at_time c) (n + 1) b') as Hok'.
    { intros s h Hs. rewrite Hb' in Hs. injection Hs as <- <-. split; [by exists (at_time c)|lia]. }
    specialize (IH (at_time c) b' (n + 1)%Z Hok' ltac:(lia) ltac:(lia) Hord Hcalm Hall).
    assert (used b' start = if (window_of (at_time c) w =? start)%Z then (used b start + 1)%Z else 0%Z) as Hu'.
    { unfold used at 1. rewrite Hb'. destruct (Z.eqb_spec (window_of (at_time c) w) start) as [->|]; done. }
    rewrite Hu' in IH.
    assert (in_window k w start c = (window_of (at_time c) w =? start)%Z) as Hin
        by (unfold in_window; by rewrite bool_decide_true).
    destruct (Z.eqb_spec (window_of (at_time c) w) start) as [Hws|Hws].
    + rewrite Hws in Hr, Hu. destruct r.
      * cbn [List.filter]. rewrite Hin. cbn [length]. lia.
      * lia.
    + destruct (used b start) eqn:Eu.
      * destruct r; cbn [List.filter]; rewrite ?Hin; lia.
      * assert (used b start = 0%Z); [|lia]. unfold used. destruct (b !! k) as [[s h]|] eqn:Es; [|done].
        destruct (Hok s h Es) as [(t0 & ? & ->) _].
        pose proof (window_of_mono t0 (at_time c) ltac:(lia)).
        destruct (Z.eqb_spec (window_of t0 w) start); [lia|done].
      * assert (used b start = 0%Z); [|lia]. unfold used. destruct (b !! k) as [[s h]|] eqn:Es; [|done].
        destruct (Hok s h Es) as [(t0 & ? & ->) _].
        pose proof (window_of_mono t0 (at_time c) ltac:(lia)).
        destruct (Z.eqb_spec (window_of t0 w) start); [lia|done].
  - pose proof (answer_other c b Hk) as Hb'. rewrite Ea in Hb'. cbn [snd] in Hb'.
    assert (used b' start = used b start) as Hu.
    { rewrite <- (retain_used t (at_time c) (window c) n b start Ht Hok Hc ltac:(lia)).
      unfold used. by rewrite Hb'. }
    assert (entry_ok (at_time c) n b') as Hok'.
    { intros s h Hs. rewrite Hb' in Hs. by apply (retain_entry_ok t (at_time c) (window c) n b Ht Hok). }
    specialize (IH (at_time c) b' n Hok' ltac:(lia) Hn0 Hord Hcalm Hall). rewrite Hu in IH.
    assert (in_window k w start c = false) as Hin by (unfold in_window; by rewrite bool_decide_false).
    destruct r; [cbn [List.filter]; rewrite Hin|]; exact IH.
Qed.

(** C40: For one address and action whose calls all carry the same limit and window,
    however calls of other keys are mixed in: while the clock does not go back and
    no call with a shorter window prunes a table of more than 10000 entries, and for
    fewer than 2^32 calls in all (the counter is a [u32]), at most [limit] of its
    calls pass in any one window. *)
Theorem allow_limits cs t start :
  in_order t cs -> calm w cs ∅ -> (Z.of_nat (length cs) < 2 ^ 32)%Z ->
  Forall (fun c => key c = k -> the_limit c = limit /\ window c = w) cs ->
  (Z.of_nat (length (List.filter (in_window k w start) (passed cs ∅))) <= limit)%Z.
Proof.
  intros Ho Hc Hn Hall.
  pose proof (limited_from cs t ∅ 0 start) as H. unfold used in H. rewrite lookup_empty in H.
  assert (entry_ok t 0 ∅) as He by (intros s h Hs; by rewrite lookup_empty in Hs).
  specialize (H He ltac:(lia) ltac:(lia) Ho Hc Hall). lia.
Qed.

End Limit.

(** A call with a shorter window forgets an unfinished longer window once the table
    is large: the next call of the exhausted key passes again. *)
Lemma short_window_forgets (now : Z) (ip ip' : string) (hits begun : Z) (b : Buckets) :
  (10000 < Z.of_nat (size b))%Z -> b !! (ip, "book"%string) = Some (begun, hits) ->
  (begun + 60 <= now)%Z ->
  let b' := snd (allow now ip' "slots" 60 60 b) in fst (allow now ip "book" 10 3600 b') = true.
Proof.
  intros Hsz Hb Hnow. cbn zeta.
  set (b' := snd _).
  assert (b' !! (ip, "book"%string) = None) as Hn.
  { unfold b', allow. simpl. rewrite lookup_insert_ne by congruence. unfold retain_recent.
    destruct (Z.ltb_spec 10000 (Z.of_nat (size b))); [|lia].
    apply map_lookup_filter_None. right. intros x Hx. rewrite Hb in Hx. injection Hx as <-. simpl. lia. }
  unfold allow. simpl.
  assert (retain_recent now 3600 b' !! (ip, "book"%string) = None) as ->.
  { unfold retain_recent. destruct (_ <? _)%Z; [|done]. apply map_lookup_filter_None. by left. }
  simpl. by rewrite Z.eqb_refl.
Qed.
