(* ===== verification/Slots.v ===== *)
(** [crates/owney-api/src/schedule/slots.rs] and [mod.rs]: the slots of a page and
    the two public endpoints.

    chrono and chrono-tz are the class [Chrono].  A date is its number of days
    from 1970-01-01 and a wall-clock time its number of seconds from that
    midnight; adding to a date or time past the last one panics, which is [None]
    here, as is a loop that does not end. *)
From S2P Require Import Prelude Text Bytes Ident Store Calendars Scheduling Limiter.

Open Scope string_scope.

Inductive LocalResult := Single (t : Z) | Ambiguous (earliest latest : Z) | NoSuchTime.

Class Chrono := {
  Tz : Type;
  tz_parse : string -> option Tz;
  from_local_datetime : Tz -> Z -> LocalResult;
  timestamp_date : Tz -> Z -> option Z;      (* [timestamp_opt(t, 0)] and [date_naive] *)
  utc_date : Z -> option Z;
  rfc3339 : Tz -> Z -> string;               (* [single] and [to_rfc3339], or the empty text *)
  weekday_key : Z -> string;                 (* the weekday of a date, as slots.rs spells it *)
  format_date : Z -> string;                 (* %Y-%m-%d *)
  naive_date_parse : string -> option Z;
  last_date : Z                              (* [NaiveDate::MAX] *)
}.

Record Slot := mk_slot { s_start : Z; s_end : Z }.

Definition DAY : Z := 86400.

Section Slots.
Context `{Chrono}.

Definition date_add (date days : Z) : option Z :=
  if (date + days <=? last_date)%Z then Some (date + days)%Z else None.
Definition time_add (local secs : Z) : option Z :=
  if (local + secs <=? last_date * DAY + (DAY - 1))%Z then Some (local + secs)%Z else None.

(** The probing loop of [resolve_local]. *)
Fixpoint probe_gap (n : nat) (tz : Tz) (local probe : Z) : option Z :=
  match n with
  | O => Some local
  | S n' =>
      probe ← time_add probe (15 * 60);
      match from_local_datetime tz probe with
      | Single t | Ambiguous t _ => Some t
      | NoSuchTime => probe_gap n' tz local probe
      end
  end.

(** [resolve_local]. *)
Definition resolve_local (tz : Tz) (local : Z) : option Z :=
  match from_local_datetime tz local with
  | Single t => Some t
  | Ambiguous earliest _ => Some earliest
  | NoSuchTime => probe_gap 16 tz local local
  end.

(** [local_day_bounds]. *)
Definition local_day_bounds (tz : Tz) (date : Z) : option (Z * Z) :=
  lo ← resolve_local tz (date * DAY);
  next ← date_add date 1;
  hi ← resolve_local tz (next * DAY);
  Some (lo, hi).

(** [windows_for_date]. *)
Definition windows_for_date (availability : Availability) (date : Z) : list (Z * Z) :=
  let windows := match overrides availability !! format_date date with
                 | Some w => Some w
                 | None => weekly availability !! weekday_key date
                 end in
  omap (fun w => match parse_minutes w with Ok p => Some p | Err _ => None end) (default [] windows).

(** [overlaps]. *)
Definition overlaps (a b : Z * Z) : bool := (a.1 <? b.2)%Z && (b.1 <? a.2)%Z.

Record SlotParams := mk_params {
  pa_tz : Tz;
  pa_availability : Availability;
  pa_duration : Z;
  pa_buffer_before : Z;
  pa_buffer_after : Z;
  pa_min_notice : Z;
  pa_max_per_day : option Z;
  pa_valid_from : option Z;
  pa_valid_until : option Z;
  pa_now : Z
}.

(** [date.and_time] of a minute of the day. *)
Definition minutes_to_local (date mins : Z) : Z :=
  (date * DAY + (if (mins * 60 <? DAY) then mins * 60 else 0))%Z.

Section Compute.
Variable p : SlotParams.
Variable busy : list (Z * Z).
Variable booked_per_day : gmap Z Z.

Definition earliest_start : Z := (pa_now p + pa_min_notice p * 60)%Z.

(** The tests on one candidate: the end of the window, the buffers against the
    busy intervals, the notice. *)
Definition widened (slot : Slot) : Z * Z :=
  ((s_start slot - pa_buffer_before p * 60)%Z, (s_end slot + pa_buffer_after p * 60)%Z).
Definition bookable (window_end : Z) (slot : Slot) : bool :=
  (s_end slot <=? window_end)%Z
  && (earliest_start <=? s_start slot)%Z && negb (existsb (overlaps (widened slot)) busy).

Definition slot_at (start : Z) : Slot := mk_slot start (start + pa_duration p * 60)%Z.

(** The loop over the wall-clock minutes of one window; [wall] and the duration are
    [u32], whose sum wraps in a release build. *)
Definition u32_add (a b : Z) : Z := ((a + b) mod 2 ^ 32)%Z.
Fixpoint walk (fuel : nat) (date window_end_min window_end wall : Z) (last_start : option Z)
  : option (list Slot) :=
  if (u32_add wall (pa_duration p) <=? window_end_min)%Z then
    match fuel with
    | O => None
    | S fuel' =>
        slot_start ← resolve_local (pa_tz p) (minutes_to_local date wall);
        let next := walk fuel' date window_end_min window_end (u32_add wall (pa_duration p)) in
        if bool_decide (last_start = Some slot_start) then next last_start
        else
          rest ← next (Some slot_start);
          Some (if bookable window_end (slot_at slot_start) then slot_at slot_start :: rest else rest)
    end
  else Some [].

Definition window_slots (date : Z) (w : Z * Z) : option (list Slot) :=
  window_end ← resolve_local (pa_tz p) (minutes_to_local date w.2);
  walk (Z.to_nat w.2) date w.2 window_end w.1 None.

Fixpoint each_window (date : Z) (windows : list (Z * Z)) : option (list Slot) :=
  match windows with
  | [] => Some []
  | w :: rest => a ← window_slots date w; b ← each_window date rest; Some (a ++ b)%list
  end.

(** The guards of the loop over dates. *)
Definition out_of_range (date : Z) : bool :=
  match pa_valid_from p with Some v => (date <? v)%Z | None => false end
  || match pa_valid_until p with Some v => (v <? date)%Z | None => false end.
Definition day_full (date : Z) : bool :=
  match pa_max_per_day p with
  | Some limit => (limit <=? default 0 (booked_per_day !! date))%Z
  | None => false
  end.

Definition day_slots (date : Z) : option (list Slot) :=
  if out_of_range date || day_full date then Some []
  else each_window date (windows_for_date (pa_availability p) date).

Fixpoint each_date (n : nat) (date to : Z) : option (list Slot) :=
  if (date <=? to)%Z then
    match n with
    | O => None
    | S n' =>
        a ← day_slots date;
        next ← date_add date 1;
        b ← each_date n' next to;
        Some (a ++ b)%list
    end
  else Some [].

(** [compute_slots]. *)
Definition compute_slots (from to : Z) : option (list Slot) :=
  each_date (Z.to_nat (to - from + 1)) from to.

End Compute.

(** ** The endpoints ([mod.rs]) *)

Definition MAX_RANGE_DAYS : Z := 31.
Definition MAX_HORIZON_DAYS : Z := 60.

Inductive Reply :=
  | TooManyRequests
  | PageNotFound
  | InternalError
  | BadRequest (msg : string)
  | ConflictWith (msg : string)
  | SlotList (timezone : string) (duration : Z) (slots : list (Z * Z * string))
  | Created (booking_id : string) (start end_ : Z) (timezone : string).

Definition today_in (tz : Tz) (now : Z) : Z :=
  match timestamp_date tz now with Some d => d | None => default 0%Z (utc_date now) end.

Record SlotsQuery := mk_query { sq_from : option string; sq_to : option string; sq_duration : option Z }.

Record BookBody := mk_body {
  bb_start : Z;
  bb_duration : Z;
  bb_name : string;
  bb_email : string;
  bb_note : option string
}.

(** The number of characters of UTF-8 text: its bytes that do not continue one. *)
Fixpoint char_count (s : string) : nat :=
  match s with
  | EmptyString => 0%nat
  | String c s' => ((if continuation c then 0 else 1) + char_count s')%nat
  end.

(** [validate_visitor]; [spacing] is [is_control] or [is_whitespace] on the
    characters of the text. *)
Definition validate_visitor (spacing : string -> bool) (b : BookBody) : option string :=
  let n := char_count (bb_name b) in
  if String.eqb (bb_name b) "" || (200 <? n)%nat then Some "name must be 1-200 chars"
  else if negb ((String.length (bb_email b) <=? 254)%nat
                && (count_matches "@" (bb_email b) =? 1)%nat
                && negb (starts_with "@" (bb_email b)) && negb (ends_with_char "@" (bb_email b))
                && negb (spacing (bb_email b)))
  then Some "bad email address"
  else match bb_note b with
       | Some note => if (2000 <? char_count note)%nat then Some "note must be <= 2000 chars" else None
       | None => None
       end.

Definition page_params (page : SchedulingPage) (tz : Tz) (duration : Z) (max_per_day : option Z) (now : Z)
  : SlotParams :=
  mk_params tz (sp_availability page) duration (sp_buffer_before page) (sp_buffer_after page)
    (sp_min_notice page) max_per_day
    (d ← sp_valid_from page; naive_date_parse d) (d ← sp_valid_until page; naive_date_parse d) now.

Definition count_bookings (tz : Tz) (bs : list Booking) : gmap Z Z :=
  fold_left (fun m b => let day := today_in tz (bo_start b) in
                        <[day := (default 0 (m !! day) + 1)%Z]> m) bs ∅.

Section Endpoints.
Context `{Serde Availability} `{Serde (list Z)}.
Variable parse_uuid : string -> option string.
Variable spacing : string -> bool.

(** [active_page] and [page_tz]. *)
Definition active_page (slug : string) : action CalDb Reply SchedulingPage :=
  fun d => match get_scheduling_page_by_slug parse_uuid slug d with
           | (Ok (Some page), d) => (match sp_status page with
                                     | Active => Ok page
                                     | Paused => Err PageNotFound
                                     end, d)
           | (Ok None, d) => (Err PageNotFound, d)
           | (Err _, d) => (Err InternalError, d)
           end.
Definition page_tz (page : SchedulingPage) : action CalDb Reply Tz :=
  lift (ok_or (tz_parse (sp_timezone page)) InternalError).

(** A storage operation whose failure is a 500. *)
Definition or_fail {A} (m : KM A) : action CalDb Reply A :=
  fun d => let '(r, d') := m d in (match r with Ok a => Ok a | Err _ => Err InternalError end, d').

(** A step that may panic: the whole handler then gives no answer. *)
Abbreviation EM A := (CalDb -> option (result Reply A * CalDb)).
Definition steady {A} (m : action CalDb Reply A) : EM A := fun d => Some (m d).
Definition may_panic {A} (o : option A) : EM A := fun d => a ← o; Some (Ok a, d).
Definition ebind {A B} (m : EM A) (k : A -> EM B) : EM B :=
  fun d => '(r, d') ← m d; match r with Ok a => k a d' | Err e => Some (Err e, d') end.
Definition answer {A} (r : Reply) : EM A := fun d => Some (Err r, d).
Definition done {A} (a : A) : EM A := fun d => Some (Ok a, d).

(** [slots_for_range]. *)
Definition slots_for_range (page : SchedulingPage) (tz : Tz) (duration from to now : Z) : EM (list Slot) :=
  ebind (may_panic (local_day_bounds tz from)) (fun lo =>
  ebind (may_panic (local_day_bounds tz to)) (fun hi =>
  let widen := (match sp_durations page with [] => 30 | ds => fold_right Z.max 0 ds end * 60
                + Z.max (sp_buffer_before page) (sp_buffer_after page) * 60)%Z in
  ebind (steady (or_fail (events_overlapping (sp_account page) (lo.1 - widen) (hi.2 + widen)))) (fun busy =>
  ebind (steady (or_fail (list_confirmed_bookings_in_range parse_uuid (sp_id page) (lo.1 - widen) (hi.2 + widen))))
    (fun bookings =>
  may_panic (compute_slots (page_params page tz duration (sp_max_per_day page) now)
    (busy ++ map (fun b => (bo_start b, bo_end b)) bookings)%list (count_bookings tz bookings) from to))))).

(** [slots_json], after the limiter let the request pass. *)
Definition slots_json (now : Z) (slug : string) (query : SlotsQuery) : EM Reply :=
  ebind (steady (active_page slug)) (fun page =>
  ebind (steady (page_tz page)) (fun tz =>
  let today := today_in tz now in
  ebind (may_panic (match sq_duration query with
                    | Some d => Some d
                    | None => head (sp_durations page)
                    end)) (fun duration =>
  if negb (existsb (Z.eqb duration) (sp_durations page))
  then answer (BadRequest "duration must be one of the page's")
  else
  ebind (match sq_from query with
         | None => done today
         | Some s => match naive_date_parse s with
                     | Some date => done date
                     | None => answer (BadRequest "bad `from` date (want YYYY-MM-DD)")
                     end
         end) (fun from =>
  ebind (match sq_to query with
         | None => may_panic (date_add from 13)
         | Some s => match naive_date_parse s with
                     | Some date => done date
                     | None => answer (BadRequest "bad `to` date (want YYYY-MM-DD)")
                     end
         end) (fun to =>
  if (to <? from)%Z || (MAX_RANGE_DAYS <=? to - from)%Z
  then answer (BadRequest "range must be 1..=31 days")
  else
  ebind (may_panic (date_add today MAX_HORIZON_DAYS)) (fun horizon =>
  if (horizon <? to)%Z then answer (BadRequest "horizon is 60 days")
  else
  ebind (slots_for_range page tz duration from to now) (fun slots =>
  done (SlotList (sp_timezone page) duration
          (map (fun s => (s_start s, s_end s, rfc3339 tz (s_start s))) slots))))))))).

(** [book], after the limiter and the decoding of the body; it then spawns the
    confirmation mails, whose outcome it ignores. *)
Definition book (event_id booking_id token : string) (now stamp : Z) (slug : string) (body : BookBody)
  : EM (Booking * SchedulingPage * Account) :=
  match validate_visitor spacing body with
  | Some msg => answer (BadRequest msg)
  | None =>
  ebind (steady (active_page slug)) (fun page =>
  ebind (steady (page_tz page)) (fun tz =>
  if negb (existsb (Z.eqb (bb_duration body)) (sp_durations page))
  then answer (BadRequest "duration must be one of the page's")
  else
  let day := today_in tz (bb_start body) in
  ebind (may_panic (compute_slots (page_params page tz (bb_duration body) None now) [] ∅ day day)) (fun valid =>
  match List.find (fun s => (s_start s =? bb_start body)%Z) valid with
  | None => answer (BadRequest "that time is not an available slot")
  | Some slot =>
  ebind (steady (or_fail (on_cal_core (account parse_uuid (sp_account page))))) (fun owner =>
  match owner with
  | None => answer PageNotFound
  | Some owner =>
  let owner_label := default (email owner) (display_name owner) in
  ebind (may_panic (local_day_bounds tz day)) (fun bounds =>
  fun d =>
    match book_slot parse_uuid event_id booking_id token stamp
            (mk_request (sp_id page) (bb_name body) (bb_email body) (bb_note body) (s_start slot) (s_end slot)
               (s_start slot - sp_buffer_before page * 60)%Z (s_end slot + sp_buffer_after page * 60)%Z
               ("Meeting: " +:+ bb_name body +:+ " & " +:+ owner_label) (bb_note body) bounds) d with
    | (Ok booking, d) => Some (Ok (booking, page, owner), d)
    | (Err (Conflict msg), d) => Some (Err (ConflictWith msg), d)
    | (Err (BadInput msg), d) => Some (Err (BadRequest msg), d)
    | (Err _, d) => Some (Err InternalError, d)
    end)
  end)
  end)))
  end.

(** ** The routes, behind the limiter *)

Record ScheduleState := mk_schedule { sc_buckets : Buckets; sc_db : CalDb }.

Definition limited {A} (now : Z) (ip action : string) (limit window_secs : Z) (handler : EM A)
    (s : ScheduleState) : option (result Reply A * ScheduleState) :=
  let '(passes, buckets) := allow now ip action limit window_secs (sc_buckets s) in
  if passes : bool
  then '(r, d) ← handler (sc_db s); Some (r, mk_schedule buckets d)
  else Some (Err TooManyRequests, mk_schedule buckets (sc_db s)).

(** [GET /schedule/{slug}/slots] and [POST /schedule/{slug}/book]; [None] for a body
    that did not decode. *)
Definition slots_route (now : Z) (ip slug : string) (query : SlotsQuery) :=
  limited now ip "slots" 60 60 (slots_json now slug query).
Definition book_route (event_id booking_id token : string) (now stamp : Z) (ip slug : string)
    (body : option BookBody) :=
  limited now ip "book" 10 3600
    match body with
    | Some body => book event_id booking_id token now stamp slug body
    | None => answer (BadRequest "bad request body")
    end.

(** The answer of [book] to a booked slot. *)
Definition book_reply (booking : Booking) (page : SchedulingPage) : Reply :=
  Created (bo_id booking) (bo_start booking) (bo_end booking) (sp_timezone page).

End Endpoints.
End Slots.
