(* ===== verification/SlotFacts.v ===== *)
(** What [Slots.compute_slots] offers. *)
From S2P Require Import Prelude Text Bytes Ident Store Calendars Scheduling Slots.

Open Scope string_scope.

(** ** The windows of a validated document *)

Lemma parse_clock_bound v m : parse_clock v = Ok m -> (0 <= m < 24 * 60)%Z.
Proof.
  unfold parse_clock. destruct (split_once ":" v) as [[h n]|]; [|done].
  assert (forall s x, parse_u32 s = Some x -> (0 <= x)%Z) as Hpos.
  { intros s x. unfold parse_u32, parse_int. repeat case_match; try done; intros; simplify_eq/=; lia. }
  destruct (parse_u32 h) as [x|] eqn:Eh; [|done]. destruct (parse_u32 n) as [y|] eqn:En; [|done].
  apply Hpos in Eh. apply Hpos in En. destruct (_ && _) eqn:E; [|done]. intros [= <-].
  apply andb_true_iff in E as [E _]. apply andb_true_iff in E as [Ex Ey]. lia.
Qed.

(** Windows as [(start, end)] in minutes: within the day, in order, not overlapping. *)
Fixpoint ordered_windows (previous_end : Z) (ws : list (Z * Z)) : Prop :=
  match ws with
  | [] => True
  | w :: rest => (previous_end <= w.1 < w.2)%Z /\ (w.2 < 24 * 60)%Z /\ ordered_windows w.2 rest
  end.

Definition minutes_of (windows : list TimeWindow) : list (Z * Z) :=
  omap (fun w => match parse_minutes w with Ok p => Some p | Err _ => None end) windows.

Lemma parse_minutes_bound w s e : parse_minutes w = Ok (s, e) -> (0 <= s)%Z /\ (e < 24 * 60)%Z.
Proof.
  unfold parse_minutes, result_bind. destruct (parse_clock _) as [x|] eqn:E1; [|done].
  destruct (parse_clock (w_end w)) as [y|] eqn:E2; [|done]. intros [= <- <-].
  apply parse_clock_bound in E1. apply parse_clock_bound in E2. lia.
Qed.

Lemma validated_windows windows prev :
  (0 <= prev)%Z -> validate_windows prev windows = Ok tt ->
  ordered_windows prev (minutes_of windows) /\ length (minutes_of windows) = length windows.
Proof.
  revert prev. induction windows as [|w ws IH]; intros prev Hp; simpl; [done|].
  unfold result_bind. destruct (parse_minutes w) as [[s e]|] eqn:E; [|done].
  destruct (e <=? s)%Z eqn:E1; [done|]. destruct (s <? prev)%Z eqn:E2; [done|]. intros H.
  apply parse_minutes_bound in E as [? ?]. destruct (IH e ltac:(lia) H) as [IH1 IH2]. simpl.
  split; [|by rewrite IH2]. split; [lia|]. by split.
Qed.

Lemma ordered_windows_elem prev ws w :
  ordered_windows prev ws -> w ∈ ws -> (prev <= w.1 < w.2)%Z /\ (w.2 < 24 * 60)%Z.
Proof.
  revert prev. induction ws as [|x ws IH]; intros prev; [intros _ H; by apply elem_of_nil in H|].
  intros (H1 & H2 & H3) [->|Hw]%elem_of_cons; [done|]. specialize (IH _ H3 Hw). lia.
Qed.

Lemma first_error_elem {A} (f : A -> result StorageError unit) l a :
  first_error f l = Ok tt -> a ∈ l -> f a = Ok tt.
Proof.
  induction l as [|x l IH]; simpl; [intros _ H; by apply elem_of_nil in H|].
  unfold result_bind. destruct (f x) as [[]|] eqn:E; [|done].
  intros H [->|Ha]%elem_of_cons; [done|by apply IH].
Qed.

Lemma in_key_order_elem m k ws : (k, ws) ∈ in_key_order m <-> m !! k = Some ws.
Proof. unfold in_key_order. rewrite order_by_elem. apply elem_of_map_to_list. Qed.

(** Every day's windows of a document that passed [validate]. *)
Lemma validate_windows_of a k ws :
  validate a = Ok tt -> weekly a !! k = Some ws \/ overrides a !! k = Some ws ->
  ordered_windows 0 (minutes_of ws) /\ length (minutes_of ws) = length ws.
Proof.
  unfold validate. destruct (negb _); [done|]. unfold result_bind.
  destruct (first_error _ (in_key_order (weekly a))) as [[]|]; [|done].
  destruct (first_error _ (in_key_order (overrides a))) as [[]|]; [|done].
  intros H Hk. apply validated_windows; [done|].
  apply (first_error_elem _ _ (k, ws) H). rewrite elem_of_app, !in_key_order_elem. tauto.
Qed.

Section SlotFacts.
Context `{Chrono}.

Lemma windows_for_date_ordered a date :
  validate a = Ok tt -> ordered_windows 0 (windows_for_date a date).
Proof.
  intros Hv. unfold windows_for_date. destruct (overrides a !! _) as [ws|] eqn:E; simpl.
  - eapply (validate_windows_of a); eauto.
  - destruct (weekly a !! _) as [ws|] eqn:E'; simpl; [|done]. eapply (validate_windows_of a); eauto.
Qed.

(** ** Local times resolve *)

Lemma probe_gap_total n tz local probe :
  (probe + Z.of_nat n * (15 * 60) <= last_date * DAY + (DAY - 1))%Z ->
  is_Some (probe_gap n tz local probe).
Proof.
  revert probe. induction n as [|n IH]; intros probe Hp; cbn [probe_gap]; [eauto|].
  unfold time_add. rewrite Nat2Z.inj_succ in Hp. unfold DAY in *.
  destruct (Z.leb_spec (probe + 15 * 60) (last_date * 86400 + (86400 - 1))) as [Hle|Hle]; [|nia].
  cbn [mbind option_bind]. destruct (from_local_datetime tz _); eauto. apply IH. unfold DAY. nia.
Qed.

Lemma resolve_local_total tz local :
  (local + 4 * 60 * 60 <= last_date * DAY + (DAY - 1))%Z -> is_Some (resolve_local tz local).
Proof.
  intros Hl. unfold resolve_local. destruct (from_local_datetime tz local); eauto.
  apply probe_gap_total. lia.
Qed.

(** The instant of a wall-clock time: its own, the earlier of two, or, where a clock
    change skips it, that of the first of the times 15, 30, ... 240 minutes later that
    exists (and should none exist, the time read as UTC). *)
Definition instant_of (r : LocalResult) : option Z :=
  match r with Single t | Ambiguous t _ => Some t | NoSuchTime => None end.
Definition wall_instant (tz : Tz) (local start : Z) : Prop :=
  instant_of (from_local_datetime tz local) = Some start
  \/ (from_local_datetime tz local = NoSuchTime
      /\ ((exists k, (1 <= k <= 16)%nat /\ instant_of (from_local_datetime tz (local + Z.of_nat k * 900)) = Some start
             /\ forall j, (1 <= j < k)%nat -> from_local_datetime tz (local + Z.of_nat j * 900) = NoSuchTime)
          \/ (start = local
              /\ forall j, (1 <= j <= 16)%nat -> from_local_datetime tz (local + Z.of_nat j * 900) = NoSuchTime))).

Lemma probe_gap_instant n m tz local start :
  (local + Z.of_nat (m + n) * 900 <= last_date * DAY + (DAY - 1))%Z ->
  probe_gap n tz local (local + Z.of_nat m * 900) = Some start ->
  (exists k, (m < k <= m + n)%nat /\ instant_of (from_local_datetime tz (local + Z.of_nat k * 900)) = Some start
     /\ forall j, (m < j < k)%nat -> from_local_datetime tz (local + Z.of_nat j * 900) = NoSuchTime)
  \/ (start = local /\ forall j, (m < j <= m + n)%nat -> from_local_datetime tz (local + Z.of_nat j * 900) = NoSuchTime).
Proof.
  revert m. induction n as [|n IH]; intros m Hb; cbn [probe_gap].
  { intros [= ->]. right. split; [done|]. intros j Hj. lia. }
  unfold time_add. destruct (Z.leb_spec (local + Z.of_nat m * 900 + 15 * 60) (last_date * DAY + (DAY - 1))); [|lia].
  cbn [mbind option_bind].
  replace (local + Z.of_nat m * 900 + 15 * 60)%Z with (local + Z.of_nat (S m) * 900)%Z by lia.
  destruct (from_local_datetime tz (local + Z.of_nat (S m) * 900)) as [t|t l|] eqn:E.
  1,2: intros [= ->]; left; exists (S m); rewrite E; split; [lia|]; split; [done|]; intros j Hj; lia.
  intros Hp. destruct (IH (S m) ltac:(lia) Hp) as [(k & Hk & Hi & Hn)|[-> Hn]].
  - left. exists k. split; [lia|]. split; [done|]. intros j Hj. destruct (decide (j = S m)) as [->|]; [done|]. apply Hn. lia.
  - right. split; [done|]. intros j Hj. destruct (decide (j = S m)) as [->|]; [done|]. apply Hn. lia.
Qed.

Lemma wall_instant_unique tz local a b : wall_instant tz local a -> wall_instant tz local b -> a = b.
Proof.
  intros [Ha|[Na Ha]] [Hb|[Nb Hb]]; rewrite ?Na, ?Nb in *; try done; [congruence|].
  destruct Ha as [(k & Hk & Hi & Hn)|[-> Hn]], Hb as [(k' & Hk' & Hi' & Hn')|[-> Hn']]; try done.
  - destruct (lt_eq_lt_dec k k') as [[Hlt|He]|Hlt]; [|congruence|].
    + rewrite (Hn' k) in Hi by lia. done.
    + rewrite (Hn k') in Hi' by lia. done.
  - rewrite (Hn' k) in Hi by lia. done.
  - rewrite (Hn k') in Hi' by lia. done.
Qed.

Lemma resolve_local_instant tz local start :
  (local + 4 * 60 * 60 <= last_date * DAY + (DAY - 1))%Z ->
  resolve_local tz local = Some start <-> wall_instant tz local start.
Proof.
  intros Hb. assert (forall x, resolve_local tz local = Some x -> wall_instant tz local x) as Hto.
  { intros x. unfold resolve_local, wall_instant. destruct (from_local_datetime tz local) as [t|t l|]; [by left..|].
    intros Hx. right. split; [done|].
    apply (probe_gap_instant 16 0); [lia|by rewrite Z.add_0_r]. }
  split; [apply Hto|]. intros Hs. destruct (resolve_local_total tz local Hb) as [x Hx]. rewrite Hx.
  f_equal. exact (wall_instant_unique _ _ _ _ (Hto _ Hx) Hs).
Qed.

Section Window.
Variable p : SlotParams.
Variable busy : list (Z * Z).
Variable booked : gmap Z Z.
Hypothesis duration_pos : (1 <= pa_duration p < 2 ^ 32 - 24 * 60)%Z.

(** The [k]-th wall-clock candidate of a window. *)
Definition candidate (date : Z) (w : Z * Z) (start : Z) : Prop :=
  exists k, (0 <= k)%Z /\ (w.1 + (k + 1) * pa_duration p <= w.2)%Z
  /\ resolve_local (pa_tz p) (minutes_to_local date (w.1 + k * pa_duration p)) = Some start.

Definition minutes_resolve (date : Z) : Prop :=
  forall m, (0 <= m < 24 * 60)%Z -> is_Some (resolve_local (pa_tz p) (minutes_to_local date m)).

Lemma minutes_resolve_before date : (date < last_date)%Z -> minutes_resolve date.
Proof.
  intros Hd m Hm. apply resolve_local_total. unfold minutes_to_local, DAY.
  destruct (m * 60 <? 86400)%Z; nia.
Qed.

Lemma candidate_next date wall we x :
  (wall + pa_duration p <= we)%Z ->
  candidate date (wall, we) x
  <-> resolve_local (pa_tz p) (minutes_to_local date wall) = Some x
      \/ candidate date ((wall + pa_duration p)%Z, we) x.
Proof.
  intros Hle. unfold candidate. simpl. split.
  - intros (k & Hk & Hkw & Hx). destruct (decide (k = 0%Z)) as [->|Hne].
    + left. by rewrite Z.mul_0_l, Z.add_0_r in Hx.
    + right. exists (k - 1)%Z. split; [lia|]. split; [lia|].
      by replace (wall + pa_duration p + (k - 1) * pa_duration p)%Z
        with (wall + k * pa_duration p)%Z by ring.
  - intros [Hx|(k & Hk & Hkw & Hx)].
    + exists 0%Z. split; [lia|]. split; [lia|]. by rewrite Z.mul_0_l, Z.add_0_r.
    + exists (k + 1)%Z. split; [lia|]. split; [lia|].
      by replace (wall + (k + 1) * pa_duration p)%Z
        with (wall + pa_duration p + k * pa_duration p)%Z by ring.
Qed.

Lemma candidate_none date wall we x : (we < wall + pa_duration p)%Z -> ~ candidate date (wall, we) x.
Proof. intros Hlt (k & Hk & Hkw & _). simpl in Hkw. nia. Qed.

Definition offered_at (window_end : Z) (s : Slot) : Prop :=
  s = slot_at p (s_start s) /\ bookable p busy window_end s = true.

Lemma u32_add_small wall : (0 <= wall < 24 * 60)%Z -> u32_add wall (pa_duration p) = (wall + pa_duration p)%Z.
Proof. intros Hw. apply Z.mod_small. lia. Qed.

(** The loop yields the candidates that pass the tests; a candidate equal to the
    last instant handled is left out, as it was handled already. *)
Lemma walk_spec fuel date we window_end wall last :
  (0 <= wall <= we)%Z -> (we < 24 * 60)%Z -> (we - wall <= Z.of_nat fuel)%Z -> minutes_resolve date ->
  exists l, walk p busy fuel date we window_end wall last = Some l
  /\ (forall s, s ∈ l -> candidate date (wall, we) (s_start s) /\ offered_at window_end s)
  /\ (forall s, candidate date (wall, we) (s_start s) -> offered_at window_end s ->
       s ∈ l \/ last = Some (s_start s)).
Proof.
  intros Hw Hwe. revert wall last Hw. induction fuel as [|fuel IH]; intros wall last Hw Hf Hr; cbn [walk];
    rewrite (u32_add_small wall) by lia; destruct (Z.leb_spec (wall + pa_duration p) we) as [Hle|Hle]; try lia;
    try (exists []; split; [done|]; split;
         [intros s Hs; by apply elem_of_nil in Hs|intros s Hc; by apply candidate_none in Hc]).
  destruct (Hr wall ltac:(lia)) as [start Hs]. rewrite Hs. cbn [mbind option_bind].
  set (last' := if bool_decide (last = Some start) then last else Some start).
  destruct (IH (wall + pa_duration p)%Z last' ltac:(lia) ltac:(lia) Hr) as (l & Hl & Hin & Hout).
  exists (if bool_decide (last = Some start) then l
          else if bookable p busy window_end (slot_at p start) then slot_at p start :: l else l).
  split; [|split].
  - unfold last' in Hl. case_bool_decide; rewrite Hl; [done|]. cbn [mbind option_bind].
    by destruct (bookable _ _ _ _).
  - intros s Hs'. rewrite candidate_next by done.
    assert (s ∈ l \/ (s = slot_at p start /\ bookable p busy window_end (slot_at p start) = true)) as [Hs''|[-> Hb]].
    { case_bool_decide; [by left|]. destruct (bookable _ _ _ _); [|by left].
      apply elem_of_cons in Hs' as [->|?]; auto. }
    + destruct (Hin s Hs''). auto.
    + split; [by left|]. by split.
  - intros s Hc Ho. rewrite candidate_next in Hc by done.
    assert (s_start s = start -> s ∈ (if bool_decide (last = Some start) then l
      else if bookable p busy window_end (slot_at p start) then slot_at p start :: l else l)
      \/ last = Some (s_start s)) as Hstart.
    { intros Es. case_bool_decide as Hd; [right; by rewrite Es|]. left.
      destruct Ho as [Es' Hb]. rewrite Es in Es'. rewrite <- Es', Hb. apply list_elem_of_here. }
    destruct Hc as [Hc|Hc]; [apply Hstart; congruence|].
    destruct (Hout s Hc Ho) as [Hl'|Hl'].
    + left. case_bool_decide; [done|]. destruct (bookable _ _ _ _); [by right|done].
    + unfold last' in Hl'. case_bool_decide; [by right|]. apply Hstart. congruence.
Qed.

Lemma window_slots_spec date w :
  (0 <= w.1)%Z -> (w.2 < 24 * 60)%Z -> (w.1 < w.2)%Z -> minutes_resolve date ->
  exists l we, resolve_local (pa_tz p) (minutes_to_local date w.2) = Some we
  /\ window_slots p busy date w = Some l
  /\ forall s, s ∈ l <-> candidate date w (s_start s) /\ offered_at we s.
Proof.
  intros H1 H2 H3 Hr. destruct w as [ws wl]. simpl in *.
  destruct (Hr wl ltac:(lia)) as [we Hwe].
  destruct (walk_spec (Z.to_nat wl) date wl we ws None ltac:(lia) ltac:(lia) ltac:(lia) Hr) as (l & Hl & Hin & Hout).
  exists l, we. split; [done|]. unfold window_slots. simpl. rewrite Hwe. cbn [mbind option_bind].
  split; [done|]. intros s. split; [apply Hin|]. intros [Hc Ho]. by destruct (Hout s Hc Ho).
Qed.

(** A slot of one date: a candidate of one of its windows that passes the tests. *)
Definition offered_on (date : Z) (s : Slot) : Prop :=
  exists w we, w ∈ windows_for_date (pa_availability p) date
  /\ resolve_local (pa_tz p) (minutes_to_local date w.2) = Some we
  /\ candidate date w (s_start s) /\ offered_at we s.

Lemma each_window_spec date prev ws :
  (0 <= prev)%Z -> ordered_windows prev ws -> minutes_resolve date ->
  exists l, each_window p busy date ws = Some l
  /\ forall s, s ∈ l <-> exists w we, w ∈ ws
       /\ resolve_local (pa_tz p) (minutes_to_local date w.2) = Some we
       /\ candidate date w (s_start s) /\ offered_at we s.
Proof.
  revert prev. induction ws as [|w ws IH]; intros prev Hp Ho Hr; simpl.
  - exists []. split; [done|]. intros s. split; [intros Hs; by apply elem_of_nil in Hs|].
    intros (w & we & Hw & _). by apply elem_of_nil in Hw.
  - destruct Ho as (H1 & H2 & H3).
    destruct (window_slots_spec date w ltac:(lia) H2 ltac:(lia) Hr) as (l1 & we & Hwe & -> & Hs1).
    destruct (IH w.2 ltac:(lia) H3 Hr) as (l2 & -> & Hs2). cbn [mbind option_bind].
    eexists. split; [done|]. intros s. rewrite elem_of_app, Hs1, Hs2. split.
    + intros [?|(w' & we' & Hw' & ?)]; [exists w, we|exists w', we'].
      * split; [apply list_elem_of_here|]. by split.
      * split; [by right|done].
    + intros (w' & we' & Hw' & Hr' & Hc). apply elem_of_cons in Hw' as [->|Hw'].
      * left. rewrite Hwe in Hr'. by injection Hr' as ->.
      * right. eauto.
Qed.

Lemma day_slots_spec date :
  validate (pa_availability p) = Ok tt -> minutes_resolve date ->
  exists l, day_slots p busy booked date = Some l
  /\ forall s, s ∈ l <-> (out_of_range p date = false /\ day_full p booked date = false)
                         /\ offered_on date s.
Proof.
  intros Hv Hr. unfold day_slots.
  destruct (out_of_range p date), (day_full p booked date); simpl;
    try (exists []; split; [done|]; intros s; split;
         [intros Hs; by apply elem_of_nil in Hs|intros [[? ?] _]; done]).
  destruct (each_window_spec date 0 _ ltac:(lia) (windows_for_date_ordered _ date Hv) Hr) as (l & -> & Hl).
  exists l. split; [done|]. intros s. rewrite Hl. unfold offered_on. tauto.
Qed.

Definition offered (from to : Z) (s : Slot) : Prop :=
  exists date, (from <= date <= to)%Z /\ out_of_range p date = false /\ day_full p booked date = false
  /\ offered_on date s.

Lemma each_date_spec n from to :
  validate (pa_availability p) = Ok tt -> (to < last_date)%Z -> (to - from + 1 <= Z.of_nat n)%Z ->
  exists l, each_date p busy booked n from to = Some l /\ forall s, s ∈ l <-> offered from to s.
Proof.
  intros Hv Hto. revert from. induction n as [|n IH]; intros from Hn; cbn [each_date];
    destruct (Z.leb_spec from to) as [Hle|Hle]; try lia;
    try (exists []; split; [done|]; intros s; split;
         [intros Hs; by apply elem_of_nil in Hs|intros (d & Hd & _); lia]).
  destruct (day_slots_spec from Hv (minutes_resolve_before from ltac:(lia))) as (l1 & -> & Hs1).
  cbn [mbind option_bind]. unfold date_add. destruct (Z.leb_spec (from + 1) last_date); [|lia].
  cbn [mbind option_bind]. destruct (IH (from + 1)%Z ltac:(lia)) as (l2 & -> & Hs2).
  cbn [mbind option_bind]. eexists. split; [done|]. intros s. rewrite elem_of_app, Hs1, Hs2. split.
  - intros [((? & ?) & ?)|(d & ? & ?)]; [exists from|exists d].
    + split; [lia|]. auto.
    + split; [lia|done].
  - intros (d & Hd & H1 & H2 & H3). destruct (decide (d = from)) as [->|]; [by left|].
    right. exists d. split; [lia|done].
Qed.

Lemma compute_slots_run from to :
  validate (pa_availability p) = Ok tt -> (to < last_date)%Z ->
  exists l, compute_slots p busy booked from to = Some l /\ forall s, s ∈ l <-> offered from to s.
Proof. intros Hv Hto. apply each_date_spec; [done..|]. lia. Qed.

(** C9: On a validated availability document and a duration of at least a minute that
    leaves the [u32] minutes of a day no room to overflow (a page's own are 5 to 480),
    for dates before the last one chrono can represent, [compute_slots] ends without a
    panic, and it offers exactly these slots: for a date of the range
    inside the validity bounds and below the daily limit, a window of that date and a
    whole number of durations into it, the slot that starts at the instant of that
    wall-clock time ([wall_instant]: a time a clock change skips stands for the first
    of the times 15, 30, ... minutes later that exists, which is not the first instant
    after the gap that the documentation announces), lasts one duration, ends before the window does, respects the
    notice, and stays clear of every busy interval by the page's buffers. *)
Theorem compute_slots_spec from to :
  validate (pa_availability p) = Ok tt -> (to < last_date)%Z ->
  exists l, compute_slots p busy booked from to = Some l
  /\ forall s, s ∈ l <->
    exists date w window_end k,
      (from <= date <= to)%Z /\ out_of_range p date = false /\ day_full p booked date = false
      /\ w ∈ windows_for_date (pa_availability p) date
      /\ wall_instant (pa_tz p) (minutes_to_local date w.2) window_end
      /\ (0 <= k)%Z /\ (w.1 + (k + 1) * pa_duration p <= w.2)%Z
      /\ wall_instant (pa_tz p) (minutes_to_local date (w.1 + k * pa_duration p)) (s_start s)
      /\ s_end s = (s_start s + pa_duration p * 60)%Z /\ (s_end s <= window_end)%Z
      /\ (pa_now p + pa_min_notice p * 60 <= s_start s)%Z
      /\ forall b, b ∈ busy ->
           (s_end s + pa_buffer_after p * 60 <= b.1 \/ b.2 <= s_start s - pa_buffer_before p * 60)%Z.
Proof.
  intros Hv Hto. destruct (compute_slots_run from to Hv Hto) as (l & Hl & Hs). exists l. split; [done|].
  assert (forall d m x, (d <= to)%Z ->
    resolve_local (pa_tz p) (minutes_to_local d m) = Some x <-> wall_instant (pa_tz p) (minutes_to_local d m) x) as Hwall.
  { intros d m x Hd. apply resolve_local_instant. unfold minutes_to_local, DAY. destruct (Z.ltb_spec (m * 60) 86400); lia. }
  intros s. rewrite Hs. unfold offered, offered_on, candidate, offered_at, bookable. split.
  - intros (d & Hd & Hr & Hf & w & we & Hw & Hwe & (k & Hk & Hkw & Hst) & Es & Hb).
    exists d, w, we, k. rewrite !andb_true_iff, negb_true_iff in Hb. destruct Hb as [[Hb1 Hb2] Hb3].
    rewrite Hwall in Hwe, Hst by lia.
    unfold earliest_start in Hb2. repeat (split; [first [done|lia|by rewrite Es]|]).
    intros b Hbusy. pose proof (existsb_false_elem _ _ b Hb3 Hbusy) as Ho.
    unfold overlaps, widened in Ho. simpl in Ho. apply andb_false_iff in Ho. lia.
  - intros (d & w & we & k & Hd & Hr & Hf & Hw & Hwe & Hk & Hkw & Hst & He & Hew & Hn & Hb).
    rewrite <- Hwall in Hwe, Hst by lia.
    exists d. split; [done|]. split; [done|]. split; [done|]. exists w, we. split; [done|]. split; [done|].
    split; [by exists k|]. split; [destruct s; unfold slot_at; simpl in *; by subst|].
    rewrite !andb_true_iff, negb_true_iff. unfold earliest_start. split; [split; lia|].
    apply not_true_iff_false. intros (b & Hbin & Hbo)%existsb_elem. specialize (Hb b Hbin).
    unfold overlaps, widened in Hbo. simpl in Hbo. lia.
Qed.

End Window.

End SlotFacts.
