(* ===== verification/CalHistory.v ===== *)
(** The calendar tables under every sequence of storage calls: keys stay unique,
    references stay valid, stored pages stay readable and valid, and no account is
    ever booked twice at one time. *)
From S2P Require Import Prelude Text Bytes Ident Store Calendars Sharing FedStore Scheduling.

Open Scope string_scope.

Section CalHistory.
Context `{SerdeLaws Permissions} `{SerdeLaws Availability} `{SerdeLaws (list Z)}.
Variable parse_uuid : string -> option string.
Variable known_zone : string -> bool.

Abbreviation row_to_page := (row_to_page parse_uuid).
Abbreviation validate_common := (validate_common known_zone).

(** ** The calls *)

(** The widths of the integers of a request ([u32] fields). *)
Definition u32 (z : Z) : Prop := (0 <= z < 2 ^ 32)%Z.
Definition new_page_typed (n : NewSchedulingPage) : Prop :=
  u32 (np_buffer_before n) /\ u32 (np_buffer_after n) /\ u32 (np_min_notice n).
Definition patch_typed (p : SchedulingPagePatch) : Prop :=
  (forall z, pt_buffer_before p = Some z -> u32 z) /\ (forall z, pt_buffer_after p = Some z -> u32 z)
  /\ (forall z, pt_min_notice p = Some z -> u32 z).

(** What the caller of [book_slot] promises: the busy interval contains the slot. *)
Definition request_widened (r : BookSlotRequest) : Prop :=
  (rq_busy_from r <= rq_start r)%Z /\ (rq_end r <= rq_busy_to r)%Z.

(** The calls that write the tables of this file. *)
Inductive writes : forall A, KM A -> Prop :=
  | w_calendar i now a n desc : writes _ (create_calendar i now a n desc)
  | w_event i now c t desc s e r : writes _ (create_calendar_event i now c t desc s e r)
  | w_remote_event i now c f t desc s e r : writes _ (create_remote_calendar_event i now c f t desc s e r)
  | w_update_event now i t desc s e r : writes _ (update_calendar_event now i t desc s e r)
  | w_update_remote now i t desc s e r : writes _ (update_remote_calendar_event now i t desc s e r)
  | w_delete_event i : writes _ (delete_calendar_event i)
  | w_page i now a new : new_page_typed new ->
      writes _ (create_scheduling_page parse_uuid known_zone i now a new)
  | w_update_page now a i patch : patch_typed patch ->
      writes _ (update_scheduling_page parse_uuid known_zone now a i patch)
  | w_book e b t now req : request_widened req -> writes _ (book_slot parse_uuid e b t now req).

(** The calls that leave them alone: every reader, the account tables, sharing,
    invitations, and the federation tables. *)
Definition same_tables (d d' : CalDb) : Prop :=
  calendars d' = calendars d /\ events d' = events d /\ pages d' = pages d /\ bookings d' = bookings d.
Definition quiet {A} (m : KM A) : Prop := forall d, same_tables d (snd (m d)).

Inductive cal_step : CalDb -> CalDb -> Prop :=
  | step_writes A (m : KM A) d : writes A m -> cal_step d (snd (m d))
  | step_quiet A (m : KM A) d : quiet m -> cal_step d (snd (m d)).

Inductive cal_reachable (core : Db) : CalDb -> Prop :=
  | reach_start : cal_reachable core (empty_cal_db core)
  | reach_step d d' : cal_reachable core d -> cal_step d d' -> cal_reachable core d'.

(** *** The quiet calls *)

Lemma cal_quiet_ret {A} (a : A) : quiet (ret a).
Proof. by intros d. Qed.
Lemma cal_quiet_fail {A} e : quiet (fail (A:=A) e).
Proof. by intros d. Qed.
Lemma cal_quiet_lift {A} (r : result StorageError A) : quiet (lift r).
Proof. by intros d. Qed.
Lemma cal_quiet_gets {A} (f : CalDb -> A) : quiet (gets f).
Proof. by intros d. Qed.
Lemma cal_quiet_reads {A} (f : CalDb -> result StorageError A) : quiet (fun d => (f d, d)).
Proof. by intros d. Qed.
Lemma cal_quiet_require t w : quiet (require_cal t w).
Proof. intros d. unfold require_cal. by destruct (t d). Qed.
Lemma cal_quiet_bind {A B} (m : KM A) (k : A -> KM B) : quiet m -> (forall a, quiet (k a)) -> quiet (bind m k).
Proof.
  intros Hm Hk d. unfold bind. specialize (Hm d). destruct (m d) as [[a|e] d1]; simpl in *; [|done].
  specialize (Hk a d1). unfold same_tables in *. naive_solver congruence.
Qed.
Lemma cal_quiet_if {A} (b : bool) (m n : KM A) : quiet m -> quiet n -> quiet (if b then m else n).
Proof. by destruct b. Qed.
Lemma cal_quiet_modify f : (forall d, same_tables d (f d)) -> quiet (modify f).
Proof. intros Hf d. apply Hf. Qed.
Lemma cal_quiet_core {A} (m : SM A) : quiet (on_cal_core m).
Proof. intros d. unfold on_cal_core. by destruct (m (cal_core d)). Qed.

#[local] Hint Resolve cal_quiet_ret cal_quiet_fail cal_quiet_lift cal_quiet_gets cal_quiet_reads cal_quiet_require cal_quiet_core : core.

Ltac quiet_tac :=
  repeat first
    [ done
    | apply cal_quiet_ret | apply cal_quiet_fail | apply cal_quiet_lift | apply cal_quiet_gets | apply cal_quiet_require
    | apply cal_quiet_reads | apply cal_quiet_core
    | apply cal_quiet_if | apply cal_quiet_bind; [|intros ?]
    | apply cal_quiet_modify; intros ?; by repeat split
    | match goal with |- quiet (match ?x with _ => _ end) => destruct x end ].

Lemma quiet_sharing :
  (forall i now c a b t, quiet (share_calendar i now c a b t))
  /\ (forall now i a, quiet (accept_sharing now i a)) /\ (forall i a, quiet (reject_sharing i a))
  /\ (forall a c, quiet (calendar_access a c)).
Proof.
  unfold share_calendar, insert_sharing, accept_sharing, reject_sharing, update_sharing, calendar_access.
  repeat split_and!; intros; quiet_tac.
Qed.

Lemma quiet_invitations :
  (forall i now c a e u t, quiet (create_federation_invitation i now c a e u t))
  /\ (forall i a, quiet (accept_federation_invitation i a)) /\ (forall i a, quiet (reject_invitation i a)).
Proof.
  unfold create_federation_invitation, insert_invitation, accept_federation_invitation,
    reject_invitation, answer_invitation.
  repeat split_and!; intros; quiet_tac.
Qed.

Lemma quiet_federations :
  (forall i c1 c2 now c e u t p f, quiet (create_outbound_federation i c1 c2 now c e u t p f))
  /\ (forall now i c e u t p f s, quiet (create_inbound_federation now i c e u t p f s))
  /\ (forall i a, quiet (accept_inbound_federation i a)) /\ (forall i a, quiet (reject_inbound_federation i a))
  /\ (forall now i t, quiet (update_federation_sync_token now i t))
  /\ (forall i, quiet (mark_federation_error i)).
Proof.
  unfold create_outbound_federation, create_inbound_federation, insert_federation,
    accept_inbound_federation, reject_inbound_federation, answer_federation,
    update_federation_sync_token, mark_federation_error.
  repeat split_and!; intros; quiet_tac.
Qed.

Lemma quiet_fed_store :
  (forall f b, quiet (set_server_identity f b))
  /\ (forall now d u c f, quiet (upsert_federation_peer now d u c f))
  /\ (forall f n t, quiet (check_and_record_nonce f n t)) /\ (forall now, quiet (prune_expired_nonces now))
  /\ (forall now f u e a, quiet (set_federation_event_map now f u e a))
  /\ (forall i now f p b, quiet (fed_enqueue i now f p b)) /\ (forall now l, quiet (fed_due_items now l))
  /\ (forall now i s e m, quiet (fed_record_attempt now i s e m))
  /\ (forall now, quiet (fed_reset_stale_claims now)).
Proof.
  unfold set_server_identity, upsert_federation_peer, prune_expired_nonces, set_federation_event_map,
    fed_enqueue, fed_due_items, fed_record_attempt, fed_reset_stale_claims.
  repeat split_and!; intros; quiet_tac.
  intros d. unfold check_and_record_nonce. by destruct (existsb _ _).
Qed.

(** ** The invariant *)

(** A stored page reads back as a page that passes the creation checks. *)
Definition page_valid (p : SchedulingPage) : Prop :=
  title_ok (sp_title p) = true
  /\ validate_common (sp_timezone p) (sp_availability p) (sp_durations p) (sp_buffer_before p)
       (sp_buffer_after p) (sp_min_notice p) (sp_valid_from p) (sp_valid_until p) = Ok tt
  /\ u32 (sp_buffer_before p) /\ u32 (sp_buffer_after p) /\ u32 (sp_min_notice p).

Definition disjoint_times (a b : BookingRow) : Prop :=
  (bk_end a <= bk_start b \/ bk_end b <= bk_start a)%Z.

Record cal_ok (d : CalDb) : Prop := {
  uniq_calendars : NoDup (map cal_id (calendars d));
  uniq_events : NoDup (map ev_id (events d));
  uniq_pages : NoDup (map pg_id (pages d));
  uniq_slugs : NoDup (map pg_slug (pages d));
  uniq_bookings : NoDup (map bk_id (bookings d));
  event_refs : forall e, e ∈ events d -> calendar_known (ev_calendar e) d = true;
  page_refs : forall p, p ∈ pages d -> owns_calendar (pg_calendar p) (pg_account p) d = true;
  booking_refs : forall b, b ∈ bookings d ->
    event_known (bk_event b) d = true
    /\ exists p, p ∈ pages d /\ pg_id p = bk_page b /\ pg_account p = bk_account b;
  pages_valid : forall r, r ∈ pages d -> exists p, row_to_page r = Ok p /\ page_valid p;
  booking_rows : forall b, b ∈ bookings d -> bk_status b = "confirmed" /\ (bk_start b < bk_end b)%Z;
  no_overlap : forall i j a b, bookings d !! i = Some a -> bookings d !! j = Some b -> i <> j ->
    bk_account a = bk_account b -> disjoint_times a b
}.

Lemma cal_ok_empty core : cal_ok (empty_cal_db core).
Proof. split; simpl; try apply NoDup_nil_2; intros *; by intros ?%elem_of_nil || done. Qed.

(** The facts read only these four tables. *)
Lemma cal_ok_same d d' : same_tables d d' -> cal_ok d -> cal_ok d'.
Proof.
  intros (Hc & He & Hp & Hb) [].
  split; unfold calendar_known, owns_calendar, event_known in *; rewrite ?Hc, ?He, ?Hp, ?Hb; done.
Qed.

Lemma existsb_app_l {A} (f : A -> bool) l k : existsb f l = true -> existsb f (l ++ k) = true.
Proof. intros Hl. by rewrite existsb_app, Hl. Qed.

(** A failed insert changes nothing; a successful one appends its row. *)
Lemma insert_calendar_cases row d r d' :
  insert_calendar row d = (r, d') ->
  (d' = d /\ (exists e, r = Err e))
  \/ (r = Ok tt /\ calendar_known (cal_id row) d = false /\ d' = on_calendars (fun l => (l ++ [row])%list) d).
Proof.
  unfold insert_calendar, require_cal, bind, modify.
  destruct (account_known _ d); [|intros [= <- <-]; left; eauto].
  destruct (calendar_known (cal_id row) d); simpl; intros [= <- <-]; [left|right]; eauto.
Qed.

Lemma insert_event_cases row d r d' :
  insert_event row d = (r, d') ->
  (d' = d /\ (exists e, r = Err e))
  \/ (r = Ok tt /\ calendar_known (ev_calendar row) d = true /\ event_known (ev_id row) d = false
      /\ d' = on_events (fun l => (l ++ [row])%list) d).
Proof.
  unfold insert_event, require_cal, bind, modify.
  destruct (calendar_known _ d); [|intros [= <- <-]; left; eauto].
  destruct (event_known (ev_id row) d); simpl; intros [= <- <-]; [left|right]; eauto.
Qed.

Lemma existsb_key_false {A} (f : A -> string) (k : string) l :
  existsb (fun x => String.eqb (f x) k) l = false -> forall y, y ∈ l -> f y <> k.
Proof.
  intros Hf y Hy E. pose proof (existsb_false_elem _ _ y Hf Hy) as Hn. simpl in Hn.
  rewrite E, String.eqb_refl in Hn. done.
Qed.

Lemma cal_ok_add_calendar row d :
  calendar_known (cal_id row) d = false -> cal_ok d -> cal_ok (on_calendars (fun l => (l ++ [row])%list) d).
Proof.
  intros Hn [].
  split; simpl; try done; unfold calendar_known, owns_calendar in *; simpl; intros;
    try (apply existsb_app_l; eauto); eauto.
  apply NoDup_map_snoc; [done|]. by apply existsb_key_false.
Qed.

Lemma cal_ok_add_event row d :
  calendar_known (ev_calendar row) d = true -> event_known (ev_id row) d = false -> cal_ok d ->
  cal_ok (on_events (fun l => (l ++ [row])%list) d).
Proof.
  intros Hc Hn [].
  split; simpl; try done; unfold calendar_known, owns_calendar, event_known in *; simpl; eauto.
  - apply NoDup_map_snoc; [done|]. by apply existsb_key_false.
  - intros e He. apply elem_of_app in He as [He| ->%list_elem_of_singleton]; eauto.
  - intros b Hb. destruct (booking_refs0 b Hb) as [? ?]. split; [by apply existsb_app_l|done].
Qed.

(** An update that keeps ids and calendars. *)
Lemma cal_ok_update_events test f d :
  (forall e, ev_id (f e) = ev_id e /\ ev_calendar (f e) = ev_calendar e) -> cal_ok d ->
  cal_ok (on_events (update_where test f) d).
Proof.
  intros Hf [].
  assert (map ev_id (update_where test f (events d)) = map ev_id (events d)) as Hids.
  { unfold update_where. rewrite map_map. apply map_ext. intros e. destruct (test e); [apply Hf|done]. }
  split; simpl; try done; unfold calendar_known, owns_calendar, event_known in *; simpl.
  - by rewrite Hids.
  - intros e (x & Hx & ->)%elem_of_map. destruct (test x); [rewrite (proj2 (Hf x))|]; eauto.
  - intros b Hb. destruct (booking_refs0 b Hb) as [He ?]. split; [|done].
    apply existsb_elem in He as (x & Hx & E). apply existsb_elem.
    exists (if test x then f x else x). split; [apply elem_of_map; eauto|].
    destruct (test x); [by rewrite (proj1 (Hf x))|done].
Qed.

Lemma cal_ok_delete_event i d :
  event_referenced i d = false -> cal_ok d ->
  cal_ok (on_events (List.filter (fun r => negb (String.eqb (ev_id r) i))) d).
Proof.
  intros Hn [].
  split; simpl; try done; unfold calendar_known, owns_calendar, event_known in *; simpl.
  - clear -uniq_events0. induction (events d) as [|e l IH]; simpl; [constructor|].
    apply NoDup_cons in uniq_events0 as [He Hl]. destruct (negb _); simpl; [|by apply IH].
    apply NoDup_cons. split; [|by apply IH]. intros (x & Hx & E)%elem_of_map.
    apply elem_of_filter_bool in Hx as [Hx _]. apply He, elem_of_map. eauto.
  - intros e He. apply elem_of_filter_bool in He as [He _]. eauto.
  - intros b Hb. destruct (booking_refs0 b Hb) as [He ?]. split; [|done].
    apply existsb_elem in He as (x & Hx & E). apply existsb_elem. exists x. split; [|done].
    apply elem_of_filter_bool. split; [done|]. apply String.eqb_eq in E. rewrite E.
    apply orb_false_iff in Hn as [Hn _].
    pose proof (existsb_false_elem _ _ b Hn Hb) as Hne. simpl in Hne. by rewrite Hne.
Qed.

Lemma delete_event_cases i d :
  snd (delete_calendar_event i d) = d
  \/ snd (delete_calendar_event i d) = on_events (List.filter (fun r => negb (String.eqb (ev_id r) i))) d.
Proof.
  unfold delete_calendar_event, require_cal, bind, modify. destruct (negb _); simpl; auto.
Qed.

Lemma cal_ok_drop_missing i d :
  event_known i d = false -> events (on_events (List.filter (fun r => negb (String.eqb (ev_id r) i))) d) = events d.
Proof.
  intros Hn. simpl. unfold event_known in Hn. induction (events d) as [|e l IH]; simpl in *; [done|].
  apply orb_false_iff in Hn as [He Hl]. by rewrite He, IH.
Qed.

Lemma delete_event_ok i d : cal_ok d -> cal_ok (snd (delete_calendar_event i d)).
Proof.
  intros Hok. unfold delete_calendar_event, require_cal, bind, modify.
  destruct (event_known i d) eqn:Ek, (event_referenced i d) eqn:Er; simpl; try done;
    try (by apply cal_ok_delete_event).
  eapply cal_ok_same; [|done]. repeat split; [by apply cal_ok_drop_missing].
Qed.

(** ** Pages *)

Lemma as_u32_id z : u32 z -> as_u32 z = z.
Proof. intros Hz. by apply Z.mod_small. Qed.

Definition page_of (i a slug : string) (title : string) (desc : option string) (c tz : string)
  (av : Availability) (ds : list Z) (bb ba mn : Z) (mpd : option Z) (vf vu : option string)
  (st : PageStatus) (t1 t2 : Z) : PageRow :=
  mk_page_row i a slug title desc c tz (to_json av) (to_json ds) bb ba mn mpd vf vu (status_as_str st) t1 t2.

Lemma page_of_valid i a slug title desc c tz av ds bb ba mn mpd vf vu st t1 t2 p :
  title_ok title = true -> validate_common tz av ds bb ba mn vf vu = Ok tt ->
  u32 bb -> u32 ba -> u32 mn ->
  row_to_page (page_of i a slug title desc c tz av ds bb ba mn mpd vf vu st t1 t2) = Ok p -> page_valid p.
Proof.
  intros Ht Hv Hbb Hba Hmn. unfold row_to_page, page_of, result_bind, or_unreadable, ok_or. simpl.
  destruct (parse_uuid i); [|done]. destruct (parse_uuid a); [|done]. destruct (parse_uuid c); [|done].
  rewrite !of_to_json. destruct (status_parse _); [|done]. intros [= <-].
  unfold page_valid. simpl. rewrite !as_u32_id by done. done.
Qed.

Lemma read_page_frame test d : snd (read_page parse_uuid test d) = d.
Proof. done. Qed.

Lemma find_key_unique {A} (f : A -> string) l x :
  NoDup (map f l) -> x ∈ l -> List.find (fun y => String.eqb (f y) (f x)) l = Some x.
Proof.
  intros Hnd Hx.
  destruct (find_is_Some (fun y => String.eqb (f y) (f x)) l x Hx (String.eqb_refl _)) as [y Hy].
  rewrite Hy. apply find_Some_elem in Hy as [Hy E]. apply String.eqb_eq in E.
  f_equal. by eapply NoDup_map_inj.
Qed.

Lemma insert_page_cases row d r d' :
  insert_page row d = (r, d') ->
  (d' = d /\ (r = Ok false \/ exists e, r = Err e))
  \/ (r = Ok true /\ existsb (fun x => String.eqb (pg_slug x) (pg_slug row)) (pages d) = false
      /\ existsb (fun x => String.eqb (pg_id x) (pg_id row)) (pages d) = false
      /\ d' = on_pages (fun l => (l ++ [row])%list) d).
Proof.
  unfold insert_page, bind, gets, require_cal, modify, ret.
  destruct (existsb _ (pages d)) eqn:Es; [intros [= <- <-]; left; auto|].
  destruct (_ && _); [|intros [= <- <-]; left; eauto].
  destruct (existsb (fun r0 => String.eqb (pg_id r0) (pg_id row)) (pages d)) eqn:Ei; simpl;
    intros [= <- <-]; [left; eauto|right; auto].
Qed.

Lemma cal_ok_add_page row p d :
  existsb (fun x => String.eqb (pg_slug x) (pg_slug row)) (pages d) = false ->
  existsb (fun x => String.eqb (pg_id x) (pg_id row)) (pages d) = false ->
  owns_calendar (pg_calendar row) (pg_account row) d = true ->
  row_to_page row = Ok p -> page_valid p -> cal_ok d ->
  cal_ok (on_pages (fun l => (l ++ [row])%list) d).
Proof.
  intros Hs Hi Ho Hp Hv [].
  split; simpl; try done; unfold calendar_known, owns_calendar, event_known in *; simpl.
  - apply NoDup_map_snoc; [done|]. by apply existsb_key_false.
  - apply NoDup_map_snoc; [done|]. by apply existsb_key_false.
  - intros x Hx. apply elem_of_app in Hx as [Hx| ->%list_elem_of_singleton]; eauto.
  - intros b Hb. destruct (booking_refs0 b Hb) as (? & q & ? & ?). split; [done|]. exists q.
    split; [apply elem_of_app; auto|done].
  - intros x Hx. apply elem_of_app in Hx as [Hx| ->%list_elem_of_singleton]; eauto.
Qed.

Lemma transaction_keeps {A} (P : CalDb -> Prop) (m : KM A) d :
  P d -> (forall a d', m d = (Ok a, d') -> P d') -> P (snd (transaction m d)).
Proof. intros Hd Hm. unfold transaction. destruct (m d) as [[a|e] d'] eqn:E; simpl; eauto. Qed.

Lemma find_page_app l row :
  existsb (fun x => String.eqb (pg_id x) (pg_id row)) l = false ->
  List.find (fun x => String.eqb (pg_id x) (pg_id row)) (l ++ [row]) = Some row.
Proof.
  intros Hn. induction l as [|x l IH]; simpl in *; [by rewrite String.eqb_refl|].
  apply orb_false_iff in Hn as [-> Hl]. by apply IH.
Qed.

Lemma create_page_ok i now a new d :
  new_page_typed new -> cal_ok d ->
  cal_ok (snd (create_scheduling_page parse_uuid known_zone i now a new d)).
Proof.
  intros (Tb & Ta & Tm) Hok. unfold create_scheduling_page. unfold bind at 1, lift at 1.
  destruct (validate_slug _); [|done]. unfold bind at 1, lift at 1.
  destruct (Scheduling.validate_common _ _ _ _ _ _ _ _ _) as [[]|] eqn:Ev; [|done].
  destruct (title_ok (np_title new)) eqn:Et; [|done]. cbn [negb].
  apply (transaction_keeps cal_ok); [done|]. intros p d' Hrun. unfold bind at 1, gets at 1 in Hrun.
  destruct (owns_calendar (np_calendar new) a d) eqn:Eo; [|done]. cbn [negb] in Hrun.
  apply bind_ok in Hrun as ([|] & d1 & Hins & Hrun); cbn [negb] in Hrun; [|done].
  set (row := mk_page_row _ _ _ _ _ _ _ _ _ _ _ _ _ _ _ _ _ _) in *.
  apply insert_page_cases in Hins as [(_ & [?|(? & ?)])|(_ & Hs & Hi & ->)]; try done.
  unfold the_page, read_page, bind, lift, select_first in Hrun.
  change (pages (on_pages (fun l => (l ++ [row])%list) d)) with (pages d ++ [row])%list in Hrun.
  change i with (pg_id row) in Hrun. rewrite find_page_app in Hrun by done. unfold result_bind in Hrun.
  destruct (row_to_page row) as [q|] eqn:Er; [|done]. cbn in Hrun. injection Hrun as Hpq Hd; subst p d'.
  eapply cal_ok_add_page; [exact Hs|exact Hi|exact Eo|exact Er| |done].
  eapply (page_of_valid _ _ _ _ _ _ _ _ _ _ _ _ _ _ _ Active); [exact Et|exact Ev|done..|exact Er].
Qed.

Lemma row_to_page_typed r p :
  row_to_page r = Ok p -> u32 (sp_buffer_before p) /\ u32 (sp_buffer_after p) /\ u32 (sp_min_notice p).
Proof.
  unfold row_to_page, result_bind, or_unreadable, ok_or.
  repeat (case_match; try done). intros [= <-]. simpl. unfold u32, as_u32.
  repeat split; apply Z.mod_pos_bound; lia.
Qed.

Lemma update_pages_map {B} (g : PageRow -> B) test f l :
  (forall r, g (f r) = g r) -> map g (update_where test f l) = map g l.
Proof.
  intros Hf. unfold update_where. rewrite map_map. apply map_ext. intros r. destruct (test r); [apply Hf|done].
Qed.

Lemma find_update_key i f l :
  (forall r, pg_id (f r) = pg_id r) ->
  List.find (fun r => String.eqb (pg_id r) i) (update_where (fun r => String.eqb (pg_id r) i) f l)
  = option_map f (List.find (fun r => String.eqb (pg_id r) i) l).
Proof.
  intros Hf. induction l as [|x l IH]; simpl; [done|].
  destruct (String.eqb (pg_id x) i) eqn:E; simpl; [by rewrite Hf, E|by rewrite E].
Qed.

Lemma update_page_ok now a i patch d :
  patch_typed patch -> cal_ok d ->
  cal_ok (snd (update_scheduling_page parse_uuid known_zone now a i patch d)).
Proof.
  intros (Tb & Ta & Tm) Hok. unfold update_scheduling_page.
  apply (transaction_keeps cal_ok); [done|]. intros p d' Hrun.
  apply bind_ok in Hrun as (found & d1 & Hread & Hrun). unfold read_page in Hread. injection Hread as Hread <-.
  apply bind_ok in Hrun as (current & d1 & Hcur & Hrun). unfold lift in Hcur. injection Hcur as Hcur <-.
  destruct found as [c|]; [|done]. cbn in Hcur. injection Hcur as ->.
  destruct (select_first _ (pages d)) as [row|] eqn:Ef; [|done]. unfold result_bind in Hread.
  destruct (Scheduling.row_to_page parse_uuid row) as [c|] eqn:Er; [|done]. injection Hread as ->.
  destruct (row_to_page_typed _ _ Er) as (Cb & Ca & Cm).
  destruct (title_ok _) eqn:Et in Hrun; [|done]. cbn [negb] in Hrun.
  apply bind_ok in Hrun as ([] & d1 & Hv & Hrun). unfold lift in Hv. injection Hv as Hv <-.
  apply bind_ok in Hrun as ([] & d1 & Hmod & Hrun). unfold modify in Hmod. injection Hmod as <-.
  set (f := fun r : PageRow => mk_page_row (pg_id r) _ _ _ _ _ _ _ _ _ _ _ _ _ _ _ _ _) in Hrun.
  unfold the_page, read_page, bind, lift, select_first in Hrun.
  change (pages (on_pages (update_where (fun r => String.eqb (pg_id r) i) f) d))
    with (update_where (fun r => String.eqb (pg_id r) i) f (pages d)) in Hrun.
  rewrite find_update_key in Hrun by done.
  apply find_Some_elem in Ef as [Hrow Hi]. apply andb_true_iff in Hi as [Hi _]. apply String.eqb_eq in Hi.
  pose proof (find_key_unique pg_id _ _ (uniq_pages _ Hok) Hrow) as Hfind. rewrite Hi in Hfind.
  rewrite Hfind in Hrun. cbn [option_map] in Hrun. unfold result_bind in Hrun.
  destruct (Scheduling.row_to_page parse_uuid (f row)) as [q|] eqn:Eq; [|done]. cbn in Hrun. injection Hrun as Hpq Hd; subst p d'.
  assert (page_valid q) as Hvalid.
  { assert (forall o z, u32 z -> (forall x, o = Some x -> u32 x) -> u32 (default z o)) as Hdef
      by (intros [x|] z Hz Hx; simpl; auto).
    eapply page_of_valid; [exact Et|exact Hv| | | |exact Eq]; by apply Hdef. }
  destruct Hok. split; simpl; try done; unfold calendar_known, owns_calendar, event_known in *; simpl.
  - by rewrite update_pages_map.
  - by rewrite update_pages_map.
  - intros x (y & Hy & ->)%elem_of_map. destruct (String.eqb (pg_id y) i); eauto.
    specialize (page_refs0 y Hy). done.
  - intros b Hb. destruct (booking_refs0 b Hb) as (? & y & Hy & Ey & Ay). split; [done|].
    exists (if String.eqb (pg_id y) i then f y else y). split; [apply elem_of_map; eauto|].
    by destruct (String.eqb (pg_id y) i).
  - intros x (y & Hy & ->)%elem_of_map. destruct (String.eqb_spec (pg_id y) i) as [Ey|]; [|eauto].
    assert (y = row) as -> by (eapply NoDup_map_inj; [exact uniq_pages0|done|done|congruence]). eauto.
Qed.

(** ** Bookings *)

(** What a successful booking found and did. *)
Lemma book_slot_run e b t now req bo d d' :
  book_slot parse_uuid e b t now req d = (Ok bo, d') ->
  exists page,
    let ev := mk_event_row e (pg_calendar page) (rq_event_title req) (rq_event_description req)
                (rq_start req) (rq_end req) None now now None None in
    let bk := mk_booking_row b (rq_page req) (pg_account page) e (rq_visitor_name req)
                (rq_visitor_email req) (rq_note req) (rq_start req) (rq_end req) "confirmed" t now in
    (rq_start req < rq_end req)%Z
    /\ page ∈ pages d /\ pg_id page = rq_page req /\ pg_status page = "active"
    /\ (forall x, x ∈ account_events (pg_account page) d ->
          overlapping (rq_busy_from req) (rq_busy_to req) (ev_start x) (ev_end x) = false)
    /\ (forall x, x ∈ bookings d -> double_booked (pg_account page) (rq_busy_from req) (rq_busy_to req) x = false)
    /\ (forall limit, pg_max_per_day page = Some limit ->
          (Z.of_nat (length (List.filter (counted (rq_page req) (rq_day_bounds req).1 (rq_day_bounds req).2) (bookings d))) < limit)%Z)
    /\ event_known e d = false /\ calendar_known (pg_calendar page) d = true
    /\ existsb (fun x => String.eqb (bk_id x) b) (bookings d) = false
    /\ row_to_booking parse_uuid bk = Ok bo
    /\ d' = on_bookings (fun l => (l ++ [bk])%list) (on_events (fun l => (l ++ [ev])%list) d).
Proof.
  unfold book_slot. destruct (Z.leb_spec (rq_end req) (rq_start req)) as [|Hlt]; [done|].
  intros Hrun. apply (proj1 (transaction_ok _ _ _ _)) in Hrun. unfold bind at 1, gets at 1 in Hrun.
  destruct (select_first _ (pages d)) as [page|] eqn:Ef; [|done]. unfold bind at 1, lift at 1 in Hrun.
  cbn [ok_or] in Hrun. apply find_Some_elem in Ef as [Hpage Hp]. apply andb_true_iff in Hp as [Hi Hst].
  apply String.eqb_eq in Hi. apply String.eqb_eq in Hst.
  unfold bind at 1, gets at 1 in Hrun.
  destruct (existsb _ (account_events _ _)) eqn:Eb; [done|].
  unfold bind at 1, gets at 1 in Hrun. destruct (existsb _ (bookings d)) eqn:Ed; [done|].
  unfold bind at 1, gets at 1 in Hrun.
  destruct (match pg_max_per_day page with Some _ => _ | None => _ end) eqn:Eq; [done|].
  apply bind_ok in Hrun as ([] & d1 & Hev & Hrun).
  apply insert_event_cases in Hev as [(_ & ? & ?)|(_ & Hc & Hk & ->)]; [done|].
  apply bind_ok in Hrun as ([] & d1 & Hbk & Hrun). unfold insert_booking, require_cal, modify, bind in Hbk.
  destruct (_ && _) in Hbk; [|done].
  destruct (existsb _ (bookings (on_events _ d))) eqn:Eu in Hbk; [done|]. cbn [negb] in Hbk.
  injection Hbk as <-. unfold bind at 1, gets at 1 in Hrun.
  set (bk := mk_booking_row _ _ _ _ _ _ _ _ _ _ _ _) in *.
  assert (select_first (fun x => String.eqb (bk_id x) b)
    (bookings (on_bookings (fun l => (l ++ [bk])%list) (on_events (fun l => (l ++ [mk_event_row e (pg_calendar page)
       (rq_event_title req) (rq_event_description req) (rq_start req) (rq_end req) None now now None None])%list) d)))
    = Some bk) as Hfind.
  { simpl in *. clear -Eu. unfold select_first. induction (bookings d) as [|x l IH]; simpl in *.
    - by rewrite String.eqb_refl.
    - apply orb_false_iff in Eu as [-> Hl]. by apply IH. }
  rewrite Hfind in Hrun. unfold bind, lift in Hrun. cbn [ok_or] in Hrun. injection Hrun as Hbo <-.
  exists page. cbn zeta. split; [lia|]. split; [done|]. split; [done|]. split; [done|].
  split; [intros x Hx; exact (existsb_false_elem _ _ x Eb Hx)|].
  split; [intros x Hx; exact (existsb_false_elem _ _ x Ed Hx)|].
  split. { intros limit El. rewrite El in Eq. destruct (rq_day_bounds req). simpl. lia. }
  split; [done|]. split; [done|]. split; [done|]. by split.
Qed.

Lemma lookup_snoc {A} (l : list A) x i y :
  (l ++ [x])%list !! i = Some y -> (l !! i = Some y) \/ (i = length l /\ y = x).
Proof.
  intros Hi. apply lookup_app_Some in Hi as [Hi|[Hge Hi]]; [by left|right].
  apply list_lookup_singleton_Some in Hi as [Hi <-]. split; [lia|done].
Qed.

Lemma book_ok e b t now req d :
  request_widened req -> cal_ok d -> cal_ok (snd (book_slot parse_uuid e b t now req d)).
Proof.
  intros [Hf Ht] Hok. destruct (book_slot parse_uuid e b t now req d) as [[bo|er] d'] eqn:Erun.
  2: { unfold book_slot in Erun. destruct (_ <=? _)%Z; [by injection Erun as <- <-|].
       apply transaction_err in Erun. by subst. }
  apply book_slot_run in Erun as (page & Hlt & Hpage & Hi & _ & _ & Hdbl & _ & Hk & Hc & Hu & _ & ->).
  set (ev := mk_event_row _ _ _ _ _ _ _ _ _ _ _). set (bk := mk_booking_row _ _ _ _ _ _ _ _ _ _ _ _).
  pose proof (cal_ok_add_event ev d Hc Hk Hok) as []. cbn [snd].
  split; try done; unfold calendar_known, owns_calendar, event_known in *; simpl in *.
  - apply NoDup_map_snoc; [done|]. by apply (existsb_key_false bk_id b).
  - intros x Hx. apply elem_of_app in Hx as [Hx| ->%list_elem_of_singleton]; [eauto|]. simpl. split.
    + rewrite existsb_app. simpl. rewrite String.eqb_refl. by rewrite orb_true_r.
    + exists page. done.
  - intros x Hx. apply elem_of_app in Hx as [Hx| ->%list_elem_of_singleton]; [eauto|done].
  - destruct Hok as [_ _ _ _ _ _ _ _ _ Hrows Hno].
    assert (forall x, x ∈ bookings d -> bk_account x = pg_account page -> disjoint_times x bk) as Hnew.
    { intros x Hx Ha. specialize (Hdbl x Hx). destruct (Hrows x Hx) as [Hst _].
      unfold double_booked, overlapping in Hdbl. rewrite Ha, Hst, !String.eqb_refl in Hdbl. simpl in Hdbl.
      unfold disjoint_times. simpl. apply andb_false_iff in Hdbl. lia. }
    intros i j x y Hx Hy Hij Hacc. apply lookup_snoc in Hx. apply lookup_snoc in Hy.
    destruct Hx as [Hx|[-> ->]], Hy as [Hy|[-> ->]].
    + by eapply Hno.
    + apply Hnew; [by eapply list_elem_of_lookup_2|done].
    + unfold disjoint_times. apply or_comm, Hnew; [by eapply list_elem_of_lookup_2|done].
    + done.
Qed.

(** ** Every state *)

Lemma writes_ok A (m : KM A) d : writes A m -> cal_ok d -> cal_ok (snd (m d)).
Proof.
  intros Hw Hok. destruct Hw.
  - unfold create_calendar, bind. destruct (insert_calendar _ d) as [r d'] eqn:E.
    apply insert_calendar_cases in E as [(-> & ? & ->)|(-> & Hn & ->)]; [done|]. by apply cal_ok_add_calendar.
  - unfold create_calendar_event, bind. destruct (insert_event _ d) as [r' d'] eqn:E.
    apply insert_event_cases in E as [(-> & ? & ->)|(-> & Hc & Hn & ->)]; [done|]. by apply cal_ok_add_event.
  - unfold create_remote_calendar_event, bind. destruct (insert_event _ d) as [r' d'] eqn:E.
    apply insert_event_cases in E as [(-> & ? & ->)|(-> & Hc & Hn & ->)]; [done|]. by apply cal_ok_add_event.
  - by apply cal_ok_update_events.
  - by apply cal_ok_update_events.
  - by apply delete_event_ok.
  - by apply create_page_ok.
  - by apply update_page_ok.
  - by apply book_ok.
Qed.

Lemma cal_reachable_run core d : cal_reachable core d -> cal_ok d.
Proof.
  induction 1 as [|d d' _ IH Hs]; [apply cal_ok_empty|].
  destruct Hs as [A m d Hw|A m d Hq]; [by apply writes_ok|]. eapply cal_ok_same; [apply Hq|done].
Qed.

(** C6: Whatever calls of the calendar, sharing, scheduling and federation stores run,
    in any order and with any outcome, provided a booking asks for a busy interval that
    contains its slot, the calendar tables stay sound: ids and slugs
    are unique, events, pages and bookings refer to rows that exist and to the right
    owner, every stored page reads back as one that passes the creation checks, and
    no two bookings of one account overlap. *)
Theorem cal_reachable_ok core d :
  cal_reachable core d ->
  cal_ok d
  /\ forall i j a b, bookings d !! i = Some a -> bookings d !! j = Some b -> i <> j ->
       bk_account a = bk_account b -> (bk_end a <= bk_start b \/ bk_end b <= bk_start a)%Z.
Proof. intros Hr. pose proof (cal_reachable_run core d Hr) as Hok. split; [done|]. apply Hok. Qed.

End CalHistory.
