(* ===== verification/BookFacts.v ===== *)
(** The booking endpoint: what an accepted booking was checked against, and that a
    slot the page offers can be booked. *)
From S2P Require Import Prelude Text Bytes Ident Store Calendars Sharing FedStore Scheduling Limiter Slots SlotFacts CalHistory.

Open Scope string_scope.

Section BookFacts.
Context `{Chrono} `{SerdeLaws Permissions} `{SerdeLaws Availability} `{SerdeLaws (list Z)}.
Variable parse_uuid : string -> option string.
Variable known_zone : string -> bool.
Variable spacing : string -> bool.

Abbreviation book := (book parse_uuid spacing).
Abbreviation slots_json := (slots_json parse_uuid).
Abbreviation cal_ok := (cal_ok parse_uuid known_zone).

Lemma ebind_ok {A B} (m : CalDb -> option (result Reply A * CalDb)) (k : A -> CalDb -> option (result Reply B * CalDb)) d b d' :
  ebind m k d = Some (Ok b, d') -> exists a d1, m d = Some (Ok a, d1) /\ k a d1 = Some (Ok b, d').
Proof. unfold ebind. destruct (m d) as [[[a|e] d1]|]; simpl; [eauto|done..]. Qed.

Lemma ebind_steady {A B} (m : action CalDb Reply A) (k : A -> CalDb -> option (result Reply B * CalDb)) d :
  ebind (steady m) k d = match m d with (Ok a, d1) => k a d1 | (Err e, d1) => Some (Err e, d1) end.
Proof. unfold ebind, steady. simpl. by destruct (m d) as [[|] ?]. Qed.

Lemma ebind_panic {A B} (o : option A) (k : A -> CalDb -> option (result Reply B * CalDb)) d :
  ebind (may_panic o) k d = a ← o; k a d.
Proof. unfold ebind, may_panic. by destruct o. Qed.

Lemma active_page_ok slug d page d' :
  active_page parse_uuid slug d = (Ok page, d') ->
  d' = d /\ exists row, row ∈ pages d /\ pg_slug row = slug /\ row_to_page parse_uuid row = Ok page
                      /\ sp_status page = Active.
Proof.
  unfold active_page, get_scheduling_page_by_slug, read_page.
  destruct (select_first _ (pages d)) as [row|] eqn:Ef; [|done]. unfold result_bind.
  destruct (row_to_page parse_uuid row) as [p|] eqn:Er; [|done].
  intros Hp. destruct (sp_status p) eqn:Es; [|done]. injection Hp as <- <-. split; [done|].
  apply find_Some_elem in Ef as [Hrow Hs]. apply String.eqb_eq in Hs. eauto.
Qed.

Lemma active_page_frame slug d : snd (active_page parse_uuid slug d) = d.
Proof.
  unfold active_page, get_scheduling_page_by_slug, read_page.
  by destruct (match select_first _ _ with Some _ => _ | None => _ end) as [[p|]|].
Qed.

Lemma steady_ok {A} (m : action CalDb Reply A) d a d' : steady m d = Some (Ok a, d') <-> m d = (Ok a, d').
Proof. unfold steady. split; [by intros [=]|by intros ->]. Qed.

Lemma may_panic_ok {A} (o : option A) d a d' : may_panic o d = Some (Ok a, d') <-> o = Some a /\ d' = d.
Proof. unfold may_panic. destruct o; simpl; naive_solver. Qed.

(** The request [book] hands to the storage layer. *)
Definition booking_request (page : SchedulingPage) (owner : Account) (body : BookBody) (slot : Slot) (bounds : Z * Z) :=
  mk_request (sp_id page) (bb_name body) (bb_email body) (bb_note body) (s_start slot) (s_end slot)
    (s_start slot - sp_buffer_before page * 60) (s_end slot + sp_buffer_after page * 60)
    ("Meeting: " +:+ bb_name body +:+ " & " +:+ default (email owner) (display_name owner))
    (bb_note body) bounds.

(** The checks before the transaction. *)
Definition checked (now : Z) (slug : string) (body : BookBody) (d : CalDb) (row : PageRow) (page : SchedulingPage)
    (tz : Tz) (slot : Slot) (owner : Account) (bounds : Z * Z) : Prop :=
  validate_visitor spacing body = None
  /\ row ∈ pages d /\ pg_slug row = slug /\ row_to_page parse_uuid row = Ok page /\ sp_status page = Active
  /\ tz_parse (sp_timezone page) = Some tz
  /\ existsb (Z.eqb (bb_duration body)) (sp_durations page) = true
  /\ (exists valid, compute_slots (page_params page tz (bb_duration body) None now) [] ∅
        (today_in tz (bb_start body)) (today_in tz (bb_start body)) = Some valid
        /\ List.find (fun s => (s_start s =? bb_start body)%Z) valid = Some slot)
  /\ fst (account parse_uuid (sp_account page) (cal_core d)) = Ok (Some owner)
  /\ local_day_bounds tz (today_in tz (bb_start body)) = Some bounds.

Lemma account_frame i c : snd (account parse_uuid i c) = c.
Proof. done. Qed.

Lemma or_fail_account i d : or_fail (on_cal_core (account parse_uuid i)) d
  = (match fst (account parse_uuid i (cal_core d)) with Ok a => Ok a | Err _ => Err InternalError end, d).
Proof. unfold or_fail, on_cal_core, account. destruct d. by destruct (optional_account _ _). Qed.

(** [book] runs its checks and then the transaction; nothing else writes. *)
Lemma book_cases e b t now stamp slug body d r d' :
  book e b t now stamp slug body d = Some (r, d') ->
  (d' = d /\ is_ok r = false)
  \/ exists row page tz slot owner bounds, checked now slug body d row page tz slot owner bounds
     /\ exists bo, book_slot parse_uuid e b t stamp (booking_request page owner body slot bounds) d = (Ok bo, d')
                  /\ r = Ok (bo, page, owner).
Proof.
  unfold Slots.book. destruct (validate_visitor spacing body) eqn:Ev; [intros [= <- <-]; by left|].
  rewrite ebind_steady. destruct (active_page parse_uuid slug d) as [[page|err] d1] eqn:Ep.
  2: { intros [= <- <-]. left. split; [|done]. by rewrite <- (active_page_frame slug d), Ep. }
  apply active_page_ok in Ep as (-> & row & Hrow & Hslug & Hpage & Hact).
  rewrite ebind_steady. unfold page_tz, lift, ok_or.
  destruct (tz_parse (sp_timezone page)) as [tz|] eqn:Etz; simpl; [|intros [= <- <-]; by left].
  destruct (existsb _ (sp_durations page)) eqn:Ed; simpl; [|intros [= <- <-]; by left].
  rewrite ebind_panic.
  destruct (compute_slots _ _ _ _ _) as [valid|] eqn:Ec; cbn [mbind option_bind]; [|done].
  destruct (List.find _ valid) as [slot|] eqn:Ef; [|intros [= <- <-]; by left].
  rewrite ebind_steady, or_fail_account.
  destruct (fst (account parse_uuid (sp_account page) (cal_core d))) as [[owner|]|] eqn:Ea; simpl;
    [|intros [= <- <-]; by left..].
  rewrite ebind_panic. destruct (local_day_bounds _ _) as [bounds|] eqn:Eb; cbn [mbind option_bind]; [|done].
  fold (booking_request page owner body slot bounds).
  destruct (book_slot _ _ _ _ _ _ d) as [[bo|er] d2] eqn:Ek; simpl.
  - intros [= <- <-]. right. exists row, page, tz, slot, owner, bounds. split; [|eauto].
    unfold checked. repeat (split; [first [done|by eauto]|]). done.
  - assert (d2 = d) as ->.
    { revert Ek. unfold book_slot. destruct (_ <=? _)%Z; [by intros [=]|]. apply transaction_err. }
    intros Hr. left. destruct er; injection Hr as <- <-; done.
Qed.

Lemma page_durations_pos d row page dur :
  cal_ok d -> row ∈ pages d -> row_to_page parse_uuid row = Ok page ->
  existsb (Z.eqb dur) (sp_durations page) = true ->
  validate (sp_availability page) = Ok tt /\ (5 <= dur <= 480)%Z
  /\ (0 <= sp_buffer_before page)%Z /\ (0 <= sp_buffer_after page)%Z.
Proof.
  intros Hok Hrow Hp Hd. destruct (pages_valid _ _ _ Hok row Hrow) as (q & Hq & _ & Hv & [? _] & [? _] & _).
  rewrite Hp in Hq. injection Hq as <-. revert Hv. unfold validate_common. destruct (negb _); [done|].
  unfold result_bind. destruct (validate _) as [[]|]; [|done]. intros Hv. split; [done|].
  apply existsb_elem in Hd as (x & Hx & Ex). apply Z.eqb_eq in Ex. subst x.
  destruct (sp_durations page) as [|y l]; [by apply elem_of_nil in Hx|]. cbn [orb] in Hv.
  destruct (existsb (fun d => negb (duration_ok d)) (y :: l)) eqn:E; [done|].
  pose proof (existsb_false_elem _ _ dur E Hx) as Hdur. unfold duration_ok in Hdur. lia.
Qed.

(** The call is one the storage invariant allows. *)
Lemma booking_widened d row page tz slot owner bounds now slug body :
  cal_ok d -> checked now slug body d row page tz slot owner bounds ->
  request_widened (booking_request page owner body slot bounds).
Proof.
  intros Hok (_ & Hrow & _ & Hp & _ & _ & Hd & _). 
  destruct (page_durations_pos d row page _ Hok Hrow Hp Hd) as (_ & _ & Hb & Ha).
  unfold request_widened, booking_request. simpl. lia.
Qed.

(** C7: The booking endpoint writes nothing unless it answers "created".  When it
    does, the visitor's fields passed their limits, the page is active and lists the
    duration; the booked time is a slot of that page on the local day of the start (in
    a window of the day, a whole number of durations into it, after the notice); no
    event on any calendar of the account and no confirmed booking of the account comes
    within the buffers around it, and the page's confirmed bookings of the local day
    are fewer than its quota; and the state has gained exactly one event, on the page's
    calendar, and one confirmed booking, of the page and its account, for that time.
    (Two rows speak of the page: the one its slug finds and the one the transaction
    finds by the id that was read; ids stored in canonical form make them one.) *)
Theorem book_spec e b t now stamp slug body d r d' :
  cal_ok d -> (forall tz, (today_in tz (bb_start body) < last_date)%Z) ->
  book e b t now stamp slug body d = Some (r, d') ->
  (d' = d /\ is_ok r = false)
  \/ exists row prow page tz owner bo ev bk,
      let from := (bb_start body - sp_buffer_before page * 60)%Z in
      let to := (bb_start body + bb_duration body * 60 + sp_buffer_after page * 60)%Z in
      r = Ok (bo, page, owner)
      /\ d' = on_bookings (fun l => (l ++ [bk])%list) (on_events (fun l => (l ++ [ev])%list) d)
      /\ validate_visitor spacing body = None
      /\ row ∈ pages d /\ pg_slug row = slug /\ row_to_page parse_uuid row = Ok page /\ sp_status page = Active
      /\ tz_parse (sp_timezone page) = Some tz
      /\ offered (page_params page tz (bb_duration body) None now) [] ∅
           (today_in tz (bb_start body)) (today_in tz (bb_start body))
           (mk_slot (bb_start body) (bb_start body + bb_duration body * 60))
      /\ existsb (Z.eqb (bb_duration body)) (sp_durations page) = true
      /\ prow ∈ pages d /\ pg_id prow = sp_id page /\ pg_status prow = "active"
      /\ (parse_uuid (pg_id row) = Some (pg_id row) -> prow = row)
      /\ (forall x, x ∈ account_events (pg_account prow) d -> overlapping from to (ev_start x) (ev_end x) = false)
      /\ (forall x, x ∈ bookings d -> bk_account x = pg_account prow -> bk_status x = "confirmed" ->
            overlapping from to (bk_start x) (bk_end x) = false)
      /\ (exists lo hi, local_day_bounds tz (today_in tz (bb_start body)) = Some (lo, hi)
            /\ forall limit, pg_max_per_day prow = Some limit ->
                 (Z.of_nat (length (List.filter (counted (sp_id page) lo hi) (bookings d))) < limit)%Z)
      /\ bk_page bk = sp_id page /\ bk_account bk = pg_account prow /\ bk_status bk = "confirmed"
      /\ bk_start bk = bb_start body /\ bk_end bk = (bb_start body + bb_duration body * 60)%Z
      /\ bk_visitor_name bk = bb_name body /\ bk_visitor_email bk = bb_email body /\ bk_note bk = bb_note body
      /\ ev_calendar ev = pg_calendar prow /\ ev_start ev = bk_start bk /\ ev_end ev = bk_end bk
      /\ bk_event bk = ev_id ev.
Proof.
  intros Hok Hlast Hrun. apply book_cases in Hrun as [?|(row & page & tz & slot & owner & bounds & Hch & bo & Hb & ->)];
    [by left|right].
  pose proof Hch as (Hv & Hrow & Hslug & Hp & Hact & Htz & Hd & (valid & Hc & Hf) & Hown & Hbd).
  destruct (page_durations_pos d row page _ Hok Hrow Hp Hd) as (Hav & Hdur & _ & _).
  apply find_Some_elem in Hf as [Hin Hst]. apply Z.eqb_eq in Hst.
  destruct (compute_slots_run (page_params page tz (bb_duration body) None now) [] ∅ ltac:(simpl; lia)
    (today_in tz (bb_start body)) (today_in tz (bb_start body)) Hav (Hlast tz)) as (l & Hl & Hspec).
  rewrite Hc in Hl. injection Hl as <-. apply Hspec in Hin as Hoff.
  assert (slot = mk_slot (bb_start body) (bb_start body + bb_duration body * 60)) as ->.
  { destruct Hoff as (dt & _ & _ & _ & w & we & _ & _ & _ & Es & _). rewrite Es, Hst. done. }
  apply book_slot_run in Hb as (prow & Hlt & Hprow & Hpid & Hst' & Hev & Hbk & Hfull & _ & _ & _ & _ & ->).
  assert (parse_uuid (pg_id row) = Some (pg_id row) -> prow = row) as Hsame.
  { intros Hcan. eapply (NoDup_map_inj _ _ _ _ (uniq_pages _ _ _ Hok)); [done|done|]. rewrite Hpid. cbn.
    unfold row_to_page in Hp. rewrite Hcan in Hp. cbn in Hp.
    repeat match type of Hp with context [result_bind ?x _] => destruct x; cbn in Hp; [|done] end. by injection Hp as <-. }
  eexists row, prow, page, tz, owner, bo, _, _. cbv zeta. split; [done|]. split; [reflexivity|].
  do 6 (split; [assumption|]). split; [exact Hoff|]. do 5 (split; [assumption|]). split; [exact Hev|]. split.
  { intros x Hx Ha Hs. specialize (Hbk x Hx). unfold double_booked in Hbk. rewrite Ha, Hs, !String.eqb_refl in Hbk. exact Hbk. }
  split; [destruct bounds as [lo hi]; exists lo, hi; split; [exact Hbd|exact Hfull]|]. by repeat split.
Qed.

End BookFacts.
