(* ===== verification/OfferFacts.v ===== *)
(** A slot the page offers can be booked: [slots_json] and [book] read the same
    tables through different queries, and agree. *)
From S2P Require Import Prelude Text Bytes Ident Store Calendars Sharing FedStore Scheduling Limiter Slots SlotFacts CalHistory BookFacts.

Open Scope string_scope.

Lemma Forall2_filter_length {A B} (R : A -> B -> Prop) (f : A -> bool) (g : B -> bool) l k :
  (forall a b, R a b -> f a = g b) -> Forall2 R l k ->
  length (List.filter f l) = length (List.filter g k).
Proof.
  intros Hfg. induction 1 as [|a b l k Hab _ IH]; simpl; [done|]. rewrite (Hfg _ _ Hab).
  destruct (g b); simpl; by rewrite IH.
Qed.

Section OfferFacts.
Context `{Chrono} `{SerdeLaws Permissions} `{SerdeLaws Availability} `{SerdeLaws (list Z)}.
Variable parse_uuid : string -> option string.
Variable known_zone : string -> bool.
Variable spacing : string -> bool.

Abbreviation book := (book parse_uuid spacing).
Abbreviation slots_json := (slots_json parse_uuid).
Abbreviation slots_for_range := (slots_for_range parse_uuid).
Abbreviation cal_ok := (cal_ok parse_uuid known_zone).
Abbreviation params page tz dur quota now := (page_params page tz dur quota now).

(** ** What the listing read *)

Lemma row_to_booking_times r b :
  row_to_booking parse_uuid r = Ok b -> bo_start b = bk_start r /\ bo_end b = bk_end r.
Proof.
  unfold row_to_booking, result_bind, or_unreadable, ok_or. repeat (case_match; try done). by intros [= <-].
Qed.

Definition widening (page : SchedulingPage) : Z :=
  (match sp_durations page with [] => 30 | ds => fold_right Z.max 0 ds end * 60
   + Z.max (sp_buffer_before page) (sp_buffer_after page) * 60)%Z.

Definition busy_rows (page : SchedulingPage) (lo hi : Z) (d : CalDb) : list (Z * Z) :=
  map (fun e => (ev_start e, ev_end e))
    (order_by (fun a b => (ev_start a <=? ev_start b)%Z)
       (List.filter (fun e => overlapping lo hi (ev_start e) (ev_end e)) (account_events (sp_account page) d))).

Lemma slots_for_range_ok page tz dur from to now d l d' :
  slots_for_range page tz dur from to now d = Some (Ok l, d') ->
  d' = d /\ exists lo hi bs, local_day_bounds tz from = Some lo /\ local_day_bounds tz to = Some hi
    /\ Forall2 (fun r b => row_to_booking parse_uuid r = Ok b)
         (order_by by_start (List.filter (counted (sp_id page) (lo.1 - widening page) (hi.2 + widening page)) (bookings d))) bs
    /\ compute_slots (params page tz dur (sp_max_per_day page) now)
         (busy_rows page (lo.1 - widening page) (hi.2 + widening page) d
          ++ map (fun b => (bo_start b, bo_end b)) bs)%list (count_bookings tz bs) from to = Some l.
Proof.
  unfold Slots.slots_for_range. rewrite !ebind_panic.
  destruct (local_day_bounds tz from) as [lo|]; cbn [mbind option_bind]; [|done]. rewrite ebind_panic.
  destruct (local_day_bounds tz to) as [hi|]; cbn [mbind option_bind]; [|done]. rewrite ebind_steady.
  unfold or_fail at 1, events_overlapping, gets. rewrite ebind_steady.
  fold (widening page). fold (busy_rows page (lo.1 - widening page) (hi.2 + widening page) d).
  unfold or_fail, list_confirmed_bookings_in_range.
  destruct (collect_results _) as [bs|] eqn:Eb; [|done]. intros Hp. apply may_panic_ok in Hp as [Hc ->].
  split; [done|]. exists lo, hi, bs. split; [done|]. split; [done|].
  split; [by apply collect_results_Forall2|done].
Qed.

Definition query_start (q : SlotsQuery) (today : Z) : Z :=
  default today (s ← sq_from q; naive_date_parse s).

Lemma slots_json_ok now slug q d z dur out d' :
  slots_json now slug q d = Some (Ok (SlotList z dur out), d') ->
  d' = d /\ exists row page tz from to l,
    row ∈ pages d /\ row_to_page parse_uuid row = Ok page /\ sp_status page = Active
    /\ active_page parse_uuid slug d = (Ok page, d) /\ z = sp_timezone page
    /\ tz_parse (sp_timezone page) = Some tz /\ existsb (Z.eqb dur) (sp_durations page) = true
    /\ from = query_start q (today_in tz now) /\ (from <= to)%Z /\ (to <= today_in tz now + MAX_HORIZON_DAYS)%Z
    /\ slots_for_range page tz dur from to now d = Some (Ok l, d)
    /\ out = map (fun s => (s_start s, s_end s, rfc3339 tz (s_start s))) l.
Proof.
  unfold Slots.slots_json. intros Hrun.
  apply ebind_ok in Hrun as (page & d1 & Hp & Hrun). apply steady_ok in Hp.
  pose proof (active_page_ok _ _ _ _ _ Hp) as (-> & row & ? & _ & ? & ?).
  apply ebind_ok in Hrun as (tz & d1 & Htz & Hrun). apply steady_ok in Htz. unfold page_tz, lift, ok_or in Htz.
  destruct (tz_parse _) as [tz'|] eqn:Etz; [|done]. injection Htz as -> <-.
  apply ebind_ok in Hrun as (dur' & d1 & Hd & Hrun). apply may_panic_ok in Hd as [_ ->].
  destruct (existsb _ (sp_durations page)) eqn:Ed; cbn [negb] in Hrun; [|done].
  apply ebind_ok in Hrun as (from & d1 & Hf & Hrun).
  assert (d1 = d /\ from = query_start q (today_in tz now)) as [-> ->]
    by (unfold done, answer, query_start in *; destruct (sq_from q); simpl in *; repeat case_match; by simplify_eq).
  apply ebind_ok in Hrun as (to & d1 & Ht & Hrun).
  assert (d1 = d) as ->.
  { destruct (sq_to q) as [x|]; [unfold done, answer in Ht; clear Hf; repeat case_match; by simplify_eq|].
    by apply may_panic_ok in Ht as [_ ->]. }
  destruct (_ || _) eqn:Er in Hrun; [done|]. apply orb_false_iff in Er as [Er _].
  apply ebind_ok in Hrun as (hz & d1 & Hh & Hrun). apply may_panic_ok in Hh as [Hh ->].
  unfold date_add in Hh. destruct (_ <=? last_date)%Z; [|done]. injection Hh as <-.
  destruct (_ <? to)%Z eqn:El in Hrun; [done|].
  apply ebind_ok in Hrun as (l & d1 & Hs & Hrun). injection Hrun as <- <- <- <-.
  pose proof (slots_for_range_ok _ _ _ _ _ _ _ _ _ Hs) as [-> _]. split; [done|].
  exists row, page, tz, (query_start q (today_in tz now)), to, l. repeat (split; [first [done|lia]|]). done.
Qed.

(** ** Days *)

(** The zone is regular on a date: the day is the interval between its bounds, and
    its wall-clock times resolve into it. *)
Definition regular_day (tz : Tz) (date : Z) : Prop :=
  exists lo hi, local_day_bounds tz date = Some (lo, hi) /\ (lo < hi)%Z
  /\ (forall t, today_in tz t = date <-> (lo <= t < hi)%Z)
  /\ forall m t, (0 <= m < 24 * 60)%Z -> resolve_local tz (minutes_to_local date m) = Some t -> (lo <= t < hi)%Z.

(** A later day ends later and starts later. *)
Lemma day_bounds_later tz n : forall from lo hi lo' hi',
  (forall x, (from <= x <= from + Z.of_nat n)%Z -> regular_day tz x) ->
  local_day_bounds tz from = Some (lo, hi) -> local_day_bounds tz (from + Z.of_nat n) = Some (lo', hi') ->
  (lo <= lo')%Z /\ (hi <= hi')%Z.
Proof.
  induction n as [|n IH]; intros from lo hi lo' hi' Hreg Hf Ht.
  { replace (from + Z.of_nat 0)%Z with from in Ht by lia. rewrite Hf in Ht. injection Ht as <- <-. lia. }
  destruct (Hreg (from + 1)%Z ltac:(lia)) as (lo1 & hi1 & E1 & Hlt1 & _).
  destruct (Hreg from ltac:(lia)) as (lo0 & hi0 & E0 & Hlt0 & _).
  rewrite Hf in E0. injection E0 as <- <-.
  assert (lo1 = hi) as ->.
  { revert Hf E1. unfold local_day_bounds. destruct (resolve_local tz (from * DAY)); [|done].
    unfold date_add at 1. destruct (from + 1 <=? last_date)%Z; [|done]. cbn [mbind option_bind].
    destruct (resolve_local tz ((from + 1) * DAY)); [|done]. cbn [mbind option_bind]. intros [= _ <-].
    destruct (date_add _ _); [|done]. cbn [mbind option_bind]. destruct (resolve_local tz _); [|done]. by intros [=]. }
  replace (from + Z.of_nat (S n))%Z with (from + 1 + Z.of_nat n)%Z in Ht by lia.
  destruct (IH (from + 1)%Z hi hi1 lo' hi') as [? ?]; [|done..|lia]. intros x Hx. apply Hreg. lia.
Qed.

(** ** The quota *)

Lemma count_bookings_spec tz bs day :
  default 0%Z (count_bookings tz bs !! day)
  = Z.of_nat (length (List.filter (fun b => (today_in tz (bo_start b) =? day)%Z) bs)).
Proof.
  unfold count_bookings.
  assert (forall m : gmap Z Z, default 0%Z (fold_left (fun m b => <[today_in tz (bo_start b) :=
      (default 0 (m !! today_in tz (bo_start b)) + 1)%Z]> m) bs m !! day)
    = (default 0 (m !! day) + Z.of_nat (length (List.filter (fun b => (today_in tz (bo_start b) =? day)%Z) bs)))%Z)
    as Hgen.
  { induction bs as [|b bs IH]; intros m; simpl; [lia|]. rewrite IH.
    destruct (Z.eqb_spec (today_in tz (bo_start b)) day) as [->|Hne].
    - rewrite lookup_insert_eq. simpl. lia.
    - by rewrite lookup_insert_ne. }
  rewrite Hgen, lookup_empty. simpl. lia.
Qed.

(** The quota query of the booking sees the bookings the listing counted. *)
Lemma quota_agrees tz page d bs lo hi date lo' hi' :
  Forall2 (fun r b => row_to_booking parse_uuid r = Ok b)
    (order_by by_start (List.filter (counted page lo hi) (bookings d))) bs ->
  (forall t, today_in tz t = date <-> (lo' <= t < hi')%Z) -> (lo <= lo')%Z -> (hi' <= hi)%Z ->
  default 0%Z (count_bookings tz bs !! date)
  = Z.of_nat (length (List.filter (counted page lo' hi') (bookings d))).
Proof.
  intros Hbs Hdate Hlo Hhi. rewrite count_bookings_spec. f_equal.
  rewrite <- (Forall2_filter_length _ (fun r => (today_in tz (bk_start r) =? date)%Z) _ _ _) by
    (exact Hbs || (intros r b [-> _]%row_to_booking_times; done)).
  rewrite (filter_perm_length _ _ _ (order_by_Permutation by_start _)), filter_filter_bool.
  f_equal. apply filter_ext_elem. intros r _. unfold counted. rewrite <- !andb_assoc.
  destruct (String.eqb (bk_page r) page), (String.eqb (bk_status r) "confirmed"); simpl; [|done..].
  specialize (Hdate (bk_start r)). destruct (Z.eqb_spec (today_in tz (bk_start r)) date) as [E|E].
  - apply Hdate in E. lia.
  - rewrite !andb_false_r. symmetry. apply andb_false_iff.
    destruct (Z.leb_spec lo' (bk_start r)); [|by left]. right. apply Z.ltb_ge.
    destruct (decide (hi' <= bk_start r)%Z); [done|]. exfalso. apply E, Hdate. lia.
Qed.

(** ** The transaction goes through *)

Lemma book_slot_succeeds e b t now req d row bo :
  NoDup (map pg_id (pages d)) -> row ∈ pages d -> pg_id row = rq_page req -> pg_status row = "active" ->
  (rq_start req < rq_end req)%Z ->
  existsb (fun x => overlapping (rq_busy_from req) (rq_busy_to req) (ev_start x) (ev_end x))
    (account_events (pg_account row) d) = false ->
  existsb (double_booked (pg_account row) (rq_busy_from req) (rq_busy_to req)) (bookings d) = false ->
  (forall limit, pg_max_per_day row = Some limit ->
     (Z.of_nat (length (List.filter (counted (rq_page req) (rq_day_bounds req).1 (rq_day_bounds req).2) (bookings d))) < limit)%Z) ->
  calendar_known (pg_calendar row) d = true -> account_known (pg_account row) d = true ->
  event_known e d = false -> existsb (fun x => String.eqb (bk_id x) b) (bookings d) = false ->
  row_to_booking parse_uuid (mk_booking_row b (rq_page req) (pg_account row) e (rq_visitor_name req)
    (rq_visitor_email req) (rq_note req) (rq_start req) (rq_end req) "confirmed" t now) = Ok bo ->
  exists d', book_slot parse_uuid e b t now req d = (Ok bo, d').
Proof.
  intros Hnd Hrow Hid Hst Hlt Hev Hdb Hq Hc Ha He Hb Hbo. unfold book_slot.
  destruct (Z.leb_spec (rq_end req) (rq_start req)); [lia|].
  assert (select_first (fun r => String.eqb (pg_id r) (rq_page req) && String.eqb (pg_status r) "active") (pages d) = Some row) as Hf.
  { destruct (find_is_Some (fun r => String.eqb (pg_id r) (rq_page req) && String.eqb (pg_status r) "active") (pages d) row Hrow) as [x Hx].
    { by rewrite Hid, Hst, !String.eqb_refl. }
    unfold select_first. rewrite Hx. apply find_Some_elem in Hx as [Hx Hk]. apply andb_true_iff in Hk as [Hk _].
    apply String.eqb_eq in Hk. f_equal. eapply NoDup_map_inj; [exact Hnd|done|done|congruence]. }
  eexists. apply transaction_ok. unfold bind at 1, gets at 1. rewrite Hf. cbn [ok_or].
  unfold bind at 1, lift at 1. unfold bind at 1, gets at 1. rewrite Hev. unfold bind at 1, gets at 1. rewrite Hdb.
  unfold bind at 1, gets at 1.
  assert (match pg_max_per_day row with None => false | Some limit => let '(lo, hi) := rq_day_bounds req in
     (limit <=? Z.of_nat (length (List.filter (counted (rq_page req) lo hi) (bookings d))))%Z end = false) as ->.
  { destruct (pg_max_per_day row) as [limit|]; [|done]. specialize (Hq limit eq_refl).
    destruct (rq_day_bounds req). simpl in Hq. lia. }
  unfold insert_event, require_cal, modify, bind at 1. cbn [ev_calendar ev_id]. unfold bind at 1. rewrite Hc.
  unfold bind at 1. rewrite He. cbn [negb].
  unfold insert_booking, require_cal, modify, bind at 1. unfold bind at 1.
  cbn [bk_page bk_account bk_event bk_id].
  assert (existsb (fun p => String.eqb (pg_id p) (rq_page req)) (pages d) = true) as Hpk.
  { apply existsb_elem. exists row. split; [done|]. by rewrite Hid, String.eqb_refl. }
  unfold account_known, event_known in *. cbn [pages on_events bookings events cal_core].
  rewrite Hpk, Ha, existsb_app. cbn [existsb ev_id]. rewrite String.eqb_refl, orb_true_r. cbn [andb orb].
  unfold bind at 1. cbn [pages on_events bookings events cal_core]. rewrite Hb. cbn [negb].
  unfold bind at 1, gets. cbn [bookings on_bookings on_events]. unfold select_first.
  assert (forall bk l, existsb (fun x => String.eqb (bk_id x) b) l = false -> bk_id bk = b ->
    List.find (fun x => String.eqb (bk_id x) b) (l ++ [bk]) = Some bk) as Hfind.
  { clear. intros bk l Hl <-. induction l as [|x l IH]; simpl in *; [by rewrite String.eqb_refl|].
    apply orb_false_iff in Hl as [-> Hl]. by apply IH. }
  rewrite Hfind by done. unfold bind, lift. cbn [ok_or]. rewrite Hbo. reflexivity.
Qed.

(** What an offer promises: its day, its shape without the busy intervals, and that
    the busy intervals stay clear of its buffers. *)
Lemma offered_shape page tz dur quota now busy booked from to s :
  validate (sp_availability page) = Ok tt -> (1 <= dur)%Z ->
  offered (params page tz dur quota now) busy booked from to s ->
  exists date, (from <= date <= to)%Z /\ offered (params page tz dur None now) [] ∅ date date s
  /\ day_full (params page tz dur quota now) booked date = false
  /\ s_end s = (s_start s + dur * 60)%Z
  /\ (exists m, (0 <= m < 24 * 60)%Z /\ resolve_local tz (minutes_to_local date m) = Some (s_start s))
  /\ (exists m we, (0 <= m < 24 * 60)%Z /\ resolve_local tz (minutes_to_local date m) = Some we /\ (s_end s <= we)%Z)
  /\ existsb (overlaps (widened (params page tz dur quota now) s)) busy = false.
Proof.
  intros Hv Hdur (date & Hd & Hr & Hf & w & we & Hw & Hwe & Hc & Es & Hb). exists date. split; [done|].
  pose proof (ordered_windows_elem _ _ _ (windows_for_date_ordered _ date Hv) Hw) as Hwo.
  apply andb_true_iff in Hb as [Hb1 Hb3]. apply andb_true_iff in Hb1 as [Hb1 Hb2].
  apply negb_true_iff in Hb3. split; [|split; [done|]].
  - exists date. split; [lia|]. split; [done|]. split; [done|]. exists w, we. split; [done|]. split; [done|].
    split; [done|]. split; [done|]. unfold bookable. rewrite andb_true_r. apply andb_true_iff. by split.
  - split; [by rewrite Es|]. split; [|split; [|done]].
    + destruct Hc as (k & Hk & Hkw & Hs). eexists. split; [|exact Hs]. simpl in *. nia.
    + exists w.2, we. split; [lia|]. split; [done|]. lia.
Qed.

Lemma busy_rows_elem page lo hi d e :
  e ∈ account_events (sp_account page) d -> overlapping lo hi (ev_start e) (ev_end e) = true ->
  (ev_start e, ev_end e) ∈ busy_rows page lo hi d.
Proof.
  intros He Ho. unfold busy_rows. apply elem_of_map. exists e. split; [|done].
  apply order_by_elem, elem_of_filter_bool. done.
Qed.

Lemma max_durations_ge dur ds : dur ∈ ds -> (dur <= fold_right Z.max 0 ds)%Z.
Proof. induction ds as [|x l IH]; simpl; [by intros ?%elem_of_nil|]. intros [->|Hd]%elem_of_cons; [|specialize (IH Hd)]; lia. Qed.

(** No event of the owner comes within the buffers of an offered slot. *)
Lemma offer_clear page tz dur quota now lo hi bs s e d :
  (0 <= sp_buffer_before page)%Z -> (0 <= sp_buffer_after page)%Z ->
  existsb (overlaps (widened (params page tz dur quota now) s))
    (busy_rows page (lo - widening page) (hi + widening page) d ++ bs)%list = false ->
  (lo <= s_start s)%Z -> (s_end s <= hi)%Z ->
  (0 <= widening page - sp_buffer_before page * 60)%Z -> (0 <= widening page - sp_buffer_after page * 60)%Z ->
  e ∈ account_events (sp_account page) d ->
  overlapping (s_start s - sp_buffer_before page * 60) (s_end s + sp_buffer_after page * 60)
    (ev_start e) (ev_end e) = false.
Proof.
  intros Hbb Hba Hb Hlo Hhi Hwb Hwa He.
  destruct (overlapping _ _ _ _) eqn:Eo; [|done]. exfalso.
  assert ((ev_start e, ev_end e) ∈ busy_rows page (lo - widening page) (hi + widening page) d) as Hin.
  { apply busy_rows_elem; [done|]. unfold overlapping in *. lia. }
  rewrite existsb_app in Hb. apply orb_false_iff in Hb as [Hb _].
  pose proof (existsb_false_elem _ _ _ Hb Hin) as Hn. unfold overlaps, widened, overlapping in *. simpl in *. lia.
Qed.

Lemma widening_covers page dur :
  dur ∈ sp_durations page -> (0 <= dur)%Z ->
  (0 <= widening page - sp_buffer_before page * 60)%Z /\ (0 <= widening page - sp_buffer_after page * 60)%Z.
Proof.
  intros Hd Hpos. pose proof (max_durations_ge _ _ Hd). unfold widening.
  destruct (sp_durations page); [by apply elem_of_nil in Hd|]. lia.
Qed.

(** Every booking still has its event, at its time, on a calendar of the owner. *)
Definition bookings_kept (d : CalDb) : Prop :=
  forall x, x ∈ bookings d -> exists e, e ∈ account_events (bk_account x) d
    /\ ev_start e = bk_start x /\ ev_end e = bk_end x.

(** The columns of the stored pages are as they were written: canonical ids and a
    [u32] quota. *)
Definition pages_canonical (d : CalDb) : Prop :=
  forall r, r ∈ pages d -> parse_uuid (pg_id r) = Some (pg_id r)
    /\ parse_uuid (pg_account r) = Some (pg_account r)
    /\ forall limit, pg_max_per_day r = Some limit -> u32 limit.

Lemma row_to_page_ids r p :
  row_to_page parse_uuid r = Ok p -> parse_uuid (pg_id r) = Some (pg_id r) ->
  parse_uuid (pg_account r) = Some (pg_account r) ->
  sp_id p = pg_id r /\ sp_account p = pg_account r /\ sp_max_per_day p = option_map as_u32 (pg_max_per_day r)
  /\ (sp_status p = Active -> pg_status r = "active").
Proof.
  intros Hp E1 E2. revert Hp. unfold row_to_page, result_bind, or_unreadable, ok_or. rewrite E1, E2.
  destruct (parse_uuid (pg_calendar r)); [|done]. destruct (of_json (pg_availability r)); [|done].
  destruct (of_json (pg_durations r)); [|done]. destruct (status_parse (pg_status r)) as [st|] eqn:Es; [|done].
  intros [= <-]. simpl. repeat (split; [done|]). intros ->. revert Es. unfold status_parse.
  destruct (String.eqb_spec (pg_status r) "active"); [done|]. by destruct (String.eqb _ _).
Qed.

(** The transaction of [book] goes through for an offered slot. *)
Lemma offered_books e b t stamp d row page owner body tz from to now dur l slot :
  cal_ok d -> bookings_kept d -> pages_canonical d -> parse_uuid e = Some e -> parse_uuid b = Some b ->
  event_known e d = false -> existsb (fun x => String.eqb (bk_id x) b) (bookings d) = false ->
  account_known (pg_account row) d = true ->
  row ∈ pages d -> row_to_page parse_uuid row = Ok page -> sp_status page = Active ->
  dur ∈ sp_durations page -> (5 <= dur <= 480)%Z -> (0 <= sp_buffer_before page)%Z -> (0 <= sp_buffer_after page)%Z ->
  validate (sp_availability page) = Ok tt ->
  (forall x, (from <= x <= to)%Z -> regular_day tz x) -> (to < last_date)%Z ->
  slots_for_range page tz dur from to now d = Some (Ok l, d) -> slot ∈ l ->
  exists date bounds bo d',
    offered (params page tz dur None now) [] ∅ date date slot /\ (from <= date <= to)%Z
    /\ today_in tz (s_start slot) = date /\ local_day_bounds tz date = Some bounds
    /\ s_end slot = (s_start slot + dur * 60)%Z
    /\ book_slot parse_uuid e b t stamp (booking_request page owner body slot bounds) d = (Ok bo, d')
    /\ bo_start bo = s_start slot /\ bo_end bo = s_end slot.
Proof.
  intros Hok Hkept Hcan He Hb Hfe Hfb Hacc Hrow Hpage Hact Hdur Hd5 Hbb Hba Hv Hreg Hto Hs Hslot.
  apply slots_for_range_ok in Hs as (_ & lo & hi & bs & Hlo & Hhi & Hbs & Hc).
  destruct (compute_slots_run (params page tz dur (sp_max_per_day page) now)
    (busy_rows page (lo.1 - widening page) (hi.2 + widening page) d ++ map (fun b => (bo_start b, bo_end b)) bs)%list
    (count_bookings tz bs) ltac:(simpl; lia) from to Hv Hto) as (l' & Hl' & Hspec).
  rewrite Hc in Hl'. injection Hl' as <-. apply Hspec in Hslot.
  apply offered_shape in Hslot as (date & Hdate & Hoff & Hfull & Hend & (m & Hm & Hst) & (m' & we & Hm' & Hwe & Hew) & Hclear);
    [|done|lia].
  destruct (Hreg date Hdate) as (dlo & dhi & Hbounds & Hlt & Htoday & Hres).
  pose proof (Hres m _ Hm Hst) as Hin. pose proof (Hres m' _ Hm' Hwe) as Hin'.
  destruct lo as [lo lo2], hi as [hi1 hi]. simpl in *.
  assert (lo <= dlo)%Z as Hlo'.
  { replace date with (from + Z.of_nat (Z.to_nat (date - from)))%Z in Hbounds by lia.
    refine (proj1 (day_bounds_later tz _ from lo lo2 dlo dhi _ Hlo Hbounds)). intros x Hx. apply Hreg. lia. }
  assert (dhi <= hi)%Z as Hhi'.
  { replace to with (date + Z.of_nat (Z.to_nat (to - date)))%Z in Hhi by lia.
    refine (proj2 (day_bounds_later tz _ date dlo dhi hi1 hi _ Hbounds Hhi)). intros x Hx. apply Hreg. lia. }
  destruct (Hcan row Hrow) as (C1 & C2 & C3).
  destruct (row_to_page_ids row page Hpage C1 C2) as (I1 & I2 & I3 & I4).
  destruct (widening_covers page dur Hdur ltac:(lia)) as [Wb Wa].
  assert (forall x, x ∈ account_events (sp_account page) d ->
    overlapping (s_start slot - sp_buffer_before page * 60) (s_end slot + sp_buffer_after page * 60)
      (ev_start x) (ev_end x) = false) as Hevs.
  { intros x Hx. eapply (offer_clear page tz dur); [done|done|exact Hclear|lia|lia|done|done|done]. }
  exists date, (dlo, dhi).
  destruct (book_slot_succeeds e b t stamp (booking_request page owner body slot (dlo, dhi)) d row
    (mk_booking b (sp_id page) (pg_account row) e (bb_name body) (bb_email body) (bb_note body)
       (s_start slot) (s_end slot) "confirmed" stamp)) as (d' & Hbook).
  - apply Hok.
  - done.
  - done.
  - by apply I4.
  - simpl. lia.
  - apply not_true_iff_false. intros (x & Hx & Ho)%existsb_elem. rewrite <- I2 in Hx. by rewrite Hevs in Ho.
  - apply not_true_iff_false. intros (x & Hx & Ho)%existsb_elem. simpl in Ho. unfold double_booked in Ho.
    apply andb_true_iff in Ho as [Ho Hov]. apply andb_true_iff in Ho as [Ho _]. apply String.eqb_eq in Ho.
    destruct (Hkept x Hx) as (ev & Hev & Es & Ee). rewrite Ho, <- I2 in Hev. specialize (Hevs ev Hev).
    rewrite Es, Ee in Hevs. by rewrite Hevs in Hov.
  - intros limit El. simpl. rewrite El in I3. simpl in I3.
    unfold day_full in Hfull. simpl in Hfull. rewrite I3 in Hfull.
    rewrite (quota_agrees tz (sp_id page) d bs (lo - widening page) (hi + widening page) date dlo dhi Hbs Htoday) in Hfull by lia.
    rewrite (as_u32_id limit (C3 limit El)) in Hfull. lia.
  - pose proof (page_refs _ _ _ Hok row Hrow) as Ho. unfold owns_calendar in Ho.
    apply existsb_elem in Ho as (c & Hcal & Hk). apply existsb_elem. exists c. split; [done|].
    by apply andb_true_iff in Hk as [? _].
  - done.
  - done.
  - done.
  - unfold row_to_booking, result_bind, or_unreadable, ok_or. cbn [bk_id bk_page bk_account bk_event rq_page booking_request].
    rewrite Hb, He, C2, I1, C1. reflexivity.
  - eexists _, d'. split; [done|]. split; [done|]. split; [by apply Htoday|]. split; [done|].
    split; [done|]. split; [exact Hbook|]. done.
Qed.

Lemma offered_slot_books now stamp slug q d z dur out d0 body e b t label :
  cal_ok d -> bookings_kept d -> pages_canonical d -> parse_uuid e = Some e -> parse_uuid b = Some b ->
  event_known e d = false -> existsb (fun x => String.eqb (bk_id x) b) (bookings d) = false ->
  (forall r, r ∈ pages d -> account_known (pg_account r) d = true
     /\ exists a, fst (account parse_uuid (pg_account r) (cal_core d)) = Ok (Some a)) ->
  (forall tz x, tz_parse z = Some tz ->
     (query_start q (today_in tz now) <= x <= today_in tz now + MAX_HORIZON_DAYS)%Z ->
     regular_day tz x /\ (x < last_date)%Z) ->
  slots_json now slug q d = Some (Ok (SlotList z dur out), d0) ->
  (bb_start body, bb_start body + bb_duration body * 60, label)%Z ∈ out -> bb_duration body = dur ->
  validate_visitor spacing body = None ->
  exists bo page owner d', book e b t now stamp slug body d = Some (Ok (bo, page, owner), d')
    /\ bo_start bo = bb_start body /\ bo_end bo = (bb_start body + dur * 60)%Z.
Proof.
  intros Hok Hkept Hcan He Hb Hfe Hfb Hacc Hreg Hjson Hpick Hdur Hvis.
  apply slots_json_ok in Hjson as (_ & row & page & tz & from & to & l & Hrow & Hpage & Hact & Hap & -> & Htz
    & Hd & Hfrom & Hft & Hhz & Hrange & ->).
  destruct (page_durations_pos parse_uuid known_zone d row page dur Hok Hrow Hpage Hd) as (Hv & Hd5 & Hbb & Hba).
  apply elem_of_map in Hpick as (slot & Hslot & Epick). injection Epick as Hst _ _.
  destruct (Hacc row Hrow) as (Hak & owner & Hown).
  assert (dur ∈ sp_durations page) as Hde by (apply existsb_elem in Hd as (x & ? & ->%Z.eqb_eq); done).
  destruct (offered_books e b t stamp d row page owner body tz from to now dur l slot) as
    (date & bounds & bo & d' & Hoff & Hdate & Htoday & Hbounds & Hend & Hbook & Hbs & Hbe); try done; try lia.
  { intros x Hx. apply Hreg; [done|]. subst from. lia. }
  { apply (Hreg tz to Htz). subst from. lia. }
  exists bo, page, owner, d'. split; [|by rewrite Hbs, Hbe, Hend, Hst].
  unfold Slots.book. rewrite Hvis, ebind_steady, Hap, ebind_steady. unfold page_tz, lift, ok_or. rewrite Htz.
  rewrite Hdur, Hd. cbn [negb]. rewrite ebind_panic, Hst, Htoday.
  destruct (compute_slots_run (params page tz dur None now) [] ∅ ltac:(simpl; lia) date date Hv) as (valid & -> & Hspec).
  { apply (Hreg tz date Htz). subst from. lia. }
  cbn [mbind option_bind]. apply Hspec in Hoff as Hvalid.
  destruct (find_is_Some (fun s => (s_start s =? s_start slot)%Z) valid slot Hvalid (Z.eqb_refl _)) as [found Hf].
  rewrite Hf. apply find_Some_elem in Hf as [Hf Ef]. apply Z.eqb_eq in Ef.
  assert (found = slot) as ->.
  { apply Hspec in Hf as (? & _ & _ & _ & ? & ? & _ & _ & _ & E1 & _).
    destruct Hoff as (? & _ & _ & _ & ? & ? & _ & _ & _ & E2 & _). rewrite E1, E2. by rewrite Ef. }
  rewrite ebind_steady, or_fail_account.
  destruct (Hcan row Hrow) as (C1 & C2 & _). destruct (row_to_page_ids row page Hpage C1 C2) as (_ & I2 & _ & _).
  rewrite I2, Hown, ebind_panic, Hbounds. cbn [mbind option_bind].
  fold (booking_request page owner body slot bounds). by rewrite Hbook.
Qed.

(** C8: A slot the page offers can be booked: when the slots endpoint lists a slot, a
    visitor whose fields pass the limits and who asks for that start and duration in
    the same state gets it, for exactly that time.  The two endpoints read the tables
    through different queries; they agree as long as the zone's days in the horizon are
    regular, stored columns are as written and bookings kept their calendar events. *)
Theorem offered_slot_is_bookable now stamp slug q d z dur out d0 body e b t label :
  cal_ok d -> bookings_kept d -> pages_canonical d -> parse_uuid e = Some e -> parse_uuid b = Some b ->
  event_known e d = false -> existsb (fun x => String.eqb (bk_id x) b) (bookings d) = false ->
  (forall r, r ∈ pages d -> account_known (pg_account r) d = true
     /\ exists a, fst (account parse_uuid (pg_account r) (cal_core d)) = Ok (Some a)) ->
  (forall tz x, tz_parse z = Some tz ->
     (query_start q (today_in tz now) <= x <= today_in tz now + MAX_HORIZON_DAYS)%Z ->
     regular_day tz x /\ (x < last_date)%Z) ->
  slots_json now slug q d = Some (Ok (SlotList z dur out), d0) ->
  (bb_start body, bb_start body + bb_duration body * 60, label)%Z ∈ out -> bb_duration body = dur ->
  validate_visitor spacing body = None ->
  exists bo page owner d', book e b t now stamp slug body d = Some (Ok (bo, page, owner), d')
    /\ bo_start bo = bb_start body /\ bo_end bo = (bb_start body + dur * 60)%Z.
Proof. apply offered_slot_books. Qed.

End OfferFacts.
