(* ===== verification/CalWitness.v ===== *)
(** Concrete runs of the calendar store and the booking endpoints: JSON columns as
    bit texts, one zone without clock changes and one with a gap. *)
From S2P Require Import Prelude Text Bytes Ident Store Calendars Sharing FedStore Scheduling Limiter Slots SlotFacts CalHistory BookFacts OfferFacts.

Open Scope string_scope.

(** ** A codec: the bits of the type's numbering *)

#[local] Instance serde_countable A `{Countable A} : Serde A :=
  {| to_json := fun a => bits (encode a); of_json := fun s => decode (unbits s) |}.
#[local] Instance serde_countable_laws A `{Countable A} : SerdeLaws A.
Proof. split. intros a. simpl. by rewrite unbits_bits, decode_encode. Qed.

#[local] Instance permissions_eq : EqDecision Permissions.
Proof. solve_decision. Defined.
#[local] Instance permissions_countable : Countable Permissions :=
  inj_countable' (fun p => (view_calendar p, view_events p, edit_events p, delete_events p, change_sharing p, admin p))
    (fun '(a, b, c, d, e, f) => mk_permissions a b c d e f) (fun p => match p with mk_permissions _ _ _ _ _ _ => eq_refl end).
#[local] Instance window_eq : EqDecision TimeWindow.
Proof. solve_decision. Defined.
#[local] Instance window_countable : Countable TimeWindow :=
  inj_countable' (fun w => (w_start w, w_end w)) (fun '(a, b) => mk_window a b)
    (fun w => match w with mk_window _ _ => eq_refl end).
#[local] Instance availability_eq : EqDecision Availability.
Proof. solve_decision. Defined.
#[local] Instance availability_countable : Countable Availability :=
  inj_countable' (fun a => (av_version a, weekly a, overrides a)) (fun '(v, w, o) => mk_availability v w o)
    (fun a => match a with mk_availability _ _ _ => eq_refl end).

(** ** Zones *)

(** Wall-clock time is UTC, or UTC with an hour missing after 02:00 on day 20000. *)
Inductive zone := Plain | Gap.
Definition gap_at : Z := 20000 * DAY + 2 * 3600.

#[local] Instance toy_chrono : Chrono := {|
  Tz := zone;
  tz_parse s := if String.eqb s "UTC" then Some Plain else if String.eqb s "Gap" then Some Gap else None;
  from_local_datetime z l :=
    match z with
    | Plain => Single l
    | Gap => if (l <? gap_at)%Z then Single l
             else if (l <? gap_at + 3600)%Z then NoSuchTime else Single (l - 3600)
    end;
  timestamp_date z t := Some (match z with
    | Plain => t / DAY
    | Gap => (if (t <? gap_at)%Z then t else (t + 3600)%Z) / DAY end)%Z;
  utc_date t := Some (t / DAY)%Z;
  rfc3339 _ _ := "";
  weekday_key d := nth (Z.to_nat ((d + 3) mod 7)) WEEKDAY_KEYS "mon";
  format_date d := pretty d;
  naive_date_parse := parse_i64;
  last_date := 100000
|}.

Definition any_id (s : string) : option string := Some s.
Definition any_zone (s : string) : bool := true.
Definition no_spacing (s : string) : bool := false.

(** A page open on weekdays from nine to five, in slots of 30 minutes. *)
Definition office : NewSchedulingPage :=
  mk_new_page "meet-ann" "Meet Ann" None "cal" "UTC" default_business_hours [30; 60]%Z 10 10 0 (Some 2%Z) None None.

Definition ann : Db :=
  on_accounts (fun _ => [mk_account "ann" "ann@x.org" None 0 None]) empty_db.

Definition after_calendar : CalDb :=
  snd (create_calendar "cal" 1 "ann" "Work" None (empty_cal_db ann)).
Definition after_page : CalDb :=
  snd (create_scheduling_page any_id any_zone "page" 2 "ann" office after_calendar).

(** Day 20000 is a Wednesday; its nine o'clock. *)
Definition nine : Z := 20000 * DAY + 9 * 3600.
Definition visit (start : Z) : BookBody := mk_body start 30 "Bob" "bob@y.org" None.

Definition after_booking : CalDb :=
  match book any_id no_spacing "ev1" "bk1" "t1" nine 3 "meet-ann" (visit (nine + 3600)) after_page with
  | Some (_, d) => d
  | None => after_page
  end.

Example booked_once : bookings after_booking <> [].
Proof. by vm_compute. Qed.

Example same_time_refused :
  option_map fst (book any_id no_spacing "ev2" "bk2" "t2" nine 4 "meet-ann" (visit (nine + 3600)) after_booking)
  = Some (Err (ConflictWith "slot no longer available")).
Proof. by vm_compute. Qed.

Example off_grid_refused :
  option_map fst (book any_id no_spacing "ev2" "bk2" "t2" nine 4 "meet-ann" (visit (nine + 3601)) after_booking)
  = Some (Err (BadRequest "that time is not an available slot")).
Proof. by vm_compute. Qed.

(** ** Witnesses *)

Lemma plain_day x t : today_in (Plain : Tz) t = x <-> (x * DAY <= t < (x + 1) * DAY)%Z.
Proof.
  unfold today_in. cbn [timestamp_date toy_chrono]. unfold DAY. split.
  - intros <-. pose proof (Z.div_mod t 86400 ltac:(lia)). pose proof (Z.mod_pos_bound t 86400 ltac:(lia)). lia.
  - intros Ht. symmetry. apply (Z.div_unique t 86400 x (t - x * 86400)); lia.
Qed.

Lemma plain_regular x : (x < last_date)%Z -> regular_day (Plain : Tz) x.
Proof.
  intros Hx. exists (x * DAY)%Z, ((x + 1) * DAY)%Z.
  unfold local_day_bounds, date_add, resolve_local, minutes_to_local. cbn [from_local_datetime toy_chrono mbind option_bind].
  destruct (Z.leb_spec (x + 1) last_date); [|lia]. split; [done|]. unfold DAY. split; [lia|].
  split; [apply plain_day|]. intros m t Hm [= <-]. destruct (Z.ltb_spec (m * 60) 86400); lia.
Qed.

Lemma book_reachable core e b t now stamp slug body d r d' :
  cal_reachable any_id any_zone core d ->
  book any_id no_spacing e b t now stamp slug body d = Some (r, d') ->
  cal_reachable any_id any_zone core d'.
Proof.
  intros Hd Hb. pose proof (cal_reachable_run any_id any_zone core d Hd) as Hok.
  apply book_cases in Hb as [[-> _]|(row & page & tz & slot & owner & bounds & Hc & bo & Hb & _)]; [done|].
  rewrite (surjective_pairing (book_slot _ _ _ _ _ _ _)) in Hb. injection Hb as _ <-.
  eapply reach_step; [exact Hd|]. apply step_writes, w_book. by eapply booking_widened.
Qed.

Lemma after_page_reachable : cal_reachable any_id any_zone ann after_page.
Proof.
  unfold after_page, after_calendar. eapply reach_step; [eapply reach_step; [apply reach_start|]|].
  - apply step_writes, w_calendar.
  - apply step_writes, w_page. unfold new_page_typed, u32. simpl. lia.
Qed.

Lemma after_booking_reachable : cal_reachable any_id any_zone ann after_booking.
Proof.
  unfold after_booking. destruct (book _ _ _ _ _ _ _ _ _ _) as [[r d]|] eqn:E; [|apply after_page_reachable].
  eapply book_reachable; [apply after_page_reachable|exact E].
Qed.

Lemma cal_reachable_ok_witness :
  cal_ok any_id any_zone after_booking
  /\ forall i j a b, bookings after_booking !! i = Some a -> bookings after_booking !! j = Some b -> i <> j ->
       bk_account a = bk_account b -> (bk_end a <= bk_start b \/ bk_end b <= bk_start a)%Z.
Proof. exact (cal_reachable_ok any_id any_zone ann after_booking after_booking_reachable). Defined.

Definition morning : SlotParams :=
  mk_params Plain default_business_hours 30 10 10 0 None None None nine.

Lemma compute_slots_spec_witness :
  (1 <= pa_duration morning < 2 ^ 32 - 24 * 60)%Z /\ validate (pa_availability morning) = Ok tt /\ (20001 < last_date)%Z
  /\ exists l, compute_slots morning [(nine, (nine + 3600)%Z)] ∅ 20000 20001 = Some l.
Proof.
  assert (1 <= pa_duration morning < 2 ^ 32 - 24 * 60)%Z as Hd by (cbn; lia).
  assert (validate (pa_availability morning) = Ok tt) as Hv by (by vm_compute).
  assert (20001 < last_date)%Z as Hl by done.
  split; [exact Hd|]. split; [exact Hv|]. split; [exact Hl|].
  destruct (compute_slots_spec morning [(nine, (nine + 3600)%Z)] ∅ Hd 20000 20001 Hv Hl) as (l & Hs & _).
  exists l. exact Hs.
Defined.

(** Two bookings an hour and the third call of one address. *)
Definition three_calls : list call :=
  [mk_call 10 ("ip", "book") 2 3600; mk_call 20 ("ip", "book") 2 3600; mk_call 25 ("ip", "slots") 60 60;
   mk_call 30 ("ip", "book") 2 3600].

Lemma allow_limits_witness :
  length (passed three_calls ∅) = 3%nat
  /\ (Z.of_nat (length (List.filter (in_window ("ip", "book") 3600 0) (passed three_calls ∅))) <= 2)%Z.
Proof.
  split; [by vm_compute|]. apply (allow_limits ("ip", "book") 2 3600 ltac:(lia) ltac:(lia) three_calls 0 0).
  - simpl. lia.
  - repeat split; right; by vm_compute.
  - by vm_compute.
  - repeat constructor; simpl; intros; done.
Defined.

Lemma option_map_some {A B} (f : A -> B) o y : option_map f o = Some y -> exists x, o = Some x /\ f x = y.
Proof. destruct o; simpl; [|done]. intros [= <-]. eauto. Qed.

Lemma ten_is_booked :
  option_map (fun x => is_ok x.1) (book any_id no_spacing "ev1" "bk1" "t1" nine 3 "meet-ann" (visit (nine + 3600)) after_page)
  = Some true.
Proof. by vm_compute. Qed.

Lemma book_spec_witness :
  exists r d', book any_id no_spacing "ev1" "bk1" "t1" nine 3 "meet-ann" (visit (nine + 3600)) after_page = Some (r, d')
  /\ bookings d' <> [].
Proof.
  destruct (option_map_some _ _ _ ten_is_booked) as ([r d'] & Hb & Hr). exists r, d'. split; [exact Hb|].
  pose proof (book_spec any_id any_zone no_spacing "ev1" "bk1" "t1" nine 3 "meet-ann" (visit (nine + 3600)) after_page r d'
    (cal_reachable_run _ _ _ _ after_page_reachable)
    (fun tz => match tz with Plain => eq_refl | Gap => eq_refl end) Hb) as Hspec.
  destruct Hspec as [[_ Hn]|(row & prow & page & tz & owner & bo & ev & bk & _ & Hd & _)]; [simpl in Hr; congruence|].
  rewrite Hd. cbn [bookings on_bookings on_events]. by destruct (bookings after_page).
Defined.

Definition any_time : SlotsQuery := mk_query (Some "20000") (Some "20001") None.

Definition listing (r : result Reply Reply * CalDb) : option (string * Z * list (Z * Z * string)) :=
  match r.1 with Ok (SlotList z dur out) => Some (z, dur, out) | _ => None end.
Definition lists_ten (r : result Reply Reply * CalDb) : bool :=
  match listing r with
  | Some (z, dur, out) => String.eqb z "UTC" && (dur =? 30)%Z
      && existsb (fun s => bool_decide (s = ((nine + 3600)%Z, (nine + 3600 + 30 * 60)%Z, ""))) out
  | None => false
  end.

Lemma ten_is_offered : option_map lists_ten (slots_json any_id nine "meet-ann" any_time after_page) = Some true.
Proof. by vm_compute. Qed.

Lemma offers_ten : exists out d0,
  slots_json any_id nine "meet-ann" any_time after_page = Some (Ok (SlotList "UTC" 30 out), d0)
  /\ ((nine + 3600)%Z, (nine + 3600 + 30 * 60)%Z, "") ∈ out.
Proof.
  destruct (option_map_some _ _ _ ten_is_offered) as ([[r|r] d0] & -> & Hr); [|done].
  unfold lists_ten, listing in Hr. cbn [fst] in Hr. destruct r; try done.
  apply andb_true_iff in Hr as [Hr Hin]. apply andb_true_iff in Hr as [Hz Hd].
  apply String.eqb_eq in Hz as ->. apply Z.eqb_eq in Hd as ->.
  apply existsb_elem in Hin as (x & Hx & E). apply bool_decide_eq_true in E as ->. by exists slots, d0.
Qed.

(** What the checks read of the stored page. *)
Lemma nothing_booked : bookings after_page = [].
Proof. by vm_compute. Qed.
Definition columns (r : PageRow) : string * option Z := (pg_account r, pg_max_per_day r).
Lemma pages_columns : map columns (pages after_page) = [("ann", Some 2%Z)].
Proof. by vm_compute. Qed.
Lemma page_columns r : r ∈ pages after_page -> pg_account r = "ann" /\ pg_max_per_day r = Some 2%Z.
Proof.
  intros Hr. assert (columns r ∈ map columns (pages after_page)) as Hin.
  { generalize (pages after_page), Hr. intros l Hl. apply elem_of_map. by exists r. }
  rewrite pages_columns in Hin. apply list_elem_of_singleton in Hin. by injection Hin.
Qed.
Lemma some_ok {E A} (r : result E (option A)) :
  match r with Ok (Some _) => True | _ => False end -> exists a, r = Ok (Some a).
Proof. destruct r as [[a|]|]; simpl; [eauto|done..]. Qed.
Lemma ann_is_there : account_known "ann" after_page = true
  /\ exists a, fst (account any_id "ann" (cal_core after_page)) = Ok (Some a).
Proof. split; [by vm_compute|]. apply some_ok. by vm_compute. Qed.
Lemma ten_is_in_order : validate_visitor no_spacing (visit (nine + 3600)) = None.
Proof. by vm_compute. Qed.
Lemma no_events : event_known "ev1" after_page = false.
Proof. by vm_compute. Qed.

#[local] Opaque after_page.

Lemma offered_slot_is_bookable_witness :
  exists bo page owner d',
    book any_id no_spacing "ev1" "bk1" "t1" nine 3 "meet-ann" (visit (nine + 3600)) after_page
    = Some (Ok (bo, page, owner), d') /\ bo_start bo = (nine + 3600)%Z.
Proof.
  destruct offers_ten as (out & d0 & Hlist & Hin).
  destruct (offered_slot_is_bookable any_id any_zone no_spacing nine 3 "meet-ann" any_time after_page "UTC" 30 out d0
    (visit (nine + 3600)) "ev1" "bk1" "t1" "") as (bo & page & owner & d' & Hb & Hs & _).
  - exact (cal_reachable_run _ _ _ _ after_page_reachable).
  - intros x Hx. exfalso. rewrite nothing_booked in Hx. by apply elem_of_nil in Hx.
  - intros r Hr. split; [reflexivity|]. split; [reflexivity|]. intros limit Hl.
    rewrite (proj2 (page_columns r Hr)) in Hl. injection Hl as <-. unfold u32. lia.
  - done.
  - done.
  - exact no_events.
  - by rewrite nothing_booked.
  - intros r Hr. rewrite (proj1 (page_columns r Hr)). exact ann_is_there.
  - intros tz x Htz Hx. cbn [tz_parse toy_chrono] in Htz. rewrite String.eqb_refl in Htz. injection Htz as <-.
    assert (today_in (Plain : Tz) nine = 20000)%Z as Et by (by vm_compute). rewrite Et in Hx.
    unfold MAX_HORIZON_DAYS in Hx. assert (x < last_date)%Z as Hl by (change last_date with 100000%Z; lia).
    split; [by apply plain_regular|exact Hl].
  - exact Hlist.
  - exact Hin.
  - reflexivity.
  - exact ten_is_in_order.
  - exists bo, page, owner, d'. split; [exact Hb|exact Hs].
Defined.

(** ** A day with a missing hour *)

(** A window from 02:00 to 05:00 on the day the hour from two to three is missing,
    in slots of 40 minutes: 02:00 resolves to 03:00 and 02:40 to 03:10, and both
    are offered although they overlap. *)
Definition night : SlotParams :=
  mk_params Gap (mk_availability 1 ∅ {[ pretty 20000%Z := [mk_window "02:00" "05:00"] ]})
    40 0 0 0 None None None 0.

Lemma gap_slots_overlap : exists rest,
  compute_slots night [] ∅ 20000 20000
  = Some (mk_slot gap_at (gap_at + 2400) :: mk_slot (gap_at + 600) (gap_at + 3000) :: rest)
  /\ overlaps (gap_at, (gap_at + 2400)%Z) ((gap_at + 600)%Z, (gap_at + 3000)%Z) = true.
Proof. eexists. split; by vm_compute. Qed.
