(* ===== verification/FedSig.v ===== *)
(** [crates/owney-api/src/fed_sig.rs]: signed federation requests, on both sides.

    A handler is a program of storage operations and network exchanges over
    [FedWorld]; [Moment] is the clock and the random texts an operation gets.  The
    URL type, DNS and the HTTP client are the classes [FedCrates] and [Network]. *)
From S2P Require Import Prelude Text Bytes Ident Store Mail Calendars Sharing FedStore Pgp Interleave.

Open Scope string_scope.

Definition SIG_VERSION : string := "1".
Definition TIMESTAMP_SKEW_SECS : Z := 300.
Definition H_VERSION : string := "x-owney-sig-version".
Definition H_SERVER : string := "x-owney-server".
Definition H_TIMESTAMP : string := "x-owney-timestamp".
Definition H_NONCE : string := "x-owney-nonce".
Definition H_SIGNATURE : string := "x-owney-signature".
Definition H_CAPABILITY : string := "x-owney-capability".

(** [reqwest::Url], [blake3], [urlencoding] and the parts of a cert the peers exchange. *)
Class FedCrates `{Sequoia} := {
  Url : Type;
  url_parse : string -> option Url;
  url_scheme : Url -> string;
  url_username : Url -> string;
  url_password : Url -> option string;
  url_host : Url -> option string;
  url_port : Url -> option Z;                       (* [port_or_known_default] *)
  url_path : Url -> string;
  url_query : Url -> option string;
  query_pairs : Url -> list (string * string);      (* percent-decoded *)
  url_encode : string -> string;
  blake3 : list Z -> list Z;
  cert_userids : Cert -> list string;
  cert_strip : Cert -> Cert;                        (* [strip_secret_key_material] *)
  armor_public : list Z -> result string string      (* [armor::Writer], as UTF-8 *)
}.

(** ** Addresses *)

Inductive IpAddr :=
  | V4 (a b c d : Z)
  | V6 (s0 s1 s2 s3 s4 s5 s6 s7 : Z).

(** [is_private] of an IPv4 address: the tests of the standard library and the
    carrier-grade range. *)
Definition is_private_v4 (a b c d : Z) : bool :=
  ((a =? 10) || ((a =? 172) && (16 <=? b) && (b <=? 31)) || ((a =? 192) && (b =? 168)))%Z
  || (a =? 127)%Z
  || ((a =? 169) && (b =? 254))%Z
  || ((a =? 255) && (b =? 255) && (c =? 255) && (d =? 255))%Z
  || ((a =? 0) && (b =? 0) && (c =? 0) && (d =? 0))%Z
  || (((a =? 192) && (b =? 0) && (c =? 2)) || ((a =? 198) && (b =? 51) && (c =? 100))
      || ((a =? 203) && (b =? 0) && (c =? 113)))%Z
  || ((a =? 100) && (Z.land b 192 =? 64))%Z.

(** [is_private]. *)
Definition is_private (ip : IpAddr) : bool :=
  match ip with
  | V4 a b c d => is_private_v4 a b c d
  | V6 s0 s1 s2 s3 s4 s5 s6 s7 =>
      let zeros := ((s0 =? 0) && (s1 =? 0) && (s2 =? 0) && (s3 =? 0) && (s4 =? 0))%Z in
      (zeros && (s5 =? 0) && (s6 =? 0) && ((s7 =? 1) || (s7 =? 0)))%Z
      || (Z.land s0 65024 =? 64512)%Z
      || (Z.land s0 65472 =? 65152)%Z
      || (zeros && (s5 =? 65535)%Z
          && is_private_v4 (Z.shiftr s6 8) (Z.land s6 255) (Z.shiftr s7 8) (Z.land s7 255))
  end.

(** [constant_time_eq]. *)
Definition constant_time_eq (a b : list Z) : bool :=
  if negb (Nat.eqb (length a) (length b)) then false
  else (fold_left (fun diff '(x, y) => Z.lor diff (Z.lxor x y)) (zip a b) 0 =? 0)%Z.

(** ** Configuration *)

Record FederationConfig := mk_fed_config {
  fc_enabled : bool;
  fc_allow_private_ips : bool;
  fc_url_overrides : gmap string string;
  fc_allowlist : option (list string)
}.

(** [FederationConfig::domain_allowed]. *)
Definition domain_allowed (c : FederationConfig) (domain : string) : bool :=
  match fc_allowlist c with
  | Some l => existsb (String.eqb (to_lowercase (trim domain))) l
  | None => true
  end.

(** ** Requests *)

Definition Headers := string -> option string.   (* the first value, when it is visible ASCII *)

Record WireRequest `{FedCrates} := mk_wire {
  wr_method : string;
  wr_target : Url;
  wr_headers : list (string * string);
  wr_body : list Z
}.
(** A request as its receiver reads it: the headers by name, the target as text. *)
Definition header_of (l : list (string * string)) : Headers :=
  fun name => option_map snd (List.find (fun p => String.eqb p.1 name) l).
Definition target_text `{FedCrates} (u : Url) : string :=
  url_path u +:+ match url_query u with Some q => "?" +:+ q | None => "" end.

Record WireResponse := mk_wire_response { rs_status : Z; rs_body : string }.
Definition is_success (r : WireResponse) : bool := (200 <=? rs_status r)%Z && (rs_status r <? 300)%Z.

(** The outside: an HTTP exchange and a name lookup, which may change it. *)
Class Network `{FedCrates} (N : Type) := {
  http_send : WireRequest -> N -> result string WireResponse * N;
  lookup_host : string -> Z -> N -> option (list IpAddr) * N
}.

Record Moment := mk_moment { unix : Z; at_uuid : string; at_nonce : string; at_entropy : Z }.

(** The storage handle with the calendar tables, the network, and the number of
    operations so far.  [fw_tables] is read over the one database of the handle. *)
Record FedWorld `{BlobStore} (N : Type) := mk_fed_world {
  fw_pgp : PgpWorld;
  fw_tables : CalDb;
  fw_net : N;
  fw_ticks : nat
}.
Arguments mk_fed_world {_ _} _ _ _ _.
Arguments fw_pgp {_ _} _.
Arguments fw_tables {_ _} _.
Arguments fw_net {_ _} _.
Arguments fw_ticks {_ _} _.

Definition with_core (core : Db) (d : CalDb) : CalDb :=
  mk_cal_db core (calendars d) (events d) (sharings d) (invitations d) (federations d) (pages d)
    (bookings d) (event_map d) (fed_peers d) (nonces d) (outbox d) (identity d).
Definition with_db `{BlobStore} (core : Db) (p : PgpWorld) : PgpWorld :=
  mk_pgp_world (mk_world core (blob_files (pw_world p)) (index_tasks (pw_world p))) (pw_db p).

(** ** The canonical string *)

Section Canonical.
Context `{FedCrates}.

Definition canonical_fields (method path_and_query sender_domain receiver_host : string) (timestamp : Z)
    (nonce : string) (body : list Z) : list string :=
  ["owney-fed-v" +:+ SIG_VERSION; to_uppercase method; path_and_query; sender_domain; receiver_host;
   pretty timestamp; nonce; base64_encode (blake3 body)].

(** [canonical_string]. *)
Definition canonical_string (method path_and_query sender_domain receiver_host : string) (timestamp : Z)
    (nonce : string) (body : list Z) : string :=
  join (str_of lf)
    (canonical_fields method path_and_query sender_domain receiver_host timestamp nonce body).

(** [pairs.sort()]. *)
Definition pair_leb (p q : string * string) : bool :=
  (String.leb p.1 q.1 && negb (String.eqb p.1 q.1)) || (String.eqb p.1 q.1 && String.leb p.2 q.2).

Definition query_text (pairs : list (string * string)) : string :=
  join "&" (map (fun p => p.1 +:+ "=" +:+ p.2) (order_by pair_leb pairs)).

(** [canonical_path]. *)
Definition canonical_path (url : Url) : string :=
  match query_pairs url with
  | [] => url_path url
  | pairs => url_path url +:+ "?" +:+ query_text pairs
  end.

(** [canonical_path_str]. *)
Definition canonical_path_str (path_and_query : string) : string :=
  match url_parse ("http://placeholder" +:+ path_and_query) with
  | Some url => canonical_path url
  | None => path_and_query
  end.

(** [host_of]. *)
Definition host_of (public_url : string) : string :=
  default public_url (u ← url_parse public_url; url_host u).

End Canonical.

(** ** Verification *)

Inductive Rejection := MissingSignature | UnknownPeer | BadSignature | StaleTimestamp | Replay | Malformed.

(** [Rejection::status]. *)
Definition rejection_status (r : Rejection) : Z :=
  match r with
  | MissingSignature | BadSignature | UnknownPeer => 401
  | StaleTimestamp | Replay | Malformed => 400
  end.
(** [Rejection::as_str]. *)
Definition rejection_str (r : Rejection) : string :=
  match r with
  | MissingSignature => "missing signature" | UnknownPeer => "unknown peer"
  | BadSignature => "bad signature" | StaleTimestamp => "stale timestamp"
  | Replay => "replay" | Malformed => "malformed"
  end.

Record VerifiedPeer := mk_verified { vp_domain : string; vp_fingerprint : string }.

(** 64-bit two's complement, as a release build computes; [abs] of the least value is
    itself. *)
Definition wrap_i64 (z : Z) : Z := ((z + 2 ^ 63) mod 2 ^ 64 - 2 ^ 63)%Z.
Definition stale (now timestamp : Z) : bool :=
  (TIMESTAMP_SKEW_SECS <? wrap_i64 (Z.abs (wrap_i64 (now - timestamp))))%Z.

(** What [verify_request] takes from the headers. *)
Record Signed := mk_signed { sg_domain : string; sg_timestamp : Z; sg_nonce : string; sg_sig : list Z }.

Definition read_signed `{Sequoia} (headers : Headers) : result Rejection Signed :=
  version <-? ok_or (headers H_VERSION) MissingSignature ;;
  if negb (String.eqb version SIG_VERSION) then Err Malformed
  else
    sender <-? ok_or (headers H_SERVER) MissingSignature ;;
    timestamp <-? ok_or (t ← headers H_TIMESTAMP; parse_i64 t) Malformed ;;
    nonce <-? ok_or (headers H_NONCE) MissingSignature ;;
    sig_b64 <-? ok_or (headers H_SIGNATURE) MissingSignature ;;
    match base64_decode sig_b64 with
    | Ok sig => Ok (mk_signed (to_lowercase (trim sender)) timestamp nonce sig)
    | Err _ => Err Malformed
    end.

Section FedSig.
Context `{BlobStore} `{FedCrates} {N : Type} `{!Network N}.
Variable parse_uuid : string -> option string.
Variable moment : nat -> Moment.

Abbreviation W := (FedWorld N).
Abbreviation FP A := (prog W A).

(** ** Steps *)

Definition now_moment (w : W) : Moment := moment (fw_ticks w).
Definition caldb (w : W) : CalDb := with_core (db (pw_world (fw_pgp w))) (fw_tables w).

(** One storage operation. *)
Definition cal {A} (f : Moment -> KM A) : FP (result StorageError A) :=
  op (fun w => let '(r, d) := f (now_moment w) (caldb w) in
               (r, mk_fed_world (with_db (cal_core d) (fw_pgp w)) d (fw_net w) (S (fw_ticks w)))).
Definition pgp {A} (f : Moment -> action PgpWorld PgpError A) : FP (result PgpError A) :=
  op (fun w => let '(r, p) := f (now_moment w) (fw_pgp w) in
               (r, mk_fed_world p (fw_tables w) (fw_net w) (S (fw_ticks w)))).
(** The clock and random numbers. *)
Definition ask {A} (f : Moment -> A) : FP A :=
  op (fun w => (f (now_moment w), mk_fed_world (fw_pgp w) (fw_tables w) (fw_net w) (S (fw_ticks w)))).
Definition net {A} (f : N -> A * N) : FP A :=
  op (fun w => let '(a, n) := f (fw_net w) in
               (a, mk_fed_world (fw_pgp w) (fw_tables w) n (S (fw_ticks w)))).

(** [?] and its like: stop with the error, converted. *)
Definition ptry {A B E F} (p : FP (result E A)) (h : E -> F) (k : A -> FP (result F B)) : FP (result F B) :=
  r <-- p ;; match r with Ok a => k a | Err e => Done (Err (h e)) end.
Definition asis {E} (e : E) : E := e.
Definition pure {A E} (r : result E A) : FP (result E A) := Done r.

(** [verify_request]. *)
Definition verify_request (public_url method path_and_query : string) (headers : Headers) (body : list Z)
  : FP (result Rejection VerifiedPeer) :=
  ptry (pure (read_signed headers)) asis (fun s =>
  now <-- ask unix ;;
  if stale now (sg_timestamp s) then Done (Err StaleTimestamp)
  else
  ptry (cal (fun _ => federation_peer (sg_domain s))) (fun _ => Malformed) (fun found =>
  ptry (pure (ok_or found UnknownPeer)) asis (fun peer =>
  ptry (pure (cert_from_bytes (ps_cert peer))) (fun _ => UnknownPeer) (fun peer_cert =>
  let canonical := canonical_string method path_and_query (sg_domain s) (host_of public_url)
                     (sg_timestamp s) (sg_nonce s) body in
  let valid := match verify_detached peer_cert (bytes_of canonical) (sg_sig s) with
               | Ok v => v | Err _ => false end in
  if negb valid then Done (Err BadSignature)
  else
  expires_at <-- ask (fun m => unix m + TIMESTAMP_SKEW_SECS)%Z ;;
  ptry (cal (fun _ => check_and_record_nonce (ps_fingerprint peer) (sg_nonce s) expires_at))
    (fun _ => Malformed) (fun fresh =>
  Done (if fresh : bool then Ok (mk_verified (sg_domain s) (ps_fingerprint peer)) else Err Replay)))))).

(** ** The client *)

Record FederationClient := mk_client {
  cl_cert : Cert;
  cl_domain : string;
  cl_allow_private_ips : bool;
  cl_url_overrides : gmap string string
}.

Inductive FederationClientError :=
  | BadUrl
  | Blocked (why : string)
  | SignError (e : PgpError)
  | NetworkError (e : string).

(** [FederationClient::new]. *)
Definition new_client (cert : Cert) (domain : string) (c : FederationConfig) : FederationClient :=
  mk_client cert domain (fc_allow_private_ips c) (fc_url_overrides c).

(** [override_target]. *)
Definition override_target (c : FederationClient) (url : Url) : result FederationClientError Url :=
  let host := to_lowercase (default "" (url_host url)) in
  match cl_url_overrides c !! host with
  | Some base =>
      ok_or (url_parse (trim_end_matches (Ascii.eqb "/") base +:+ url_path url
                        +:+ match url_query url with Some q => "?" +:+ q | None => "" end)) BadUrl
  | None => Ok url
  end.

(** [guard_url]. *)
Definition guard_url (url : Url) (allow_private : bool) : FP (result FederationClientError unit) :=
  if negb (String.eqb (url_scheme url) "https")
     && negb (allow_private && String.eqb (url_scheme url) "http")
  then Done (Err (Blocked "non-https url"))
  else if negb (String.eqb (url_username url) "") || match url_password url with Some _ => true | None => false end
  then Done (Err (Blocked "url has credentials"))
  else if allow_private then Done (Ok tt)
  else
  ptry (pure (ok_or (url_host url) BadUrl)) asis (fun host =>
  addrs <-- net (lookup_host host (default 443 (url_port url))%Z) ;;
  ptry (pure (ok_or addrs (Blocked "dns resolution failed"))) asis (fun addrs =>
  Done (if existsb is_private addrs then Err (Blocked "private address")
        else match addrs with [] => Err (Blocked "no address") | _ => Ok tt end))).

(** The headers of a signed request. *)
Definition signed_headers (c : FederationClient) (timestamp : Z) (nonce : string) (sig : list Z)
    (capability : option string) (body : list Z) : list (string * string) :=
  ([(H_VERSION, SIG_VERSION); (H_SERVER, cl_domain c); (H_TIMESTAMP, pretty timestamp);
    (H_NONCE, nonce); (H_SIGNATURE, base64_encode sig)]
   ++ match capability with Some cap => [(H_CAPABILITY, cap)] | None => [] end
   ++ match body with [] => [] | _ => [("content-type", "application/json")] end)%list.

Definition http (method : string) (target : Url) (headers : list (string * string)) (body : list Z)
  : FP (result FederationClientError WireResponse) :=
  ptry (net (http_send (mk_wire _ _ method target headers body))) NetworkError (fun r => Done (Ok r)).

(** [FederationClient::send]. *)
Definition send (c : FederationClient) (method url receiver_host : string) (body : option (list Z))
    (capability : option string) : FP (result FederationClientError WireResponse) :=
  ptry (pure (ok_or (url_parse url) BadUrl)) asis (fun parsed =>
  let path_and_query := canonical_path parsed in
  ptry (pure (override_target c parsed)) asis (fun target =>
  ptry (guard_url target (cl_allow_private_ips c)) asis (fun _ =>
  let body := default [] body in
  nonce <-- ask at_nonce ;;
  timestamp <-- ask unix ;;
  let canonical := canonical_string method path_and_query (cl_domain c) receiver_host timestamp nonce body in
  ptry (pure (sign_detached (cl_cert c) (bytes_of canonical))) SignError (fun sig =>
  let headers := signed_headers c timestamp nonce sig capability body in
  if String.eqb method "GET" then http method target headers []
  else if String.eqb method "POST" then http method target headers body
  else Done (Err BadUrl))))).

(** [get], [get_capable], [post_json] and [post_json_capable]. *)
Definition get (c : FederationClient) (url receiver_host : string) := send c "GET" url receiver_host None None.
Definition get_capable (c : FederationClient) (url receiver_host capability : string) :=
  send c "GET" url receiver_host None (Some capability).
Definition post_json (c : FederationClient) (url receiver_host : string) (body : list Z) :=
  send c "POST" url receiver_host (Some body) None.
Definition post_json_capable (c : FederationClient) (url receiver_host : string) (body : list Z) (capability : string) :=
  send c "POST" url receiver_host (Some body) (Some capability).

(** [get_unsigned]. *)
Definition get_unsigned (c : FederationClient) (url : string) : FP (result FederationClientError WireResponse) :=
  ptry (pure (ok_or (url_parse url) BadUrl)) asis (fun parsed =>
  ptry (pure (override_target c parsed)) asis (fun target =>
  ptry (guard_url target (cl_allow_private_ips c)) asis (fun _ => http "GET" target [] []))).

End FedSig.
