(* ===== verification/FedSync.v ===== *)
(** The federation endpoints and workers of [crates/owney-api/src/]: discovery and
    pinning ([federation.rs]), applying a peer's events ([fed_apply.rs]), the pull
    side ([calendar_sync.rs]), the served endpoints ([wellknown.rs]) and the
    notifications ([fed_worker.rs]), with [server_cert] of [crates/owney-pgp].

    The JSON texts go through [FedJson]; error texts that only reach the log are
    [FedTexts]. *)
From S2P Require Import Prelude Text Bytes Ident Store Mail Calendars Sharing FedStore Pgp Interleave FedSig.

Open Scope string_scope.

(** ** Messages *)

Record SealedItem := mk_item { it_remote_uid : string; it_updated_at : Z; it_sealed : string }.

Record SyncPage := mk_sync_page {
  sy_author_cert : option string;
  sy_items : list SealedItem;
  sy_next_since : Z;
  sy_next_after : string;
  sy_has_more : bool
}.

Record EventPayload := mk_payload {
  ep_title : string;
  ep_description : option string;
  ep_start : Z;
  ep_end : Z;
  ep_rrule : option string;
  ep_author_email : string
}.

Record ServerMetadata := mk_metadata {
  md_server_url : string;
  md_supported_features : list string;
  md_version : string;
  md_admin : option string;
  md_public_cert : option string;
  md_fingerprint : option string
}.

Record FederationInvitation := mk_fed_invitation {
  fi_federation_id : string;
  fi_capability_secret : string;
  fi_calendar_name : string;
  fi_inviter_email : string;
  fi_target_email : string;
  fi_sharing_type : string;
  fi_created_at : Z
}.

(** The JSON bodies, as [serde_json] writes and reads them. *)
Class FedJson := {
  error_json : string -> string;
  exists_json : string;
  invited_json : string -> string;                 (* federation id, status pending *)
  ok_json : string;
  sync_json : string -> SyncPage -> string;        (* the page with its federation id *)
  sync_of_json : string -> option SyncPage;
  payload_json : EventPayload -> string;
  payload_of_json : string -> option EventPayload;
  metadata_json : ServerMetadata -> string;
  metadata_of_json : string -> option ServerMetadata;
  invitation_of_json : string -> option FederationInvitation;
  notify_json : string -> string;
  notify_of_json : string -> option string         (* the federation id, when it is text *)
}.

Inductive ApplyError := Crypto (m : string) | ApplyStorage (m : string) | Untrusted (m : string).

Inductive DiscoveryError :=
  | NotFound (domain : string)
  | InvalidMetadata (m : string)
  | DiscoveryNetwork (m : string).

Inductive SyncError :=
  | SyncNetwork (m : string)
  | SyncRemote (status : Z)
  | SyncStorage (m : string)
  | SyncCrypto (m : string)
  | SyncApply (m : string)
  | Misconfigured (m : string)
  | FederationNotFound.

(** The texts of errors ([Display]). *)
Class FedTexts := {
  storage_text : StorageError -> string;
  pgp_text : PgpError -> string;
  client_text : FederationClientError -> string;
  apply_text : ApplyError -> string;
  discovery_text : DiscoveryError -> string;
  status_text : Z -> string
}.

(** [domain_of]. *)
Definition domain_of (mail : string) : option string :=
  option_map (fun p => to_lowercase p.2) (rsplit_once "@" mail).

(** [parse_cursor]. *)
Definition parse_cursor (token : option string) : Z * string :=
  match t ← token; split_once "|" t with
  | Some (since, after) => (default 0%Z (parse_i64 since), after)
  | None => (0%Z, "")
  end.

(** [server_candidates]. *)
Definition server_candidates (domain : string) : list string :=
  map (fun host => "https://" +:+ host +:+ "/.well-known/owney/server")
    [domain; "mail." +:+ domain; "owney." +:+ domain].

Definition MAX_EVENTS_PER_PAGE : Z := 500.
Definition MAX_ATTEMPTS : Z := 8.

Section FedSync.
Context `{BlobStore} `{FedCrates} {N : Type} `{!Network N} `{FedJson} `{FedTexts} `{Serde Permissions}.
Variable parse_uuid : string -> option string.
Variable fresh : string -> string.
Variable moment : nat -> Moment.
(** This server. *)
Variable public_url : string.
Variable config : FederationConfig.

Abbreviation W := (FedWorld N).
Abbreviation FP A := (prog W A).
Abbreviation cal := (cal moment).
Abbreviation pgp := (pgp moment).
Abbreviation ask := (ask moment).
Abbreviation get_federation := (get_federation parse_uuid).

(** ** Identity and peers *)

(** [public_armored]. *)
Definition public_armored (cert : Cert) : result PgpError string :=
  bytes <-? lift_pgp (cert_to_vec cert) ;; lift_pgp (armor_public bytes).

(** [server_cert]: loaded, or generated and kept on first use. *)
Definition server_cert (domain : string) : FP (result PgpError Cert) :=
  ptry (cal (fun _ => server_identity)) PgpStorage (fun known =>
  match known with
  | Some (_, blob) =>
      ptry (pgp (fun _ => storage (get_blob blob))) asis (fun tsk =>
      Done (lift_pgp (cert_from_bytes tsk)))
  | None =>
      entropy <-- ask at_entropy ;;
      ptry (pure (generate_cert ("federation@" +:+ domain) (Some (domain +:+ " federation")) entropy)) asis (fun cert =>
      ptry (pure (lift_pgp (cert_as_tsk cert))) asis (fun tsk =>
      ptry (pgp (fun m => storage (put_blob (unix m) tsk))) asis (fun blob =>
      ptry (cal (fun _ => set_server_identity (cert_fingerprint cert) blob)) PgpStorage (fun _ =>
      Done (Ok cert)))))
  end).

(** [build_client]. *)
Definition build_client : FP (result DiscoveryError FederationClient) :=
  let domain := host_of public_url in
  ptry (server_cert domain) (fun e => InvalidMetadata (pgp_text e)) (fun cert =>
  Done (Ok (new_client cert domain config))).

(** Pinning what a well-known document says. *)
Definition pin (domain : string) (meta : ServerMetadata) : FP (result DiscoveryError PeerServer) :=
  ptry (pure (ok_or (md_public_cert meta) (InvalidMetadata "peer has no public_cert"))) asis (fun armored =>
  ptry (pure (cert_from_bytes (bytes_of armored))) InvalidMetadata (fun cert =>
  let fingerprint := cert_fingerprint cert in
  let fail_storage := fun e => DiscoveryNetwork (storage_text e) in
  ptry (cal (fun _ => federation_peer domain)) fail_storage (fun existing =>
  if match existing with Some p => negb (String.eqb (ps_fingerprint p) fingerprint) | None => false end
  then Done (Err (InvalidMetadata "peer cert fingerprint changed"))
  else
  ptry (pure (cert_to_vec (cert_strip cert))) InvalidMetadata (fun bin =>
  ptry (cal (fun m => upsert_federation_peer (unix m) domain (md_server_url meta) bin fingerprint)) fail_storage (fun _ =>
  ptry (cal (fun _ => federation_peer domain)) fail_storage (fun found =>
  Done (ok_or found (DiscoveryNetwork "pin vanished")))))))).

Fixpoint discover_at (client : FederationClient) (domain : string) (urls : list string)
  : FP (result DiscoveryError PeerServer) :=
  match urls with
  | [] => Done (Err (NotFound domain))
  | url :: rest =>
      r <-- get_unsigned client url ;;
      match r with
      | Ok resp =>
          if negb (is_success resp) then discover_at client domain rest
          else match metadata_of_json (rs_body resp) with
               | Some meta => pin domain meta
               | None => discover_at client domain rest
               end
      | Err _ => discover_at client domain rest
      end
  end.

(** [discover_and_pin]. *)
Definition discover_and_pin (client : FederationClient) (domain : string)
  : FP (result DiscoveryError PeerServer) :=
  if negb (domain_allowed config domain) then Done (Err (NotFound (domain +:+ " not allowlisted")))
  else discover_at client domain (server_candidates domain).

(** ** Applying events ([fed_apply.rs]) *)

(** The decrypted and checked payload of an item. *)
Definition open_item (server_secret author_cert : Cert) (peer_domain : string) (item : SealedItem)
  : result ApplyError EventPayload :=
  match base64_decode (it_sealed item) with
  | Err e => Err (Crypto e)
  | Ok ciphertext =>
      match open_event server_secret author_cert ciphertext with
      | Err e => Err (Crypto (pgp_text e))
      | Ok plaintext =>
          payload <-? ok_or (payload_of_json (string_of plaintext)) (Crypto "payload") ;;
          author_domain <-? ok_or (domain_of (ep_author_email payload)) (Untrusted "bad author") ;;
          if negb (String.eqb author_domain peer_domain)
          then Err (Untrusted ("author domain " +:+ author_domain +:+ " is not the federating peer " +:+ peer_domain))
          else if negb (existsb (contains (ep_author_email payload)) (cert_userids author_cert))
          then Err (Untrusted "author cert does not match author email")
          else Ok payload
      end
  end.

(** [apply_one]. *)
Definition apply_one (server_secret : Cert) (federation : CalendarFederation) (peer_domain : string)
    (author_cert : Cert) (item : SealedItem) : FP (result ApplyError unit) :=
  let failed := fun e => ApplyStorage (storage_text e) in
  ptry (pure (open_item server_secret author_cert peer_domain item)) asis (fun p =>
  ptry (cal (fun _ => federation_local_event parse_uuid (fd_id federation) (it_remote_uid item))) failed (fun known =>
  match known with
  | Some local_id =>
      ptry (cal (fun m => update_remote_calendar_event (unix m) local_id (ep_title p) (ep_description p)
                            (ep_start p) (ep_end p) (ep_rrule p))) failed (fun _ => Done (Ok tt))
  | None =>
      ptry (cal (fun m => create_remote_calendar_event (at_uuid m) (unix m) (fd_calendar federation)
                            (fd_id federation) (ep_title p) (ep_description p) (ep_start p) (ep_end p)
                            (ep_rrule p))) failed (fun local_id =>
      ptry (cal (fun m => set_federation_event_map (unix m) (fd_id federation) (it_remote_uid item)
                            local_id (ep_author_email p))) failed (fun _ => Done (Ok tt)))
  end)).

Fixpoint apply_items (server_secret : Cert) (federation : CalendarFederation) (peer_domain : string)
    (author_cert : Cert) (applied : nat) (items : list SealedItem) : FP nat :=
  match items with
  | [] => Done applied
  | item :: rest =>
      r <-- apply_one server_secret federation peer_domain author_cert item ;;
      apply_items server_secret federation peer_domain author_cert
        (match r with Ok _ => S applied | Err _ => applied end) rest
  end.

(** [apply_page]. *)
Definition apply_page (server_secret : Cert) (federation : CalendarFederation) (page : SyncPage)
  : FP (result ApplyError nat) :=
  ptry (pure (ok_or (fd_peer_domain federation) (Untrusted "federation has no peer domain"))) asis (fun peer_domain =>
  match sy_author_cert page with
  | Some armored =>
      ptry (pure (cert_from_bytes (bytes_of armored))) Crypto (fun author_cert =>
      n <-- apply_items server_secret federation peer_domain author_cert 0 (sy_items page) ;;
      Done (Ok n))
  | None => match sy_items page with
            | [] => Done (Ok 0%nat)
            | _ => Done (Err (Untrusted "page missing author_cert"))
            end
  end).

(** ** Pulling ([calendar_sync.rs]) *)

Definition sync_url (federation : CalendarFederation) (since : Z) (after : string) : string :=
  fd_target_server_url federation +:+ "/.well-known/owney/calendar/sync/" +:+ fd_id federation
  +:+ "?since=" +:+ pretty since +:+ "&after=" +:+ url_encode after.

(** One page: its fields and how many of its events were applied. *)
Definition pull_page (client : FederationClient) (server_secret : Cert) (federation : CalendarFederation)
    (peer_domain capability : string) (since : Z) (after : string) : FP (result SyncError (SyncPage * nat)) :=
  ptry (get_capable moment client (sync_url federation since after) peer_domain capability)
    (fun e => SyncNetwork (client_text e)) (fun resp =>
  if (rs_status resp =? 404)%Z then Done (Err FederationNotFound)
  else if negb (is_success resp) then Done (Err (SyncRemote (rs_status resp)))
  else
  ptry (pure (ok_or (sync_of_json (rs_body resp)) (SyncNetwork "body"))) asis (fun page =>
  ptry (apply_page server_secret federation page) (fun e => SyncApply (apply_text e)) (fun applied =>
  Done (Ok (page, applied))))).

(** The loop over the pages; [Ok None] when it has not ended after [fuel] pages. *)
Fixpoint pull (fuel : nat) (client : FederationClient) (server_secret : Cert) (federation : CalendarFederation)
    (peer_domain capability : string) (since : Z) (after : string) (applied : nat)
  : FP (result SyncError (option (Z * string * nat))) :=
  match fuel with
  | O => Done (Ok None)
  | S fuel' =>
      ptry (pull_page client server_secret federation peer_domain capability since after) asis (fun '(page, n) =>
      if sy_has_more page
      then pull fuel' client server_secret federation peer_domain capability
             (sy_next_since page) (sy_next_after page) (applied + n)
      else Done (Ok (Some (sy_next_since page, sy_next_after page, (applied + n)%nat))))
  end.

(** [sync_federation]: the number of events applied; [Ok None] as for [pull]. *)
Definition sync_federation (fuel : nat) (federation : CalendarFederation) : FP (result SyncError (option nat)) :=
  ptry (pure (ok_or (fd_capability federation) (Misconfigured "no capability secret"))) asis (fun capability =>
  ptry (pure (ok_or (fd_peer_domain federation) (Misconfigured "no peer domain"))) asis (fun peer_domain =>
  ptry build_client (fun e => SyncCrypto (discovery_text e)) (fun client =>
  ptry (server_cert (host_of public_url)) (fun e => SyncCrypto (pgp_text e)) (fun server_secret =>
  let '(since, after) := parse_cursor (fd_sync_token federation) in
  ptry (pull fuel client server_secret federation peer_domain capability since after 0) asis (fun ended =>
  match ended with
  | None => Done (Ok None)
  | Some (since, after, applied) =>
      ptry (cal (fun m => update_federation_sync_token (unix m) (fd_id federation)
                            (Some (pretty since +:+ "|" +:+ after))))
        (fun e => SyncStorage (storage_text e)) (fun _ => Done (Ok (Some applied)))
  end))))).

Record SyncRunStats := mk_run { run_total : nat; run_succeeded : nat; run_failed : nat; run_applied : nat }.

(** The loop of [sync_all]; [None] when a pull has not ended. *)
Fixpoint sync_each (fuel : nat) (run : SyncRunStats) (l : list CalendarFederation) : FP (option SyncRunStats) :=
  match l with
  | [] => Done (Some run)
  | f :: rest =>
      r <-- sync_federation fuel f ;;
      match r with
      | Ok None => Done None
      | Ok (Some n) =>
          sync_each fuel (mk_run (S (run_total run)) (S (run_succeeded run)) (run_failed run)
                            (run_applied run + n)) rest
      | Err _ =>
          _ <-- cal (fun _ => mark_federation_error (fd_id f)) ;;
          sync_each fuel (mk_run (S (run_total run)) (run_succeeded run) (S (run_failed run))
                            (run_applied run)) rest
      end
  end.

(** [sync_all]. *)
Definition sync_all (fuel : nat) : FP (result SyncError (option SyncRunStats)) :=
  ptry (cal (fun _ => list_active_federations parse_uuid)) (fun e => SyncStorage (storage_text e)) (fun l =>
  r <-- sync_each fuel (mk_run 0 0 0 0) l ;; Done (Ok r)).

(** [sync_one]. *)
Definition sync_one (fuel : nat) (federation_id : string) : FP (result SyncError (option nat)) :=
  ptry (cal (fun _ => get_federation federation_id)) (fun e => SyncStorage (storage_text e)) (fun found =>
  ptry (pure (ok_or found FederationNotFound)) asis (fun federation =>
  if negb (opt_eqb (fd_direction federation) (Some "inbound")) || negb (active_status (fd_status federation))
  then Done (Err (Misconfigured "not an active inbound federation"))
  else sync_federation fuel federation)).

(** ** The endpoints ([wellknown.rs]) *)

Abbreviation Reply := WireResponse.
Definition deny (status : Z) (msg : string) : Reply := mk_wire_response status (error_json msg).
(** A step whose failure is an answer. *)
Definition or_reply {A E} (p : FP (result E A)) (h : E -> Reply) (k : A -> FP Reply) : FP Reply :=
  r <-- p ;; match r with Ok a => k a | Err e => Done (h e) end.

(** The raw parts of a request. *)
Record Raw := mk_raw { rq_method : string; rq_uri : string; rq_headers : Headers; rq_body : list Z }.

Definition verify (r : Raw) : FP (result Reply VerifiedPeer) :=
  ptry (verify_request moment public_url (rq_method r) (canonical_path_str (rq_uri r)) (rq_headers r) (rq_body r))
    (fun e => deny (rejection_status e) (rejection_str e)) (fun peer => Done (Ok peer)).

(** [server_metadata]; [version] is that of the package. *)
Definition server_metadata (version : string) : FP Reply :=
  let domain := host_of public_url in
  r <-- server_cert domain ;;
  let '(public_cert, fingerprint) := match r with
    | Ok cert => (match public_armored cert with Ok a => Some a | Err _ => None end,
                  Some (cert_fingerprint cert))
    | Err _ => (None, None)
    end in
  Done (mk_wire_response 200 (metadata_json (mk_metadata public_url
    ["calendar_sharing"; "calendar_delegation"; "signed_requests"; "sealed_events"]
    version None public_cert fingerprint))).

(** [account_lookup]. *)
Definition account_lookup (mail : string) (r : Raw) : FP Reply :=
  or_reply (verify r) asis (fun _ =>
  found <-- cal (fun _ => on_cal_core (account_by_email parse_uuid mail)) ;;
  Done match found with
       | Ok (Some _) => mk_wire_response 200 exists_json
       | _ => deny 404 "not found"
       end).

(** [receive_invitation]. *)
Definition receive_invitation (r : Raw) : FP Reply :=
  match invitation_of_json (string_of (rq_body r)) with
  | None => Done (deny 400 "malformed")
  | Some invitation =>
  match rq_headers r H_SERVER with
  | None => Done (deny 401 "missing signature")
  | Some d =>
  let sender_domain := to_lowercase (trim d) in
  or_reply build_client (fun _ => deny 500 "server error") (fun client =>
  or_reply (discover_and_pin client sender_domain) (fun _ => deny 401 "unknown peer") (fun _ =>
  or_reply (verify r) asis (fun peer =>
  if negb (opt_eqb (domain_of (fi_inviter_email invitation)) (Some (vp_domain peer)))
  then Done (deny 400 "inviter/sender mismatch")
  else
  found <-- cal (fun _ => on_cal_core (account_by_email parse_uuid (fi_target_email invitation))) ;;
  match found with
  | Ok (Some target) =>
      let t := sharing_of_str (fi_sharing_type invitation) in
      or_reply (cal (fun m => create_calendar (at_uuid m) (unix m) (id target)
                                (fi_calendar_name invitation +:+ " (shared)")
                                (Some ("Shared by " +:+ fi_inviter_email invitation))))
        (fun _ => deny 500 "server error") (fun mirror =>
      known <-- cal (fun _ => federation_peer (vp_domain peer)) ;;
      let peer_url := match known with Ok (Some p) => ps_server_url p | _ => "" end in
      or_reply (cal (fun m => create_inbound_federation (unix m) (fi_federation_id invitation) (cv_id mirror)
                                (fi_inviter_email invitation) peer_url t (vp_domain peer)
                                (vp_fingerprint peer) (fi_capability_secret invitation)))
        (fun _ => deny 500 "server error") (fun _ =>
      Done (mk_wire_response 200 (invited_json (fi_federation_id invitation)))))
  | _ => Done (deny 404 "not found")
  end)))
  end end.

(** The share is one we serve to this peer, with this secret. *)
Definition may_pull (federation : CalendarFederation) (peer : VerifiedPeer) : bool :=
  opt_eqb (fd_direction federation) (Some "outbound") && active_status (fd_status federation)
  && opt_eqb (fd_peer_domain federation) (Some (vp_domain peer))
  && opt_eqb (fd_peer_fingerprint federation) (Some (vp_fingerprint peer)).
Definition presents_secret (federation : CalendarFederation) (headers : Headers) : bool :=
  let presented := default "" (headers H_CAPABILITY) in
  let expected := default "" (fd_capability federation) in
  negb (String.eqb expected "") && constant_time_eq (bytes_of presented) (bytes_of expected).

Definition seal_one (author_secret peer_cert : Cert) (author_email : string) (e : CalendarEvent)
  : result PgpError SealedItem :=
  sealed <-? seal_event author_secret peer_cert (bytes_of (payload_json
    (mk_payload (ce_title e) (ce_description e) (ce_start e) (ce_end e) (ce_rrule e) author_email))) ;;
  Ok (mk_item (ce_id e) (ce_updated_at e) (base64_encode sealed)).

(** The page of the answer: its cursor is the last event's, or the request's time
    with no id. *)
Definition page_of (author_cert : option string) (since : Z) (events : list CalendarEvent) (items : list SealedItem)
  : SyncPage :=
  mk_sync_page author_cert items
    (match last events with Some e => ce_updated_at e | None => since end)
    (match last events with Some e => ce_id e | None => "" end)
    (Z.of_nat (length events) =? MAX_EVENTS_PER_PAGE)%Z.

(** [calendar_owner_email]. *)
Definition calendar_owner_email (account_id : string) : FP string :=
  r <-- cal (fun _ => on_cal_core (account parse_uuid account_id)) ;;
  Done match r with Ok (Some a) => email a | _ => "" end.

(** [calendar_sync]; [params] is the decoded query. *)
Definition calendar_sync (federation_id : string) (params : string -> option string) (r : Raw) : FP Reply :=
  let server_error := deny 500 "server error" in
  or_reply (verify r) asis (fun peer =>
  or_reply (cal (fun _ => get_federation federation_id)) (fun _ => server_error) (fun found =>
  or_reply (pure (ok_or found (deny 404 "not found"))) asis (fun federation =>
  if negb (may_pull federation peer) then Done (deny 403 "forbidden")
  else if negb (presents_secret federation (rq_headers r)) then Done (deny 403 "forbidden")
  else
  found <-- cal (fun _ => get_calendar_by_id parse_uuid fresh (fd_calendar federation)) ;;
  match found with
  | Ok (Some calendar) =>
  access <-- cal (fun _ => calendar_access (cv_account_id calendar) (cv_id calendar)) ;;
  if negb match access with Ok (Some p) => view_events p | _ => false end
  then Done (deny 403 "forbidden")
  else
  or_reply (pgp (fun m => own_cert parse_uuid (unix m) (at_entropy m) (cv_account_id calendar)))
    (fun _ => server_error) (fun author_secret =>
  known <-- cal (fun _ => federation_peer (vp_domain peer)) ;;
  match known with
  | Ok (Some p) =>
  or_reply (pure (cert_from_bytes (ps_cert p))) (fun _ => server_error) (fun peer_cert =>
  let since := default 0%Z (s ← params "since"; parse_i64 s) in
  let after := default "" (params "after") in
  or_reply (cal (fun _ => list_calendar_events_page parse_uuid (fd_calendar federation) since after
                            MAX_EVENTS_PER_PAGE true)) (fun _ => server_error) (fun events =>
  author_email <-- calendar_owner_email (cv_account_id calendar) ;;
  or_reply (pure (collect_results (map (seal_one author_secret peer_cert author_email) events)))
    (fun _ => server_error) (fun items =>
  let author_cert := match public_armored author_secret with Ok a => Some a | Err _ => None end in
  Done (mk_wire_response 200 (sync_json federation_id (page_of author_cert since events items))))))
  | _ => Done (deny 401 "unknown peer")
  end)
  | _ => Done (deny 404 "not found")
  end))).

(** [receive_notify]; [None] when the pull has not ended. *)
Definition receive_notify (fuel : nat) (r : Raw) : FP (option Reply) :=
  v <-- verify r ;;
  match v with
  | Err reply => Done (Some reply)
  | Ok peer =>
  match notify_of_json (string_of (rq_body r)) with
  | None => Done (Some (deny 400 "malformed"))
  | Some federation_id =>
  found <-- cal (fun _ => get_federation federation_id) ;;
  if match found with
     | Ok (Some f) => opt_eqb (fd_direction f) (Some "inbound")
                      && opt_eqb (fd_peer_domain f) (Some (vp_domain peer))
                      && opt_eqb (fd_peer_fingerprint f) (Some (vp_fingerprint peer))
     | _ => false end
  then
    pulled <-- sync_one fuel federation_id ;;
    Done match pulled with
         | Ok None => None
         | _ => Some (mk_wire_response 200 ok_json)
         end
  else Done (Some (deny 403 "forbidden"))
  end end.

(** ** Notifications ([fed_worker.rs]) *)

Fixpoint enqueue_each (n : nat) (subscribed : list (string * string)) : FP (result StorageError nat) :=
  match subscribed with
  | [] => Done (Ok n)
  | (federation_id, peer_domain) :: rest =>
      ptry (cal (fun m => fed_enqueue (at_uuid m) (unix m) federation_id peer_domain (notify_json federation_id)))
        asis (fun _ => enqueue_each (S n) rest)
  end.

(** [notify_calendar_changed]. *)
Definition notify_calendar_changed (calendar_id : string) : FP (result StorageError nat) :=
  ptry (cal (fun _ => outbound_federations_for_calendar calendar_id)) asis (enqueue_each 0).

(** One item of the outbox. *)
Definition deliver_item (client : FederationClient) (item : FederationOutboxItem) : FP (result string bool) :=
  let record := fun ok err =>
    ptry (cal (fun m => fed_record_attempt (unix m) (oi_id item) ok err MAX_ATTEMPTS)) storage_text
      (fun _ => Done (Ok ok)) in
  ptry (cal (fun _ => federation_peer (oi_peer_domain item))) storage_text (fun peer =>
  match peer with
  | None => record false (Some "peer not pinned")
  | Some p =>
      result <-- post_json moment client (ps_server_url p +:+ "/.well-known/owney/calendar/notify")
                   (oi_peer_domain item) (bytes_of (oi_payload item)) ;;
      match result with
      | Ok resp => if is_success resp then record true None
                   else record false (Some ("status " +:+ status_text (rs_status resp)))
      | Err e => record false (Some (client_text e))
      end
  end).

Fixpoint deliver_items (client : FederationClient) (delivered : nat) (items : list FederationOutboxItem)
  : FP (result string nat) :=
  match items with
  | [] => Done (Ok delivered)
  | item :: rest =>
      ptry (deliver_item client item) asis (fun ok =>
      deliver_items client (if ok : bool then S delivered else delivered) rest)
  end.

(** [drain_once]. *)
Definition drain_once (batch : Z) : FP (result string nat) :=
  ptry (cal (fun m => fed_due_items (unix m) batch)) storage_text (fun items =>
  match items with
  | [] => Done (Ok 0%nat)
  | _ => ptry build_client discovery_text (fun client => deliver_items client 0 items)
  end).

End FedSync.
