(* ===== verification/FedSigFacts.v ===== *)
(** Signed federation requests: what the canonical string binds, when a request is
    accepted, and that no accepted request is accepted again. *)
From S2P Require Import Prelude Text Bytes Ident Store Mail Calendars Sharing FedStore Pgp Interleave FedSig.

Open Scope string_scope.

(** ** Texts joined by newlines *)

Lemma cut_unique c a b x y :
  avoids c a = true -> avoids c b = true -> a +:+ String c x = b +:+ String c y -> a = b /\ x = y.
Proof.
  revert b. induction a as [|p a IH]; intros [|r b] Ha Hb E; unfold avoids in *; cbn [str_all] in *.
  - split; [done|]. by injection E.
  - rewrite append_cons in E. injection E as -> _. by rewrite Ascii.eqb_refl in Hb.
  - rewrite append_cons in E. injection E as -> _. by rewrite Ascii.eqb_refl in Ha.
  - rewrite !append_cons in E. injection E as -> E.
    apply andb_true_iff in Ha as [_ Ha]. apply andb_true_iff in Hb as [_ Hb].
    destruct (IH b Ha Hb E) as [-> ->]. done.
Qed.

Lemma join_lf_inj l k :
  length l = length k -> Forall (fun s => avoids lf s = true) l -> Forall (fun s => avoids lf s = true) k ->
  join (str_of lf) l = join (str_of lf) k -> l = k.
Proof.
  revert k. induction l as [|a l IH]; intros [|b k] Hlen Hl Hk E; try done. simpl in Hlen.
  apply Forall_cons in Hl as [Ha Hl]. apply Forall_cons in Hk as [Hb Hk].
  destruct l as [|a' l], k as [|b' k]; try done; [by f_equal|].
  assert (forall x s, str_of lf +:+ join (str_of lf) (x :: s) = String lf (join (str_of lf) (x :: s))) as Hlf by done.
  change (join (str_of lf) (a :: a' :: l)) with (a +:+ str_of lf +:+ join (str_of lf) (a' :: l)) in E.
  change (join (str_of lf) (b :: b' :: k)) with (b +:+ str_of lf +:+ join (str_of lf) (b' :: k)) in E.
  rewrite !Hlf in E. apply cut_unique in E as [-> E]; [|done..]. f_equal. apply IH; [lia|done..].
Qed.

(** ** Addresses as numbers *)

Definition octets (a b c d : Z) : Prop :=
  (0 <= a < 256 /\ 0 <= b < 256 /\ 0 <= c < 256 /\ 0 <= d < 256)%Z.
Definition v4_number (a b c d : Z) : Z := (((a * 256 + b) * 256 + c) * 256 + d)%Z.
(** [n] is in the block of [bits] free bits from [base]. *)
Definition in_block (n : Z) (block : Z * Z) : bool := (block.1 <=? n)%Z && (n <? block.1 + 2 ^ block.2)%Z.

(** RFC 1918, loopback, link-local, broadcast, unspecified, the documentation
    blocks of RFC 5737 and the shared block of RFC 6598. *)
Definition V4_BLOCKS : list (Z * Z) :=
  [(v4_number 10 0 0 0, 24); (v4_number 172 16 0 0, 20); (v4_number 192 168 0 0, 16);
   (v4_number 127 0 0 0, 24); (v4_number 169 254 0 0, 16); (v4_number 255 255 255 255, 0);
   (v4_number 0 0 0 0, 0); (v4_number 192 0 2 0, 8); (v4_number 198 51 100 0, 8);
   (v4_number 203 0 113 0, 8); (v4_number 100 64 0 0, 22)]%Z.

Lemma shared_range : forall_range 256 0 (fun b =>
  Bool.eqb (Z.land b 192 =? 64)%Z ((64 <=? b)%Z && (b <? 128)%Z)) = true.
Proof. by vm_compute. Qed.

(** One test of the standard library is one block. *)
Ltac block := repeat match goal with x := _ |- _ => subst x end; unfold in_block, v4_number; cbn [fst snd]; apply eq_true_iff_eq;
  rewrite ?andb_true_iff, ?Z.eqb_eq, ?Z.leb_le, ?Z.ltb_lt; simpl; lia.

Lemma v4_blocks a b c d :
  octets a b c d -> is_private_v4 a b c d = existsb (in_block (v4_number a b c d)) V4_BLOCKS.
Proof.
  intros (Ha & Hb & Hc & Hd). unfold is_private_v4, V4_BLOCKS. cbn [existsb].
  pose proof (forall_range_spec _ _ _ shared_range b ltac:(lia)) as Hs. apply eqb_prop in Hs. rewrite Hs.
  set (n := v4_number a b c d).
  assert ((a =? 10)%Z = in_block n (v4_number 10 0 0 0, 24%Z)) as <- by block.
  assert (((a =? 172) && (16 <=? b) && (b <=? 31))%Z = in_block n (v4_number 172 16 0 0, 20%Z)) as <- by block.
  assert (((a =? 192) && (b =? 168))%Z = in_block n (v4_number 192 168 0 0, 16%Z)) as <- by block.
  assert ((a =? 127)%Z = in_block n (v4_number 127 0 0 0, 24%Z)) as <- by block.
  assert (((a =? 169) && (b =? 254))%Z = in_block n (v4_number 169 254 0 0, 16%Z)) as <- by block.
  assert (((a =? 255) && (b =? 255) && (c =? 255) && (d =? 255))%Z
          = in_block n (v4_number 255 255 255 255, 0%Z)) as <- by block.
  assert (((a =? 0) && (b =? 0) && (c =? 0) && (d =? 0))%Z = in_block n (v4_number 0 0 0 0, 0%Z)) as <- by block.
  assert (((a =? 192) && (b =? 0) && (c =? 2))%Z = in_block n (v4_number 192 0 2 0, 8%Z)) as <- by block.
  assert (((a =? 198) && (b =? 51) && (c =? 100))%Z = in_block n (v4_number 198 51 100 0, 8%Z)) as <- by block.
  assert (((a =? 203) && (b =? 0) && (c =? 113))%Z = in_block n (v4_number 203 0 113 0, 8%Z)) as <- by block.
  assert (((a =? 100) && ((64 <=? b) && (b <? 128)))%Z = in_block n (v4_number 100 64 0 0, 22%Z)) as <- by block.
  rewrite orb_false_r, <- !orb_assoc. done.
Qed.

Definition word (z : Z) : Prop := (0 <= z < 65536)%Z.
Definition v6_number (s0 s1 s2 s3 s4 s5 s6 s7 : Z) : Z :=
  (((((((s0 * 65536 + s1) * 65536 + s2) * 65536 + s3) * 65536 + s4) * 65536 + s5) * 65536 + s6) * 65536 + s7)%Z.
(** [::], [::1], [fc00::/7] and [fe80::/10]. *)
Definition V6_BLOCKS : list (Z * Z) :=
  [(0, 0); (1, 0); (v6_number 64512 0 0 0 0 0 0 0, 121); (v6_number 65152 0 0 0 0 0 0 0, 118)]%Z.
(** The block of IPv6 that an IPv4 block is mapped to. *)
Definition mapped (block : Z * Z) : Z * Z := ((65535 * 2 ^ 32 + block.1)%Z, block.2).

Definition valid_ip (ip : IpAddr) : Prop :=
  match ip with
  | V4 a b c d => octets a b c d
  | V6 s0 s1 s2 s3 s4 s5 s6 s7 => Forall word [s0; s1; s2; s3; s4; s5; s6; s7]
  end.

Lemma unique_local_range : forall_range (Z.to_nat 65536) 0 (fun s =>
  Bool.eqb (Z.land s 65024 =? 64512)%Z ((64512 <=? s)%Z && (s <? 65024)%Z)
  && Bool.eqb (Z.land s 65472 =? 65152)%Z ((65152 <=? s)%Z && (s <? 65216)%Z)) = true.
Proof. by vm_compute. Qed.

Lemma mapped_block hi lo block :
  (0 <= lo < 2 ^ 32)%Z -> (0 <= block.1)%Z -> (block.1 + 2 ^ block.2 <= 2 ^ 32)%Z ->
  in_block (hi * 2 ^ 32 + lo) (mapped block) = (hi =? 65535)%Z && in_block lo block.
Proof.
  intros Hlo H1 H2. unfold in_block, mapped. cbn [fst snd]. apply eq_true_iff_eq.
  rewrite !andb_true_iff, Z.eqb_eq, !Z.leb_le, !Z.ltb_lt.
  assert (hi < 65535 \/ hi = 65535 \/ 65535 < hi)%Z as [?|[->|?]] by lia; nia.
Qed.

Lemma mapped_blocks hi lo :
  (0 <= lo < 2 ^ 32)%Z ->
  existsb (in_block (hi * 2 ^ 32 + lo)) (map mapped V4_BLOCKS)
  = (hi =? 65535)%Z && existsb (in_block lo) V4_BLOCKS.
Proof.
  intros Hlo.
  assert (Forall (fun b => (0 <= b.1)%Z /\ (b.1 + 2 ^ b.2 <= 2 ^ 32)%Z) V4_BLOCKS) as Hall
    by (repeat constructor; by vm_compute).
  induction Hall as [|b l [H1 H2] _ IH]; cbn [map existsb]; [by rewrite andb_false_r|].
  rewrite mapped_block, IH by done. by rewrite andb_orb_distrib_r.
Qed.

Lemma v6_split s0 s1 s2 s3 s4 s5 s6 s7 :
  v6_number s0 s1 s2 s3 s4 s5 s6 s7
  = (((((((s0 * 65536 + s1) * 65536 + s2) * 65536 + s3) * 65536 + s4) * 65536 + s5)) * 2 ^ 32
     + (s6 * 65536 + s7))%Z.
Proof. unfold v6_number. lia. Qed.

Lemma embedded s6 s7 : word s6 -> word s7 ->
  v4_number (Z.shiftr s6 8) (Z.land s6 255) (Z.shiftr s7 8) (Z.land s7 255) = (s6 * 65536 + s7)%Z
  /\ octets (Z.shiftr s6 8) (Z.land s6 255) (Z.shiftr s7 8) (Z.land s7 255).
Proof.
  unfold word, v4_number, octets. intros H6 H7.
  change 255%Z with (Z.ones 8). rewrite !Z.shiftr_div_pow2, !Z.land_ones by lia.
  change (2 ^ 8)%Z with 256%Z. split; zdiv.
Qed.

(** The guard against requests to the server's own network refuses exactly the
    addresses of a fixed list of blocks: for IPv4 the private, loopback, link-local,
    broadcast, unspecified, documentation and carrier-grade blocks, for IPv6 the
    unspecified and loopback addresses, the unique-local and link-local blocks, and
    the images of the IPv4 blocks among the mapped addresses. *)
Lemma is_private_blocks ip :
  valid_ip ip ->
  is_private ip = match ip with
                  | V4 a b c d => existsb (in_block (v4_number a b c d)) V4_BLOCKS
                  | V6 s0 s1 s2 s3 s4 s5 s6 s7 =>
                      existsb (in_block (v6_number s0 s1 s2 s3 s4 s5 s6 s7)) (V6_BLOCKS ++ map mapped V4_BLOCKS)
                  end.
Proof.
  destruct ip as [a b c d|s0 s1 s2 s3 s4 s5 s6 s7]; simpl valid_ip; [apply v4_blocks|].
  intros Hw. repeat (apply Forall_cons in Hw as [? Hw]). clear Hw.
  destruct (embedded s6 s7) as [Hn Ho]; [done..|].
  rewrite existsb_app, v6_split, mapped_blocks, <- v6_split by (unfold word in *; lia).
  unfold is_private. rewrite (v4_blocks _ _ _ _ Ho), Hn.
  pose proof (forall_range_spec _ _ _ unique_local_range s0 ltac:(unfold word in *; lia)) as Hr.
  apply andb_true_iff in Hr as [Hul%eqb_prop Hll%eqb_prop]. rewrite Hul, Hll.
  assert ((((((((s0 * 65536 + s1) * 65536 + s2) * 65536 + s3) * 65536 + s4) * 65536 + s5)) =? 65535)%Z
    = (((s0 =? 0) && (s1 =? 0) && (s2 =? 0) && (s3 =? 0) && (s4 =? 0)) && (s5 =? 65535))%Z) as ->.
  { unfold word in *. apply eq_true_iff_eq. rewrite !andb_true_iff, !Z.eqb_eq. lia. }
  f_equal. unfold V6_BLOCKS. cbn [existsb]. rewrite orb_false_r, !orb_assoc.
  f_equal; [f_equal|]; unfold in_block; cbn [fst snd]; apply eq_true_iff_eq;
    rewrite ?orb_true_iff, ?andb_true_iff, ?orb_true_iff, ?Z.eqb_eq, ?Z.leb_le, ?Z.ltb_lt;
    unfold v6_number, word in *; simpl; lia.
Qed.

(** ** Secrets *)

Lemma lxor_fold l acc :
  (0 <= acc)%Z -> Forall (fun p : Z * Z => 0 <= p.1 /\ 0 <= p.2)%Z l ->
  fold_left (fun diff '(x, y) => Z.lor diff (Z.lxor x y)) l acc = 0%Z
  <-> acc = 0%Z /\ Forall (fun p => p.1 = p.2) l.
Proof.
  revert acc. induction l as [|[x y] l IH]; intros acc Hacc Hl; simpl; [by split; [auto|intros []]|].
  apply Forall_cons in Hl as [[Hx Hy] Hl]. simpl in Hx, Hy.
  rewrite IH; [|by apply Z.lor_nonneg; split; [|apply Z.lxor_nonneg]|done].
  rewrite Z.lor_eq_0_iff, Z.lxor_eq_0_iff, (Forall_cons _ (x, y) l). cbn [fst snd]. tauto.
Qed.

(** The comparison that does not stop early decides equality. *)
Lemma constant_time_eq_spec a b :
  Forall (fun z => 0 <= z)%Z a -> Forall (fun z => 0 <= z)%Z b ->
  constant_time_eq a b = true <-> a = b.
Proof.
  intros Ha Hb. unfold constant_time_eq. destruct (Nat.eqb_spec (length a) (length b)) as [Hlen|Hlen]; simpl.
  2: { split; [done|]. by intros ->. }
  rewrite Z.eqb_eq, lxor_fold.
  - split; [intros [_ H]|intros ->].
    + revert b Hb Hlen H. induction a as [|x a IH]; intros [|y b] Hb Hlen; try done. simpl.
      intros [Exy Heq]%Forall_cons. cbn [fst snd] in Exy. rewrite Exy. f_equal. apply Forall_cons in Ha as [_ Ha].
      apply Forall_cons in Hb as [_ Hb]. apply IH; [done|done|by injection Hlen|done].
    + split; [done|]. clear. induction b; constructor; auto.
  - done.
  - clear -Ha Hb. revert b Hb. induction Ha; intros [|y b] Hb; try constructor.
    + by apply Forall_cons in Hb as [? _].
    + apply Forall_cons in Hb as [_ Hb]. auto.
Qed.

Lemma bytes_of_nonneg s : Forall (fun z => 0 <= z)%Z (bytes_of s).
Proof. induction s as [|c s IH]; constructor; [lia|exact IH]. Qed.

Lemma bytes_of_inj s t : bytes_of s = bytes_of t -> s = t.
Proof. intros E. by rewrite <- (string_of_bytes_of s), E, string_of_bytes_of. Qed.

Lemma secrets_equal a b : constant_time_eq (bytes_of a) (bytes_of b) = String.eqb a b.
Proof.
  apply eq_true_iff_eq. rewrite constant_time_eq_spec, String.eqb_eq by apply bytes_of_nonneg.
  split; [apply bytes_of_inj|by intros ->].
Qed.

(** ** Freshness *)

(** The window is symmetric, except that the difference that is the least 64-bit
    number passes: its absolute value wraps to itself. *)
Lemma stale_spec now timestamp :
  (0 <= now < 2 ^ 62)%Z -> (- 2 ^ 63 <= timestamp < 2 ^ 63)%Z ->
  stale now timestamp = false
  <-> (Z.abs (now - timestamp) <= TIMESTAMP_SKEW_SECS)%Z \/ timestamp = (now - 2 ^ 63)%Z.
Proof.
  intros Hn Ht. unfold stale, wrap_i64, TIMESTAMP_SKEW_SECS. rewrite Z.ltb_ge.
  change (2 ^ 63)%Z with 9223372036854775808%Z in *. change (2 ^ 64)%Z with 18446744073709551616%Z in *.
  change (2 ^ 62)%Z with 4611686018427387904%Z in *. zdiv.
Qed.

(** A timestamp of 292 billion years ago is fresh. *)
Lemma ancient_is_fresh now : (0 <= now < 2 ^ 62)%Z -> stale now (now - 2 ^ 63) = false.
Proof. intros Hn. apply stale_spec; lia. Qed.

(** ** What the canonical string binds *)

Definition octet_list (l : list Z) : Prop := Forall (fun b => (0 <= b < 256)%Z) l.

Class FedLaws `{FedCrates} := {
  base64_line l : octet_list l -> avoids lf (base64_encode l) = true;
  base64_back l : octet_list l -> base64_decode (base64_encode l) = Ok l;
  digest_octets b : octet_list (blake3 b);
  signature_octets k msg sig : detached_sign k msg = Ok sig -> octet_list sig;
  (** What is published of a cert verifies what the cert signs. *)
  published_verifies c b pub msg sig :
    cert_to_vec (cert_strip c) = Ok b -> cert_from_bytes b = Ok pub ->
    sign_detached c msg = Ok sig -> verify_detached pub msg sig = Ok true;
  (** The target of a web address (whose path starts with a slash, which that of a
      [mailto:] or [data:] one need not) parses back to its path and query. *)
  target_parsed u : url_scheme u = "https" \/ url_scheme u = "http" -> exists u',
    url_parse ("http://placeholder" +:+ target_text u) = Some u'
    /\ url_path u' = url_path u /\ query_pairs u' = query_pairs u
}.

Lemma pretty_line (z : Z) : avoids lf (pretty z) = true.
Proof.
  eapply str_all_impl; [|apply printable_pretty]. intros c Hc. simpl.
  destruct (Ascii.eqb_spec c lf) as [->|]; [by vm_compute in Hc|done].
Qed.

Section Binding.
Context `{FedLaws}.

(** Two requests whose parts are single lines have the same canonical string only if
    they agree on every part that is signed. *)
Lemma canonical_binds m p s r t n b m' p' s' r' t' n' b' :
  Forall (fun x => avoids lf x = true)
    [to_uppercase m; p; s; r; n; to_uppercase m'; p'; s'; r'; n'] ->
  canonical_string m p s r t n b = canonical_string m' p' s' r' t' n' b' ->
  to_uppercase m = to_uppercase m' /\ p = p' /\ s = s' /\ r = r' /\ t = t' /\ n = n'
  /\ base64_encode (blake3 b) = base64_encode (blake3 b').
Proof.
  intros Hl E. rewrite !Forall_cons in Hl. destruct Hl as (? & ? & ? & ? & ? & ? & ? & ? & ? & ? & _).
  apply join_lf_inj in E; [|done|..].
  - injection E as ? ? ? ? Ht ? ?. apply (inj pretty) in Ht. done.
  - repeat constructor; try done; [by apply pretty_line|apply base64_line, digest_octets].
  - repeat constructor; try done; [by apply pretty_line|apply base64_line, digest_octets].
Qed.

End Binding.

(** The query is signed after percent-decoding: an encoded ampersand and a separator
    read the same, so the signature does not tell these two queries apart. *)
Lemma query_text_collides :
  query_text [("after", "1&since=2")] = query_text [("after", "1"); ("since", "2")].
Proof. by vm_compute. Qed.
