(* ===== verification/FedVerify.v ===== *)
(** Running the two sides of a signed request: when the server accepts, what the
    client sends, that the two fit, and that nothing is accepted twice. *)
From S2P Require Import Prelude Text Bytes Ident Store Mail Calendars Sharing FedStore Pgp Interleave FedSig FedSigFacts.

Open Scope string_scope.

Section Running.
Context `{BlobStore} `{FedCrates} {N : Type} `{!Network N}.
Variable moment : nat -> Moment.

Abbreviation W := (FedWorld N).
Abbreviation cal := (cal moment).
Abbreviation ask := (ask moment).
Abbreviation now_moment := (now_moment moment).

(** ** Single steps *)

Definition tick (w : W) : W := mk_fed_world (fw_pgp w) (fw_tables w) (fw_net w) (S (fw_ticks w)).
Definition put_cal (d : CalDb) (w : W) : W :=
  mk_fed_world (with_db (cal_core d) (fw_pgp w)) d (fw_net w) (S (fw_ticks w)).

Lemma run_ptry {A B E F} (p : prog W (result E A)) (h : E -> F) (k : A -> prog W (result F B)) w :
  run (ptry p h k) w
  = let '(r, w') := run p w in match r with Ok a => run (k a) w' | Err e => (Err (h e), w') end.
Proof. unfold ptry. rewrite run_pbind. destruct (run p w) as [[a|e] w']; done. Qed.
Lemma run_pure {A E} (r : result E A) (w : W) : run (pure r) w = (r, w).
Proof. done. Qed.
Lemma run_clock {A} (f : Moment -> A) w : run (ask f) w = (f (now_moment w), tick w).
Proof. done. Qed.
Lemma run_cal {A} (f : Moment -> KM A) w :
  run (cal f) w = let '(r, d) := f (now_moment w) (caldb w) in (r, put_cal d w).
Proof. unfold FedSig.cal. rewrite run_op. by destruct (f _ _). Qed.
Lemma run_net {A} (f : N -> A * N) (w : W) :
  run (net f) w = let '(a, n) := f (fw_net w) in (a, mk_fed_world (fw_pgp w) (fw_tables w) n (S (fw_ticks w))).
Proof. unfold net. rewrite run_op. by destruct (f _). Qed.

Lemma caldb_put d w : caldb (put_cal d w) = d.
Proof. by destruct d. Qed.
Lemma caldb_tick w : caldb (tick w) = caldb w.
Proof. done. Qed.

(** The same storage and network; only time has passed. *)
Definition unchanged (w w' : W) : Prop :=
  caldb w' = caldb w /\ fw_pgp w' = fw_pgp w /\ fw_net w' = fw_net w /\ (fw_ticks w <= fw_ticks w')%nat.
#[export] Instance unchanged_pre : PreOrder unchanged.
Proof. split; [by intros w|]. unfold unchanged. intros a b c (? & ? & ? & ?) (? & ? & ? & ?). split_and!; [congruence..|lia]. Qed.
Lemma unchanged_tick w : unchanged w (tick w).
Proof. split_and!; [done..|simpl; lia]. Qed.
Lemma pgp_put d w : cal_core d = cal_core (caldb w) -> fw_pgp (put_cal d w) = fw_pgp w.
Proof. destruct w as [[[] ?] ? ? ?]. cbn. unfold with_db. by intros ->. Qed.
Lemma unchanged_put d w : d = caldb w -> unchanged w (put_cal d w).
Proof.
  intros ->. split; [apply caldb_put|]. split; [by apply pgp_put|]. split; [done|simpl; lia].
Qed.

(** A storage read that does not fail and changes nothing. *)
Lemma run_gets {A} (f : CalDb -> A) w :
  exists w', run (cal (fun _ => gets f)) w = (Ok (f (caldb w)), w') /\ unchanged w w'.
Proof. eexists. split; [by rewrite run_cal|]. by apply unchanged_put. Qed.

Definition pinned (domain : string) (d : CalDb) : option PeerServer :=
  option_map (fun r => mk_peer_server (pr_domain r) (pr_server_url r) (pr_cert r) (pr_fingerprint r) (pr_pinned_at r))
    (select_first (fun r => String.eqb (pr_domain r) (FedStore.peer_key domain)) (fed_peers d)).
Lemma run_peer domain w :
  exists w', run (cal (fun _ => federation_peer domain)) w = (Ok (pinned domain (caldb w)), w') /\ unchanged w w'.
Proof. apply run_gets. Qed.

(** ** The server *)

Section Server.
Variables (public_url method path : string) (headers : Headers) (body : list Z).
Abbreviation verifying := (verify_request moment public_url method path headers body).

Definition the_signed_text (s : Signed) : list Z :=
  bytes_of (canonical_string method path (sg_domain s) (host_of public_url) (sg_timestamp s) (sg_nonce s) body).

(** The tests before the nonce. *)
Record admissible (w : W) (s : Signed) (peer : PeerServer) : Prop := {
  adm_read : read_signed headers = Ok s;
  adm_fresh : stale (unix (now_moment w)) (sg_timestamp s) = false;
  adm_peer : pinned (sg_domain s) (caldb w) = Some peer;
  adm_signed : exists cert, cert_from_bytes (ps_cert peer) = Ok cert
                 /\ verify_detached cert (the_signed_text s) (sg_sig s) = Ok true
}.

Definition seen (fp nonce : string) (d : CalDb) : bool := existsb (seen_nonce fp nonce) (nonces d).

(** Either the request fails and leaves no trace, or it is admissible, its nonce was
    new, and the nonce is recorded. *)
Lemma verify_cases w r w' :
  run verifying w = (r, w') ->
  (unchanged w w' /\ is_ok r = false
   /\ forall s peer, admissible w s peer -> seen (ps_fingerprint peer) (sg_nonce s) (caldb w) = true /\ r = Err Replay)
  \/ exists s peer expires, admissible w s peer
     /\ seen (ps_fingerprint peer) (sg_nonce s) (caldb w) = false
     /\ r = Ok (mk_verified (sg_domain s) (ps_fingerprint peer))
     /\ caldb w' = on_nonces (fun l => (l ++ [(ps_fingerprint peer, sg_nonce s, expires)])%list) (caldb w)
     /\ fw_pgp w' = fw_pgp w /\ fw_net w' = fw_net w.
Proof.
  unfold verify_request. rewrite run_ptry, run_pure. destruct (read_signed headers) as [s|e] eqn:Er.
  2: { intros [= <- <-]. left. split; [reflexivity|]. split; [done|]. intros s peer []. congruence. }
  rewrite run_pbind, run_clock. destruct (stale _ _) eqn:Es.
  { intros [= <- <-]. left. split; [apply unchanged_tick|]. split; [done|]. intros s' peer []. congruence. }
  rewrite run_ptry. destruct (run_peer (sg_domain s) (tick w)) as (w1 & -> & Hw1). rewrite caldb_tick.
  assert (unchanged w w1) as Hw by (etransitivity; [apply unchanged_tick|exact Hw1]). clear Hw1.
  rewrite run_ptry, run_pure.
  assert (forall s' p, admissible w s' p -> s' = s /\ pinned (sg_domain s) (caldb w) = Some p) as Hadm.
  { intros s' p [Hr _ Hp _]. assert (s' = s) as -> by congruence. by split. }
  destruct (pinned _ _) as [peer|] eqn:Ep; cbn [ok_or].
  2: { intros [= <- <-]. left. split; [done|]. split; [done|]. intros s' p Ha. by destruct (Hadm s' p Ha) as [_ ?]. }
  rewrite run_ptry, run_pure. destruct (cert_from_bytes (ps_cert peer)) as [cert|e] eqn:Ec.
  2: { intros [= <- <-]. left. split; [done|]. split; [done|]. intros s' p Ha.
       destruct (Hadm s' p Ha) as [-> Hp]. injection Hp as <-. destruct Ha as [_ _ _ (c & Hc & _)]. congruence. }
  fold (the_signed_text s). destruct (match verify_detached cert (the_signed_text s) (sg_sig s) with Ok v => v | Err _ => false end) eqn:Ev;
    cbn [negb].
  2: { intros [= <- <-]. left. split; [done|]. split; [done|]. intros s' p Ha.
       destruct (Hadm s' p Ha) as [-> Hp]. injection Hp as <-. destruct Ha as [_ _ _ (c & Hc & Hv)].
       rewrite Ec in Hc. injection Hc as <-. by rewrite Hv in Ev. }
  assert (admissible w s peer) as Ha.
  { split; [done|done|done|]. exists cert. split; [done|].
    destruct (verify_detached _ _ _) as [v|]; [by subst v|done]. }
  rewrite run_pbind, run_clock, run_ptry, run_cal. unfold check_and_record_nonce.
  destruct Hw as (Hc & Hpg & Hn & Htk). change (caldb (tick w1)) with (caldb w1). rewrite Hc.
  fold (seen (ps_fingerprint peer) (sg_nonce s) (caldb w)).
  destruct (seen _ _ _) eqn:Esn; intros [= <- <-].
  - left. split; [|split; [done|]].
    + etransitivity; [|apply unchanged_put; symmetry; exact Hc]. split_and!; [done..|simpl; lia].
    + intros s' p Ha'. destruct (Hadm s' p Ha') as [-> Hp]. injection Hp as <-. done.
  - right. exists s, peer, (unix (now_moment w1) + TIMESTAMP_SKEW_SECS)%Z. split; [done|]. split; [done|].
    split; [done|]. split; [apply caldb_put|]. split; [|done].
    rewrite <- Hpg. apply (pgp_put _ (tick w1)). rewrite caldb_tick. by rewrite Hc.
Qed.
End Server.

(** ** The client *)

(** The SSRF guard lets the URL through and the lookup leaves the network alone. *)
Definition passes_guard (allow_private : bool) (u : Url) (n : N) : Prop :=
  (url_scheme u = "https" \/ (allow_private = true /\ url_scheme u = "http"))
  /\ url_username u = "" /\ url_password u = None
  /\ (allow_private = true
      \/ exists host addrs, url_host u = Some host
          /\ lookup_host host (default 443 (url_port u))%Z n = (Some addrs, n)
          /\ addrs <> [] /\ existsb is_private addrs = false).

Lemma run_guard allow_private u w :
  passes_guard allow_private u (fw_net w) ->
  exists w', run (guard_url u allow_private) w = (Ok tt, w') /\ unchanged w w'.
Proof.
  intros (Hs & Hu & Hp & Ha). unfold guard_url. rewrite Hu, Hp, String.eqb_refl. cbn [negb orb].
  assert (negb (String.eqb (url_scheme u) "https") && negb (allow_private && String.eqb (url_scheme u) "http") = false) as ->.
  { destruct Hs as [->|[-> ->]]; [done|]. by rewrite andb_false_r. }
  destruct allow_private; [by exists w|]. destruct Ha as [|(host & addrs & Hh & Hl & Hne & Hpr)]; [done|].
  rewrite run_ptry, run_pure, Hh. cbn [ok_or]. rewrite run_pbind, run_net, Hl, run_ptry, run_pure. cbn [ok_or].
  rewrite Hpr. destruct addrs; [done|]. eexists. split; [reflexivity|]. split_and!; [done..|simpl; lia].
Qed.

Definition usable_body (method : string) (body : option (list Z)) : Prop :=
  (method = "GET" /\ body = None) \/ (method = "POST" /\ exists b, body = Some b).

(** What reaches the network. *)
Lemma run_send c method url receiver body cap parsed target w :
  url_parse url = Some parsed -> override_target c parsed = Ok target ->
  passes_guard (cl_allow_private_ips c) target (fw_net w) -> usable_body method body ->
  (forall msg, exists sig, sign_detached (cl_cert c) msg = Ok sig) ->
  exists w1 i j sig,
    unchanged w w1 /\ (fw_ticks w <= i < fw_ticks w1)%nat
    /\ sign_detached (cl_cert c) (bytes_of (canonical_string method (canonical_path parsed) (cl_domain c) receiver
         (unix (moment j)) (at_nonce (moment i)) (default [] body))) = Ok sig
    /\ run (send moment c method url receiver body cap) w
       = run (http method target (signed_headers c (unix (moment j)) (at_nonce (moment i)) sig cap (default [] body))
                (default [] body)) w1.
Proof.
  intros Hurl Hover Hguard Hbody Hsign. unfold send.
  rewrite run_ptry, run_pure, Hurl. cbn [ok_or]. rewrite run_ptry, run_pure, Hover.
  destruct (run_guard _ _ _ Hguard) as (w1 & Hg & Hw1). rewrite run_ptry, Hg.
  rewrite run_pbind, run_clock, run_pbind, run_clock, run_ptry, run_pure.
  set (i := fw_ticks w1). set (j := fw_ticks (tick w1)).
  destruct (Hsign (bytes_of (canonical_string method (canonical_path parsed) (cl_domain c) receiver
         (unix (moment j)) (at_nonce (moment i)) (default [] body)))) as (sig & Hsig).
  exists (tick (tick w1)), i, j, sig. split; [|split; [|split; [exact Hsig|]]].
  - etransitivity; [exact Hw1|]. etransitivity; apply unchanged_tick.
  - destruct Hw1 as (_ & _ & _ & Ht). unfold i. simpl. lia.
  - unfold now_moment. fold i. fold j. rewrite Hsig. destruct Hbody as [[-> ->]|[-> (b & ->)]]; done.
Qed.

End Running.

(** ** The two sides fit *)

(** A server keeps what [discover_and_pin] stored of this client. *)
Definition pinned_client `{FedCrates} (c : FederationClient) (d : CalDb) (peer : PeerServer) : Prop :=
  pinned (cl_domain c) d = Some peer /\ cert_to_vec (cert_strip (cl_cert c)) = Ok (ps_cert peer)
  /\ exists pub, cert_from_bytes (ps_cert peer) = Ok pub.

Definition plain_domain (domain : string) : Prop := to_lowercase (trim domain) = domain.
Definition in_i64 (z : Z) : Prop := (- 2 ^ 63 <= z < 2 ^ 63)%Z.

Section Fit.
Context `{BlobStore} `{FedLaws}.

Lemma signed_octets c msg sig : sign_detached c msg = Ok sig -> octet_list sig.
Proof.
  unfold sign_detached. destruct (signer_of c _) as [k|]; cbn; [|done].
  destruct (detached_sign k msg) as [s|] eqn:E; cbn; [|done]. intros [= <-]. by eapply signature_octets.
Qed.

Lemma read_signed_headers c t nonce sig cap body :
  plain_domain (cl_domain c) -> in_i64 t -> octet_list sig ->
  read_signed (header_of (signed_headers c t nonce sig cap body)) = Ok (mk_signed (cl_domain c) t nonce sig).
Proof.
  intros Hd Ht Hsig. unfold read_signed, header_of, signed_headers. cbn.
  unfold parse_i64. rewrite parse_int_pretty by (unfold in_i64 in Ht; lia). cbn. rewrite base64_back by done. cbn.
  by rewrite Hd.
Qed.

Lemma header_capability c t nonce sig cap body :
  header_of (signed_headers c t nonce sig (Some cap) body) H_CAPABILITY = Some cap.
Proof. reflexivity. Qed.

(** The target as the server canonicalizes it is what the client signed. *)
Definition web_address (u : Url) : Prop := url_scheme u = "https" \/ url_scheme u = "http".

Lemma canonical_target parsed target :
  web_address target -> url_path target = url_path parsed -> query_pairs target = query_pairs parsed ->
  canonical_path_str (target_text target) = canonical_path parsed.
Proof.
  intros Hw Hp Hq. unfold canonical_path_str. destruct (target_parsed target Hw) as (u & -> & Hp' & Hq').
  unfold canonical_path. by rewrite Hp', Hq', Hp, Hq.
Qed.

Context {M : Type} `{!Network M}.
Variable moment' : nat -> Moment.

(** What a client signed is accepted: the conditions that remain are the pin, the
    clocks and a new nonce. *)
Lemma signed_is_admissible c public_url method parsed target t nonce sig cap body (ws : FedWorld M) peer :
  plain_domain (cl_domain c) -> in_i64 t -> web_address target -> url_path target = url_path parsed ->
  query_pairs target = query_pairs parsed ->
  sign_detached (cl_cert c) (bytes_of (canonical_string method (canonical_path parsed) (cl_domain c)
    (host_of public_url) t nonce body)) = Ok sig ->
  pinned_client c (caldb ws) peer -> stale (unix (now_moment moment' ws)) t = false ->
  admissible moment' public_url method (canonical_path_str (target_text target))
    (header_of (signed_headers c t nonce sig cap body)) body ws (mk_signed (cl_domain c) t nonce sig) peer.
Proof.
  intros Hd Ht Hweb Hp Hq Hsig (Hpin & Hcert & pub & Hpub) Hst. split; simpl; [by eapply read_signed_headers, signed_octets|done|done|].
  exists pub. split; [done|]. unfold the_signed_text. simpl. rewrite (canonical_target parsed) by done.
  by eapply published_verifies.
Qed.

Lemma verify_accepts public_url method path headers body ws s peer :
  admissible moment' public_url method path headers body ws s peer ->
  seen (ps_fingerprint peer) (sg_nonce s) (caldb ws) = false ->
  exists (ws' : FedWorld M) expires,
    run (verify_request moment' public_url method path headers body) ws
    = (Ok (mk_verified (sg_domain s) (ps_fingerprint peer)), ws')
    /\ caldb ws' = on_nonces (fun l => (l ++ [(ps_fingerprint peer, sg_nonce s, expires)])%list) (caldb ws)
    /\ fw_pgp ws' = fw_pgp ws /\ fw_net ws' = fw_net ws.
Proof.
  intros Ha Hs. destruct (run (verify_request moment' public_url method path headers body) ws) as [r ws'] eqn:Er.
  destruct (verify_cases _ _ _ _ _ _ _ _ _ Er) as [(_ & _ & Hr)|(s' & p' & ex & [Hr' _ Hp' _] & _ & -> & Hw)].
  - destruct (Hr s peer Ha) as [Hseen _]. congruence.
  - destruct Ha as [Hr _ Hp _]. assert (s' = s) as -> by congruence. assert (p' = peer) as -> by congruence.
    exists ws', ex. by split.
Qed.

Context {N : Type} `{!Network N}.
Variable moment : nat -> Moment.

(** C13: A request the client sends is accepted by the server it is meant for: whatever
    reaches the network (headers, body, target) passes the server's verification, as
    the client's domain and pinned fingerprint, provided the client's own domain is
    spelled in lower case without spaces, an override of the target (there for tests)
    keeps the path and the query, the target passes the client's guard, the
    server has pinned what the client publishes, the clocks are at most five minutes
    apart and the nonce was not used before; and the same request presented again, as
    long as it is fresh, is a replay. *)
Theorem signed_request_accepted c public_url method url body cap parsed target (wc : FedWorld N) :
  plain_domain (cl_domain c) -> (forall i, in_i64 (unix (moment i))) ->
  url_parse url = Some parsed -> override_target c parsed = Ok target ->
  url_path target = url_path parsed -> query_pairs target = query_pairs parsed ->
  passes_guard (cl_allow_private_ips c) target (fw_net wc) -> usable_body method body ->
  (forall msg, exists sig, sign_detached (cl_cert c) msg = Ok sig) ->
  exists t nonce headers wc',
    run (send moment c method url (host_of public_url) body cap) wc
    = run (http method target headers (default [] body)) wc'
    /\ (exists i, t = unix (moment i)) /\ (exists i, nonce = at_nonce (moment i))
    /\ forall (ws : FedWorld M) peer,
         pinned_client c (caldb ws) peer -> stale (unix (now_moment moment' ws)) t = false ->
         seen (ps_fingerprint peer) nonce (caldb ws) = false ->
         exists ws' : FedWorld M,
           let verifying := verify_request moment' public_url method (canonical_path_str (target_text target))
                              (header_of headers) (default [] body) in
           run verifying ws = (Ok (mk_verified (cl_domain c) (ps_fingerprint peer)), ws')
           /\ (stale (unix (now_moment moment' ws')) t = false -> fst (run verifying ws') = Err Replay).
Proof.
  intros Hd Ht Hurl Hover Hp Hq Hg Hb Hsign.
  destruct (run_send moment c method url (host_of public_url) body cap parsed target wc Hurl Hover Hg Hb Hsign)
    as (w1 & i & j & sig & _ & _ & Hsig & Hrun).
  assert (web_address target) as Hweb by (destruct Hg as [[Hs|[_ Hs]] _]; [by left|by right]).
  eexists _, _, _, w1. split; [exact Hrun|]. split; [by exists j|]. split; [by exists i|].
  intros ws peer Hpin Hst Hseen.
  pose proof (signed_is_admissible c public_url method parsed target _ _ sig cap _ ws peer Hd (Ht j) Hweb Hp Hq Hsig Hpin Hst) as Ha.
  destruct (verify_accepts _ _ _ _ _ _ _ _ Ha Hseen) as (ws' & ex & Hr & Hc & _). exists ws'. split; [exact Hr|].
  intros Hst'. assert (pinned_client c (caldb ws') peer) as Hpin' by (by rewrite Hc).
  pose proof (signed_is_admissible c public_url method parsed target _ _ sig cap _ ws' peer Hd (Ht j) Hweb Hp Hq Hsig Hpin' Hst') as Ha'.
  destruct (run _ ws') as [r ws''] eqn:Er.
  destruct (verify_cases _ _ _ _ _ _ _ _ _ Er) as [(_ & _ & Hrej)|(s' & p' & ex' & Hadm' & Hn & -> & _)].
  - destruct (Hrej _ _ Ha') as [_ ->]. done.
  - destruct Hadm' as [Hr1 _ Hp1 _], Ha' as [Hr2 _ Hp2 _]. rewrite Hr1 in Hr2. injection Hr2 as ->.
    rewrite Hp1 in Hp2. injection Hp2 as ->. exfalso. revert Hn. unfold seen. rewrite Hc. simpl.
    rewrite existsb_app. simpl. unfold seen_nonce at 2. simpl. rewrite !String.eqb_refl. by rewrite orb_true_r.
Qed.

End Fit.

(** ** Nothing is accepted twice *)

Section Replays.
Context `{BlobStore} `{FedCrates} {N : Type} `{!Network N}.
Variable moment : nat -> Moment.
Abbreviation W := (FedWorld N).

(** A request on its own: the fingerprint and nonce it was accepted with. *)
Definition accepting (public_url method path : string) (headers : Headers) (body : list Z)
  : prog W (option (string * string)) :=
  v <-- verify_request moment public_url method path headers body ;;
  Done match v, read_signed headers with
       | Ok p, Ok s => Some (vp_fingerprint p, sg_nonce s)
       | _, _ => None
       end.

Definition used (k : string * string) (w : W) : Prop := seen k.1 k.2 (caldb w) = true.
Definition keeps_nonces (w w' : W) : Prop := forall k, used k w -> used k w'.

(** Every step keeps the nonces, and a step that accepts found its nonce unused. *)
Fixpoint once (p : prog W (option (string * string))) : Prop :=
  match p with
  | Done _ => True
  | Op m k => forall w b w', m w = (b, w') ->
      keeps_nonces w w' /\ once (k b)
      /\ forall key, k b = Done (Some key) -> ~ used key w /\ used key w'
  end.

Lemma keeps_put (w w1 : W) d :
  caldb w1 = caldb w -> (forall k, seen k.1 k.2 (caldb w) = true -> seen k.1 k.2 d = true) ->
  keeps_nonces w (put_cal d w1).
Proof. intros Hc Hd k. unfold used. rewrite caldb_put. apply Hd. Qed.

Lemma accepting_once public_url method path headers body :
  once (accepting public_url method path headers body).
Proof.
  unfold accepting, verify_request, ptry, pure, FedSig.ask, FedSig.cal, op. cbn [pbind].
  destruct (read_signed headers) as [s|e] eqn:Er; cbn [pbind once]; [|done].
  intros w now w' Hnow. cbv beta in Hnow. injection Hnow as <- <-. split; [by intros k|].
  destruct (stale _ _); cbn [pbind once]; [by split|]. split; [|done].
  intros w1 found w2 Hpeer.
  assert (found = Ok (pinned (sg_domain s) (caldb w1)) /\ w2 = put_cal (caldb w1) w1) as [-> ->]
    by (cbv in Hpeer; injection Hpeer as <- <-; done).
  split; [by apply keeps_put|]. destruct (pinned _ _) as [peer|]; cbn [pbind once ok_or]; [|by split].
  destruct (cert_from_bytes _) as [cert|]; cbn [pbind once]; [|by split].
  destruct (negb _); cbn [pbind once]; [by split|]. split; [|done].
  intros w3 expires w4 Hexp. cbv beta in Hexp. injection Hexp as <- <-. split; [by intros k|].
  split; [|done]. intros w5 fresh w6 Hcheck.
  assert ((seen (ps_fingerprint peer) (sg_nonce s) (caldb w5) = true /\ fresh = Ok false /\ w6 = put_cal (caldb w5) w5)
    \/ (seen (ps_fingerprint peer) (sg_nonce s) (caldb w5) = false /\ fresh = Ok true
        /\ exists ex, w6 = put_cal (on_nonces (fun l => (l ++ [(ps_fingerprint peer, sg_nonce s, ex)])%list) (caldb w5)) w5))
    as [(_ & -> & ->)|(Hs & -> & ex & ->)].
  { unfold check_and_record_nonce in Hcheck. unfold seen.
    destruct (existsb _ (nonces (caldb w5))); injection Hcheck as <- <-; [left|right]; eauto. }
  - split; [by apply keeps_put|]. by split.
  - split; [|split; [done|]].
    + apply keeps_put; [done|]. intros k. unfold seen. cbn. rewrite existsb_app. by intros ->.
    + intros key [= <-]. unfold used. rewrite caldb_put. simpl. split; [by rewrite Hs|].
      unfold seen. cbn. rewrite existsb_app. cbn. unfold seen_nonce at 2. cbn. rewrite !String.eqb_refl.
      by rewrite orb_true_r.
Qed.

Definition request (p : prog W (option (string * string))) : Prop :=
  exists public_url method path headers body, p = accepting public_url method path headers body.

Lemma request_starts p : request p -> once p /\ forall key, p <> Done (Some key).
Proof.
  intros (u & m & pa & h & b & ->). split; [apply accepting_once|]. intros key.
  unfold accepting, verify_request, ptry, pure. cbn [pbind].
  destruct (read_signed h); cbn [pbind]; by intros ?.
Qed.

(** C12: Whatever requests arrive, however their steps interleave with each other and
    with everything else the server does to its store short of pruning the nonces, no
    two of them are accepted with the same pinned fingerprint and nonce. *)
Theorem no_replay w0 w pool i j key :
  sys_reachable request keeps_nonces w0 (w, pool) ->
  pool !! i = Some (Done (Some key)) -> pool !! j = Some (Done (Some key)) -> i = j.
Proof.
  intros Hr.
  assert (Forall once pool
    /\ (forall i key, pool !! i = Some (Done (Some key)) -> used key w)
    /\ forall i j key, pool !! i = Some (Done (Some key)) -> pool !! j = Some (Done (Some key)) -> i = j)
    as (_ & _ & Hone); [|by apply Hone].
  clear i j key. remember (w, pool) as s eqn:Es. revert w pool Es.
  induction Hr as [|s s' Hr IH Hstep]; intros w pool Es.
  { injection Es as <- <-. split; [constructor|]. by split; intros *. }
  subst s'. inversion Hstep as [w1 pool1 p Hp|w1 pool1 n B m k b w' Hn Hm|w1 pool1 w' Ho]; subst;
    destruct (IH _ _ eq_refl) as (Hall & Hused & Hone); clear IH.
  - destruct (request_starts p Hp) as [Hp1 Hp2].
    assert (forall i key, (pool1 ++ [p])%list !! i = Some (Done (Some key)) -> pool1 !! i = Some (Done (Some key))) as Hold.
    { intros i key Hi. apply lookup_app_Some in Hi as [Hi|[_ Hi]]; [done|].
      apply list_lookup_singleton_Some in Hi as [_ ->]. by destruct (Hp2 key). }
    split; [apply Forall_app; split; [done|by constructor]|]. split; eauto.
  - pose proof (Forall_lookup_1 _ _ _ _ Hall Hn) as Honce. cbn in Honce.
    destruct (Honce w1 b w Hm) as (Hkeep & Hk & Hacc).
    assert (n < length pool1)%nat as Hlen by (by eapply lookup_lt_Some).
    split; [by apply Forall_insert|]. split.
    + intros i key Hi. destruct (decide (i = n)) as [->|Hne].
      * rewrite list_lookup_insert_eq in Hi by done. injection Hi as Hi. by apply Hacc.
      * rewrite list_lookup_insert_ne in Hi by done. by apply Hkeep, (Hused i).
    + assert (forall i key, k b = Done (Some key) -> pool1 !! i = Some (Done (Some key)) -> False) as Hno.
      { intros i key Hkb Hi. destruct (Hacc key Hkb) as [Hn1 _]. apply Hn1. by apply (Hused i). }
      intros i j key Hi Hj. destruct (decide (i = n)) as [Ei|Ei], (decide (j = n)) as [Ej|Ej]; try congruence.
      * subst i. rewrite list_lookup_insert_eq in Hi by done. rewrite list_lookup_insert_ne in Hj by done.
        injection Hi as Hi. exfalso. by eapply (Hno j).
      * subst j. rewrite list_lookup_insert_eq in Hj by done. rewrite list_lookup_insert_ne in Hi by done.
        injection Hj as Hj. exfalso. by eapply (Hno i).
      * rewrite list_lookup_insert_ne in Hi by done. rewrite list_lookup_insert_ne in Hj by done. by eapply Hone.
  - split; [done|]. split; [|done]. intros i key Hi. apply Ho. by apply (Hused i).
Qed.

End Replays.
