(* ===== verification/FedPaging.v ===== *)
(** The pages of a served calendar: following their cursors lists every event once. *)
From S2P Require Import Prelude Text Bytes Ident Store Mail MailQueryFacts Calendars Sharing FedStore Pgp Interleave FedSig FedSync.

Open Scope string_scope.

(** ** The order of the pages *)

Lemma page_leb_total x y : page_leb x y = true \/ page_leb y x = true.
Proof.
  unfold page_leb. rewrite !orb_true_iff, !andb_true_iff, !Z.ltb_lt, !Z.eqb_eq.
  destruct (Z.lt_trichotomy (ev_updated_at x) (ev_updated_at y)) as [?|[?|?]]; [naive_solver| |naive_solver].
  destruct (String.leb_total (ev_id x) (ev_id y)); naive_solver.
Qed.

Lemma page_leb_trans x y z : page_leb x y = true -> page_leb y z = true -> page_leb x z = true.
Proof.
  unfold page_leb. rewrite !orb_true_iff, !andb_true_iff, !Z.ltb_lt, !Z.eqb_eq.
  intros [?|[? ?]] [?|[? ?]]; [left; lia..|]. right. split; [lia|]. by eapply str_leb_trans.
Qed.

Lemma page_leb_antisymm x y : page_leb x y = true -> page_leb y x = true -> ev_id x = ev_id y.
Proof.
  unfold page_leb. rewrite !orb_true_iff, !andb_true_iff, !Z.ltb_lt, !Z.eqb_eq.
  intros [?|[? Hx]] [?|[? Hy]]; try lia. by apply String.leb_antisym.
Qed.

(** A cursor is a point of that order. *)
Definition at_cursor (t : Z) (i : string) : EventRow := mk_event_row i "" "" None 0 0 None 0 t None None.
Definition past (c e : EventRow) : bool := negb (page_leb e c).

Lemma after_cursor_past t i e : after_cursor t i e = past (at_cursor t i) e.
Proof.
  unfold after_cursor, past, page_leb. cbn [ev_updated_at ev_id at_cursor].
  destruct (Z.ltb_spec t (ev_updated_at e)), (Z.ltb_spec (ev_updated_at e) t), (Z.eqb_spec (ev_updated_at e) t);
    try lia; by destruct (String.leb _ _).
Qed.

Abbreviation in_page_order := (StronglySorted (fun a b => page_leb a b = true)).

Lemma past_split A e B :
  in_page_order (A ++ e :: B)%list -> NoDup (map ev_id (A ++ e :: B)%list) ->
  List.filter (past e) (A ++ e :: B) = B.
Proof.
  intros Hs Hn. rewrite List.filter_app. rewrite map_app in Hn. apply NoDup_app in Hn as (_ & _ & Hn). simpl in Hn.
  apply NoDup_cons in Hn as [Hne _].
  assert (forall a, a ∈ A -> page_leb a e = true) as HA.
  { intros a Ha. refine (StronglySorted_app_1_elem_of (fun a b => page_leb a b = true) A (e :: B) a e Hs Ha _). left. }
  apply StronglySorted_app_1_r, StronglySorted_inv in Hs as [_ HB].
  assert (List.filter (past e) A = []) as ->.
  { apply filter_none. intros a Ha. unfold past. by rewrite HA. }
  assert (past e e = false) as He by (unfold past; by destruct (page_leb_total e e) as [-> | ->]).
  simpl. rewrite He. apply filter_all. intros b Hb. unfold past.
  destruct (page_leb b e) eqn:E; [|done]. exfalso. apply Hne. rewrite Forall_forall in HB.
  rewrite <- (page_leb_antisymm b e E (HB b Hb)). apply elem_of_map. eauto.
Qed.

(** Moving the cursor forward drops what is before it. *)
Lemma past_past c e l :
  past c e = true -> List.filter (past e) (List.filter (past c) l) = List.filter (past e) l.
Proof.
  intros Hc. induction l as [|x l IH]; simpl; [done|]. destruct (past e x) eqn:E.
  - assert (past c x = true) as ->; [|simpl; by rewrite E, IH].
    unfold past in *. rewrite negb_true_iff in *. destruct (page_leb x c) eqn:Ex; [|done].
    destruct (page_leb_total e x) as [H|H]; [|congruence].
    by rewrite (page_leb_trans e x c H Ex) in Hc.
  - destruct (past c x); simpl; rewrite ?E; exact IH.
Qed.

Lemma filter_sorted (f : EventRow -> bool) l : in_page_order l -> in_page_order (List.filter f l).
Proof.
  induction 1 as [|x l Hl IH Hx]; simpl; [constructor|]. destruct (f x); [|done]. constructor; [done|].
  apply Forall_forall. intros y [Hy _]%elem_of_filter_bool. rewrite Forall_forall in Hx. by apply Hx.
Qed.

Lemma filter_ids (f : EventRow -> bool) l : NoDup (map ev_id l) -> NoDup (map ev_id (List.filter f l)).
Proof.
  induction l as [|x l IH]; simpl; [done|]. intros [Hx Hn]%NoDup_cons. destruct (f x); simpl; [|by apply IH].
  apply NoDup_cons. split; [|by apply IH]. intros (y & [Hy _]%elem_of_filter_bool & E)%elem_of_map.
  apply Hx. rewrite E. apply elem_of_map. by exists y.
Qed.

(** ** Pages *)

Section Paging.
Variable parse_uuid : string -> option string.

(** What a peer may see of a calendar, in the order of the pages. *)
Definition listing (calendar : string) (d : CalDb) : list EventRow :=
  order_by page_leb (List.filter (served calendar true) (events d)).
Definition view (r : EventRow) : CalendarEvent :=
  mk_event (ev_id r) (ev_calendar r) (ev_title r) (ev_description r) (ev_start r) (ev_end r) (ev_rrule r)
    (ev_created_at r) (ev_updated_at r).
Definition readable (d : CalDb) : Prop :=
  forall e, e ∈ events d -> parse_uuid (ev_id e) = Some (ev_id e) /\ parse_uuid (ev_calendar e) = Some (ev_calendar e).

Lemma listing_elem calendar d e :
  e ∈ listing calendar d <-> e ∈ events d /\ ev_calendar e = calendar /\ ev_origin e <> Some "remote".
Proof.
  unfold listing, served. rewrite order_by_elem, elem_of_filter_bool, andb_true_iff, String.eqb_eq.
  destruct (ev_origin e) as [o|]; cbn [negb orb]; [|naive_solver].
  rewrite negb_true_iff, String.eqb_neq. naive_solver.
Qed.

Lemma listing_order calendar d : in_page_order (listing calendar d).
Proof. apply order_by_Sorted; [apply page_leb_total|apply page_leb_trans]. Qed.

Lemma listing_ids calendar d : NoDup (map ev_id (events d)) -> NoDup (map ev_id (listing calendar d)).
Proof.
  intros Hn. unfold listing. rewrite order_by_Permutation. by apply filter_ids.
Qed.

(** One page: the first of what lies past the cursor. *)
Lemma page_is calendar t i d :
  readable d ->
  list_calendar_events_page parse_uuid calendar t i MAX_EVENTS_PER_PAGE true d
  = (Ok (map view (take 500 (List.filter (past (at_cursor t i)) (listing calendar d)))), d).
Proof.
  intros Hr. unfold list_calendar_events_page. f_equal.
  rewrite as_i64_small, sql_limit_take by (unfold MAX_EVENTS_PER_PAGE; lia).
  change (Z.to_nat MAX_EVENTS_PER_PAGE) with 500%nat.
  unfold listing. rewrite filter_order_by by (apply page_leb_total || apply page_leb_trans).
  rewrite filter_filter_bool.
  rewrite (filter_ext _ (fun r => served calendar true r && past (at_cursor t i) r))
    by (intros r; by rewrite after_cursor_past).
  set (l := take 500 _).
  assert (forall e, e ∈ l -> row_to_event_checked parse_uuid e = Ok (view e)) as Hview.
  { intros e He. unfold l in He. apply elem_of_take in He as (k & He & _).
    apply list_elem_of_lookup_2 in He. rewrite order_by_elem, elem_of_filter_bool in He.
    destruct (Hr e (proj1 He)) as [Hi Hc]. unfold row_to_event_checked. by rewrite Hi, Hc. }
  clearbody l. rewrite (map_ext_in _ (fun e => Ok (view e))).
  - apply collect_results_map_Ok.
  - intros e He. apply Hview. by apply list_elem_of_In.
Qed.

(** Asking for page after page, as [pull] does, from the cursor each page ends with;
    the [k]-th page is read from the tables as they are then, [dbs k].  The result is
    the events handed out and the number of the last page. *)
Fixpoint follow (dbs : nat -> CalDb) (fuel k : nat) (calendar : string) (t : Z) (i : string)
  : option (list CalendarEvent * nat) :=
  match fuel with
  | O => None
  | S fuel' =>
      match fst (list_calendar_events_page parse_uuid calendar t i MAX_EVENTS_PER_PAGE true (dbs k)) with
      | Ok l =>
          let page := page_of None t l [] in
          if sy_has_more page
          then option_map (fun r => ((l ++ r.1)%list, r.2))
                 (follow dbs fuel' (S k) calendar (sy_next_since page) (sy_next_after page))
          else Some (l, k)
      | Err _ => None
      end
  end.

Lemma sorted_take_past L n e x :
  in_page_order L -> NoDup (map ev_id L) -> last (take n L) = Some e -> x ∈ L -> past e x = false -> x ∈ take n L.
Proof.
  intros Hs Hn Hlast Hx Hpast. apply last_Some in Hlast as [A Et].
  assert (L = (A ++ e :: drop n L)%list) as HL by (rewrite cons_middle, app_assoc, <- Et; symmetry; apply take_drop).
  assert (List.filter (past e) L = drop n L) as Hd.
  { rewrite HL at 1. apply past_split; by rewrite <- HL. }
  rewrite Et. rewrite HL in Hx. apply elem_of_app in Hx as [?|[->|Hx]%elem_of_cons]; [apply elem_of_app; by left|..].
  - apply elem_of_app. right. by apply list_elem_of_singleton.
  - rewrite <- Hd in Hx. apply elem_of_filter_bool in Hx as [_ Hx]. congruence.
Qed.

(** Whatever is not past the cursor has been handed out, as it is now. *)
Definition caught_up (calendar : string) (t : Z) (i : string) (d : CalDb) (l : list CalendarEvent) : Prop :=
  forall e, e ∈ listing calendar d -> past (at_cursor t i) e = false -> view e ∈ l.

(** A change after a page is stamped with a later second than all before it. *)
Definition later_changes (dbs : nat -> CalDb) : Prop :=
  forall k e, e ∈ events (dbs (S k)) ->
    e ∈ events (dbs k) \/ forall e', e' ∈ events (dbs k) -> (ev_updated_at e' < ev_updated_at e)%Z.

Lemma follow_catches_up dbs calendar fuel k t i acc l m :
  (forall k, readable (dbs k) /\ NoDup (map ev_id (events (dbs k)))) -> later_changes dbs ->
  caught_up calendar t i (dbs k) acc ->
  follow dbs fuel k calendar t i = Some (l, m) ->
  forall e, e ∈ listing calendar (dbs m) -> view e ∈ (acc ++ l)%list.
Proof.
  intros Hdbs Hlater. revert k t i acc l m. induction fuel as [|fuel IH]; intros k t i acc l m Hacc; [done|].
  cbn [follow]. destruct (Hdbs k) as [Hr Hn]. rewrite page_is by done. cbn [fst].
  set (L := List.filter (past (at_cursor t i)) (listing calendar (dbs k))).
  assert (in_page_order L /\ NoDup (map ev_id L)) as [Hs HnL].
  { split; [apply filter_sorted, listing_order|apply filter_ids, listing_ids, Hn]. }
  assert (forall e, e ∈ listing calendar (dbs k) -> view e ∈ acc \/ e ∈ L) as Hsplit.
  { intros e He. destruct (past (at_cursor t i) e) eqn:E; [right|left; by apply Hacc]. by apply elem_of_filter_bool. }
  unfold page_of. cbn [sy_has_more sy_next_since sy_next_after].
  rewrite length_map, length_take. unfold MAX_EVENTS_PER_PAGE.
  destruct (Z.eqb_spec (Z.of_nat (500 `min` length L)) 500) as [Hfull|Hshort].
  2: { intros [= <- <-] e He. rewrite take_ge by lia. rewrite elem_of_app, elem_of_map.
       destruct (Hsplit e He); [by left|right; by exists e]. }
  destruct (last (take 500 L)) as [c|] eqn:Hlast.
  2: { apply last_None in Hlast. apply (f_equal length) in Hlast. rewrite length_take in Hlast. cbn [length] in Hlast. lia. }
  rewrite fmap_last, Hlast. cbn [fmap option_fmap option_map view ce_updated_at ce_id].
  destruct (follow _ _ _ _ _ _) as [[l' m']|] eqn:Ef; [|done]. intros [= <- <-]. cbn [fst snd].
  rewrite app_assoc. eapply IH; [|exact Ef]. intros e He Hnp.
  change (past (at_cursor (ev_updated_at c) (ev_id c))) with (past c) in Hnp.
  apply listing_elem in He as (Hin & Hc & Ho).
  assert (c ∈ events (dbs k)) as Hce.
  { apply last_Some in Hlast as [A Et].
    assert (c ∈ take 500 L) as Hct by (rewrite Et; apply elem_of_app; right; by apply list_elem_of_singleton).
    apply elem_of_take in Hct as (j & Hj & _). apply list_elem_of_lookup_2, elem_of_filter_bool in Hj as [Hj _].
    by apply listing_elem in Hj as [? _]. }
  destruct (Hlater k e Hin) as [Hold|Hnew].
  - rewrite elem_of_app, elem_of_map. assert (e ∈ listing calendar (dbs k)) as He by (by apply listing_elem).
    destruct (Hsplit e He) as [?|HL]; [by left|right].
    exists e. split; [by eapply sorted_take_past|done].
  - exfalso. specialize (Hnew c Hce). unfold past, page_leb in Hnp. apply negb_false_iff in Hnp. lia.
Qed.

Lemma follow_from dbs fuel k calendar t i d :
  (forall k, dbs k = d) -> readable d -> NoDup (map ev_id (events d)) ->
  (length (List.filter (past (at_cursor t i)) (listing calendar d)) < fuel * 500)%nat ->
  exists m, follow dbs fuel k calendar t i
            = Some (map view (List.filter (past (at_cursor t i)) (listing calendar d)), m).
Proof.
  intros Hd Hr Hn. revert k t i. induction fuel as [|fuel IH]; intros k t i Hlen; [lia|]. cbn [follow].
  rewrite Hd, page_is by done. cbn [fst]. set (L := List.filter (past (at_cursor t i)) (listing calendar d)) in *.
  unfold page_of. cbn [sy_has_more sy_next_since sy_next_after].
  rewrite length_map, length_take. unfold MAX_EVENTS_PER_PAGE.
  destruct (Z.eqb_spec (Z.of_nat (500 `min` length L)) 500) as [Hfull|Hshort].
  2: { rewrite take_ge by lia. by eexists. }
  assert (500 <= length L)%nat as Hlong by lia.
  assert (exists A e, take 500 L = (A ++ [e])%list) as (A & e & Et).
  { destruct (exists_last (l := take 500 L)) as (A & e & E); [|by exists A, e].
    intros E. apply (f_equal length) in E. rewrite length_take in E. cbn [length] in E. lia. }
  assert (L = (A ++ e :: drop 500 L)%list) as HL by (rewrite cons_middle, app_assoc, <- Et; symmetry; apply take_drop).
  assert (past (at_cursor t i) e = true) as He.
  { assert (e ∈ L) as Hin by (rewrite HL; apply elem_of_app; right; left). unfold L in Hin.
    by apply elem_of_filter_bool in Hin as [_ ?]. }
  assert (List.filter (past e) (listing calendar d) = drop 500 L) as Hnext.
  { rewrite <- (past_past (at_cursor t i)) by done. fold L. rewrite HL at 1. apply past_split; rewrite <- HL.
    - apply filter_sorted, listing_order.
    - apply filter_ids, listing_ids, Hn. }
  rewrite Et, map_app. cbn [map]. rewrite last_snoc. cbn [view ce_updated_at ce_id].
  destruct (IH (S k) (ev_updated_at e) (ev_id e)) as [m Hm].
  - change (past (at_cursor (ev_updated_at e) (ev_id e))) with (past e). rewrite Hnext, length_drop. lia.
  - exists m. rewrite Hm. change (past (at_cursor (ev_updated_at e) (ev_id e))) with (past e). rewrite Hnext.
    simpl. f_equal. f_equal. rewrite HL at 2. rewrite !map_app. simpl. by rewrite <- app_assoc.
Qed.

(** C14: The pages of a served calendar are complete, from the empty cursor on and along
    the cursor of every full page.  If the calendar changes between the pages, but never
    in a second already stamped on an event when a page was read (else an event can be
    missed: [same_second_is_skipped]), then a peer that reached the last page has been given every
    event of the calendar that is not itself mirrored, as it was when the last page was
    read.  If the calendar does not change, each is given exactly once, in the order of
    their last change, and the peer is finished after at most one page more than there
    are full ones. *)
Theorem pages_list_everything calendar dbs :
  (forall k, readable (dbs k) /\ NoDup (map ev_id (events (dbs k)))
             /\ forall e, e ∈ events (dbs k) -> (0 <= ev_updated_at e)%Z /\ ev_id e <> "") ->
  later_changes dbs ->
  (forall fuel l m, follow dbs fuel 0 calendar 0 "" = Some (l, m) ->
     forall e, e ∈ events (dbs m) -> ev_calendar e = calendar -> ev_origin e <> Some "remote" -> view e ∈ l)
  /\ (forall d fuel, (forall k, dbs k = d) -> (length (listing calendar d) < fuel * 500)%nat ->
       exists l m, follow dbs fuel 0 calendar 0 "" = Some (map view l, m)
         /\ NoDup (map ev_id l) /\ in_page_order l
         /\ forall e, e ∈ l <-> e ∈ events d /\ ev_calendar e = calendar /\ ev_origin e <> Some "remote").
Proof.
  intros Hdbs Hlater.
  assert (forall k e, e ∈ listing calendar (dbs k) -> past (at_cursor 0 "") e = true) as Hpast.
  { intros k e [He _]%listing_elem. destruct (Hdbs k) as (_ & _ & Hpos). destruct (Hpos e He) as [Ht Hi].
    rewrite <- after_cursor_past. unfold after_cursor.
    destruct (Z.ltb_spec 0 (ev_updated_at e)), (Z.eqb_spec (ev_updated_at e) 0); try done; [|lia].
    destruct (ev_id e); done. }
  split.
  - intros fuel l m Hf e He Hc Ho. change l with ([] ++ l)%list. eapply follow_catches_up; [| |..|exact Hf|by apply listing_elem].
    + intros k. destruct (Hdbs k) as (? & ? & _). done.
    + done.
    + intros x Hx Hnp. by rewrite (Hpast _ _ Hx) in Hnp.
  - intros d fuel Hd Hlen. exists (listing calendar d). destruct (Hdbs 0%nat) as (Hr & Hn & _). rewrite Hd in Hr, Hn.
    assert (List.filter (past (at_cursor 0 "")) (listing calendar d) = listing calendar d) as Hall.
    { apply filter_all. intros e He. apply (Hpast 0%nat). by rewrite Hd. }
    destruct (follow_from dbs fuel 0 calendar 0 "" d Hd Hr Hn) as [m Hm]; [by rewrite Hall|].
    exists m. rewrite Hall in Hm. split; [exact Hm|]. split; [by apply listing_ids|].
    split; [apply listing_order|intros e; apply listing_elem].
Qed.

(** An event that changes again within the second its page was cut is not served
    afterwards, when its id is not past the cursor's. *)
Lemma same_second_is_skipped t i e :
  ev_updated_at e = t -> String.leb (ev_id e) i = true -> after_cursor t i e = false.
Proof. intros <- Hi. unfold after_cursor. rewrite Z.ltb_irrefl, Z.eqb_refl, Hi. done. Qed.

End Paging.
