(* ===== verification/FedSyncFacts.v ===== *)
(** What a peer can do to the calendars of this server: pulled events stay within
    their federation, a pinned key is never replaced, and a calendar is served only
    to the peer it was shared with. *)
From S2P Require Import Prelude Text Bytes Ident Store Mail Pgp Interleave Calendars Sharing FedStore FedSig FedSync FedSigFacts FedVerify.

Open Scope string_scope.

(** ** Whose event a row is *)

Definition remote_of (federation : string) (e : EventRow) : Prop :=
  ev_origin e = Some "remote" /\ ev_origin_federation e = Some federation.

(** The uids of a federation are mapped to its own events, by ids stored as uuid
    writes them. *)
Section Mapped.
Variable parse_uuid : string -> option string.
Record mapped_ok (d : CalDb) : Prop := {
  map_target : forall m, m ∈ event_map d ->
    exists e, e ∈ events d /\ ev_id e = mp_local_event m /\ remote_of (mp_federation m) e;
  map_ids : NoDup (map ev_id (events d));
  map_canonical : forall m, m ∈ event_map d -> parse_uuid (mp_local_event m) = Some (mp_local_event m)
}.
End Mapped.

(** The tables a pull does not write. *)
Definition rest_of (d : CalDb) :=
  (cal_core d, calendars d, sharings d, invitations d, federations d, pages d, bookings d, fed_peers d,
   nonces d, outbox d, identity d).

(** A change that stays within one federation and its mirror calendar. *)
Record contained (federation calendar : string) (d d' : CalDb) : Prop := {
  con_events : forall e, ~ remote_of federation e -> e ∈ events d' <-> e ∈ events d;
  con_mirror : forall e, e ∈ events d' -> remote_of federation e ->
    ev_calendar e = calendar
    \/ exists e0, e0 ∈ events d /\ ev_id e0 = ev_id e /\ remote_of federation e0 /\ ev_calendar e0 = ev_calendar e;
  con_map : forall m, mp_federation m <> federation -> m ∈ event_map d' <-> m ∈ event_map d;
  con_rest : rest_of d' = rest_of d
}.

#[export] Instance contained_pre f c : PreOrder (contained f c).
Proof.
  split.
  - intros d. split; try done. intros e He Hr. right. by exists e.
  - intros d1 d2 d3 [E1 M1 P1 R1] [E2 M2 P2 R2]. split.
    + intros e He. by rewrite E2, E1.
    + intros e He Hr. destruct (M2 e He Hr) as [?|(e1 & H1 & Hi & Hr1 & Hc)]; [by left|].
      destruct (M1 e1 H1 Hr1) as [?|(e0 & H0 & Hi0 & Hr0 & Hc0)]; [left; congruence|].
      right. exists e0. split; [done|]. split; [congruence|]. split; [done|congruence].
    + intros m Hm. by rewrite P2, P1.
    + by rewrite R2.
Qed.

(** ** The three storage operations *)

Section Operations.
Variable parse_uuid : string -> option string.
Abbreviation mapped_ok := (mapped_ok parse_uuid).

Lemma update_events_elem test f (l : list EventRow) e :
  e ∈ update_where test f l <-> exists x, x ∈ l /\ e = (if test x then f x else x).
Proof. unfold update_where. rewrite elem_of_map. split; intros (x & ? & ?); exists x; split; congruence. Qed.

Lemma update_remote_contained f c now local t desc s en rr d :
  mapped_ok d -> (exists e, e ∈ events d /\ ev_id e = local /\ remote_of f e) ->
  let d' := snd (update_remote_calendar_event now local t desc s en rr d) in
  contained f c d d' /\ mapped_ok d'.
Proof.
  intros [Ht Hn Hc] (e & He & Hid & Hre). simpl.
  set (test := fun r : EventRow => String.eqb (ev_id r) local && opt_eqb (ev_origin r) (Some "remote")).
  set (upd := fun r : EventRow => _).
  assert (forall x, x ∈ events d -> test x = true -> x = e) as Huniq.
  { intros x Hx Htest. apply andb_true_iff in Htest as [E _]. apply String.eqb_eq in E.
    eapply NoDup_map_inj; [exact Hn|done|done|congruence]. }
  split.
  - split; try done; simpl.
    + intros x Hx. rewrite update_events_elem. split.
      * intros (y & Hy & ->). destruct (test y) eqn:Ey; [|done]. apply (Huniq y Hy) in Ey as ->. by destruct Hx.
      * intros Hin. exists x. split; [done|]. destruct (test x) eqn:Ex; [|done].
        apply (Huniq x Hin) in Ex as ->. by destruct Hx.
    + intros x (y & Hy & ->)%update_events_elem Hr. right. exists y. split; [done|].
      destruct (test y); done.
  - split; simpl.
    + intros m Hm. destruct (Ht m Hm) as (x & Hx & Hi & Hr). exists (if test x then upd x else x).
      split; [apply update_events_elem; eauto|]. by destruct (test x).
    + unfold update_where. rewrite map_map. erewrite map_ext; [exact Hn|]. intros x. by destruct (test x).
    + exact Hc.
Qed.

Lemma create_remote_contained f c i now t desc s en rr d r d' :
  mapped_ok d -> create_remote_calendar_event i now c f t desc s en rr d = (r, d') ->
  contained f c d d' /\ mapped_ok d'
  /\ forall local, r = Ok local -> exists e, e ∈ events d' /\ ev_id e = local /\ remote_of f e.
Proof.
  intros [Ht Hn Hcan]. unfold create_remote_calendar_event, insert_event, require_cal, bind, modify, ret.
  destruct (calendar_known _ d); [|by intros [= <- <-]; split; [reflexivity|]; split; [split|]].
  destruct (event_known _ d) eqn:Ek; cbn [negb];
    [by intros [= <- <-]; split; [reflexivity|]; split; [split|]|].
  intros [= <- <-]. set (row := mk_event_row _ _ _ _ _ _ _ _ _ _ _).
  assert (remote_of f row) as Hrow by done. split; [|split].
  - split; try done; simpl.
    + intros e He. rewrite elem_of_app, list_elem_of_singleton. split; [|by left].
      intros [?| ->]; [done|]. by destruct He.
    + intros e [He| ->%list_elem_of_singleton]%elem_of_app Hr; [right; by exists e|by left].
  - split; simpl.
    + intros m Hm. destruct (Ht m Hm) as (x & Hx & Hi & Hr). exists x. split; [|done]. apply elem_of_app. by left.
    + apply NoDup_map_snoc; [done|]. intros y Hy E. unfold event_known in Ek.
      pose proof (existsb_false_elem _ _ y Ek Hy) as Hne. simpl in Hne, E. rewrite E, String.eqb_refl in Hne. done.
    + exact Hcan.
  - intros local [= <-]. exists row. split; [|done]. simpl. apply elem_of_app. right. by apply list_elem_of_singleton.
Qed.

Lemma set_map_contained f c now uid local author d r d' :
  mapped_ok d -> parse_uuid local = Some local -> (exists e, e ∈ events d /\ ev_id e = local /\ remote_of f e) ->
  set_federation_event_map now f uid local author d = (r, d') ->
  contained f c d d' /\ mapped_ok d'.
Proof.
  intros [Ht Hn Hcan] Hlocal He. unfold set_federation_event_map, require_cal, bind, modify.
  destruct (_ && _); intros [= <- <-]; [|by split; [reflexivity|split]].
  assert (forall m, m ∈ (if existsb (map_key f uid) (event_map d)
      then update_where (map_key f uid) (fun m => mk_map_row (mp_federation m) (mp_remote_uid m) local author now) (event_map d)
      else (event_map d ++ [mk_map_row f uid local author now])%list) ->
      m ∈ event_map d \/ (mp_federation m = f /\ mp_local_event m = local)) as Hnew.
  { intros m. destruct (existsb _ _).
    - unfold update_where. intros (x & Hx & ->)%elem_of_map. destruct (map_key f uid x) eqn:Ek; [right|by left].
      apply andb_true_iff in Ek as [Ek _]. apply String.eqb_eq in Ek. by split.
    - rewrite elem_of_app, list_elem_of_singleton. intros [?| ->]; [by left|by right]. }
  split.
  - split; try done; simpl; [intros e Hin Hr; right; by exists e|].
    intros m Hm. split; [intros Hin; by destruct (Hnew m Hin) as [?|[? _]]|]. intros Hin.
    destruct (existsb _ _); [|apply elem_of_app; by left].
    unfold update_where. apply elem_of_map. exists m. split; [done|].
    destruct (map_key f uid m) eqn:Ek; [|done]. apply andb_true_iff in Ek as [Ek _]. by apply String.eqb_eq in Ek.
  - split; simpl; [|done|]; intros m Hin; destruct (Hnew m Hin) as [Hm|[Ef El]]; [by apply Ht| |by apply Hcan|by rewrite El].
    destruct He as (e & He & Hid & Hr). exists e. rewrite Ef, El. done.
Qed.
End Operations.

(** ** A pull *)

Section Pull.
Context `{BlobStore} `{FedCrates} {N : Type} `{!Network N} `{FedJson} `{FedTexts}.
Variable parse_uuid : string -> option string.
Variable moment : nat -> Moment.
(** A new id is the text uuid writes, which it reads back as it is. *)
Hypothesis fresh_ids : forall n, parse_uuid (at_uuid (moment n)) = Some (at_uuid (moment n)).

Abbreviation W := (FedWorld N).
Abbreviation mapped_ok := (mapped_ok parse_uuid).

(** A relation between the storage before and after a program. *)
Definition relates {A} (R : CalDb -> CalDb -> Prop) (p : prog W A) : Prop :=
  forall w a w', run p w = (a, w') -> R (caldb w) (caldb w').

(** Both branches of a test. *)
Ltac branch := match goal with |- relates _ (if ?b then _ else _) => destruct b end.

Section Relates.
Variable R : CalDb -> CalDb -> Prop.
Context `{!PreOrder R}.

Lemma relates_done {A} (a : A) : relates R (Done a).
Proof. by intros w b w' [= <- <-]. Qed.
Lemma relates_bind {A B} (p : prog W A) (k : A -> prog W B) :
  relates R p -> (forall a, relates R (k a)) -> relates R (pbind p k).
Proof.
  intros Hp Hk w b w' Hrun. rewrite run_pbind in Hrun. destruct (run p w) as [a w1] eqn:E.
  transitivity (caldb w1); [by eapply Hp|by eapply Hk].
Qed.
Lemma relates_ptry {A B E F} (p : prog W (result E A)) (h : E -> F) (k : A -> prog W (result F B)) :
  relates R p -> (forall a, relates R (k a)) -> relates R (ptry p h k).
Proof. intros Hp Hk. apply relates_bind; [done|]. intros [a|e]; [apply Hk|apply relates_done]. Qed.
Lemma relates_ask {A} (f : Moment -> A) : relates R (ask moment f).
Proof. intros w a w' Hrun. rewrite run_clock in Hrun. by injection Hrun as <- <-. Qed.
Lemma relates_net {A} (f : N -> A * N) : relates R (net f).
Proof. intros w a w' Hrun. rewrite run_net in Hrun. destruct (f _) as [x n]. by injection Hrun as <- <-. Qed.
Lemma relates_cal {A} (f : Moment -> KM A) :
  (forall m d, R d (snd (f m d))) -> relates R (cal moment f).
Proof.
  intros Hf w a w' Hrun. rewrite run_cal in Hrun. specialize (Hf (now_moment moment w) (caldb w)).
  destruct (f _ _) as [r d]. injection Hrun as <- <-. by rewrite caldb_put.
Qed.

Lemma relates_guard u allow : relates R (guard_url u allow).
Proof.
  unfold guard_url. repeat branch; try apply relates_done.
  all: apply relates_ptry; [apply relates_done|]. intros host. apply relates_bind; [apply relates_net|]. intros addrs.
  apply relates_ptry; [apply relates_done|]. intros l. apply relates_done.
Qed.

Lemma relates_http method target headers body : relates R (http method target headers body).
Proof. apply relates_ptry; [apply relates_net|intros r; apply relates_done]. Qed.

Lemma relates_send c method url receiver body cap : relates R (send moment c method url receiver body cap).
Proof.
  unfold send. apply relates_ptry; [apply relates_done|]. intros parsed.
  apply relates_ptry; [apply relates_done|]. intros target. apply relates_ptry; [apply relates_guard|]. intros _.
  apply relates_bind; [apply relates_ask|]. intros nonce. apply relates_bind; [apply relates_ask|]. intros t.
  apply relates_ptry; [apply relates_done|]. intros sig.
  repeat branch; first [apply relates_http|apply relates_done].
Qed.
End Relates.

(** What a pull of [f] may do to the storage. *)
Definition within (f : CalendarFederation) (d d' : CalDb) : Prop :=
  mapped_ok d -> contained (fd_id f) (fd_calendar f) d d' /\ mapped_ok d'.
#[local] Instance within_pre f : PreOrder (within f).
Proof.
  split; [by intros d Hd; split; [reflexivity|]|]. intros d1 d2 d3 H12 H23 Hd.
  destruct (H12 Hd) as [C1 Hd2]. destruct (H23 Hd2) as [C2 Hd3]. split; [by etransitivity|done].
Qed.

Lemma known_event d f uid i d' :
  mapped_ok d -> federation_local_event parse_uuid f uid d = (Ok (Some i), d') ->
  exists e, e ∈ events d /\ ev_id e = i /\ remote_of f e.
Proof.
  intros Hd. unfold federation_local_event. destruct (select_first _ _) as [m|] eqn:Es; [|by intros [= ]].
  apply find_Some_elem in Es as [Hm Hk]. rewrite (map_canonical _ _ Hd m Hm). intros [= <- _]. apply andb_true_iff in Hk as [Hk _]. apply String.eqb_eq in Hk.
  destruct (map_target _ _ Hd m Hm) as (e & He & Hi & Hr). rewrite Hk in Hr. eauto.
Qed.

(** One event, from a storage in which the map is right. *)
Lemma apply_one_within server f domain author item (w : W) r (w' : W) :
  mapped_ok (caldb w) -> run (apply_one parse_uuid moment server f domain author item) w = (r, w') ->
  contained (fd_id f) (fd_calendar f) (caldb w) (caldb w') /\ mapped_ok (caldb w').
Proof.
  intros Hd. unfold apply_one. rewrite run_ptry, run_pure.
  destruct (open_item _ _ _ _) as [p|e]; [|by intros [= <- <-]; split; [reflexivity|]].
  rewrite run_ptry, run_cal. destruct (federation_local_event _ _ _ _) as [known d1] eqn:Ek.
  assert (d1 = caldb w) as -> by (unfold federation_local_event in Ek; by injection Ek).
  destruct known as [[i|]|e]; [| |by intros [= <- <-]; rewrite caldb_put; split; [reflexivity|]].
  - rewrite run_ptry, run_cal, caldb_put.
    pose proof (update_remote_contained parse_uuid (fd_id f) (fd_calendar f) (unix (now_moment moment (put_cal (caldb w) w))) i
      (ep_title p) (ep_description p) (ep_start p) (ep_end p) (ep_rrule p) (caldb w) Hd
      (known_event _ _ _ _ _ Hd Ek)) as Hu.
    destruct (update_remote_calendar_event _ _ _ _ _ _ _ _) as [u d2].
    destruct u; intros [= <- <-]; rewrite caldb_put; exact Hu.
  - rewrite run_ptry, run_cal, caldb_put.
    destruct (create_remote_calendar_event _ _ _ _ _ _ _ _ _ _) as [c d2] eqn:Ec.
    destruct (create_remote_contained parse_uuid _ _ _ _ _ _ _ _ _ _ _ _ Hd Ec) as (Hc & Hd2 & Hnew).
    destruct c as [i|e]; [|by intros [= <- <-]; rewrite caldb_put].
    rewrite run_ptry, run_cal, caldb_put.
    destruct (set_federation_event_map _ _ _ _ _ _) as [m d3] eqn:Em.
    assert (parse_uuid i = Some i) as Hi.
    { revert Ec. unfold create_remote_calendar_event, insert_event, require_cal, bind, modify, ret.
      repeat match goal with |- context [if ?b then _ else _] => destruct b; [|by intros [=]] end. intros [= <- _]. apply fresh_ids. }
    destruct (set_map_contained parse_uuid _ (fd_calendar f) _ _ _ _ _ _ _ Hd2 Hi (Hnew i eq_refl) Em) as [Hc3 Hd3].
    destruct m; intros [= <- <-]; rewrite caldb_put; (split; [by etransitivity|done]).
Qed.

Lemma apply_items_within server f domain author items n :
  relates (within f) (apply_items parse_uuid moment server f domain author n items).
Proof.
  revert n. induction items as [|item items IH]; intros n; cbn [apply_items]; [apply relates_done; apply _|].
  apply relates_bind; [apply _| |intros r; apply IH].
  intros w r w' Hrun Hd. by eapply apply_one_within.
Qed.

Lemma pull_page_within client server f domain cap since after :
  relates (within f) (pull_page parse_uuid moment client server f domain cap since after).
Proof.
  unfold pull_page. apply relates_ptry; [apply _|apply relates_send, _|]. intros resp.
  branch; [apply relates_done, _|]. branch; [apply relates_done, _|].
  apply relates_ptry; [apply _|apply relates_done, _|]. intros page.
  apply relates_ptry; [apply _| |intros n; apply relates_done, _].
  unfold apply_page. apply relates_ptry; [apply _|apply relates_done, _|]. intros d.
  destruct (sy_author_cert page).
  - apply relates_ptry; [apply _|apply relates_done, _|]. intros author.
    apply relates_bind; [apply _|apply apply_items_within|intros n; apply relates_done, _].
  - destruct (sy_items page); apply relates_done, _.
Qed.

(** C10: Whatever a peer answers, for as many pages as it likes, pulling one of its
    federations ([pull], the part of [sync_federation] between its reads and the stored
    sync token) leaves every event that is not a mirrored event of that federation as
    it was, puts new events only on the federation's mirror calendar, touches no other
    federation's uids and no other table, and keeps the map from uids to events right. *)
Theorem pull_contained fuel client server f domain cap since after n (w : W) r (w' : W) :
  mapped_ok (caldb w) ->
  run (pull parse_uuid moment fuel client server f domain cap since after n) w = (r, w') ->
  contained (fd_id f) (fd_calendar f) (caldb w) (caldb w') /\ mapped_ok (caldb w').
Proof.
  intros Hd Hrun. revert since after n w Hd Hrun.
  assert (forall since after n, relates (within f)
    (pull parse_uuid moment fuel client server f domain cap since after n)) as Hall.
  { induction fuel as [|fuel IH]; intros since after n; cbn [pull]; [apply relates_done, _|].
    apply relates_ptry; [apply _|apply pull_page_within|]. intros [page m].
    destruct (sy_has_more page); [apply IH|apply relates_done, _]. }
  intros since after n w Hd Hrun. by eapply Hall.
Qed.

End Pull.

(** ** Serving a calendar *)

Section Serve.
Context `{BlobStore} `{FedCrates} {N : Type} `{!Network N} `{FedJson} `{Serde Permissions}.
Variable parse_uuid : string -> option string.
Variable fresh : string -> string.
Variable moment : nat -> Moment.
Variable public_url : string.

Abbreviation W := (FedWorld N).
Abbreviation serve := (calendar_sync parse_uuid fresh moment public_url).

Lemma run_or_reply {A E} (p : prog W (result E A)) (h : E -> WireResponse) k w :
  run (or_reply p h k) w
  = let '(r, w') := run p w in match r with Ok a => run (k a) w' | Err e => (h e, w') end.
Proof. unfold or_reply. rewrite run_pbind. by destruct (run p w) as [[a|e] w']. Qed.

(** A read. *)
Lemma run_read {A} (m : KM A) (w : W) :
  (forall d, snd (m d) = d) ->
  exists w', run (cal moment (fun _ => m)) w = (fst (m (caldb w)), w') /\ unchanged w w'.
Proof.
  intros Hm. rewrite run_cal. specialize (Hm (caldb w)). destruct (m (caldb w)) as [r d]. simpl in Hm. subst d.
  eexists. split; [reflexivity|]. by apply unchanged_put.
Qed.

Lemma run_pgp {A} (f : Moment -> action PgpWorld PgpError A) (w : W) :
  exists r w', run (pgp moment f) w = (r, w') /\ fw_tables w' = fw_tables w.
Proof.
  unfold pgp. rewrite run_op. destruct (f _ _) as [r p]. eexists _, _. split; [reflexivity|done].
Qed.

Lemma rejection_not_ok e : rejection_status e <> 200%Z.
Proof. by destruct e. Qed.

Lemma calendar_access_reads a c d : snd (calendar_access a c d) = d.
Proof.
  unfold calendar_access, bind, gets, ret, lift. destruct (owns_calendar _ _ _); [done|].
  destruct (select_first _ _); [|done]. by destruct (parse_permissions _).
Qed.

(** The events a page may hold. *)
Definition shareable (f : CalendarFederation) (since : Z) (after : string) (d : CalDb) (e : EventRow) : Prop :=
  e ∈ events d /\ ev_calendar e = fd_calendar f /\ ev_origin e <> Some "remote"
  /\ after_cursor since after e = true.

Lemma page_rows f since after limit d l :
  fst (list_calendar_events_page parse_uuid (fd_calendar f) since after limit true d) = Ok l ->
  Forall (fun v => exists e, shareable f since after d e /\ parse_uuid (ev_id e) = Some (ce_id v) /\ ce_title v = ev_title e
            /\ ce_start v = ev_start e /\ ce_end v = ev_end e) l.
Proof.
  simpl. intros Hl. apply Forall_forall. intros v Hv. pose proof (collect_results_elem _ _ _ Hl Hv) as Hr. clear Hv.
  rename Hr into Hv.
  apply elem_of_map in Hv as (e & He & Hv).
  assert (e ∈ List.filter (fun r => served (fd_calendar f) true r && after_cursor since after r) (events d)) as Hin.
  { rewrite <- (order_by_elem page_leb). revert He. unfold sql_limit. destruct (_ <? 0)%Z; [done|].
    intros He. rewrite <- (take_drop (Z.to_nat (as_i64 limit)) (order_by _ _)). apply elem_of_app. by left. }
  apply elem_of_filter_bool in Hin as [Hin Hs]. apply andb_true_iff in Hs as [Hs Ha].
  unfold served in Hs. apply andb_true_iff in Hs as [Hc Ho]. apply String.eqb_eq in Hc.
  exists e. unfold row_to_event_checked in Hv.
  destruct (parse_uuid (ev_id e)) as [i|] eqn:Ei; [|done]. destruct (parse_uuid (ev_calendar e)); [|done].
  injection Hv as ->. simpl. split; [|done]. split; [done|]. split; [done|].
  split; [|done]. intros Eo. by rewrite Eo in Ho.
Qed.

(** The federation is a share of this calendar with the peer that signed, and the
    request shows the share's secret. *)
Definition granted (federation_id : string) (headers : Headers) (domain fingerprint : string) (d : CalDb)
    (f : CalendarFederation) : Prop :=
  (exists row, row ∈ federations d /\ fr_id row = federation_id /\ federation_from_row parse_uuid row = Ok f)
  /\ fd_direction f = Some "outbound" /\ active_status (fd_status f) = true
  /\ fd_peer_domain f = Some domain /\ fd_peer_fingerprint f = Some fingerprint
  /\ exists secret, secret <> "" /\ fd_capability f = Some secret /\ headers H_CAPABILITY = Some secret.

Lemma opt_eqb_eq a b : opt_eqb a b = true -> a = b.
Proof. destruct a, b; simpl; try done. by intros ->%String.eqb_eq. Qed.

Lemma secret_shown f headers :
  presents_secret f headers = true ->
  exists secret, secret <> "" /\ fd_capability f = Some secret /\ headers H_CAPABILITY = Some secret.
Proof.
  unfold presents_secret. rewrite secrets_equal, andb_true_iff, negb_true_iff, String.eqb_neq, String.eqb_eq.
  intros [Hne E]. destruct (fd_capability f) as [secret|]; simpl in *; [|done].
  destruct (headers H_CAPABILITY) as [p|]; simpl in *; [|congruence]. subst p. eauto.
Qed.

Lemma found_federation i d f :
  fst (get_federation parse_uuid i d) = Ok (Some f) ->
  exists row, row ∈ federations d /\ fr_id row = i /\ federation_from_row parse_uuid row = Ok f.
Proof.
  simpl. destruct (select_first _ _) as [row|] eqn:Es; [|done].
  destruct (federation_from_row _ _) as [g|] eqn:Ef; simpl; [|done]. intros [= ->].
  apply find_Some_elem in Es as [Hr Hi]. apply String.eqb_eq in Hi. by exists row.
Qed.

Lemma sealed_items secret peer mail l items :
  collect_results (map (seal_one secret peer mail) l) = Ok items ->
  map it_remote_uid items = map ce_id l.
Proof.
  revert items. induction l as [|v l IH]; intros items; simpl; [by intros [= <-]|].
  unfold seal_one at 1. destruct (seal_event _ _ _); simpl; [|done].
  destruct (collect_results _) as [rest|]; simpl; [|done]. intros [= <-]. simpl. f_equal. by apply IH.
Qed.

Ltac denied := let E := fresh in intros [= <- <-] E; discriminate E.

Lemma events_put (w w' : W) : fw_tables w' = fw_tables w -> events (caldb w') = events (caldb w).
Proof. intros E. unfold caldb. by rewrite E. Qed.

(** The answer after the signature was verified. *)
Lemma serve_verified federation_id params r peer (w w1 w' : W) reply :
  run (verify moment public_url r) w = (Ok peer, w1) ->
  run (serve federation_id params r) w = (reply, w') -> rs_status reply = 200%Z ->
  exists f page,
    granted federation_id (rq_headers r) (vp_domain peer) (vp_fingerprint peer) (caldb w1) f
    /\ rs_body reply = sync_json federation_id page
    /\ Forall (fun it => exists e, parse_uuid (ev_id e) = Some (it_remote_uid it)
         /\ shareable f (default 0%Z (s ← params "since"; parse_i64 s)) (default "" (params "after")) (caldb w1) e)
         (sy_items page).
Proof.
  intros Hv. unfold calendar_sync. rewrite run_or_reply, Hv, run_or_reply.
  destruct (run_read (get_federation parse_uuid federation_id) w1 ltac:(done)) as (w2 & -> & Hw2).
  destruct (fst (get_federation parse_uuid federation_id (caldb w1))) as [[f|]|] eqn:Eg; [|denied..].
  rewrite run_or_reply, run_pure. cbn [ok_or].
  destruct (may_pull f peer) eqn:Em; cbn [negb]; [|denied].
  destruct (presents_secret f (rq_headers r)) eqn:Ep; cbn [negb]; [|denied].
  rewrite run_pbind. destruct (run_read (get_calendar_by_id parse_uuid fresh (fd_calendar f)) w2 ltac:(done)) as (w3 & -> & Hw3).
  destruct (fst (get_calendar_by_id _ _ _ _)) as [[c|]|]; [|denied..].
  rewrite run_pbind. destruct (run_read (calendar_access (cv_account_id c) (cv_id c)) w3 (calendar_access_reads _ _)) as (w4 & -> & Hw4).
  destruct (negb _); [denied|]. rewrite run_or_reply.
  destruct (run_pgp (fun m => own_cert parse_uuid (unix m) (at_entropy m) (cv_account_id c)) w4) as ([secret|e] & w5 & -> & Hw5); [|denied].
  rewrite run_pbind. destruct (run_read (federation_peer (vp_domain peer)) w5 ltac:(done)) as (w6 & -> & Hw6).
  destruct (fst (federation_peer _ _)) as [[p|]|]; [|denied..].
  rewrite run_or_reply, run_pure. destruct (cert_from_bytes (ps_cert p)) as [cert|]; [|denied].
  set (since := default 0%Z _). set (after := default "" _). rewrite run_or_reply.
  destruct (run_read (list_calendar_events_page parse_uuid (fd_calendar f) since after MAX_EVENTS_PER_PAGE true) w6 ltac:(done)) as (w7 & -> & Hw7).
  destruct (fst (list_calendar_events_page _ _ _ _ _ _ _)) as [l|] eqn:El; [|denied].
  rewrite run_pbind. destruct (run (calendar_owner_email _ _ _) w7) as [mail w8]. rewrite run_or_reply, run_pure.
  destruct (collect_results _) as [items|] eqn:Ei; [|denied]. intros [= <- <-] _.
  apply sealed_items in Ei. apply page_rows in El.
  assert (events (caldb w6) = events (caldb w1)) as Hev.
  { destruct Hw2 as [E2 _], Hw3 as [E3 _], Hw4 as [E4 _], Hw6 as [E6 _].
    rewrite E6, (events_put w4 w5 Hw5), E4, E3, E2. done. }
  exists f, (page_of (match public_armored secret with Ok a => Some a | Err _ => None end) since l items).
  apply andb_true_iff in Em as [Em Hfp]. apply andb_true_iff in Em as [Em Hdom]. apply andb_true_iff in Em as [Hdir Hst].
  split; [|split; [done|]].
  - split; [by apply found_federation|]. split; [by apply opt_eqb_eq|]. split; [done|].
    split; [by apply opt_eqb_eq|]. split; [by apply opt_eqb_eq|]. by apply secret_shown.
  - cbn [sy_items page_of]. apply Forall_forall. intros it Hit.
    assert (it_remote_uid it ∈ map ce_id l) as Hin by (rewrite <- Ei; apply elem_of_map; eauto).
    apply elem_of_map in Hin as (v & Hvl & Eu). rewrite Forall_forall in El.
    destruct (El v Hvl) as (e & [He Hsh] & Eid & _). exists e. split; [congruence|]. split; [by rewrite <- Hev|done].
Qed.

(** C11: The sync endpoint hands out events only to the peer a calendar was shared with:
    an answer 200 means that the request carried a fresh, unused signature of a pinned
    server, that the federation is an active outbound share with exactly that domain
    and fingerprint, and that its non-empty secret was shown; the items of the page are
    then events of the shared calendar beyond the cursor, none of them mirrored from
    elsewhere, each named by the uuid its stored id reads as. *)
Theorem sync_serves_only_the_share federation_id params r (w : W) reply (w' : W) :
  run (serve federation_id params r) w = (reply, w') -> rs_status reply = 200%Z ->
  exists s peer f page,
    admissible moment public_url (rq_method r) (canonical_path_str (rq_uri r)) (rq_headers r) (rq_body r) w s peer
    /\ seen (ps_fingerprint peer) (sg_nonce s) (caldb w) = false
    /\ granted federation_id (rq_headers r) (sg_domain s) (ps_fingerprint peer) (caldb w) f
    /\ rs_body reply = sync_json federation_id page
    /\ Forall (fun it => exists e, parse_uuid (ev_id e) = Some (it_remote_uid it)
         /\ shareable f (default 0%Z (s ← params "since"; parse_i64 s)) (default "" (params "after")) (caldb w) e)
         (sy_items page).
Proof.
  intros Hrun Hok.
  destruct (run (verify moment public_url r) w) as [v w1] eqn:Ev. pose proof Ev as Ev'.
  unfold verify in Ev. rewrite run_ptry in Ev. destruct (run (verify_request _ _ _ _ _ _) w) as [v0 w0] eqn:Er.
  destruct (verify_cases _ _ _ _ _ _ _ _ _ Er) as [(_ & Hbad & _)|(s & peer & ex & Ha & Hs & -> & Hc & _ & _)].
  - exfalso. destruct v0 as [v0|e]; [done|]. injection Ev as <- <-. unfold calendar_sync in Hrun.
    rewrite run_or_reply, Ev' in Hrun. injection Hrun as <- <-. by apply rejection_not_ok in Hok.
  - injection Ev as <- <-. destruct (serve_verified _ _ _ _ _ _ _ _ Ev' Hrun Hok) as (f & page & Hg & Hb & Hi).
    rewrite Hc in Hg, Hi. exists s, peer, f, page. done.
Qed.

End Serve.

(** * Trust on first use: discovery pins a peer once and never replaces its key; and a
    federation whose pull failed is not pulled again. *)

(** ** Pins *)

(** Every pinned domain keeps its fingerprint. *)
Definition keeps_pins (d d' : CalDb) : Prop :=
  forall domain p, pinned domain d = Some p ->
    exists p', pinned domain d' = Some p' /\ ps_fingerprint p' = ps_fingerprint p.

#[export] Instance keeps_pins_pre : PreOrder keeps_pins.
Proof.
  split; [by intros d domain p H; exists p|]. intros d1 d2 d3 H12 H23 domain p Hp.
  destruct (H12 domain p Hp) as (p2 & Hp2 & E2). destruct (H23 domain p2 Hp2) as (p3 & Hp3 & E3).
  exists p3. split; [done|congruence].
Qed.

Lemma keeps_pins_peers d d' : fed_peers d' = fed_peers d -> keeps_pins d d'.
Proof. intros E domain p. unfold pinned. rewrite E. eauto. Qed.

Definition row_of (domain : string) (l : list PeerRow) : option PeerRow :=
  select_first (fun r => String.eqb (pr_domain r) (FedStore.peer_key domain)) l.

Lemma find_update (test here : PeerRow -> bool) f l :
  (forall r, test (f r) = test r) ->
  select_first test (update_where here f l)
  = option_map (fun r => if here r then f r else r) (select_first test l).
Proof.
  intros Hf. unfold select_first, update_where. induction l as [|x l IH]; simpl; [done|].
  destruct (here x) eqn:Ex; rewrite ?Hf; destruct (test x); simpl; rewrite ?Ex; done.
Qed.

Lemma first_peer_snoc (test : PeerRow -> bool) l x row :
  select_first test l = Some row -> select_first test (l ++ [x])%list = Some row.
Proof. unfold select_first. induction l as [|y l IH]; simpl; [done|]. by destruct (test y). Qed.

(** Storing the key that is pinned already. *)
Lemma upsert_keeps now domain url cert fingerprint d :
  (forall p, pinned domain d = Some p -> ps_fingerprint p = fingerprint) ->
  keeps_pins d (snd (upsert_federation_peer now domain url cert fingerprint d)).
Proof.
  intros Hsame other p. unfold upsert_federation_peer, bind, gets, modify, ret. cbn [snd].
  unfold pinned. cbn [fed_peers on_fed_peers].
  fold (row_of domain (fed_peers d)) in *. fold (row_of other (fed_peers d)).
  destruct (row_of other (fed_peers d)) as [row|] eqn:Eo; [|done]. intros [= <-].
  set (here := fun r : PeerRow => String.eqb (pr_domain r) (FedStore.peer_key domain)).
  destruct (existsb here (fed_peers d)).
  - rewrite find_update by done. unfold row_of in Eo. rewrite Eo. eexists. split; [reflexivity|]. cbn.
    destruct (here row) eqn:Eh; [|done]. cbn. symmetry.
    assert (row_of domain (fed_peers d) = Some row) as Er.
    { unfold row_of. apply find_Some_elem in Eo as Hin. destruct Hin as [_ E].
      unfold here in Eh. apply String.eqb_eq in E, Eh. rewrite <- Eh, E. exact Eo. }
    unfold pinned in Hsame. unfold row_of in Er. rewrite Er in Hsame. by apply (Hsame _ eq_refl).
  - exists (mk_peer_server (pr_domain row) (pr_server_url row) (pr_cert row) (pr_fingerprint row) (pr_pinned_at row)).
    split; [|done]. by rewrite (first_peer_snoc _ _ _ _ Eo).
Qed.

Section Pins.
Context `{BlobStore} `{FedCrates} {N : Type} `{!Network N} `{FedJson} `{FedTexts}.
Variable moment : nat -> Moment.
Variable config : FederationConfig.

Abbreviation W := (FedWorld N).
Abbreviation keeping := (relates keeps_pins).

Lemma relates_get_unsigned c url : keeping (get_unsigned c url : prog W _).
Proof.
  unfold get_unsigned. apply relates_ptry; [apply _|apply relates_done, _|]. intros parsed.
  apply relates_ptry; [apply _|apply relates_done, _|]. intros target.
  apply relates_ptry; [apply _|apply relates_guard, _|]. intros _. apply relates_http, _.
Qed.

Lemma pin_keeps domain meta : keeping (pin moment domain meta : prog W _).
Proof.
  unfold pin. apply relates_ptry; [apply _|apply relates_done, _|]. intros armored.
  apply relates_ptry; [apply _|apply relates_done, _|]. intros cert w r w'.
  rewrite run_ptry. destruct (run_peer moment domain w) as (w1 & -> & Hw1).
  destruct (match pinned domain (caldb w) with Some p => _ | None => false end) eqn:Echeck.
  { intros [= <- <-]. destruct Hw1 as [-> _]. reflexivity. }
  rewrite run_ptry, run_pure. destruct (cert_to_vec _) as [bin|]; [|intros [= <- <-]; destruct Hw1 as [-> _]; reflexivity].
  rewrite run_ptry, run_cal. destruct Hw1 as [Hc _]. rewrite Hc.
  match goal with |- context [upsert_federation_peer ?n ?a ?b ?c ?e ?d] =>
    pose proof (upsert_keeps n a b c e d) as Hkeep; destruct (upsert_federation_peer n a b c e d) as [u d1] eqn:Eu end.
  assert (keeps_pins (caldb w) d1) as Hd1.
  { apply Hkeep. intros p Hp. rewrite Hp in Echeck. by apply negb_false_iff, String.eqb_eq in Echeck. }
  destruct u as [b|e].
  - rewrite run_ptry. destruct (run_peer moment domain (put_cal d1 w1)) as (w2 & -> & Hw2 & _).
    intros [= <- <-]. rewrite Hw2, caldb_put. exact Hd1.
  - intros [= <- <-]. rewrite caldb_put. exact Hd1.
Qed.

(** C15: Trust on first use: whatever well-known documents the network hands out, for
    whichever domain and from whichever of the candidate hosts, discovery never
    changes the fingerprint of a server that is already pinned. *)
Theorem discovery_keeps_pins client domain (w : W) r (w' : W) :
  run (discover_and_pin moment config client domain) w = (r, w') ->
  forall pinned_domain p, pinned pinned_domain (caldb w) = Some p ->
    exists p', pinned pinned_domain (caldb w') = Some p' /\ ps_fingerprint p' = ps_fingerprint p.
Proof.
  intros Hrun. assert (keeping (discover_and_pin moment config client domain : prog W _)) as Hk; [|by eapply Hk].
  clear. unfold discover_and_pin. destruct (negb _); [apply relates_done, _|].
  induction (server_candidates domain) as [|url urls IH]; cbn [discover_at]; [apply relates_done, _|].
  apply relates_bind; [apply _|apply relates_get_unsigned|]. intros [resp|e]; [|exact IH].
  destruct (negb (is_success resp)); [exact IH|]. destruct (metadata_of_json _); [apply pin_keeps|exact IH].
Qed.

End Pins.

(** ** A failed pull *)

Section Parked.
Context `{BlobStore} `{FedCrates} {N : Type} `{!Network N} `{FedJson} `{FedTexts} `{Serde Permissions}.
Variable parse_uuid : string -> option string.
Variable moment : nat -> Moment.
Variable public_url : string.
Variable config : FederationConfig.

(** A federation in the state of an error is no longer among those the periodic pass
    pulls, and accepting it again is refused. *)
Lemma failed_is_parked federation_id d row :
  row ∈ federations (snd (mark_federation_error federation_id d)) -> fr_id row = federation_id ->
  active_status (fr_status row) = false /\ forall account d', pending_inbound account d' row = false.
Proof.
  unfold mark_federation_error, modify. cbn [snd federations on_federations]. unfold update_where.
  intros (x & _ & E)%elem_of_map Hid.
  assert (fr_status row = "error") as Hs.
  { destruct (String.eqb_spec (fr_id x) federation_id) as [Ex|Ex]; rewrite E; [done|].
    exfalso. apply Ex. by rewrite <- Hid, E. }
  unfold pending_inbound. rewrite Hs. split; [done|]. intros a d'. by rewrite andb_false_r.
Qed.

(** And a notification of its peer does not pull it either. *)
Lemma parked_is_refused fuel federation_id f (w : FedWorld N) :
  fst (get_federation parse_uuid federation_id (caldb w)) = Ok (Some f) -> fd_status f = "error" ->
  fst (run (sync_one parse_uuid moment public_url config fuel federation_id) w)
  = Err (Misconfigured "not an active inbound federation").
Proof.
  intros Hf Hs. unfold sync_one. rewrite run_ptry, run_cal.
  destruct (get_federation parse_uuid federation_id (caldb w)) as [r d]. simpl in Hf. subst r.
  rewrite run_ptry, run_pure. cbn [ok_or]. rewrite Hs. by rewrite orb_true_r.
Qed.

End Parked.
