(* ===== verification/Queue.v ===== *)
(** [crates/owney-storage/src/queue.rs]: the durable outbound queue, one row per
    (message, recipient).  A row is queued, claimed (sending), then delivered,
    failed or queued again. *)
From S2P Require Import Prelude Text Ident Store.

Open Scope string_scope.

Record QueueItem := mk_item {
  qi_id : string;
  qi_account : string;
  qi_blob : BlobId;
  qi_mail_from : string;
  qi_recipient : string;
  qi_domain : string;
  qi_attempts : Z;
  qi_next_attempt : Z;
  qi_priority : Z
}.

Inductive AttemptOutcome :=
  | OutDelivered
  | OutRetry (error : string) (next_attempt : Z)
  | OutFailed (error : string).

(** Column writes of the queue's UPDATE statements. *)
Definition set_status (status : string) (now : Z) (q : QueueRow) : QueueRow :=
  mk_queue_row (q_id q) (q_account q) (q_blob q) (q_mail_from q) (q_recipient q) (q_domain q)
    (q_attempts q) (q_next_attempt q) status (q_last_error q) (q_priority q) (q_created_at q) now.

Definition coalesce {A} (o : option A) (d : A) : A := default d o.

Definition finish_row (status : string) (error : option string) (next : option Z) (now : Z)
    (q : QueueRow) : QueueRow :=
  mk_queue_row (q_id q) (q_account q) (q_blob q) (q_mail_from q) (q_recipient q) (q_domain q)
    (q_attempts q + 1) (coalesce next (q_next_attempt q)) status
    (match error with Some e => Some e | None => q_last_error q end)
    (q_priority q) (q_created_at q) now.

(** [x as u32] of a column. *)
Definition as_u32 (z : Z) : Z := (z mod 2 ^ 32)%Z.

(** [Storage::enqueue_with_priority]. *)
Definition enqueue_with_priority (fresh : string) (now : Z) (account : string) (blob : BlobId)
    (mail_from recipient : string) (priority : Z) : SM QueueItem :=
  match rsplit_once "@" recipient with
  | None => fail (BadInput ("recipient " +:+ recipient +:+ " has no domain"))
  | Some (_, domain) =>
      let item := mk_item fresh account blob mail_from recipient (to_lowercase domain) 0 now
                    (Z.min priority 1) in
      require (account_exists account) "FOREIGN KEY constraint failed" ;;;
      require (fun d => negb (existsb (fun q => String.eqb (q_id q) fresh) (queue d)))
        "UNIQUE constraint failed: queue.id" ;;;
      modify (on_queue (fun l => (l ++
        [mk_queue_row fresh account (to_hex blob) mail_from recipient (qi_domain item) 0 now
           "queued" None (qi_priority item) now now])%list)) ;;;
      ret item
  end.

(** [Storage::enqueue]. *)
Definition enqueue (fresh : string) (now : Z) (account : string) (blob : BlobId)
    (mail_from recipient : string) : SM QueueItem :=
  enqueue_with_priority fresh now account blob mail_from recipient 0.

(** [status = 'queued' AND next_attempt <= now]. *)
Definition due (now : Z) (q : QueueRow) : bool :=
  String.eqb (q_status q) "queued" && (q_next_attempt q <=? now)%Z.

(** [ORDER BY priority DESC, next_attempt]. *)
Definition urgent_first (a b : QueueRow) : bool :=
  (q_priority b <? q_priority a)%Z
  || ((q_priority a =? q_priority b)%Z && (q_next_attempt a <=? q_next_attempt b)%Z).

(** The ids the subquery of the claim selects. *)
Definition claim_ids (now limit : Z) (d : Db) : list string :=
  map q_id (sql_limit (as_i64 limit) (order_by urgent_first (List.filter (due now) (queue d)))).

Definition claimed (ids : list string) (q : QueueRow) : bool := existsb (String.eqb (q_id q)) ids.

Section Queue.
Variable parse_uuid : string -> option string.

Definition row_to_item (q : QueueRow) : result StorageError QueueItem :=
  i <-? ok_or (parse_uuid (q_id q)) (Corrupt ("bad queue id " +:+ q_id q)) ;;
  a <-? ok_or (parse_uuid (q_account q)) (Corrupt ("bad account id " +:+ q_account q)) ;;
  b <-? match from_str (q_blob q) with
        | Parsed b => Ok b
        | _ => Err (Corrupt ("bad blob id " +:+ q_blob q))
        end ;;
  Ok (mk_item i a b (q_mail_from q) (q_recipient q) (q_domain q) (as_u32 (q_attempts q))
        (q_next_attempt q) (Z.min (q_priority q mod 256) 1)).

(** [Storage::due_queue_items]: the claim is committed before the rows are
    decoded; the rows come back in table order. *)
Definition due_queue_items (now limit : Z) : SM (list QueueItem) :=
  fun d =>
    let ids := claim_ids now limit d in
    (collect_results (map row_to_item (List.filter (claimed ids) (queue d))),
     on_queue (update_where (claimed ids) (set_status "sending" now)) d).

(** [Storage::record_attempt]. *)
Definition record_attempt (now : Z) (i : string) (outcome : AttemptOutcome) : SM unit :=
  let '(status, error, next) := match outcome with
                                | OutDelivered => ("delivered", None, None)
                                | OutRetry e n => ("queued", Some e, Some n)
                                | OutFailed e => ("failed", Some e, None)
                                end in
  modify (on_queue (update_where (fun q => String.eqb (q_id q) i) (finish_row status error next now))).

(** [Storage::reset_stale_claims]. *)
Definition is_sending (q : QueueRow) : bool := String.eqb (q_status q) "sending".
Definition reset_stale_claims (now : Z) : SM nat :=
  fun d => (Ok (length (List.filter is_sending (queue d))),
            on_queue (update_where is_sending (set_status "queued" now)) d).

(** [Storage::queue_overview]. *)
Definition queue_overview : SM (list (string * string * string * Z * Z * option string)) :=
  gets (fun d =>
    map (fun q => (q_id q, q_recipient q, q_status q, as_u32 (q_attempts q), q_next_attempt q,
                   q_last_error q))
      (order_by (fun a b => (q_next_attempt a <=? q_next_attempt b)%Z)
         (List.filter (fun q => String.eqb (q_status q) "queued" || is_sending q) (queue d)))).

(** [Storage::queue_status]. *)
Definition queue_status (i : string) : SM (option (string * Z * option string)) :=
  gets (fun d => option_map (fun q => (q_status q, as_u32 (q_attempts q), q_last_error q))
    (select_first (fun q => String.eqb (q_id q) i) (queue d))).
End Queue.
