(* ===== verification/Delivery.v ===== *)
(** [crates/owney-delivery]: submission (src/lib.rs), routing (src/router.rs)
    and the queue worker (src/worker.rs).

    The SMTP client, the resolver, the PGP stage and the DKIM signer are
    outside: what each answers is an argument.  Time and fresh ids are arguments
    too; [item_hash] is the standard library's hash of a queue id. *)
From S2P Require Import Prelude Text Bytes Ident Store Mail Queue.

Open Scope string_scope.

Inductive DeliveryError :=
  | DIo (path cause : string)
  | DDkim (what : string)
  | DDns (what : string)
  | DStorage (e : StorageError)
  | DPermanent (what : string)
  | DTemporary (what : string).

(** [Display] of [StorageError] and [DeliveryError]. *)
Definition storage_error_text (e : StorageError) : string :=
  match e with
  | Io path => "io error on " +:+ path
  | Sqlite _ => "database error"
  | Database what => "database error: " +:+ what
  | Crypto what => "crypto failure: " +:+ what
  | Corrupt what => "corrupt data: " +:+ what
  | BadInput what => "bad input: " +:+ what
  | BlobNotFound hex => "blob " +:+ hex +:+ " not found"
  | AccountNotFound => "account not found"
  | NotAuthorized => "not authorized"
  | Conflict what => "conflict: " +:+ what
  | Closed => "storage is shut down"
  | WriterPanicked what => "writer panicked: " +:+ what
  end.

Definition delivery_error_text (e : DeliveryError) : string :=
  match e with
  | DIo path _ => "io error on " +:+ path
  | DDkim what => "dkim: " +:+ what
  | DDns what => "dns: " +:+ what
  | DStorage e => "storage: " +:+ storage_error_text e
  | DPermanent what => "permanent failure: " +:+ what
  | DTemporary what => "temporary failure: " +:+ what
  end.

(** What a submission surface is told. *)
Inductive SubmitError :=
  | Transport (what : string)
  | Refused (what : string).
Definition submit_error_text (e : SubmitError) : string :=
  match e with
  | Transport what => "transport failure: " +:+ what
  | Refused what => "refused: " +:+ what
  end.
(** The [map_err] of [impl Submitter for DeliveryService]. *)
Definition submit_error (e : DeliveryError) : SubmitError :=
  match e with
  | DPermanent what => Refused what
  | DTemporary what | DDkim what | DDns what => Transport what
  | DStorage e => Transport (storage_error_text e)
  | DIo path _ => Transport ("io error on " +:+ path)
  end.

(** ** Retry schedules *)

Definition BACKOFF : list Z := [60; 300; 1800; 7200; 14400; 14400; 28800; 43200; 61200]%Z.
Definition CHAT_BACKOFF : list Z := [30; 120; 600; 3600; 3600; 3600; 3600; 3600; 3600]%Z.

(** ** Routing *)

Record Relay := mk_relay { host : string; port : Z }.

Record Mx := mk_mx { preference : Z; exchange : string; is_root : bool }.

(** What the resolver answers to an MX query. *)
Inductive MxLookup :=
  | MxAnswers (records : list Mx)
  | MxNoRecords
  | MxFailure (what : string).

(** [MxRouter::resolve]. *)
Definition mx_resolve (answer : MxLookup) (domain : string) : result DeliveryError (list Relay) :=
  match answer with
  | MxAnswers records =>
      match records with
      | [mx] => if (preference mx =? 0)%Z && is_root mx
                then Err (DPermanent (domain +:+ " publishes a null MX (does not accept mail)"))
                else Ok [mk_relay (trim_end_matches (Ascii.eqb ".") (exchange mx)) 25]
      | [] => Ok [mk_relay domain 25]
      | _ => Ok (map (fun mx => mk_relay (trim_end_matches (Ascii.eqb ".") (exchange mx)) 25)
                   (order_by (fun a b => (preference a <=? preference b)%Z) records))
      end
  | MxNoRecords => Ok [mk_relay domain 25]
  | MxFailure what => Err (DDns what)
  end.

(** [AnyRouter]. *)
Inductive AnyRouter := RouteMx | RouteStatic (relay : Relay).
Definition any_resolve (r : AnyRouter) (answer : MxLookup) (domain : string)
  : result DeliveryError (list Relay) :=
  match r with
  | RouteMx => mx_resolve answer domain
  | RouteStatic relay => Ok [relay]
  end.

(** ** One attempt *)

(** [mail_send::Error], with its [Display] text; a reply has a code and a
    [Debug] text. *)
Inductive SendError :=
  | UnexpectedReply (code : Z) (debug rendered : string)
  | AuthenticationFailed (rendered : string)
  | OtherSendError (rendered : string).

Definition rendered (e : SendError) : string :=
  match e with
  | UnexpectedReply _ _ r => r
  | AuthenticationFailed r => r
  | OtherSendError r => r
  end.

(** A token shaped [N.N.N]. *)
Definition is_enhanced (tok : string) : bool :=
  match tok with
  | String a (String b (String c (String d (String e EmptyString)))) =>
      is_digit a && Ascii.eqb b "." && is_digit c && Ascii.eqb d "." && is_digit e
  | _ => false
  end.

(** [parse_enhanced_status]. *)
Definition parse_enhanced_status (err : string) : option string :=
  List.find is_enhanced (split_whitespace err).

Definition nth_char (n : nat) (s : string) : ascii := default "000"%char (String.get n s).

(** [map_send_error]. *)
Definition map_send_error (e : SendError) : DeliveryError :=
  let text := rendered e in
  let fallback := match e with
                  | UnexpectedReply code _ _ =>
                      if (500 <=? code)%Z then DPermanent text else DTemporary text
                  | _ => DTemporary text
                  end in
  match e with
  | AuthenticationFailed _ => DPermanent text
  | _ =>
      match parse_enhanced_status text with
      | Some code =>
          if Ascii.eqb (nth_char 0 code) "5"
          then if Ascii.eqb (nth_char 2 code) "2" then DTemporary text else DPermanent text
          else if Ascii.eqb (nth_char 0 code) "4" then DTemporary text
          else fallback
      | None => fallback
      end
  end.

(** What one relay does when the worker talks to it: building the client,
    connecting with TLS, sending over it, connecting in the clear, sending. *)
Record RelayBehaviour := mk_behaviour {
  rb_build : result string unit;
  rb_connect : result SendError unit;
  rb_send : result SendError unit;
  rb_connect_plain : result SendError unit;
  rb_send_plain : result SendError unit
}.

Definition map_err {E E' A} (f : E -> E') (r : result E A) : result E' A :=
  match r with Ok a => Ok a | Err e => Err (f e) end.

(** [deliver_to]. *)
Definition deliver_to (b : RelayBehaviour) : result DeliveryError unit :=
  _ <-? map_err DDns (rb_build b) ;;
  match rb_connect b with
  | Ok _ => map_err map_send_error (rb_send b)
  | Err (UnexpectedReply code debug r) =>
      if (500 <=? code)%Z then Err (DPermanent ("rejected: " +:+ debug))
      else _ <-? map_err map_send_error (rb_connect_plain b) ;; map_err map_send_error (rb_send_plain b)
  | Err _ =>
      _ <-? map_err map_send_error (rb_connect_plain b) ;; map_err map_send_error (rb_send_plain b)
  end.

(** The relay loop of [attempt]: [last] is the error of the latest relay. *)
Fixpoint try_relays (net : Relay -> RelayBehaviour) (relays : list Relay) (last : option DeliveryError)
  : result DeliveryError unit :=
  match relays with
  | [] => Err (default (DTemporary "no relay reachable") last)
  | relay :: rest =>
      match deliver_to (net relay) with
      | Ok _ => Ok tt
      | Err (DPermanent w) => Err (DPermanent w)
      | Err e => try_relays net rest (Some e)
      end
  end.

Section Worker.
Context `{BlobStore}.
Variable parse_uuid : string -> option string.
Variable parse_message : list Z -> option ParsedMessage.
(** [DefaultHasher] over a queue id. *)
Variable item_hash : string -> Z.
(** [DeliveryParams::hostname]: our FQDN. *)
Variable hostname : string.

Abbreviation WM A := (action World StorageError A).

(** [attempt]. *)
Definition attempt (w : World) (resolve : string -> result DeliveryError (list Relay))
    (net : Relay -> RelayBehaviour) (item : QueueItem) : result DeliveryError unit :=
  _ <-? map_err DStorage (blob_get (qi_blob item) (blob_files w)) ;;
  relays <-? resolve (qi_domain item) ;;
  match relays with
  | [] => Err (DTemporary ("no relays for " +:+ qi_domain item))
  | _ => try_relays net relays None
  end.

(** The jitter of a retry: -10 to +10 percent, picked by the id's hash. *)
Definition jitter (i : string) (delay : Z) : Z :=
  let frac := (item_hash i mod 21 - 10)%Z in Z.quot (delay * frac) 100.

(** The outcome [process_item] decides on. *)
Definition outcome_of (now : Z) (item : QueueItem) (r : result DeliveryError unit) : AttemptOutcome :=
  match r with
  | Ok _ => OutDelivered
  | Err (DPermanent error) => OutFailed error
  | Err err =>
      let schedule := if (qi_priority item =? 1)%Z then CHAT_BACKOFF else BACKOFF in
      match schedule !! Z.to_nat (qi_attempts item) with
      | Some delay => OutRetry (delivery_error_text err) (now + delay + jitter (qi_id item) delay)
      | None => OutFailed ("retries exhausted: " +:+ delivery_error_text err)
      end
  end.

(** [str::replace] of one character. *)
Fixpoint replace_char (f : ascii -> bool) (r : string) (s : string) : string :=
  match s with
  | EmptyString => EmptyString
  | String c s' => (if f c then r else String c EmptyString) +:+ replace_char f r s'
  end.
Definition is_crlf (c : ascii) : bool := Ascii.eqb c cr || Ascii.eqb c lf.

(** [build_dsn]. *)
Definition build_dsn (now : Z) (item : QueueItem) (error status_code : string) : string :=
  let boundary := "--MS_DSN_" +:+ pretty now +:+ "_--" in
  let date := default "" (rfc2822_utc now) in
  let safe_error := replace_char is_crlf " " error in
  let safe_sender := replace_char is_crlf "" (qi_mail_from item) in
  let safe_recipient := replace_char is_crlf "" (qi_recipient item) in
  "From: Mail Delivery System <MAILER-DAEMON@" +:+ hostname +:+ ">" +:+ crlf
  +:+ "To: <" +:+ safe_sender +:+ ">" +:+ crlf
  +:+ "Subject: Undelivered Mail Returned to Sender" +:+ crlf
  +:+ "Date: " +:+ date +:+ crlf
  +:+ "MIME-Version: 1.0" +:+ crlf
  +:+ "Auto-Submitted: auto-replied" +:+ crlf
  +:+ "Content-Type: multipart/report; report-type=delivery-status;" +:+ crlf
  +:+ str_of tab +:+ "boundary=" +:+ str_of quote +:+ boundary +:+ str_of quote +:+ crlf
  +:+ crlf
  +:+ "--" +:+ boundary +:+ crlf
  +:+ "Content-Type: text/plain; charset=UTF-8" +:+ crlf
  +:+ "Content-Transfer-Encoding: 8bit" +:+ crlf
  +:+ crlf
  +:+ "Your message to <" +:+ safe_recipient +:+ "> could not be delivered." +:+ crlf
  +:+ crlf
  +:+ "SMTP status: " +:+ status_code +:+ crlf
  +:+ "Final reason: " +:+ safe_error +:+ crlf
  +:+ "Attempts made: " +:+ pretty (qi_attempts item + 1)%Z +:+ crlf
  +:+ crlf
  +:+ "--" +:+ boundary +:+ crlf
  +:+ "Content-Type: message/delivery-status" +:+ crlf
  +:+ crlf
  +:+ "Reporting-MTA: dns; " +:+ hostname +:+ crlf
  +:+ "Final-Recipient: rfc822; " +:+ safe_recipient +:+ crlf
  +:+ "Action: failed" +:+ crlf
  +:+ "Status: " +:+ status_code +:+ crlf
  +:+ "Diagnostic-Code: smtp; " +:+ safe_error +:+ crlf
  +:+ crlf
  +:+ "--" +:+ boundary +:+ crlf
  +:+ "Content-Type: text/rfc822-headers" +:+ crlf
  +:+ crlf
  +:+ "From: " +:+ safe_sender +:+ crlf
  +:+ "To: " +:+ safe_recipient +:+ crlf
  +:+ "Subject: (original subject preserved by client)" +:+ crlf
  +:+ "Date: " +:+ date +:+ crlf
  +:+ crlf
  +:+ "--" +:+ boundary +:+ "--" +:+ crlf.

(** [bounce]: a failure to file the report is only logged. *)
Definition bounce (fresh : Fresh) (now : Z) (item : QueueItem) (error : string) : WM unit :=
  let status_code := default "5.0.0" (parse_enhanced_status error) in
  let dsn := build_dsn now item error status_code in
  fun w => (Ok tt, snd (ingest_email parse_uuid parse_message fresh now (qi_account item)
                          (bytes_of dsn) "inbox" None w)).

(** [process_item]; [unrecorded] is the error the row update meets, if any: then
    the worker returns at once and the claim stays as it is. *)
Definition process_item (fresh : Fresh) (now : Z) (resolve : string -> result DeliveryError (list Relay))
    (net : Relay -> RelayBehaviour) (unrecorded : option StorageError) (item : QueueItem) : WM unit :=
  r <- gets (fun w => attempt w resolve net item) ;;
  let outcome := outcome_of now item r in
  match unrecorded with
  | Some _ => ret tt
  | None =>
      on_db (record_attempt now (qi_id item) outcome) ;;;
      match outcome with
      | OutFailed error => bounce fresh now item error
      | _ => ret tt
      end ;;;
      on_db (publish (Delivery (qi_account item) (qi_id item)
        match outcome with
        | OutDelivered => Delivered (qi_recipient item)
        | OutRetry error _ => TemporaryFailure (qi_recipient item) error
        | OutFailed error => PermanentFailure (qi_recipient item) error
        end))
  end.

(** ** Submission *)

(** [DeliveryService::submit_with_priority]: [pgp] and [sign] are the outbound
    PGP stage and the DKIM signer, [fresh_ids] the queue ids drawn. *)
Definition submit_with_priority (pgp : list Z -> result string (list Z))
    (sign : list Z -> result DeliveryError (list Z)) (fresh : Fresh) (fresh_ids : nat -> string)
    (now : Z) (account mail_from : string) (recipients : list string) (raw : list Z)
    (chat_mode : bool) : action World DeliveryError (list string) :=
  let storage {A} (m : WM A) : action World DeliveryError A :=
    fun w => let '(r, w') := m w in (map_err DStorage r, w') in
  raw <- lift (map_err (fun e => DTemporary ("pgp: " +:+ e)) (pgp raw)) ;;
  header <- lift (sign raw) ;;
  let signed := (header ++ raw)%list in
  ingested <- storage (ingest_email parse_uuid parse_message fresh now account signed "sent" None) ;;
  let priority := if chat_mode then 1%Z else 0%Z in
  for_each (zip (seq 0 (length recipients)) recipients) (fun '(n, recipient) =>
    item <- storage (on_db (enqueue_with_priority (fresh_ids n) now account (in_blob ingested)
                              mail_from recipient priority)) ;;
    storage (on_db (publish (Delivery account (qi_id item) Queued)))) ;;;
  ret (map fresh_ids (seq 0 (length recipients))).
End Worker.
