(* ===== verification/Handler.v ===== *)
(** [bin/owneyd/src/handler.rs]: the mail policy, which ties the SMTP session to
    authentication, spam filtering, PGP, chat preferences and ingestion.

    The state is the whole storage handle; [tick] counts the operations, and the
    clock, fresh ids and entropy are functions of it.  The scanner is a trait
    object ([Box<dyn SpamScanner>]); serde's and float formatting are
    parameters. *)
From S2P Require Import Prelude Text Bytes Ident SmtpSession Authn Store Mail Spam Pgp Chat Queue Delivery.

Open Scope string_scope.

(** [SpamConfig]. *)
Record SpamConfig := mk_spam_config {
  enabled : bool;
  reject_threshold : f32;
  quarantine_threshold : f32;
  dnsbl_zones : list string
}.
Definition default_spam_config : SpamConfig :=
  mk_spam_config true (dec 9 10) (dec 7 10) ["zen.spamhaus.org"].

(** [Display] of [PgpError]. *)
Definition pgp_error_text (e : PgpError) : string :=
  match e with
  | OpenPgp what => "pgp: " +:+ what
  | PgpStorage e => "storage: " +:+ storage_error_text e
  | NoEncryptionKey fingerprint => "no usable encryption key for " +:+ fingerprint
  end.

Section Handler.
Context `{BlobStore} `{MailAuth} `{Sequoia}.
Variable parse_uuid : string -> option string.
Variable parse_message : list Z -> option ParsedMessage.
Variable autocrypt_of : list Z -> option string.
Variable verdict_json : AuthVerdict -> option string.
Variable spam_json : SpamVerdict -> option string.
(** [format!("{:.2}", score)]. *)
Variable show_hundredths : f32 -> string.
(** The scanner: remote address, account id, message, database. *)
Variable scanner : string -> string -> list Z -> Db -> SpamVerdict.

(** What time brings at each operation. *)
Record Clock := mk_clock {
  now_at : nat -> Z;
  fresh_at : nat -> Fresh;
  entropy_at : nat -> Z;
  scan_account_at : nat -> string;
  elapsed_at : nat -> bool
}.
Variable clock : Clock.

(** [ServerCore]. *)
Record ServerCore := mk_server_core {
  core_domain : string;
  core_hostname : string;
  spam_config : SpamConfig
}.
Variable core : ServerCore.

Record CoreState := mk_core_state {
  core_pgp : PgpWorld;
  core_chat : list ChatRow;
  spam_results : list (string * string);
  tick : nat
}.

Definition core_world (s : CoreState) : World := pw_world (core_pgp s).
Definition core_db (s : CoreState) : Db := db (core_world s).
Definition set_world (w : World) (s : CoreState) : CoreState :=
  mk_core_state (mk_pgp_world w (pw_db (core_pgp s))) (core_chat s) (spam_results s) (tick s).
Definition set_pgp (p : PgpWorld) (s : CoreState) : CoreState :=
  mk_core_state p (core_chat s) (spam_results s) (tick s).
Definition advance (s : CoreState) : CoreState :=
  mk_core_state (core_pgp s) (core_chat s) (spam_results s) (S (tick s)).
Definition now (s : CoreState) : Z := now_at clock (tick s).

(** ** [rcpt] *)

Definition handler_rcpt (address : string) (s : CoreState) : RcptVerdict * CoreState :=
  let address := to_lowercase (trim address) in
  match rsplit_once "@" address with
  | None => (UnknownUser, advance s)
  | Some (_, domain) =>
      if negb (String.eqb domain (core_domain core)) then (NotLocal, advance s)
      else match fst (resolve_recipient parse_uuid (now s) address (core_db s)) with
           | Ok (Some _) => (Accept, advance s)
           | Ok None => (UnknownUser, advance s)
           | Err _ => (TryAgainLater, advance s)
           end
  end.

(** ** [deliver] *)

Abbreviation HM A := (action CoreState DeliverError A).

(** Runs a storage operation; an error becomes a temporary failure. *)
Definition on_storage {A} (m : action World StorageError A) : HM A :=
  fun s => let '(r, w) := m (core_world s) in
           (match r with Ok a => Ok a | Err e => Err (Temporary (storage_error_text e)) end,
            set_world w s).

Definition publish_security (account : string) (address : string) : HM unit :=
  on_storage (on_db (publish (Security (Some account) OtherKind ("PGP key changed for " +:+ address)))).

(** [Storage::set_spam_verdict], whose result is dropped: the column is kept
    beside the rows of [emails], by id. *)
Definition set_spam_verdict (i json : string) : HM unit :=
  modify (fun s =>
    if email_exists i (core_db s)
    then mk_core_state (core_pgp s) (core_chat s)
           ((i, json) :: List.filter (fun p => negb (String.eqb p.1 i)) (spam_results s)) (tick s)
    else s).

Definition chat_mode_of (m : ChatMode) : bool :=
  match m with AutoChat => true | NeverChat => false | RespectSender => false end.

(** The body of the loop over the recipients. *)
Definition deliver_one (mail : InboundMail) (verdict : AuthVerdict) (spam : SpamVerdict) (raw : list Z)
    (recipient : string) : HM unit :=
  t <- gets tick ;;
  found <- on_storage (on_db (resolve_recipient parse_uuid (now_at clock t) recipient)) ;;
  account <- lift (ok_or found (Temporary (recipient +:+ " vanished after RCPT"))) ;;
  pgp <- (fun s =>
    let '(r, p) := inbound parse_uuid parse_message autocrypt_of (now_at clock t) (entropy_at clock t)
                     (id account) raw (core_pgp s) in
    (match r with Ok o => Ok o | Err e => Err (Temporary ("pgp: " +:+ pgp_error_text e)) end,
     set_pgp p s)) ;;
  for_each (io_key_changes pgp) (publish_security (id account)) ;;;
  let mailbox := if f32_ge (score spam) (quarantine_threshold (spam_config core))
                 then "junk" else "inbox" in
  preference <- gets (fun s => preference_of (mk_chat_db (accounts (core_db s)) (core_chat s))
                                 (id account) (mail_sender mail)) ;;
  ingested <- on_storage (ingest_email_with_chat parse_uuid parse_message (fresh_at clock t)
                            (now_at clock t) (id account) (io_raw pgp) mailbox (verdict_json verdict)
                            (chat_mode_of preference)) ;;
  match spam_json spam with Some json => set_spam_verdict (in_id ingested) json | None => ret tt end ;;;
  match io_pgp_status pgp with
  | Some status => on_storage (on_db (set_pgp_status (in_id ingested) status))
  | None => ret tt
  end ;;;
  modify advance.

(** The verdict of the scanner, run once for all recipients under a fresh
    account id. *)
Definition scan_mail (mail : InboundMail) (s : CoreState) : SpamVerdict :=
  if enabled (spam_config core)
  then scanner (mail_remote mail) (scan_account_at clock (tick s)) (bytes_of (mail_raw mail)) (core_db s)
  else default_verdict.

Definition auth_verdict (mail : InboundMail) (s : CoreState) : AuthVerdict :=
  verify (core_hostname core) (elapsed_at clock (tick s))
    (mk_auth_input (mail_remote mail) (mail_helo mail) (mail_sender mail) (bytes_of (mail_raw mail))).

(** The message with our verdict in front. *)
Definition stamped (verdict : AuthVerdict) (mail : InboundMail) : list Z :=
  (bytes_of ("Authentication-Results: " +:+ authentication_results verdict (core_hostname core) +:+ crlf)
   ++ bytes_of (mail_raw mail))%list.

Definition handler_deliver (mail : InboundMail) : HM unit :=
  fun s =>
    let verdict := auth_verdict mail s in
    let spam := scan_mail mail s in
    if f32_ge (score spam) (reject_threshold (spam_config core))
    then (Err (Permanent ("message rejected: spam score " +:+ show_hundredths (score spam))), s)
    else for_each (mail_recipients mail) (deliver_one mail verdict spam (stamped verdict mail)) s.

(** The policy the SMTP listener is given. *)
Definition server_core : MailHandler CoreState := mk_handler _ handler_rcpt handler_deliver.
End Handler.
