(* ===== verification/JmapMail.v ===== *)
(** [crates/owney-jmap-mail/src/lib.rs] and [attribute_methods.rs]: the JMAP methods on
    mail, threads, submissions and chat preferences, over the storage operations.

    A method is an action on [MailState]; each storage call is one step of it, and
    [ms_ticks] counts them, so that the clock and the ids drawn are functions of it.
    The decoding of an argument object by serde's derived code is [FromValue]; the
    MIME parser, the search index and the submitter are parameters. *)
From S2P Require Import Prelude Text Bytes Ident Json JmapEnvelope Store Mail MailQueries Spam Chat Delivery Attributes.

Open Scope string_scope.

Definition MAIL_CAPABILITY : string := "urn:ietf:params:jmap:mail".
Definition SUBMISSION_CAPABILITY : string := "urn:ietf:params:jmap:submission".
Definition ATTRIBUTES_CAPABILITY : string := "urn:owney:params:jmap:attributes".

(** ** JSON values *)

Definition field (k : string) (v : Value) : option Value :=
  match v with Object m => map_get k m | _ => None end.
Definition as_str (v : Value) : option string := match v with Str s => Some s | _ => None end.
Definition as_bool (v : Value) : option bool := match v with Bool b => Some b | _ => None end.
Definition as_array (v : Value) : option (list Value) := match v with Array l => Some l | _ => None end.
Definition as_object (v : Value) : option (list (string * Value)) := match v with Object m => Some m | _ => None end.

Definition nullable (o : option string) : Value := match o with Some s => Str s | None => Null end.
Definition strings (l : list string) : Value := Array (map Str l).
Definition set_of (l : list string) : Value := json_object (map (fun k => (k, Bool true)) l).

(** [mail_capability] and [attributes_capability]. *)
Definition mail_capability : Value :=
  json_object [("maxMailboxesPerEmail", Number 32); ("maxMailboxDepth", Number 10);
    ("maxSizeMailboxName", Number 200); ("maxSizeAttachmentsPerEmail", Number 50000000);
    ("emailQuerySortOptions", strings ["receivedAt"]); ("mayCreateTopLevelMailbox", Bool true)].
Definition attributes_capability : Value :=
  json_object [("kinds", strings ["unsubscribe"; "summary"; "calendarInvite"]); ("mayDismiss", Bool true)].

(** ** Arguments *)

Class FromValue (A : Type) := { from_value : Value -> result string A }.

Record GetArgs := mk_get_args {
  ga_account_id : string;
  ga_ids : option (list string);
  ga_properties : option (list string);
  ga_fetch_text_body_values : bool
}.

Record QueryFilter := mk_filter {
  qf_in_mailbox : option string;
  qf_has_keyword : option string;
  qf_not_keyword : option string;
  qf_text : option string;
  qf_after : option Z;
  qf_before : option Z;
  qf_all_in_thread : option string;
  qf_is_flagged : option bool;
  qf_is_unread : option bool
}.
Record QueryArgs := mk_query_args {
  qa_account_id : string;
  qa_filter : option QueryFilter;
  qa_position : option Z;
  qa_limit : option Z
}.

Record ChangesArgs := mk_changes_args {
  ca_account_id : string;
  ca_since_state : string;
  ca_max_changes : option Z
}.

Record SetArgs := mk_set_args {
  sa_account_id : string;
  sa_create : option (list (string * Value));
  sa_update : option (list (string * Value))
}.

Record ChatPrefSetArgs := mk_chat_args {
  pa_account_id : string;
  pa_create : option (list (string * Value));
  pa_update : option (list (string * Value));
  pa_destroy : option (list string)
}.

Record DismissArgs := mk_dismiss_args {
  da_account_id : string;
  da_email_id : string;
  da_kind : string
}.

(** ** Property subsets *)

Definition EMAIL_PROPERTIES : list string :=
  ["id"; "blobId"; "threadId"; "mailboxIds"; "keywords"; "size"; "receivedAt"; "sender"; "from"; "to";
   "cc"; "bcc"; "replyTo"; "subject"; "messageId"; "inReplyTo"; "snippet"; "bodyValues"; "textBody";
   "htmlBody"; "attachments"; "hasAttachment"; "preview"; "sentAt"; "authResults"; "pgpStatus";
   "chatMode"; "serverAttributes"].
Definition MAILBOX_PROPERTIES : list string :=
  ["id"; "name"; "parentId"; "role"; "sortOrder"; "totalEmails"; "unreadEmails"; "totalThreads";
   "unreadThreads"; "myRights"].

Definition listed (k : string) (l : list string) : bool := existsb (String.eqb k) l.

(** [Subset::from_list]; [debug] is [{:?}] of a text. *)
Definition from_list (debug : string -> string) (type_name : string) (requested : list string)
  : result MethodError (option (list string)) :=
  allowed <-? (if String.eqb type_name "Email" then Ok EMAIL_PROPERTIES
               else if String.eqb type_name "Mailbox" then Ok MAILBOX_PROPERTIES
               else Err (InvalidArguments (type_name +:+ "/get does not accept a properties filter"))) ;;
  match List.find (fun p => negb (listed p allowed)) requested with
  | Some p => Err (InvalidArguments ("unknown property " +:+ debug p +:+ " in " +:+ type_name +:+ "/get"))
  | None => Ok (Some requested)
  end.

(** [Subset::select] and [project]. *)
Definition select (requested : list string) (full : list (string * Value)) : list (string * Value) :=
  List.filter (fun '(k, _) => listed k requested) full.
Definition project (subset : option (list string)) (full : list (string * Value)) : list (string * Value) :=
  match subset with Some requested => select requested full | None => full end.

Definition subset_of (debug : string -> string) (type_name : string) (properties : option (list string))
  : result MethodError (option (list string)) :=
  match properties with None => Ok None | Some l => from_list debug type_name l end.

(** ** Objects *)

Definition RIGHTS : list string :=
  ["mayReadItems"; "mayAddItems"; "mayRemoveItems"; "maySetSeen"; "maySetKeywords"; "mayCreateChild";
   "mayRename"; "mayDelete"; "maySubmit"].

(** [mailbox_json]: the fields of the object. *)
Definition mailbox_json (m : MailboxInfo) : list (string * Value) :=
  map_of_list
    [("id", Str (mi_id m)); ("name", Str (mi_name m)); ("parentId", nullable (mi_parent_id m));
     ("role", nullable (mi_role m)); ("sortOrder", Number (mi_sort_order m));
     ("totalEmails", Number (Z.of_nat (mi_total_emails m)));
     ("unreadEmails", Number (Z.of_nat (mi_unread_emails m)));
     ("totalThreads", Null); ("unreadThreads", Null); ("myRights", set_of RIGHTS); ("isSubscribed", Bool true)].

(** [mailbox_projected]. *)
Definition mailbox_projected (m : MailboxInfo) (subset : option (list string)) : list (string * Value) :=
  project subset (mailbox_json m).

(** What [mail_parser] shows of a message. *)
Definition Address : Type := option string * option string.      (* name, address *)
Record MessageView := mk_view {
  mv_from : option (list Address);
  mv_to : option (list Address);
  mv_cc : option (list Address);
  mv_bcc : option (list Address);
  mv_date : option string;
  mv_body_text : option string
}.

(** [addresses]. *)
Definition addresses (l : option (list Address)) : Value :=
  match l with
  | None => Null
  | Some l => Array (map (fun '(name, address) =>
                json_object [("name", nullable name); ("email", Str (default "" address))]) l)
  end.

(** The first [n] characters of UTF-8 text. *)
Fixpoint take_chars (n : nat) (s : string) : string :=
  match s with
  | EmptyString => EmptyString
  | String c s' =>
      if continuation c then String c (take_chars n s')
      else match n with O => EmptyString | S n' => String c (take_chars n' s') end
  end.

(** ** Composing a message *)

(** [address_list] of [compose_from_jmap]. *)
Definition address_text (entry : Value) : option string :=
  e ← field "email" entry; mail ← as_str e;
  Some match n ← field "name" entry; as_str n with
       | Some name => if String.eqb name "" then "<" +:+ mail +:+ ">" else name +:+ " <" +:+ mail +:+ ">"
       | None => "<" +:+ mail +:+ ">"
       end.
Definition address_list (value : option Value) : list string :=
  match v ← value; as_array v with
  | Some l => flat_map (fun entry => match address_text entry with Some t => [t] | None => [] end) l
  | None => []
  end.

(** [str::replace('\n', "\r\n")]. *)
Fixpoint crlf_lines (s : string) : string :=
  match s with
  | EmptyString => EmptyString
  | String c s' => if Ascii.eqb c lf then crlf +:+ crlf_lines s' else String c (crlf_lines s')
  end.

Definition body_of (object : Value) : string :=
  default "" (v ← field "textBody" object; parts ← as_array v; part ← head parts;
              i ← field "partId" part; part_id ← as_str i;
              values ← field "bodyValues" object; b ← field part_id values; t ← field "value" b; as_str t).

(** [compose_from_jmap]; [now] and [id] are the clock and a new UUID. *)
Definition compose_from_jmap (account : Account) (object : Value) (now : Z) (id : string) : list Z :=
  let from := match address_list (field "from" object) with
              | [] => match display_name account with
                      | Some name => name +:+ " <" +:+ email account +:+ ">"
                      | None => "<" +:+ email account +:+ ">"
                      end
              | provided => join ", " provided
              end in
  let to := address_list (field "to" object) in
  let cc := address_list (field "cc" object) in
  let subject := default "" (s ← field "subject" object; as_str s) in
  let body := crlf_lines (body_of object) in
  let domain := match rsplit_once "@" (email account) with Some (_, d) => d | None => "local" end in
  let headers :=
    "From: " +:+ from +:+ crlf +:+ "Subject: " +:+ subject +:+ crlf
    +:+ "Date: " +:+ default "" (rfc2822_utc now) +:+ crlf
    +:+ "Message-ID: <" +:+ id +:+ "@" +:+ domain +:+ ">" +:+ crlf
    +:+ "MIME-Version: 1.0" +:+ crlf +:+ "Content-Type: text/plain; charset=utf-8" +:+ crlf
    +:+ match to with [] => "" | _ => "To: " +:+ join ", " to +:+ crlf end
    +:+ match cc with [] => "" | _ => "Cc: " +:+ join ", " cc +:+ crlf end in
  bytes_of (headers +:+ crlf +:+ body).

(** ** Methods *)

Definition opt_field {A} (f : A -> Value) (o : option A) : Value := match o with Some a => f a | None => Null end.
(** [u64::to_string] and [FromStr]. *)
Definition parse_u64 : string -> option Z := parse_int 0 (2 ^ 64 - 1).
Definition invalid_properties (description : string) : Value :=
  json_object [("type", Str "invalidProperties"); ("description", Str description)].

(** The cases of a patch. *)
Inductive PatchKey :=
  | AllKeywords
  | OneKeyword (k : string)
  | AllMailboxes
  | OneMailbox (m : string)
  | OtherProperty.
Definition patch_key (key : string) : PatchKey :=
  if String.eqb key "keywords" then AllKeywords
  else match strip_prefix "keywords/" key with
       | Some k => OneKeyword k
       | None =>
           if String.eqb key "mailboxIds" then AllMailboxes
           else match strip_prefix "mailboxIds/" key with
                | Some m => OneMailbox m
                | None => OtherProperty
                end
       end.

Definition switch (key : string) (value : Value) (x : string) (l : list string) : result string (list string) :=
  match value with
  | Bool true => Ok (if listed x l then l else (l ++ [x])%list)
  | Bool false | Null => Ok (List.filter (fun k => negb (String.eqb k x)) l)
  | _ => Err ("bad value for " +:+ key)
  end.

(** The loop over the patch: the new keywords and mailboxes, [None] when unmentioned. *)
Fixpoint read_patch (row : EmailInfo) (patch : list (string * Value)) (keywords mailbox_ids : option (list string))
  : result string (option (list string) * option (list string)) :=
  match patch with
  | [] => Ok (keywords, mailbox_ids)
  | (key, value) :: rest =>
      match patch_key key with
      | AllKeywords =>
          match value with
          | Object m => read_patch row rest (Some (map_keys m)) mailbox_ids
          | _ => Err "keywords must be an object"
          end
      | OneKeyword k =>
          l <-? switch key value (to_lowercase k) (default (ei_keywords row) keywords) ;;
          read_patch row rest (Some l) mailbox_ids
      | AllMailboxes =>
          match value with
          | Object m => read_patch row rest keywords (Some (map_keys m))
          | _ => Err "mailboxIds must be an object"
          end
      | OneMailbox m =>
          l <-? switch key value m (default (ei_mailbox_ids row) mailbox_ids) ;;
          read_patch row rest keywords (Some l)
      | OtherProperty => Err ("unsupported property " +:+ key)
      end
  end.

Section Methods.
Context `{BlobStore} `{FromValue GetArgs} `{FromValue QueryArgs} `{FromValue ChangesArgs} `{FromValue SetArgs}
  `{FromValue ChatPrefSetArgs} `{FromValue DismissArgs}.
Variable parse_uuid : string -> option string.
Variable parse_message : list Z -> option ParsedMessage.
Variable view_message : list Z -> option MessageView.
Variable value_of_text : string -> option Value.
Variable debug : string -> string.
Variable run_raw_sql : string -> Db -> result StorageError (list string).
Variable run_raw_count : string -> Db -> result StorageError nat.
(** The full-text index: account, text, limit. *)
Variable search : string -> string -> nat -> list string.
(** Unicode's tables and the order of a [HashSet], for the tokenizer. *)
Variables unicode_alphabetic unicode_numeric : string -> bool.
Variable unicode_lower : string -> string.
Variable hash_order : list string -> list string.
Variables (now_at : nat -> Z) (fresh_at : nat -> Fresh) (uuid_at : nat -> string).

Record MailState := mk_mail_state {
  ms_world : World;
  ms_chat : list ChatRow;
  ms_attributes : list AttributeRow;
  ms_ticks : nat
}.
Abbreviation JM A := (action MailState MethodError A).
(** A step of an inner block, whose error is a text. *)
Abbreviation TM A := (action MailState string A).

(** [JmapCtx]; the submitter is absent in read-only deployments. *)
Record JmapCtx := mk_ctx {
  cx_account : Account;
  cx_submitter : option (string -> string -> list string -> list Z -> bool -> action World string (list string))
}.

Definition with_error {E F A} (h : E -> F) (m : action MailState E A) : action MailState F A :=
  fun s => let '(r, s') := m s in (match r with Ok a => Ok a | Err e => Err (h e) end, s').
(** A storage call. *)
Definition on_world {E A} (m : nat -> action World E A) : action MailState E A :=
  fun s => let '(r, w) := m (ms_ticks s) (ms_world s) in
           (r, mk_mail_state w (ms_chat s) (ms_attributes s) (S (ms_ticks s))).
Definition on_store {A} (m : nat -> SM A) : action MailState StorageError A := on_world (fun n => on_db (m n)).
Definition on_chat {A} (m : nat -> action ChatDb StorageError A) : action MailState StorageError A :=
  fun s => let '(r, d) := m (ms_ticks s) (mk_chat_db (accounts (db (ms_world s))) (ms_chat s)) in
           (r, mk_mail_state (ms_world s) (chat_rows d) (ms_attributes s) (S (ms_ticks s))).
Definition on_attributes {A} (m : nat -> action AttrDb StorageError A) : action MailState StorageError A :=
  fun s => let '(r, d) := m (ms_ticks s) (mk_attr_db (db (ms_world s)) (ms_attributes s)) in
           (r, mk_mail_state (mk_world (at_core d) (blob_files (ms_world s)) (index_tasks (ms_world s)))
                 (ms_chat s) (at_rows d) (S (ms_ticks s))).
Definition draw {E A} (f : nat -> A) : action MailState E A :=
  fun s => (Ok (f (ms_ticks s)), mk_mail_state (ms_world s) (ms_chat s) (ms_attributes s) (S (ms_ticks s))).

(** [storage_err], here and in [attribute_methods.rs]. *)
Definition storage_err (e : StorageError) : MethodError := ServerFail (storage_error_text e).
Definition attribute_err (e : StorageError) : MethodError :=
  match e with
  | NotAuthorized => Forbidden
  | BadInput msg => InvalidArguments msg
  | other => ServerFail (storage_error_text other)
  end.
Definition in_text {A} : action MailState StorageError A -> TM A := with_error storage_error_text.
Definition in_method {A} : action MailState StorageError A -> JM A := with_error storage_err.

(** [parse]. *)
Definition parse {A} `{FromValue A} (args : Value) : result MethodError A :=
  match from_value args with Ok a => Ok a | Err e => Err (InvalidArguments e) end.

(** [check_account]. *)
Definition check_account (ctx : JmapCtx) (account_id : string) : result MethodError string :=
  if String.eqb account_id (id (cx_account ctx)) then Ok (id (cx_account ctx)) else Err JmapEnvelope.AccountNotFound.

Definition the_state (account : string) (t : DataType) : JM Z := in_method (on_store (fun _ => state account t)).

(** [mailbox_get]. *)
Definition mailbox_get (args : Value) (ctx : JmapCtx) : JM Value :=
  args <- lift (parse (A := GetArgs) args) ;;
  account <- lift (check_account ctx (ga_account_id args)) ;;
  subset <- lift (subset_of debug "Mailbox" (ga_properties args)) ;;
  mailboxes <- in_method (on_store (fun _ => mailbox_list account)) ;;
  st <- the_state account Mailbox ;;
  let show := fun m => Object (mailbox_projected m subset) in
  let with_id := fun i => List.find (fun m => String.eqb (mi_id m) i) mailboxes in
  let l := match ga_ids args with
           | None => map show mailboxes
           | Some ids => flat_map (fun i => match with_id i with Some m => [show m] | None => [] end) ids
           end in
  let not_found := match ga_ids args with
                   | None => []
                   | Some ids => List.filter (fun i => match with_id i with Some _ => false | None => true end) ids
                   end in
  ret (json_object [("accountId", Str (ga_account_id args)); ("state", Str (pretty st));
                    ("list", Array l); ("notFound", strings not_found)]).

Definition attribute_json (a : EmailAttribute) : Value :=
  json_object [("value", default (Str (at_content a)) (value_of_text (at_content a)));
               ("dismissed", Bool (match at_dismissed_at a with Some _ => true | None => false end));
               ("createdAt", Str (iso8601_utc (at_created_at a)));
               ("updatedAt", Str (iso8601_utc (at_updated_at a)))].

(** The properties of [email_json] that the database holds. *)
Definition email_row_json (row : EmailInfo) (attributes : list EmailAttribute) : Value :=
  let e := ei_row row in
  json_object
    [("id", Str (e_id e)); ("blobId", Str (e_blob e)); ("threadId", Str (e_thread e));
     ("mailboxIds", set_of (ei_mailbox_ids row)); ("keywords", set_of (ei_keywords row));
     ("size", Number (e_size e)); ("receivedAt", Str (iso8601_utc (e_received_at e)));
     ("messageId", opt_field (fun i => strings [i]) (e_message_id e)); ("subject", nullable (e_subject e));
     ("pgpStatus", default Null (s ← e_pgp_status e; value_of_text s)); ("chatMode", Bool (e_chat_mode e));
     ("serverAttributes", json_object (map (fun a => (at_kind a, attribute_json a)) attributes))].

(** The properties read from the message. *)
Definition email_parsed_json (email : Value) (blob : string) (fetch_body : bool) (m : MessageView) : Value :=
  let email := set_field "from" (addresses (mv_from m)) email in
  let email := set_field "to" (addresses (mv_to m)) email in
  let email := set_field "cc" (addresses (mv_cc m)) email in
  let email := set_field "sentAt" (nullable (mv_date m)) email in
  let body := default "" (mv_body_text m) in
  let email := set_field "preview" (Str (take_chars 200 body)) email in
  if fetch_body then
    let email := set_field "bodyValues" (json_object [("1", json_object
      [("value", Str body); ("isTruncated", Bool false); ("isEncodingProblem", Bool false)])]) email in
    set_field "textBody" (Array [json_object
      [("partId", Str "1"); ("blobId", Str blob); ("type", Str "text/plain")]]) email
  else email.

(** [email_json]. *)
Definition email_json (account : string) (row : EmailInfo) (fetch_body : bool) : JM Value :=
  email_id <- lift (ok_or (parse_uuid (e_id (ei_row row))) (ServerFail "bad email id")) ;;
  attributes <- in_method (on_attributes (fun _ => list_email_attributes account email_id)) ;;
  let email := email_row_json row attributes in
  match from_str (e_blob (ei_row row)) with
  | Parsed blob =>
      raw <- in_method (on_world (fun _ => get_blob blob)) ;;
      ret match view_message raw with
          | Some m => email_parsed_json email (e_blob (ei_row row)) fetch_body m
          | None => email
          end
  | _ => fail (ServerFail "bad blob id")
  end.

Fixpoint email_list (account : string) (subset : option (list string)) (fetch_body : bool) (rows : list EmailInfo)
  : JM (list Value) :=
  match rows with
  | [] => ret []
  | row :: rest =>
      full <- email_json account row fetch_body ;;
      m <- lift (ok_or (as_object full) (InvalidArguments "internal: email not object")) ;;
      others <- email_list account subset fetch_body rest ;;
      ret (Object (project subset m) :: others)
  end.

Definition parsed_ids (ids : list string) : list string :=
  flat_map (fun i => match parse_uuid i with Some u => [u] | None => [] end) ids.

(** [email_get]. *)
Definition email_get (args : Value) (ctx : JmapCtx) : JM Value :=
  args <- lift (parse (A := GetArgs) args) ;;
  account <- lift (check_account ctx (ga_account_id args)) ;;
  ids <- lift (ok_or (ga_ids args) (InvalidArguments "Email/get requires ids")) ;;
  subset <- lift (subset_of debug "Email" (ga_properties args)) ;;
  rows <- in_method (on_store (fun _ => emails_by_ids account (parsed_ids ids))) ;;
  st <- the_state account Email ;;
  l <- email_list account subset (ga_fetch_text_body_values args) rows ;;
  let not_found := List.filter (fun i => negb (existsb (fun r => String.eqb (e_id (ei_row r)) i) rows)) ids in
  ret (json_object [("accountId", Str (ga_account_id args)); ("state", Str (pretty st));
                    ("list", Array l); ("notFound", strings not_found)]).

(** [email_query]. *)
Definition email_query (args : Value) (ctx : JmapCtx) : JM Value :=
  args <- lift (parse (A := QueryArgs) args) ;;
  account <- lift (check_account ctx (qa_account_id args)) ;;
  let position := Z.max (default 0%Z (qa_position args)) 0 in
  let limit := Z.min (default 50%Z (qa_limit args)) 500 in
  let opt {A} (f : QueryFilter -> option A) : option A := fl ← qa_filter args; f fl in
  let mailbox := opt qf_in_mailbox in
  let after := opt qf_after in
  let before := opt qf_before in
  let thread := opt qf_all_in_thread in
  let flagged := opt qf_is_flagged in
  let unread := opt qf_is_unread in
  let some {A} (o : option A) : bool := match o with Some _ => true | None => false end in
  answer <- match opt qf_text with
    | Some text =>
        fresh <- draw uuid_at ;;
        filtered <- in_method (on_store (fun _ =>
          filter_emails parse_uuid run_raw_sql fresh account (search account text 1000) mailbox
            (opt qf_has_keyword) (opt qf_not_keyword) after before thread flagged unread)) ;;
        st <- the_state account Email ;;
        ret (take (Z.to_nat limit) (drop (Z.to_nat position) filtered), length filtered, st)
    | None =>
        if some after || some before || some thread || some flagged || some unread
        then in_method (on_store (fun _ =>
               query_emails_with_filters run_raw_sql run_raw_count account mailbox after before thread
                 flagged unread position limit))
        else in_method (on_store (fun _ => query_emails account mailbox position limit))
    end ;;
  let '(ids, total, st) := answer in
  ret (json_object [("accountId", Str (qa_account_id args)); ("queryState", Str (pretty st));
                    ("canCalculateChanges", Bool false); ("position", Number position);
                    ("ids", strings ids); ("total", Number (Z.of_nat total))]).

(** [changes], registered for mailboxes, emails and threads. *)
Definition changes (t : DataType) (args : Value) (ctx : JmapCtx) : JM Value :=
  args <- lift (parse (A := ChangesArgs) args) ;;
  account <- lift (check_account ctx (ca_account_id args)) ;;
  since <- lift (ok_or (parse_u64 (ca_since_state args)) CannotCalculateChanges) ;;
  result <- in_method (on_store (fun _ => changes_since account t since (default 256%Z (ca_max_changes args)))) ;;
  ret (json_object [("accountId", Str (ca_account_id args)); ("oldState", Str (ca_since_state args));
                    ("newState", Str (pretty (new_state result))); ("hasMoreChanges", Bool (has_more result));
                    ("created", strings (created result)); ("updated", strings (updated result));
                    ("destroyed", Array [])]).

(** [thread_get]. *)
Definition thread_get (args : Value) (ctx : JmapCtx) : JM Value :=
  args <- lift (parse (A := GetArgs) args) ;;
  account <- lift (check_account ctx (ga_account_id args)) ;;
  ids <- lift (ok_or (ga_ids args) (InvalidArguments "Thread/get requires ids")) ;;
  threads <- in_method (on_store (fun _ => thread_emails account (parsed_ids ids))) ;;
  st <- the_state account Thread ;;
  let l := map (fun '(i, email_ids) => json_object [("id", Str i); ("emailIds", strings email_ids)]) threads in
  let not_found := List.filter (fun i => negb (existsb (fun t => String.eqb t.1 i) threads)) ids in
  ret (json_object [("accountId", Str (ga_account_id args)); ("state", Str (pretty st));
                    ("list", Array l); ("notFound", strings not_found)]).

(** ** Email/set *)

(** [apply_create]. *)
Definition apply_create (ctx : JmapCtx) (account : string) (object : Value) : TM Value :=
  let mailbox_ids := default [] (option_map map_keys (v ← field "mailboxIds" object; as_object v)) in
  mailbox <- lift (first <-? ok_or (head mailbox_ids) "mailboxIds is required" ;;
                   ok_or (parse_uuid first) "bad mailbox id") ;;
  let chat_mode := default false (v ← field "chatMode" object; as_bool v) in
  raw <- draw (fun n => compose_from_jmap (cx_account ctx) object (now_at n) (uuid_at n)) ;;
  ingested <- in_text (on_world (fun n => ingest_email_into parse_uuid parse_message (fresh_at n) (now_at n)
                                            account raw (Id mailbox) None chat_mode)) ;;
  match v ← field "keywords" object; as_object v with
  | Some keywords => in_text (on_store (fun _ => update_email account (in_id ingested) (Some (map_keys keywords)) None))
  | None => ret tt
  end ;;;
  ret (json_object [("id", Str (in_id ingested)); ("blobId", Str (to_hex (in_blob ingested)));
                    ("threadId", Str (in_thread ingested))]).

Definition is_junk (keywords : list string) : bool := listed "$junk" keywords.

Fixpoint parse_mailboxes (ids : list string) : result string (list string) :=
  match ids with
  | [] => Ok []
  | i :: rest => m <-? ok_or (parse_uuid i) ("bad mailbox id " +:+ i) ;; l <-? parse_mailboxes rest ;; Ok (m :: l)
  end.

(** Training when the junk keyword came or went; a failure is dropped. *)
Definition train (account : string) (row : EmailInfo) (spam : bool) : TM unit :=
  match from_str (e_blob (ei_row row)) with
  | Parsed blob => fun s =>
      match on_world (fun _ => get_blob blob) s with
      | (Ok raw, s') => (Ok tt, snd (on_store (fun _ => train_spam_tokens account (tokenize unicode_alphabetic unicode_numeric unicode_lower hash_order raw) spam) s'))
      | (Err _, s') => (Ok tt, s')
      end
  | _ => fail "bad blob"
  end.

(** [apply_update]. *)
Definition apply_update (account i : string) (patch : Value) : TM unit :=
  email_id <- lift (ok_or (parse_uuid i) ("bad id " +:+ i)) ;;
  patch <- lift (ok_or (as_object patch) "patch must be an object") ;;
  rows <- in_text (on_store (fun _ => emails_by_ids account [email_id])) ;;
  row <- lift (ok_or (head rows) ("no email " +:+ i)) ;;
  new <- lift (read_patch row patch None None) ;;
  let '(keywords, mailbox_ids) := new in
  mailbox_ids <- lift (match mailbox_ids with
                       | Some ids => l <-? parse_mailboxes ids ;; Ok (Some l)
                       | None => Ok None
                       end) ;;
  let old_is_junk := is_junk (ei_keywords row) in
  let new_is_junk := match keywords with Some kw => is_junk kw | None => old_is_junk end in
  in_text (on_store (fun _ => update_email account email_id keywords mailbox_ids)) ;;;
  if Bool.eqb old_is_junk new_is_junk then ret tt else train account row new_is_junk.

(** A loop over a map: what succeeded and what failed, each under its key. *)
Fixpoint each (l : list (string * Value)) (body : string -> Value -> TM Value) (done_ failed : list (string * Value))
  : JM (list (string * Value) * list (string * Value)) :=
  match l with
  | [] => ret (done_, failed)
  | (k, v) :: rest => fun s =>
      match body k v s with
      | (Ok x, s') => each rest body (map_insert k x done_) failed s'
      | (Err description, s') => each rest body done_ (map_insert k (invalid_properties description) failed) s'
      end
  end.

(** [email_set]. *)
Definition email_set (args : Value) (ctx : JmapCtx) : JM Value :=
  args <- lift (parse (A := SetArgs) args) ;;
  account <- lift (check_account ctx (sa_account_id args)) ;;
  old <- the_state account Email ;;
  c <- each (default [] (sa_create args)) (fun _ object => apply_create ctx account object) [] [] ;;
  u <- each (default [] (sa_update args)) (fun i patch => apply_update account i patch ;;; ret Null) [] [] ;;
  new <- the_state account Email ;;
  ret (json_object [("accountId", Str (sa_account_id args)); ("oldState", Str (pretty old));
                    ("newState", Str (pretty new)); ("updated", Object (fst u)); ("notUpdated", Object (snd u));
                    ("created", Object (fst c)); ("notCreated", Object (snd c)); ("destroyed", Array [])]).

(** ** Identities, chat preferences, attributes *)

(** [identity_get]. *)
Definition identity_get (args : Value) (ctx : JmapCtx) : JM Value :=
  args <- lift (parse (A := GetArgs) args) ;;
  _account <- lift (check_account ctx (ga_account_id args)) ;;
  ret (json_object [("accountId", Str (ga_account_id args)); ("state", Str "0");
    ("list", Array [json_object [("id", Str "default"); ("name", nullable (display_name (cx_account ctx)));
       ("email", Str (email (cx_account ctx))); ("replyTo", Null); ("bcc", Null); ("textSignature", Str "");
       ("htmlSignature", Str ""); ("mayDelete", Bool false)]]);
    ("notFound", Array [])]).

(** [chat_preference_get]. *)
Definition chat_preference_get (args : Value) (ctx : JmapCtx) : JM Value :=
  args <- lift (parse (A := GetArgs) args) ;;
  account <- lift (check_account ctx (ga_account_id args)) ;;
  prefs <- in_method (on_chat (fun n => list_chat_preferences parse_uuid (uuid_at n) account)) ;;
  ret (json_object [("accountId", Str (ga_account_id args)); ("state", Str "0");
    ("list", Array (map (fun p => json_object [("id", Str (cp_contact p)); ("contactEmail", Str (cp_contact p));
                                               ("preference", Str (chat_as_str (cp_preference p)))]) prefs));
    ("notFound", Array [])]).

(** The preference an object names. *)
Definition preference_named (object : Value) : result string ChatMode :=
  text <-? ok_or (v ← field "preference" object; as_str v) "preference is required" ;;
  ok_or (chat_parse text) ("invalid preference: " +:+ text).

Fixpoint chat_create (account : string) (l : list (string * Value)) (created : list (string * Value))
  : JM (list (string * Value)) :=
  match l with
  | [] => ret created
  | (k, object) :: rest =>
      let body : TM Value :=
        contact <- lift (ok_or (v ← field "contactEmail" object; as_str v) "contactEmail is required") ;;
        preference <- lift (preference_named object) ;;
        in_text (on_chat (fun n => set_chat_preference (now_at n) account contact preference)) ;;;
        ret (json_object [("id", Str contact)]) in
      fun s =>
        match body s with
        | (Ok x, s') => chat_create account rest (map_insert k x created) s'
        | (Err e, s') =>
            chat_create account rest
              (map_insert k (json_object [("type", Str "serverFail"); ("description", Str e)]) created) s'
        end
  end.

Fixpoint chat_update (account : string) (l : list (string * Value)) (updated : list (string * Value))
  : JM (list (string * Value)) :=
  match l with
  | [] => ret updated
  | (contact, object) :: rest =>
      let body : TM unit :=
        preference <- lift (preference_named object) ;;
        in_text (on_chat (fun n => set_chat_preference (now_at n) account contact preference)) in
      fun s =>
        match body s with
        | (Ok _, s') => chat_update account rest (map_insert contact (json_object []) updated) s'
        | (Err _, s') => chat_update account rest updated s'
        end
  end.

Fixpoint chat_destroy (account : string) (l : list string) (destroyed : list string) : JM (list string) :=
  match l with
  | [] => ret destroyed
  | contact :: rest => fun s =>
      match on_chat (fun _ => delete_chat_preference account contact) s with
      | (Ok _, s') => chat_destroy account rest (destroyed ++ [contact])%list s'
      | (Err _, s') => chat_destroy account rest destroyed s'
      end
  end.

(** [chat_preference_set]. *)
Definition chat_preference_set (args : Value) (ctx : JmapCtx) : JM Value :=
  args <- lift (parse (A := ChatPrefSetArgs) args) ;;
  account <- lift (check_account ctx (pa_account_id args)) ;;
  created <- chat_create account (default [] (pa_create args)) [] ;;
  updated <- chat_update account (default [] (pa_update args)) [] ;;
  destroyed <- chat_destroy account (default [] (pa_destroy args)) [] ;;
  ret (json_object [("accountId", Str (pa_account_id args)); ("created", Object created);
                    ("updated", Object updated); ("destroyed", strings destroyed)]).

(** [email_attribute_dismiss]. *)
Definition email_attribute_dismiss (args : Value) (ctx : JmapCtx) : JM Value :=
  args <- lift (match from_value (A := DismissArgs) args with
                | Ok a => Ok a | Err _ => Err (InvalidArguments "invalid arguments") end) ;;
  account <- lift (check_account ctx (da_account_id args)) ;;
  email_id <- lift (ok_or (parse_uuid (da_email_id args)) (InvalidArguments ("bad email id " +:+ da_email_id args))) ;;
  with_error attribute_err (on_attributes (fun n => dismiss_email_attribute (now_at n) account email_id (da_kind args))) ;;;
  st <- with_error attribute_err (on_store (fun _ => state account Email)) ;;
  ret (json_object [("emailId", Str (da_email_id args)); ("kind", Str (da_kind args)); ("dismissed", Bool true);
                    ("newState", Str (pretty st))]).

(** ** Submission *)

(** [recipients_from_raw]. *)
Definition recipients_from_raw (raw : list Z) : list string :=
  match view_message raw with
  | None => []
  | Some m => flat_map (fun l => flat_map (fun '(_, address) => match address with Some a => [a] | None => [] end)
                                   (default [] l)) [mv_to m; mv_cc m; mv_bcc m]
  end.

(** The envelope: explicit, or from the message. *)
Definition envelope_of (ctx : JmapCtx) (object : Value) (raw : list Z) : string * list string :=
  match field "envelope" object with
  | Some envelope =>
      (default (email (cx_account ctx)) (m ← field "mailFrom" envelope; e ← field "email" m; as_str e),
       match l ← field "rcptTo" envelope; as_array l with
       | Some l => flat_map (fun r => match e ← field "email" r; as_str e with Some a => [a] | None => [] end) l
       | None => []
       end)
  | None => (email (cx_account ctx), recipients_from_raw raw)
  end.

Definition submit_one (ctx : JmapCtx) (submitter : string -> string -> list string -> list Z -> bool -> action World string (list string))
    (account : string) (object : Value) : TM Value :=
  i <- lift (ok_or (v ← field "emailId" object; as_str v) "emailId is required") ;;
  email_id <- lift (ok_or (parse_uuid i) "bad emailId") ;;
  rows <- in_text (on_store (fun _ => emails_by_ids account [email_id])) ;;
  row <- lift (ok_or (head rows) "no such email") ;;
  match from_str (e_blob (ei_row row)) with
  | Parsed blob =>
      raw <- in_text (on_world (fun _ => get_blob blob)) ;;
      let '(mail_from, recipients) := envelope_of ctx object raw in
      match recipients with
      | [] => fail "no recipients"
      | _ =>
          queued <- on_world (fun _ => submitter account mail_from recipients raw (e_chat_mode (ei_row row))) ;;
          ret (json_object [("id", Str (default "" (head queued))); ("undoStatus", Str "final")])
      end
  | _ => fail "bad blob"
  end.

(** [submission_set]. *)
Definition submission_set (args : Value) (ctx : JmapCtx) : JM Value :=
  args <- lift (parse (A := SetArgs) args) ;;
  account <- lift (check_account ctx (sa_account_id args)) ;;
  submitter <- lift (ok_or (cx_submitter ctx) (ServerFail "submission is not enabled")) ;;
  c <- each (default [] (sa_create args)) (fun _ object => submit_one ctx submitter account object) [] [] ;;
  ret (json_object [("accountId", Str (sa_account_id args)); ("oldState", Str "0"); ("newState", Str "0");
                    ("created", Object (fst c)); ("notCreated", Object (snd c)); ("updated", json_object []);
                    ("destroyed", Array [])]).

(** [register]: the methods of this file by name and capability. *)
Definition METHODS : list (string * string * (Value -> JmapCtx -> JM Value)) :=
  [("Mailbox/get", MAIL_CAPABILITY, mailbox_get); ("Mailbox/changes", MAIL_CAPABILITY, changes Mailbox);
   ("Email/get", MAIL_CAPABILITY, email_get); ("Email/query", MAIL_CAPABILITY, email_query);
   ("Email/changes", MAIL_CAPABILITY, changes Email); ("Email/set", MAIL_CAPABILITY, email_set);
   ("Thread/get", MAIL_CAPABILITY, thread_get); ("Thread/changes", MAIL_CAPABILITY, changes Thread);
   ("Identity/get", SUBMISSION_CAPABILITY, identity_get);
   ("EmailSubmission/set", SUBMISSION_CAPABILITY, submission_set);
   ("ChatPreference/get", MAIL_CAPABILITY, chat_preference_get);
   ("ChatPreference/set", MAIL_CAPABILITY, chat_preference_set);
   ("EmailAttribute/dismiss", ATTRIBUTES_CAPABILITY, email_attribute_dismiss)].

End Methods.
