(* ===== verification/Ics.v ===== *)
(** [crates/owney-api/src/schedule/ics.rs], the iCalendar text of a booking
    confirmation, and [crates/owney-ai/src/ics.rs], the reader that looks for an
    invitation in a [text/calendar] part.

    [fold] and [trim] work on characters, a character being its UTF-8 bytes
    ([Spam.chars]); the other scans only look for ASCII characters and work on bytes.
    chrono's [Utc.timestamp_opt] with [format] is the class [ChronoUtc]. *)
From S2P Require Import Prelude Text Bytes Ident Json Spam JmapMail.

Open Scope string_scope.

Class ChronoUtc := { utc_format : Z -> option string }.

(** ** Writing *)

Record IcsInvite := mk_invite {
  iv_uid : string;
  iv_dtstamp : Z;
  iv_start : Z;
  iv_end : Z;
  iv_summary : string;
  iv_description : option string;
  iv_organizer_name : string;
  iv_organizer_email : string;
  iv_attendee_name : string;
  iv_attendee_email : string
}.

(** [escape_text]. *)
Definition escape_char (c : ascii) : string :=
  if Ascii.eqb c "\" then "\\"
  else if Ascii.eqb c ";" then "\;"
  else if Ascii.eqb c "," then "\,"
  else if Ascii.eqb c lf then "\n"
  else if Ascii.eqb c cr then ""
  else str_of c.
Fixpoint escape_text (s : string) : string :=
  match s with
  | EmptyString => EmptyString
  | String c s' => escape_char c +:+ escape_text s'
  end.

(** [quote_param]. *)
Definition quote_param (value : string) : string :=
  let cleaned := str_filter (fun c => negb (Ascii.eqb c quote)) value in
  if negb (str_all (fun c => negb (Ascii.eqb c ";" || Ascii.eqb c ":" || Ascii.eqb c ",")) cleaned)
  then str_of quote +:+ cleaned +:+ str_of quote
  else cleaned.

(** [fold]: the loop over the characters of a line longer than 75 octets. *)
Fixpoint fold_go (budget used : nat) (l : list string) : string :=
  match l with
  | [] => EmptyString
  | c :: l' =>
      let width := String.length c in
      if Nat.ltb budget (used + width) then crlf +:+ " " +:+ c +:+ fold_go 74 width l'
      else c +:+ fold_go budget (used + width) l'
  end.
Definition fold (line : string) : string :=
  if Nat.leb (String.length line) 75 then line else fold_go 75 0 (chars line).

Section Write.
Context `{ChronoUtc}.

Definition utc_stamp (unix : Z) : string := default "19700101T000000Z" (utc_format unix).

Definition ics_lines (invite : IcsInvite) : list string :=
  (["BEGIN:VCALENDAR"; "VERSION:2.0"; "PRODID:-//Owney//Scheduling//EN"; "METHOD:REQUEST"; "BEGIN:VEVENT";
    "UID:" +:+ iv_uid invite;
    "DTSTAMP:" +:+ utc_stamp (iv_dtstamp invite);
    "DTSTART:" +:+ utc_stamp (iv_start invite);
    "DTEND:" +:+ utc_stamp (iv_end invite);
    "SUMMARY:" +:+ escape_text (iv_summary invite)]
   ++ match iv_description invite with
      | Some description => ["DESCRIPTION:" +:+ escape_text description]
      | None => []
      end
   ++ ["ORGANIZER;CN=" +:+ quote_param (iv_organizer_name invite) +:+ ":mailto:" +:+ iv_organizer_email invite;
       "ATTENDEE;CN=" +:+ quote_param (iv_attendee_name invite) +:+ ";ROLE=REQ-PARTICIPANT;PARTSTAT=ACCEPTED:mailto:"
         +:+ iv_attendee_email invite;
       "END:VEVENT"; "END:VCALENDAR"])%list.

Definition render_lines (lines : list string) : string :=
  concat_strings (map (fun content => fold content +:+ crlf) lines).
Definition render (invite : IcsInvite) : string := render_lines (ics_lines invite).
End Write.

(** ** Reading *)

(** [split] on CR and LF, the empty pieces dropped. *)
Definition raw_lines (ics : string) : list string :=
  filter (fun l => l <> EmptyString) (split_on lf (str_map (fun c => if Ascii.eqb c cr then lf else c) ics)).

(** One step of [unfold]; the lines so far, last one first. *)
Definition push_raw (lines : list string) (raw : string) : list string :=
  match raw, lines with
  | String c rest, last :: earlier =>
      if Ascii.eqb c " " || Ascii.eqb c tab then (last +:+ rest) :: earlier else raw :: lines
  | _, _ => raw :: lines
  end.
Definition unfold_lines (ics : string) : list string := rev (fold_left push_raw (raw_lines ics) []).

(** The first colon outside double quotes. *)
Fixpoint colon_split (in_quotes : bool) (s : string) : option (string * string) :=
  match s with
  | EmptyString => None
  | String c s' =>
      if Ascii.eqb c ":" && negb in_quotes then Some (EmptyString, s')
      else '(head, value) ← colon_split (if Ascii.eqb c quote then negb in_quotes else in_quotes) s';
           Some (String c head, value)
  end.
Definition split_property (line : string) : option (string * string * string) :=
  '(head, value) ← colon_split false line;
  let '(name, params) := default (head, "") (split_once ";" head) in
  Some (to_uppercase (trim_chars name), params, trim_chars value).

(** [unescape]. *)
Fixpoint unescape (s : string) : string :=
  match s with
  | EmptyString => EmptyString
  | String c s' =>
      if negb (Ascii.eqb c "\") then String c (unescape s')
      else match s' with
           | EmptyString => "\"
           | String e s'' => String (if Ascii.eqb e "n" || Ascii.eqb e "N" then lf else e) (unescape s'')
           end
  end.

(** [days_from_civil]. *)
Definition days_from_civil (y m d : Z) : Z :=
  let y := (if m <=? 2 then y - 1 else y)%Z in
  let era := (y / 400)%Z in
  let yoe := (y mod 400)%Z in
  let doy := ((153 * (if m >? 2 then m - 3 else m + 9) + 2) / 5 + d - 1)%Z in
  let doe := (yoe * 365 + yoe / 4 - yoe / 100 + doy)%Z in
  (era * 146097 + doe - 719468)%Z.

(** [utc_epoch]. *)
Definition utc_epoch (value : string) : option Z :=
  '(date, time) ← match String.length value with
                  | 8 => Some (value, "000000")
                  | 16 => if match String.get 8 value with Some c => Ascii.eqb c "T" | None => false end
                             && match String.get 15 value with Some c => Ascii.eqb c "Z" | None => false end
                          then Some (String.substring 0 8 value, String.substring 9 6 value) else None
                  | _ => None
                  end%nat;
  if negb (str_all is_digit date) || negb (str_all is_digit time) then None
  else
    year ← parse_i64 (String.substring 0 4 date);
    month ← parse_i64 (String.substring 4 2 date);
    day ← parse_i64 (String.substring 6 2 date);
    hour ← parse_i64 (String.substring 0 2 time);
    minute ← parse_i64 (String.substring 2 2 time);
    second ← parse_i64 (String.substring 4 2 time);
    if negb ((1 <=? month) && (month <=? 12))%Z || negb ((1 <=? day) && (day <=? 31))%Z
       || (23 <? hour)%Z || (59 <? minute)%Z
    then None
    else Some (days_from_civil year month day * 86400 + hour * 3600 + minute * 60 + second)%Z.

(** The fields [parse_invite] collects. *)
Record Found := mk_found {
  f_method : option string;
  f_uid : option string;
  f_summary : option string;
  f_location : option string;
  f_organizer : option string;
  f_dtstart : option string;
  f_dtend : option string;
  f_saw_event : bool
}.
Definition nothing_found : Found := mk_found None None None None None None None false.

(** The loop over the lines, up to the second [BEGIN:VEVENT]. *)
Fixpoint scan_lines (in_event : bool) (f : Found) (lines : list string) : Found :=
  match lines with
  | [] => f
  | line :: rest =>
      match split_property line with
      | None => scan_lines in_event f rest
      | Some (name, params, value) =>
          let vevent := String.eqb (to_uppercase value) "VEVENT" in
          let set f := scan_lines in_event f rest in
          let 'mk_found mt ui su lo og ds de saw := f in
          if in_event then
            if String.eqb name "END" && vevent then scan_lines false f rest
            else if String.eqb name "UID" then set (mk_found mt (Some value) su lo og ds de saw)
            else if String.eqb name "SUMMARY" then set (mk_found mt ui (Some (unescape value)) lo og ds de saw)
            else if String.eqb name "LOCATION" then set (mk_found mt ui su (Some (unescape value)) og ds de saw)
            else if String.eqb name "ORGANIZER" then set (mk_found mt ui su lo (Some value) ds de saw)
            else if String.eqb name "DTSTART" then set (mk_found mt ui su lo og (Some value) de saw)
            else if String.eqb name "DTEND" then set (mk_found mt ui su lo og ds (Some value) saw)
            else scan_lines in_event f rest
          else if String.eqb name "BEGIN" && vevent then
            if saw then f else scan_lines true (mk_found mt ui su lo og ds de true) rest
          else if String.eqb name "METHOD" then set (mk_found (Some (to_uppercase value)) ui su lo og ds de saw)
          else scan_lines in_event f rest
      end
  end.

Definition epoch_value (o : option string) : Value :=
  match v ← o; utc_epoch v with Some t => Number t | None => Null end.

Definition parse_invite (ics : string) : option Value :=
  let f := scan_lines false nothing_found (unfold_lines ics) in
  if negb (f_saw_event f) then None
  else Some (json_object [("method", nullable (f_method f)); ("uid", nullable (f_uid f));
    ("summary", nullable (f_summary f)); ("location", nullable (f_location f));
    ("organizer", nullable (f_organizer f)); ("start", nullable (f_dtstart f)); ("end", nullable (f_dtend f));
    ("startAt", epoch_value (f_dtstart f)); ("endAt", epoch_value (f_dtend f))]).
