(* ===== verification/Confirm.v ===== *)
(** [crates/owney-api/src/schedule/mail.rs] and the end of [book] in
    [schedule/mod.rs]: the two mails that confirm a booking, and the escaping of the
    page's HTML.

    The mails go through the storage handle of the calendar tables: [BookState] adds
    the files and the index tasks of the mail store to them.  The wording of a local
    time is the class [ChronoLabel]; the version-4 ids are drawn from [uuid4]. *)
From S2P Require Import Prelude Text Bytes Ident Json Spam Store Mail Calendars Scheduling Slots FedSig JmapMail Ics.

Open Scope string_scope.

(** ** The message ([mail.rs]) *)

Record Confirmation := mk_confirmation {
  co_host : string;
  co_from_name : option string;
  co_from_email : string;
  co_to : string;
  co_subject : string;
  co_text_body : string;
  co_ics : string
}.

Definition is_break (c : ascii) : bool := Ascii.eqb c cr || Ascii.eqb c lf.

(** The header fields of [compose]. *)
Definition compose_headers (c : Confirmation) (boundary message_id date : string) : list string :=
  ["From: " +:+ match co_from_name c with
                | Some name => str_of quote +:+ str_filter (fun a => negb (Ascii.eqb a quote || is_break a)) name
                               +:+ str_of quote +:+ " <" +:+ co_from_email c +:+ ">"
                | None => "<" +:+ co_from_email c +:+ ">"
                end;
   "To: <" +:+ co_to c +:+ ">";
   "Subject: " +:+ str_map (fun a => if is_break a then " "%char else a) (co_subject c);
   "Date: " +:+ date;
   "Message-ID: " +:+ message_id;
   "MIME-Version: 1.0";
   "Content-Type: multipart/mixed; boundary=" +:+ str_of quote +:+ boundary +:+ str_of quote].

Definition crlf_lines (l : list string) : string := concat_strings (map (fun x => x +:+ crlf) l).

(** [compose]; [a] and [b] are the two version-4 ids, [now] the system time.  The
    formatting of the date may panic. *)
Definition compose (a b : string) (now : Z) (c : Confirmation) : option string :=
  let boundary := "owney-" +:+ a in
  let message_id := "<" +:+ b +:+ "@" +:+ co_host c +:+ ">" in
  date ← rfc2822_utc now;
  Some (crlf_lines (compose_headers c boundary message_id date) +:+ crlf
    +:+ "--" +:+ boundary +:+ crlf
    +:+ "Content-Type: text/plain; charset=utf-8" +:+ crlf +:+ crlf
    +:+ co_text_body c +:+ crlf
    +:+ "--" +:+ boundary +:+ crlf
    +:+ "Content-Type: text/calendar; charset=utf-8; method=REQUEST" +:+ crlf
    +:+ "Content-Disposition: attachment; filename=" +:+ str_of quote +:+ "invite.ics" +:+ str_of quote
    +:+ crlf +:+ crlf
    +:+ co_ics c
    +:+ "--" +:+ boundary +:+ "--" +:+ crlf).

(** [html_escape]: four passes of [replace]. *)
Definition html_escape (value : string) : string :=
  replace_with quote "&quot;" (replace_with ">" "&gt;" (replace_with "<" "&lt;" (replace_with "&" "&amp;" value))).

(** ** Sending ([send_confirmations]) *)

Class ChronoLabel `{Chrono} := {
  (** [timestamp_opt(t, 0).single()] and [format("%A %Y-%m-%d %H:%M %Z")]. *)
  local_label : Tz -> Z -> option string
}.

Section Confirm.
Context `{Chrono} `{!ChronoLabel} `{ChronoUtc} `{FedCrates} `{BlobStore}.
Context `{Serde Availability} `{Serde (list Z)}.
Variable parse_uuid : string -> option string.
Variable parse_message : list Z -> option ParsedMessage.
Variable spacing : string -> bool.

Record BookState := mk_book_state {
  bs_tables : CalDb;
  bs_files : files;
  bs_tasks : list IndexTask
}.

(** A mail operation on the one handle of the server, its result ignored. *)
Definition mail_effect {E A} (m : action World E A) (s : BookState) : BookState :=
  let w := snd (m (mk_world (cal_core (bs_tables s)) (bs_files s) (bs_tasks s))) in
  mk_book_state (with_core (db w) (bs_tables s)) (blob_files w) (index_tasks w).

Abbreviation Submit := (string -> string -> list string -> list Z -> action World string (list string)).

(** The server around the handler: its configuration, and what it draws. *)
Record ConfirmCtx := mk_confirm_ctx {
  cc_public_url : string;
  cc_submitter : option Submit;
  cc_uuid4 : nat -> string;
  cc_fresh : Fresh;
  cc_now : Z
}.

Definition local_time (tz : Tz) (booking : Booking) : string :=
  default (pretty (bo_start booking)) (local_label tz (bo_start booking)).

Definition booking_ics (host owner_label : string) (owner : Account) (booking : Booking) : string :=
  render (mk_invite (bo_id booking +:+ "@" +:+ host) (bo_created_at booking) (bo_start booking) (bo_end booking)
    ("Meeting: " +:+ bo_visitor_name booking +:+ " & " +:+ owner_label) (bo_note booking)
    owner_label (email owner) (bo_visitor_name booking) (bo_visitor_email booking)).

Definition visitor_mail (host : string) (page : SchedulingPage) (owner : Account) (booking : Booking) (tz : Tz)
  : Confirmation :=
  let owner_label := default (email owner) (display_name owner) in
  mk_confirmation host (Some owner_label) (email owner) (bo_visitor_email booking)
    ("Confirmed: " +:+ sp_title page +:+ " on " +:+ local_time tz booking)
    ("Hi " +:+ bo_visitor_name booking +:+ "," +:+ crlf +:+ crlf +:+ "You're booked with " +:+ owner_label
     +:+ " on " +:+ local_time tz booking +:+ " ("
     +:+ pretty (Z.quot (bo_end booking - bo_start booking) 60) +:+ " minutes)." +:+ crlf +:+ crlf
     +:+ "The attached invite adds it to your calendar." +:+ crlf)
    (booking_ics host owner_label owner booking).

Definition owner_mail (host : string) (page : SchedulingPage) (owner : Account) (booking : Booking) (tz : Tz)
  : Confirmation :=
  let owner_label := default (email owner) (display_name owner) in
  mk_confirmation host (Some "Owney Scheduling") (email owner) (email owner)
    ("New booking: " +:+ bo_visitor_name booking +:+ " on " +:+ local_time tz booking)
    (bo_visitor_name booking +:+ " <" +:+ bo_visitor_email booking +:+ "> booked " +:+ str_of quote
     +:+ sp_title page +:+ str_of quote +:+ " on " +:+ local_time tz booking +:+ "." +:+ crlf
     +:+ default "" (option_map (fun n => crlf +:+ "Note: " +:+ n) (bo_note booking)) +:+ crlf)
    (booking_ics host owner_label owner booking).

(** [send_confirmations]. *)
Definition send_confirmations (ctx : ConfirmCtx) (page : SchedulingPage) (owner : Account) (booking : Booking)
    (tz : Tz) (s : BookState) : option BookState :=
  let host := host_of (cc_public_url ctx) in
  s ← match cc_submitter ctx with
      | Some submit =>
          raw ← compose (cc_uuid4 ctx 0) (cc_uuid4 ctx 1) (cc_now ctx) (visitor_mail host page owner booking tz);
          Some (mail_effect (submit (id owner) (email owner) [bo_visitor_email booking] (bytes_of raw)) s)
      | None => Some s
      end;
  raw ← compose (cc_uuid4 ctx 2) (cc_uuid4 ctx 3) (cc_now ctx) (owner_mail host page owner booking tz);
  Some (mail_effect (ingest_email parse_uuid parse_message (cc_fresh ctx) (cc_now ctx) (id owner) (bytes_of raw)
          "inbox" None) s).

(** [book] to its end, after the limiter and the decoding of the body. *)
Definition book_and_confirm (ctx : ConfirmCtx) (event_id booking_id token : string) (now stamp : Z) (slug : string)
    (body : BookBody) (s : BookState) : option (Reply * BookState) :=
  '(r, d) ← book parse_uuid spacing event_id booking_id token now stamp slug body (bs_tables s);
  let s := mk_book_state d (bs_files s) (bs_tasks s) in
  match r with
  | Err reply => Some (reply, s)
  | Ok (booking, page, owner) =>
      tz ← tz_parse (sp_timezone page);
      s ← send_confirmations ctx page owner booking tz s;
      Some (book_reply booking page, s)
  end.
End Confirm.
