(* ===== verification/IcsFacts.v ===== *)
(** What the writer of invitations and their reader promise each other: escaping,
    folding and dates are undone by the reader, a rendered invitation is read back
    field by field, and no line exceeds 75 octets. *)
From S2P Require Import Prelude Text Bytes Ident Json Store Mail Spam Calendars Scheduling Slots SlotFacts BookFacts FedSig JmapMail Ics Confirm.

Open Scope string_scope.

(** ** Well-formed UTF-8, which a Rust [String] always is *)

Inductive Utf8 : string -> Prop :=
  | utf8_nil : Utf8 ""
  | utf8_one a s : is_ascii a = true -> Utf8 s -> Utf8 (String a s)
  | utf8_two a b s : is_ascii a = false -> continuation a = false -> continuation b = true ->
      Utf8 s -> Utf8 (String a (String b s))
  | utf8_three a b c s : is_ascii a = false -> continuation a = false ->
      continuation b = true -> continuation c = true ->
      Utf8 s -> Utf8 (String a (String b (String c s)))
  | utf8_four a b c d s : is_ascii a = false -> continuation a = false ->
      continuation b = true -> continuation c = true -> continuation d = true ->
      Utf8 s -> Utf8 (String a (String b (String c (String d s)))).
#[local] Hint Constructors Utf8 : core.

Lemma ascii_no_continuation a : is_ascii a = true -> continuation a = false.
Proof.
  unfold is_ascii, continuation, in_range. rewrite Nat.ltb_lt. intros Ha.
  apply andb_false_iff. left. apply Nat.leb_gt. lia.
Qed.
Lemma continuation_high b : continuation b = true -> is_ascii b = false.
Proof. intros Hb. destruct (is_ascii b) eqn:E; [|done]. apply ascii_no_continuation in E. congruence. Qed.

Lemma utf8_app s t : Utf8 s -> Utf8 t -> Utf8 (s +:+ t).
Proof. induction 1; intros Ht; rewrite ?append_cons; auto. Qed.

Lemma utf8_ascii s : str_all is_ascii s = true -> Utf8 s.
Proof. induction s as [|a s IH]; simpl; [auto|]. rewrite andb_true_iff. intros [Ha Hs]. auto. Qed.

(** The first byte never continues a character. *)
Definition begins (s : string) : Prop := match s with String b _ => continuation b = false | "" => True end.
Lemma utf8_begins s : Utf8 s -> begins s.
Proof. destruct 1; simpl; auto using ascii_no_continuation. Qed.

(** *** Characters *)

Lemma concat_app (l k : list string) : concat_strings (l ++ k)%list = concat_strings l +:+ concat_strings k.
Proof. induction l as [|x l IH]; simpl; [done|]. by rewrite IH, append_assoc. Qed.

Lemma chars_ne s : Forall (fun w => w <> "") (chars s).
Proof.
  induction s as [|a s IH]; simpl; [done|].
  destruct (chars s) as [|[|b w] ws]; inversion_clear IH; [by repeat constructor|done|].
  by destruct (continuation b); repeat constructor.
Qed.

Lemma concat_chars s : concat_strings (chars s) = s.
Proof.
  induction s as [|a s IH]; simpl; [done|]. pose proof (chars_ne s) as Hne.
  destruct (chars s) as [|[|b w] ws]; inversion_clear Hne; simpl in *; [by subst|done|].
  by destruct (continuation b); rewrite <- IH.
Qed.

Lemma chars_begins a s : begins s -> chars (String a s) = str_of a :: chars s.
Proof.
  intros Hs. cbn [chars]. pose proof (concat_chars s) as Hc. pose proof (chars_ne s) as Hne.
  destruct (chars s) as [|[|b w] ws]; inversion_clear Hne; [done|done|].
  simpl in Hc. subst s. simpl in Hs. by rewrite Hs.
Qed.

Lemma chars_cont a b s w ws :
  chars (String b s) = w :: ws -> continuation b = true -> chars (String a (String b s)) = String a w :: ws.
Proof.
  intros Hw Hb. pose proof (concat_chars (String b s)) as Hc. pose proof (chars_ne (String b s)) as Hne.
  remember (String b s) as t eqn:Et. cbn [chars]. rewrite Hw in *.
  inversion_clear Hne. destruct w as [|x w]; [done|]. simpl in Hc. rewrite Et in Hc.
  injection Hc as -> _. by rewrite Hb.
Qed.

(** A character of well-formed text has at most four bytes. *)
Lemma utf8_chars s : Utf8 s -> Forall (fun w => (String.length w <= 4)%nat) (chars s).
Proof.
  induction 1 as [|a s Ha Hs IH|a b s Ha Ha' Hb Hs IH|a b c s Ha Ha' Hb Hc Hs IH|a b c d s Ha Ha' Hb Hc Hd Hs IH].
  - done.
  - rewrite chars_begins by (by apply utf8_begins). constructor; [simpl; lia|done].
  - rewrite (chars_cont _ _ _ (str_of b) (chars s)); [|by apply chars_begins, utf8_begins|done].
    constructor; [simpl; lia|done].
  - rewrite (chars_cont _ _ _ (String b (str_of c)) (chars s)); [constructor; [simpl; lia|done]| |done].
    apply (chars_cont _ _ _ (str_of c)); [by apply chars_begins, utf8_begins|done].
  - rewrite (chars_cont _ _ _ (String b (String c (str_of d))) (chars s)); [constructor; [simpl; lia|done]| |done].
    apply (chars_cont _ _ _ (String c (str_of d))); [|done].
    apply (chars_cont _ _ _ (str_of d)); [by apply chars_begins, utf8_begins|done].
Qed.

(** ** Trimming leaves text without white space at its ends alone *)

Definition solid (w : string) : Prop := char_is_whitespace w = false.

Lemma drop_while_solid l : match l with x :: _ => solid x | [] => True end -> drop_while char_is_whitespace l = l.
Proof. destruct l as [|x l]; simpl; [done|]. by intros ->. Qed.

Lemma trim_solid s : Forall solid (chars s) -> trim_chars s = s.
Proof.
  intros Hs. unfold trim_chars. rewrite (drop_while_solid (chars s)) by (by destruct Hs).
  rewrite drop_while_solid, rev_involutive; [apply concat_chars|].
  assert (Forall solid (rev (chars s))) as Hr by (by apply List.Forall_rev).
  by destruct Hr.
Qed.

(** Visible ASCII: what the writer itself puts on a line. *)
Definition visible (c : ascii) : bool := in_range 33 126 c.
Lemma visible_ascii c : visible c = true -> is_ascii c = true.
Proof. unfold visible, in_range, is_ascii. rewrite andb_true_iff, !Nat.leb_le, Nat.ltb_lt. lia. Qed.
Lemma visible_solid c : visible c = true -> solid (str_of c).
Proof. destruct c as [[] [] [] [] [] [] [] []]; done. Qed.

Lemma visible_begins c s : visible c = true -> begins (String c s).
Proof. intros Hc. simpl. by apply ascii_no_continuation, visible_ascii. Qed.

(** Visible text in front of solid text. *)
Lemma visible_app_solid p s :
  str_all visible p = true -> begins s -> Forall solid (chars s) -> Forall solid (chars (p +:+ s)).
Proof.
  intros Hp Hb Hs. assert (begins (p +:+ s) /\ Forall solid (chars (p +:+ s))) as [_ H]; [|done].
  induction p as [|c p IH]; [done|]. simpl in Hp. apply andb_true_iff in Hp as [Hc Hp].
  destruct (IH Hp) as [Hb' Hs']. rewrite append_cons. split; [by apply visible_begins|].
  rewrite chars_begins by done. constructor; [by apply visible_solid|done].
Qed.

Lemma trim_visible s : str_all visible s = true -> trim_chars s = s.
Proof.
  intros Hs. apply trim_solid. rewrite <- (append_nil_r s). by apply visible_app_solid.
Qed.

(** ** Escaping *)

Lemma escape_high c : is_ascii c = false -> escape_char c = str_of c.
Proof. destruct c as [[] [] [] [] [] [] [] []]; done. Qed.

Lemma escape_char_ascii c : is_ascii c = true -> str_all is_ascii (escape_char c) = true.
Proof. destruct c as [[] [] [] [] [] [] [] []]; done. Qed.

Lemma str_of_app a s : str_of a +:+ s = String a s.
Proof. done. Qed.

Lemma escape_utf8 s : Utf8 s -> Utf8 (escape_text s).
Proof.
  induction 1 as [|a s Ha Hs IH|a b s Ha Ha' Hb Hs IH|a b c s Ha Ha' Hb Hc Hs IH|a b c d s Ha Ha' Hb Hc Hd Hs IH];
    cbn [escape_text]; rewrite ?(escape_high a), ?(escape_high b), ?(escape_high c), ?(escape_high d)
      by auto using continuation_high; rewrite ?str_of_app; [auto| |auto..].
  apply utf8_app; [by apply utf8_ascii, escape_char_ascii|done].
Qed.

Definition no_breaks (s : string) : bool := avoids cr s && avoids lf s.
Lemma no_breaks_app s t : no_breaks (s +:+ t) = no_breaks s && no_breaks t.
Proof.
  unfold no_breaks, avoids. rewrite !str_all_app.
  by destruct (str_all _ s), (str_all _ t), (str_all _ s), (str_all _ t).
Qed.

Lemma escape_no_breaks s : no_breaks (escape_text s) = true.
Proof.
  induction s as [|c s IH]; [done|]. cbn [escape_text]. rewrite no_breaks_app, IH, andb_true_r.
  by destruct c as [[] [] [] [] [] [] [] []].
Qed.

(** Reading an escaped text gives it back, less its carriage returns. *)
Lemma unescape_escape s : unescape (escape_text s) = str_filter (fun c => negb (Ascii.eqb c cr)) s.
Proof.
  induction s as [|c s IH]; [done|]. cbn [escape_text str_filter]. rewrite <- IH.
  by destruct c as [[] [] [] [] [] [] [] []].
Qed.

Lemma filter_utf8 f s : (forall c, is_ascii c = false -> f c = true) -> Utf8 s -> Utf8 (str_filter f s).
Proof.
  intros Hf.
  induction 1 as [|a s Ha Hs IH|a b s Ha Ha' Hb Hs IH|a b c s Ha Ha' Hb Hc Hs IH|a b c d s Ha Ha' Hb Hc Hd Hs IH];
    cbn [str_filter]; rewrite ?(Hf b), ?(Hf c), ?(Hf d) by auto using continuation_high;
    rewrite ?(Hf a) by done; auto.
  destruct (f a); auto.
Qed.

(** ** Folding *)

(** A folded line: its text cut into pieces, the breaks between them. *)
Definition broken (p : string) (qs : list string) : string :=
  p +:+ concat_strings (map (fun q => crlf +:+ " " +:+ q) qs).

Definition short (n : nat) (w : string) : Prop := (String.length w <= n)%nat.

Lemma fold_go_pieces budget used l :
  (budget <= 75)%nat -> (used <= budget)%nat -> Forall (short 4) l ->
  exists p qs, fold_go budget used l = broken p qs
    /\ concat_strings l = p +:+ concat_strings qs
    /\ (used + String.length p <= budget)%nat /\ Forall (short 74) qs.
Proof.
  revert budget used. induction l as [|c l IH]; intros budget used Hb Hu Hl.
  { exists "", []. repeat split; simpl; [lia|constructor]. }
  inversion_clear Hl as [|? ? Hc Hl']. unfold short in Hc. cbn [fold_go concat_strings].
  destruct (Nat.ltb_spec budget (used + String.length c)) as [Hlt|Hge].
  - destruct (IH 74%nat (String.length c) ltac:(lia) ltac:(lia) Hl') as (p & qs & -> & -> & Hp & Hqs).
    exists "", ((c +:+ p) :: qs). unfold broken. cbn [map concat_strings].
    split; [by rewrite ?append_assoc|]. split; [by rewrite ?append_assoc|]. split; [simpl; lia|].
    constructor; [unfold short; rewrite append_length; lia|done].
  - destruct (IH budget (used + String.length c)%nat Hb ltac:(lia) Hl') as (p & qs & -> & -> & Hp & Hqs).
    exists (c +:+ p), qs. unfold broken. rewrite !append_length.
    split; [by rewrite ?append_assoc|]. split; [by rewrite ?append_assoc|]. split; [lia|done].
Qed.

(** A folded line is its text in pieces of at most 75 octets, the space of a
    continuation included; the first piece is not empty. *)
Lemma fold_pieces line :
  line <> "" -> Forall (short 4) (chars line) ->
  exists p qs, fold line = broken p qs /\ line = p +:+ concat_strings qs /\ p <> ""
    /\ short 75 p /\ Forall (short 74) qs.
Proof.
  intros Hne Hs. unfold fold. destruct (Nat.leb_spec (String.length line) 75) as [Hle|_].
  { exists line, []. unfold broken. simpl. rewrite append_nil_r. repeat split; auto. }
  pose proof (concat_chars line) as Hc. pose proof (chars_ne line) as Hn.
  destruct (chars line) as [|c l]; [by simpl in Hc|].
  inversion_clear Hs as [|? ? Hc4 Hl]. inversion_clear Hn as [|? ? Hcne _]. unfold short in Hc4.
  cbn [fold_go]. destruct (Nat.ltb_spec 75 (0 + String.length c)) as [|_]; [lia|].
  destruct (fold_go_pieces 75 (0 + String.length c) l ltac:(lia) ltac:(lia) Hl) as (p & qs & -> & Hcat & Hp & Hqs).
  exists (c +:+ p), qs. unfold broken. cbn [concat_strings] in Hc. rewrite Hcat in Hc.
  split; [by rewrite append_assoc|]. split; [by rewrite append_assoc|].
  split; [by destruct c|]. split; [|done]. unfold short. rewrite append_length. lia.
Qed.

(** ** Unfolding *)

Lemma blank_breaks l : no_breaks l = true -> str_map (fun c => if Ascii.eqb c cr then lf else c) l = l.
Proof.
  unfold no_breaks, avoids. induction l as [|c l IH]; [done|]. simpl.
  rewrite !andb_true_iff, !negb_true_iff. intros [[Hc Hl] [_ Hl']]. rewrite Hc. f_equal.
  apply IH. by rewrite Hl, Hl'.
Qed.

Lemma raw_line l rest : l <> "" -> no_breaks l = true -> raw_lines (l +:+ crlf +:+ rest) = l :: raw_lines rest.
Proof.
  intros Hne Hl. unfold raw_lines. rewrite !str_map_app, blank_breaks by done.
  change (str_map _ crlf) with (String lf (str_of lf)). rewrite append_cons, str_of_app.
  apply andb_true_iff in Hl as [_ Hl]. rewrite split_on_app_sep by done.
  rewrite filter_cons_True by done. f_equal.
Qed.

Lemma raw_pieces p qs rest :
  p <> "" -> no_breaks (p +:+ concat_strings qs) = true ->
  raw_lines (broken p qs +:+ crlf +:+ rest) = (p :: map (fun q => " " +:+ q) qs ++ raw_lines rest)%list.
Proof.
  unfold broken. revert p. induction qs as [|q qs IH]; intros p Hp Hb; simpl in *.
  - rewrite append_nil_r in *. by apply raw_line.
  - rewrite no_breaks_app in Hb. apply andb_true_iff in Hb as [Hb1 Hb2].
    rewrite !append_assoc, raw_line by done. f_equal.
    specialize (IH (" " +:+ q)). rewrite !append_assoc in IH. apply IH; [done|exact Hb2].
Qed.

(** Neither a space nor a tab starts the line. *)
Definition starts_line (l : string) : Prop :=
  match l with String c _ => Ascii.eqb c " " || Ascii.eqb c tab = false | "" => False end.

Lemma push_start acc l : starts_line l -> push_raw acc l = l :: acc.
Proof. destruct l as [|c l]; [done|]. simpl. destruct acc; [done|]. by intros ->. Qed.

Lemma push_pieces qs p acc :
  fold_left push_raw (map (fun q => " " +:+ q) qs) (p :: acc) = (p +:+ concat_strings qs) :: acc.
Proof.
  revert p. induction qs as [|q qs IH]; intros p; simpl; [by rewrite append_nil_r|].
  by rewrite IH, append_assoc.
Qed.

Definition good_line (l : string) : Prop := starts_line l /\ no_breaks l = true /\ Utf8 l.

Lemma push_line l rest acc :
  good_line l ->
  fold_left push_raw (raw_lines (fold l +:+ crlf +:+ rest)) acc = fold_left push_raw (raw_lines rest) (l :: acc).
Proof.
  intros (Hs & Hb & Hu). destruct (fold_pieces l) as (p & qs & -> & El & Hp & _); [by destruct l|by apply utf8_chars|].
  rewrite El in Hb. rewrite raw_pieces by done. cbn [fold_left]. rewrite fold_left_app, push_start, push_pieces.
  - by rewrite <- El.
  - destruct l as [|c l]; [done|]. destruct p as [|x p]; [done|]. rewrite append_cons in El. by injection El as ->.
Qed.

(** Unfolding undoes folding, line by line. *)
Lemma unfold_render lines : Forall good_line lines -> unfold_lines (render_lines lines) = lines.
Proof.
  intros Hl. unfold unfold_lines, render_lines.
  assert (forall acc, fold_left push_raw
            (raw_lines (concat_strings (map (fun content => fold content +:+ crlf) lines))) acc = (rev lines ++ acc)%list)
    as Hgo.
  { induction Hl as [|l ls Hl _ IH]; intros acc; [done|]. cbn [map concat_strings].
    rewrite append_assoc, push_line by done. rewrite IH. cbn [rev]. by rewrite <- app_assoc. }
  by rewrite Hgo, app_nil_r, rev_involutive.
Qed.

(** ** Dates *)

Lemma doys_checked :
  forall_range 366 0 (fun doy =>
    let m := Calendar.month_of doy in
    ((153 * (if m >? 2 then m - 3 else m + 9) + 2) / 5 + Calendar.day_of doy - 1 =? doy)%Z) = true.
Proof. vm_compute. reflexivity. Qed.

Lemma days_from_date y k doy :
  (0 <= y < 400)%Z -> (0 <= doy <= 365)%Z ->
  let '(y', m, d) := Calendar.date_of y doy in
  days_from_civil (y' + 400 * k) m d = (k * 146097 + Calendar.start y + doy - 719468)%Z.
Proof.
  intros Hy Hd. unfold Calendar.date_of, days_from_civil, Calendar.carry_of.
  pose proof (forall_range_spec _ _ _ doys_checked doy ltac:(lia)) as Hdoy.
  cbv zeta in Hdoy. apply Z.eqb_eq in Hdoy. set (m := Calendar.month_of doy) in *.
  replace (if (m <=? 2)%Z then y + (if (m <=? 2)%Z then 1 else 0) + 400 * k - 1
           else y + (if (m <=? 2)%Z then 1 else 0) + 400 * k)%Z
    with (y + k * 400)%Z by (destruct (m <=? 2)%Z; lia).
  rewrite Z.div_add, Z.mod_add, (Z.div_small y), (Z.mod_small y) by lia.
  unfold Calendar.start. lia.
Qed.

(** [days_from_civil] undoes [civil_from_days], on every day. *)
Lemma days_civil z : let '(y, m, d) := civil_from_days z in days_from_civil y m d = z.
Proof.
  rewrite Calendar.civil_from_days_era.
  pose proof (Z.mod_pos_bound (z + 719468) 146097 ltac:(lia)) as Hb.
  pose proof (Z.div_mod (z + 719468) 146097 ltac:(lia)) as Hdm.
  set (doe := ((z + 719468) mod 146097)%Z) in *. set (k := ((z + 719468) / 146097)%Z) in *.
  rewrite Calendar.civil_of_doe_split by lia.
  destruct (Calendar.yoe_of_bounds doe ltac:(lia)) as [Hy Hd].
  destruct (Calendar.year_facts _ Hy) as (_ & _ & Hlen & _).
  pose proof (days_from_date (Calendar.yoe_of doe) k (doe - Calendar.start (Calendar.yoe_of doe)) Hy) as H.
  assert (doe - Calendar.start (Calendar.yoe_of doe) <= 365)%Z
    by (destruct (Calendar.leap (Calendar.yoe_of doe + 1)); lia).
  unfold Calendar.date_of in *. cbn [Calendar.shift]. rewrite H by lia. clearbody doe k. lia.
Qed.

(** *** [YYYYMMDDTHHMMSSZ] *)

Definition basic_stamp (unix : Z) : string :=
  let '(year, month, day) := civil_from_days (unix / 86400) in
  let secs := (unix mod 86400)%Z in
  pad_dec 4 year +:+ pad_dec 2 month +:+ pad_dec 2 day +:+ "T"
  +:+ pad_dec 2 (secs / 3600) +:+ pad_dec 2 (secs mod 3600 / 60) +:+ pad_dec 2 (secs mod 60) +:+ "Z".

(** A field of fixed width: digits that read back as the number. *)
Definition reads_back (w : nat) (z : Z) : bool :=
  (String.length (pad_dec w z) =? w)%nat && str_all is_digit (pad_dec w z)
  && match parse_i64 (pad_dec w z) with Some z' => (z' =? z)%Z | None => false end.
Lemma fields_checked : forall_range 100 0 (reads_back 2) && forall_range (Z.to_nat 10000) 0 (reads_back 4) = true.
Proof. vm_compute. reflexivity. Qed.

Lemma field_reads w z :
  (w = 2%nat /\ 0 <= z < 100 \/ w = 4%nat /\ 0 <= z < 10000)%Z ->
  String.length (pad_dec w z) = w /\ str_all is_digit (pad_dec w z) = true /\ parse_i64 (pad_dec w z) = Some z.
Proof.
  pose proof fields_checked as H. apply andb_true_iff in H as [H2 H4]. intros Hw.
  assert (reads_back w z = true) as Hr.
  { destruct Hw as [[-> Hz]|[-> Hz]];
      [apply (forall_range_spec _ _ _ H2)|apply (forall_range_spec _ _ _ H4)]; lia. }
  unfold reads_back in Hr. rewrite !andb_true_iff, Nat.eqb_eq in Hr. destruct Hr as [[Hl Hd] Hp].
  repeat split; [done..|]. destruct (parse_i64 _) as [z'|]; [|done]. by apply Z.eqb_eq in Hp as ->.
Qed.

(** The range in which the year has four digits. *)
Definition four_digit_years (unix : Z) : Prop := (0 <= unix < 253402300800)%Z.

Lemma stamp_fields unix : four_digit_years unix ->
  let '(year, month, day) := civil_from_days (unix / 86400) in
  (0 <= year < 10000 /\ 1 <= month <= 12 /\ 1 <= day <= 31)%Z.
Proof.
  intros Hr. pose proof (Calendar.civil_valid (unix / 86400)) as Hv. pose proof (days_civil (unix / 86400)) as Hd.
  destruct (civil_from_days (unix / 86400)) as [[y m] d]. unfold Calendar.valid in Hv.
  rewrite !andb_true_iff, !Z.leb_le in Hv. destruct Hv as [[[Hm Hm'] Hday] Hday'].
  assert (Calendar.month_length y m <= 31)%Z.
  { unfold Calendar.month_length. destruct (m =? 2)%Z; [destruct (Calendar.leap y)|destruct (_ || _)]; lia. }
  split; [|lia]. unfold four_digit_years in Hr. assert (0 <= unix / 86400 < 2932897)%Z as Hdays by zdiv.
  rewrite <- Hd in Hdays. unfold days_from_civil in Hdays. clear - Hdays Hm Hm' Hday Hday' H.
  destruct (Z.leb_spec m 2); destruct (m >? 2)%Z eqn:E; try (apply Z.gtb_lt in E); try (rewrite Z.gtb_ltb, Z.ltb_ge in E);
    try lia; zdiv.
Qed.

(** The reader on fields of the right widths. *)
Lemma epoch_fields y m d h i c :
  (String.length y, String.length m, String.length d, String.length h, String.length i, String.length c)
    = (4, 2, 2, 2, 2, 2)%nat ->
  str_all is_digit (y +:+ m +:+ d) && str_all is_digit (h +:+ i +:+ c) = true ->
  utc_epoch (y +:+ m +:+ d +:+ "T" +:+ h +:+ i +:+ c +:+ "Z") =
  (year ← parse_i64 y; month ← parse_i64 m; day ← parse_i64 d;
   hour ← parse_i64 h; minute ← parse_i64 i; second ← parse_i64 c;
   if negb ((1 <=? month) && (month <=? 12))%Z || negb ((1 <=? day) && (day <=? 31))%Z
      || (23 <? hour)%Z || (59 <? minute)%Z
   then None
   else Some (days_from_civil year month day * 86400 + hour * 3600 + minute * 60 + second)%Z).
Proof.
  intros Hl Hd. injection Hl as Hy Hm Hdd Hh Hi Hc.
  destruct y as [|y1 [|y2 [|y3 [|y4 [|]]]]]; try done. destruct m as [|m1 [|m2 [|]]]; try done.
  destruct d as [|d1 [|d2 [|]]]; try done. destruct h as [|h1 [|h2 [|]]]; try done.
  destruct i as [|i1 [|i2 [|]]]; try done. destruct c as [|c1 [|c2 [|]]]; try done.
  match goal with |- _ = ?read => set (result := read) end.
  apply andb_true_iff in Hd as [Hdate Htime].
  match type of Hdate with ?date = _ => match type of Htime with ?time = _ =>
    transitivity (if negb date || negb time then None else result); [reflexivity|by rewrite Hdate, Htime]
  end end.
Qed.

(** The reader takes the stamp of an instant for that instant. *)
Lemma epoch_of_stamp unix : four_digit_years unix -> utc_epoch (basic_stamp unix) = Some unix.
Proof.
  intros Hr. pose proof (stamp_fields unix Hr) as Hf. pose proof (days_civil (unix / 86400)) as Hd.
  unfold basic_stamp. destruct (civil_from_days (unix / 86400)) as [[y m] d]. destruct Hf as (Hy & Hm & Hday).
  pose proof (Z.div_mod unix 86400 ltac:(lia)) as Hdm.
  set (secs := (unix mod 86400)%Z) in *. assert (0 <= secs < 86400)%Z as Hs by (apply Z.mod_pos_bound; lia).
  destruct (field_reads 4 y) as (Ly & Dy & Py); [lia|].
  destruct (field_reads 2 m) as (Lm & Dm & Pm); [lia|].
  destruct (field_reads 2 d) as (Ld & Dd & Pd); [lia|].
  destruct (field_reads 2 (secs / 3600)) as (Lh & Dh & Ph); [zdiv|].
  destruct (field_reads 2 (secs mod 3600 / 60)) as (Li & Di & Pi); [zdiv|].
  destruct (field_reads 2 (secs mod 60)) as (Lc & Dc & Pc); [zdiv|].
  rewrite epoch_fields.
  - rewrite Py, Pm, Pd, Ph, Pi, Pc. cbv [mbind option_bind]. rewrite Hd.
    replace (_ || _) with false; [f_equal; clearbody secs; zdiv|].
    symmetry. rewrite !orb_false_iff, !negb_false_iff, !andb_true_iff, !Z.leb_le, !Z.ltb_ge. repeat split; zdiv.
  - by rewrite Ly, Lm, Ld, Lh, Li, Lc.
  - by rewrite !str_all_app, Dy, Dm, Dd, Dh, Di, Dc.
Qed.

Lemma stamp_visible unix : four_digit_years unix -> str_all visible (basic_stamp unix) = true.
Proof.
  intros Hr. pose proof (stamp_fields unix Hr) as Hf. unfold basic_stamp.
  destruct (civil_from_days (unix / 86400)) as [[y m] d]. destruct Hf as (Hy & Hm & Hday).
  set (secs := (unix mod 86400)%Z) in *. assert (0 <= secs < 86400)%Z as Hs by (apply Z.mod_pos_bound; lia).
  assert (forall w z, (w = 2%nat /\ 0 <= z < 100 \/ w = 4%nat /\ 0 <= z < 10000)%Z ->
            str_all visible (pad_dec w z) = true) as Hv.
  { intros w z Hz. destruct (field_reads w z Hz) as (_ & Hd & _). eapply str_all_impl; [|exact Hd].
    intros c. by destruct c as [[] [] [] [] [] [] [] []]. }
  rewrite !str_all_app, !Hv; [reflexivity|zdiv..].
Qed.

(** ** The whole invitation *)

Lemma solid_no_breaks s : Utf8 s -> Forall solid (chars s) -> no_breaks s = true.
Proof.
  assert (forall a, is_ascii a = false -> Ascii.eqb a cr = false /\ Ascii.eqb a lf = false) as Hhigh
    by (intros a; by destruct a as [[] [] [] [] [] [] [] []]).
  assert (forall a, solid (str_of a) -> Ascii.eqb a cr = false /\ Ascii.eqb a lf = false) as Hsolid
    by (intros a; by destruct a as [[] [] [] [] [] [] [] []]).
  unfold no_breaks, avoids. intros Hu. pose proof continuation_high as Hcont.
  induction Hu as [|a s Ha Hs IH|a b s Ha Ha' Hb Hs IH|a b c s Ha Ha' Hb Hc Hs IH|a b c d s Ha Ha' Hb Hc Hd Hs IH];
    intros Hall; cbn [str_all]; [done|..].
  { rewrite chars_begins in Hall by (by apply utf8_begins). inversion_clear Hall as [|? ? Hx Hrest].
    destruct (Hsolid a Hx) as [-> ->]. by apply IH. }
  all: destruct (Hhigh a Ha) as [-> ->], (Hhigh b (Hcont b Hb)) as [-> ->];
    try destruct (Hhigh c (Hcont c Hc)) as [-> ->]; try destruct (Hhigh d (Hcont d Hd)) as [-> ->];
    apply IH; pose proof (utf8_begins s Hs) as Hbeg.
  - rewrite (chars_cont _ _ _ (str_of b) (chars s)) in Hall; [by inversion Hall|by apply chars_begins|done].
  - rewrite (chars_cont _ _ _ (String b (str_of c)) (chars s)) in Hall; [by inversion Hall| |done].
    by apply (chars_cont _ _ _ (str_of c)); [apply chars_begins|].
  - rewrite (chars_cont _ _ _ (String b (String c (str_of d))) (chars s)) in Hall; [by inversion Hall| |done].
    apply (chars_cont _ _ _ (String c (str_of d))); [|done].
    by apply (chars_cont _ _ _ (str_of d)); [apply chars_begins|].
Qed.

(** A quoted name hides its colons from the reader. *)
Lemma colon_split_avoids q p t :
  str_all (fun c => negb (Ascii.eqb c quote) && (q || negb (Ascii.eqb c ":"))) p = true ->
  colon_split q (p +:+ t) = ('(head, value) ← colon_split q t; Some (p +:+ head, value)).
Proof.
  induction p as [|c p IH]; intros Hp.
  { change ("" +:+ t) with t. by destruct (colon_split q t) as [[head value]|]. }
  simpl in Hp. rewrite !andb_true_iff, negb_true_iff in Hp. destruct Hp as [[Hq Hc] Hp].
  rewrite append_cons. cbn [colon_split]. rewrite Hq, (IH Hp).
  replace (Ascii.eqb c ":" && negb q) with false by (destruct q, (Ascii.eqb c ":"); done).
  by destruct (colon_split q t) as [[head value]|].
Qed.

Lemma colon_split_param name t :
  colon_split false (quote_param name +:+ t)
  = ('(head, value) ← colon_split false t; Some (quote_param name +:+ head, value)).
Proof.
  unfold quote_param. set (cleaned := str_filter _ name).
  assert (str_all (fun c => negb (Ascii.eqb c quote)) cleaned = true) as Hc by apply str_all_filter.
  clearbody cleaned.
  destruct (str_all (fun c => negb (Ascii.eqb c ";" || _ || _)) cleaned) eqn:Hplain; cbn [negb].
  - apply colon_split_avoids. clear -Hc Hplain. induction cleaned as [|c s IH]; [done|]. simpl in *.
    rewrite !andb_true_iff in *. destruct Hc as [-> Hc], Hplain as [Hn Hp]. split; [|by apply IH].
    by destruct (Ascii.eqb c ";"), (Ascii.eqb c ":").
  - rewrite !append_assoc, !str_of_app. cbn [colon_split].
    change (Ascii.eqb quote ":") with false. change (Ascii.eqb quote quote) with true. cbn [andb negb].
    rewrite (colon_split_avoids true); [|eapply str_all_impl; [|exact Hc]; intros c ->; done].
    cbn [colon_split]. change (Ascii.eqb quote ":") with false. change (Ascii.eqb quote quote) with true. cbn [andb negb].
    destruct (colon_split false t) as [[head value]|]; [|done]. cbn [mbind option_bind].
    by rewrite ?append_cons, ?append_assoc, ?str_of_app.
Qed.

Lemma quote_param_utf8 s : Utf8 s -> Utf8 (quote_param s).
Proof.
  intros Hs. unfold quote_param.
  assert (Utf8 (str_filter (fun c => negb (Ascii.eqb c quote)) s)) as Hf.
  { apply filter_utf8; [|done]. intros c. by destruct c as [[] [] [] [] [] [] [] []]. }
  destruct (negb _); [|done]. rewrite !str_of_app. constructor; [done|].
  apply utf8_app; [done|by apply utf8_ascii].
Qed.

Lemma filter_no_breaks f s : no_breaks s = true -> no_breaks (str_filter f s) = true.
Proof.
  unfold no_breaks, avoids. induction s as [|c s IH]; [done|]. simpl. rewrite !andb_true_iff.
  intros [[Hc Hs] [Hc' Hs']]. destruct (f c); simpl; rewrite ?Hc, ?Hc', <- andb_true_iff; apply IH; by rewrite Hs, Hs'.
Qed.

Lemma quote_param_no_breaks s : no_breaks s = true -> no_breaks (quote_param s) = true.
Proof.
  intros Hs. unfold quote_param. pose proof (filter_no_breaks (fun c => negb (Ascii.eqb c quote)) s Hs) as Hf.
  destruct (negb _); [|done]. by rewrite !no_breaks_app, Hf.
Qed.

Section Invitation.
Context `{ChronoUtc}.

(** What the code relies on of chrono: [%Y%m%dT%H%M%SZ] of an instant whose year has
    four digits. *)
Definition formats_utc : Prop := forall unix, four_digit_years unix -> utc_format unix = Some (basic_stamp unix).

(** Invitations whose identifiers and addresses hold no white space, whose names hold
    no line break, and whose summary does not begin or end with white space. *)
Record ordinary (i : IcsInvite) : Prop := mk_ordinary {
  o_uid : Utf8 (iv_uid i) /\ Forall solid (chars (iv_uid i));
  o_organizer : Utf8 (iv_organizer_email i) /\ Forall solid (chars (iv_organizer_email i));
  o_attendee : Utf8 (iv_attendee_email i) /\ Forall solid (chars (iv_attendee_email i));
  o_organizer_name : Utf8 (iv_organizer_name i) /\ no_breaks (iv_organizer_name i) = true;
  o_attendee_name : Utf8 (iv_attendee_name i) /\ no_breaks (iv_attendee_name i) = true;
  o_summary : Utf8 (iv_summary i) /\ trim_chars (escape_text (iv_summary i)) = escape_text (iv_summary i);
  o_description : forall d, iv_description i = Some d -> Utf8 d;
  o_times : four_digit_years (iv_dtstamp i) /\ four_digit_years (iv_start i) /\ four_digit_years (iv_end i)
}.

Definition without_cr (s : string) : string := str_filter (fun c => negb (Ascii.eqb c cr)) s.

(** What a reader should find. *)
Definition invitation_of (i : IcsInvite) : Value :=
  json_object [("method", Str "REQUEST"); ("uid", Str (iv_uid i)); ("summary", Str (without_cr (iv_summary i)));
    ("location", Null); ("organizer", Str ("mailto:" +:+ iv_organizer_email i));
    ("start", Str (basic_stamp (iv_start i))); ("end", Str (basic_stamp (iv_end i)));
    ("startAt", Number (iv_start i)); ("endAt", Number (iv_end i))].

(** Well-formed text on one line. *)
Definition clean (s : string) : Prop := Utf8 s /\ no_breaks s = true.

Lemma clean_visible s : str_all visible s = true -> clean s.
Proof.
  intros Hv. split; [apply utf8_ascii; eapply str_all_impl; [apply visible_ascii|done]|].
  unfold no_breaks, avoids. rewrite andb_true_iff.
  split; (eapply str_all_impl; [|exact Hv]); intros c; by destruct c as [[] [] [] [] [] [] [] []].
Qed.
Lemma clean_app s t : clean s -> clean t -> clean (s +:+ t).
Proof. intros [? Hs] [? Ht]. split; [by apply utf8_app|]. by rewrite no_breaks_app, Hs, Ht. Qed.
Lemma clean_escape s : Utf8 s -> clean (escape_text s).
Proof. intros Hs. split; [by apply escape_utf8|apply escape_no_breaks]. Qed.
Lemma clean_param s : Utf8 s /\ no_breaks s = true -> clean (quote_param s).
Proof. intros [Hs Hb]. split; [by apply quote_param_utf8|by apply quote_param_no_breaks]. Qed.
Lemma clean_solid s : Utf8 s /\ Forall solid (chars s) -> clean s.
Proof. intros [Hs Hc]. split; [done|by apply solid_no_breaks]. Qed.

(** A line that begins with fixed visible text. *)
Lemma good_prefix c p s : str_all visible (String c p) = true -> clean s -> good_line (String c p +:+ s).
Proof.
  intros Hp Hs. destruct (clean_app (String c p) s) as [Hu Hb]; [by apply clean_visible|done|].
  split; [|done]. rewrite append_cons. simpl in *. apply andb_true_iff in Hp as [Hc _].
  by destruct c as [[] [] [] [] [] [] [] []].
Qed.

Lemma good_plain c p : str_all visible (String c p) = true -> good_line (String c p).
Proof. intros Hp. rewrite <- (append_nil_r (String c p)). apply good_prefix; [done|by apply clean_visible]. Qed.

Lemma stamp_spec unix : formats_utc -> four_digit_years unix ->
  utc_stamp unix = basic_stamp unix /\ clean (basic_stamp unix) /\ trim_chars (basic_stamp unix) = basic_stamp unix.
Proof.
  intros Hf Hu. pose proof (stamp_visible unix Hu) as Hv. unfold utc_stamp. rewrite (Hf unix Hu).
  split; [done|]. split; [by apply clean_visible|by apply trim_visible].
Qed.

Ltac clean_line :=
  repeat match goal with
  | |- clean (String _ _) => apply clean_visible; reflexivity
  | |- clean (_ +:+ _) => apply clean_app
  | |- clean (escape_text _) => apply clean_escape
  | |- clean (quote_param _) => apply clean_param
  | |- clean _ => first [assumption | apply clean_solid]
  | |- good_line (String _ _) => apply good_plain; reflexivity
  | |- good_line (String _ _ +:+ _) => apply good_prefix; [reflexivity|]
  | |- _ => assumption
  end.

Lemma good_lines i : formats_utc -> ordinary i -> Forall good_line (ics_lines i).
Proof.
  intros Hf [Uid Org Att Name Name' [Summ _] Desc (T1 & T2 & T3)]. unfold ics_lines.
  destruct (stamp_spec _ Hf T1) as (-> & ? & _), (stamp_spec _ Hf T2) as (-> & ? & _), (stamp_spec _ Hf T3) as (-> & ? & _).
  rewrite !Forall_app, !Forall_cons. repeat match goal with |- _ /\ _ => split end; clean_line;
    try constructor.
  destruct (iv_description i) as [d|]; [|constructor]. specialize (Desc d eq_refl).
  constructor; [|constructor]. clean_line.
Qed.

(** *** What the reader makes of each line *)

Lemma organizer_property name mail :
  Utf8 mail -> Forall solid (chars mail) ->
  split_property ("ORGANIZER;CN=" +:+ quote_param name +:+ ":mailto:" +:+ mail)
  = Some ("ORGANIZER", "CN=" +:+ quote_param name, "mailto:" +:+ mail).
Proof.
  intros Hu Hs. unfold split_property. rewrite (colon_split_avoids false), colon_split_param by reflexivity.
  change (colon_split false (":mailto:" +:+ mail)) with (Some ("", "mailto:" +:+ mail)).
  cbn [mbind option_bind]. rewrite append_nil_r.
  rewrite (trim_solid ("mailto:" +:+ mail)); [reflexivity|].
  apply visible_app_solid; [done|by apply utf8_begins|done].
Qed.

Lemma attendee_property name mail : exists params value,
  split_property ("ATTENDEE;CN=" +:+ quote_param name +:+ ";ROLE=REQ-PARTICIPANT;PARTSTAT=ACCEPTED:mailto:" +:+ mail)
  = Some ("ATTENDEE", params, value).
Proof.
  unfold split_property. rewrite (colon_split_avoids false), colon_split_param by reflexivity.
  change (colon_split false (_ +:+ mail)) with (Some (";ROLE=REQ-PARTICIPANT;PARTSTAT=ACCEPTED", "mailto:" +:+ mail)).
  cbn [mbind option_bind]. eexists _, _. reflexivity.
Qed.

(** Lines of an event the reader has no use for. *)
Lemma scan_skip f line name params value rest :
  split_property line = Some (name, params, value) ->
  forallb (fun n => negb (String.eqb name n)) ["END"; "UID"; "SUMMARY"; "LOCATION"; "ORGANIZER"; "DTSTART"; "DTEND"] = true ->
  scan_lines true f (line :: rest) = scan_lines true f rest.
Proof.
  intros Hl Hn. cbn [scan_lines]. rewrite Hl. simpl in Hn. rewrite !andb_true_iff, !negb_true_iff in Hn.
  destruct Hn as (-> & -> & -> & -> & -> & -> & -> & _). by destruct f.
Qed.

Lemma scan_invitation i :
  formats_utc -> ordinary i ->
  scan_lines false nothing_found (ics_lines i) =
  mk_found (Some "REQUEST") (Some (iv_uid i)) (Some (without_cr (iv_summary i))) None
    (Some ("mailto:" +:+ iv_organizer_email i)) (Some (basic_stamp (iv_start i))) (Some (basic_stamp (iv_end i))) true.
Proof.
  intros Hf [Uid Org Att Name Name' [_ Summ] Desc (T1 & T2 & T3)]. unfold ics_lines.
  destruct (stamp_spec _ Hf T1) as (-> & _ & E1), (stamp_spec _ Hf T2) as (-> & _ & E2), (stamp_spec _ Hf T3) as (-> & _ & E3).
  destruct (attendee_property (iv_attendee_name i) (iv_attendee_email i)) as (ps & v & Ha).
  set (last := ["END:VEVENT"; "END:VCALENDAR"]).
  set (tail := ("ORGANIZER;CN=" +:+ _) :: ("ATTENDEE;CN=" +:+ _) :: last).
  transitivity (scan_lines true
    (mk_found (Some "REQUEST") (Some (trim_chars (iv_uid i))) (Some (unescape (trim_chars (escape_text (iv_summary i)))))
       None None (Some (trim_chars (basic_stamp (iv_start i)))) (Some (trim_chars (basic_stamp (iv_end i)))) true)
    (match iv_description i with Some d => ["DESCRIPTION:" +:+ escape_text d] | None => [] end ++ tail)%list).
  { reflexivity. }
  rewrite (trim_solid (iv_uid i)), Summ, E2, E3, unescape_escape by apply Uid.
  transitivity (scan_lines true
    (mk_found (Some "REQUEST") (Some (iv_uid i)) (Some (without_cr (iv_summary i)))
       None None (Some (basic_stamp (iv_start i))) (Some (basic_stamp (iv_end i))) true) tail).
  { destruct (iv_description i) as [d|]; [|done]. by apply (scan_skip _ _ "DESCRIPTION" "" (trim_chars (escape_text d))). }
  subst tail. cbn [scan_lines]. rewrite organizer_property by apply Org. rewrite Ha. reflexivity.
Qed.

(** C21: What the server writes as an invitation, its reader understands, whatever is
    escaped and folded on the way: the method, the uid, the summary (less its carriage
    returns), the organizer's address and the two instants come back as they were
    written.  (The reader takes no other field.)  The invitation is an ordinary one: its
    identifiers have no white space, its names no line break (which [quote_param] does
    not check: [visitor_name_adds_lines]), its summary no white space at either end, and
    its instants years of four digits. *)
Theorem parse_render i :
  formats_utc -> ordinary i -> parse_invite (render i) = Some (invitation_of i).
Proof.
  intros Hf Hi. unfold parse_invite, render. rewrite unfold_render by (by apply good_lines).
  rewrite scan_invitation by done. unfold invitation_of, epoch_value. cbn [mbind option_bind f_dtstart f_dtend].
  destruct Hi as [_ _ _ _ _ _ _ (_ & T2 & T3)]. by rewrite !epoch_of_stamp.
Qed.

(** Every line of the text is at most 75 octets long, as RFC 5545 asks, whatever
    the lengths of the fields. *)
Lemma render_line_length i :
  formats_utc -> ordinary i ->
  Forall (fun l => (String.length l <= 75)%nat) (raw_lines (render i)).
Proof.
  intros Hf Hi. unfold render, render_lines. pose proof (good_lines i Hf Hi) as Hl.
  induction Hl as [|l ls (Hs & Hb & Hu) _ IH]; [constructor|]. cbn [map concat_strings].
  destruct (fold_pieces l) as (p & qs & -> & El & Hp & Hp75 & Hqs); [by destruct l|by apply utf8_chars|].
  rewrite El in Hb. rewrite append_assoc, raw_pieces by done. constructor; [done|].
  apply Forall_app. split; [|exact IH]. clear -Hqs. induction Hqs as [|q qs Hq _ IHq]; [constructor|].
  constructor; [|done]. unfold short in Hq. rewrite append_length. simpl. lia.
Qed.
End Invitation.

(** ** A name with a line break in it

    [validate_visitor] only bounds the length of a visitor's name and [quote_param]
    keeps line breaks, so the visitor writes lines of the owner's invitation. *)
Lemma visitor_name_adds_lines :
  let i := mk_invite "1@x.org" 0 0 3600 "Meeting" None "Alice" "alice@x.org"
             ("Bob" +:+ crlf +:+ "SUMMARY:Pay 500 to Mallory" +:+ crlf +:+ "X-END:") "bob@y.org" in
  let _ := Build_ChronoUtc (fun t => Some (basic_stamp t)) in
  option_map (field "summary") (parse_invite (render i)) = Some (Some (Str "Pay 500 to Mallory")).
Proof. vm_compute. reflexivity. Qed.

(** ** An address that is two

    [validate_visitor] wants one at sign and no white space, and the address goes
    into the To field between angle brackets: one that closes and reopens them
    names a second mailbox. *)
Lemma visitor_address_splits spacing c boundary message_id date :
  spacing "a>,<b@y.org" = false -> co_to c = "a>,<b@y.org" ->
  validate_visitor spacing (mk_body 0 30 "Bob" "a>,<b@y.org" None) = None
  /\ "To: <a>,<b@y.org>" ∈ compose_headers c boundary message_id date.
Proof.
  intros Hs Hc. split; [unfold validate_visitor; simpl; by rewrite Hs|].
  unfold compose_headers. rewrite Hc. right. by left.
Qed.

(** ** Witnesses *)

#[local] Instance gregorian : ChronoUtc := Build_ChronoUtc (fun t => Some (basic_stamp t)).

(** A summary with a line break, a comma and a three-byte character, longer than one line. *)
Definition meeting : IcsInvite :=
  mk_invite "0190-77@owney.test" 1784550000 1784559600 1784563200
    ("Review, part 2" +:+ str_of lf +:+ "of the quarterly numbers, with everyone from both offices "
     +:+ utf8_3 "226" "128" "148" +:+ " bring notes") (Some "Room 4; ring twice")
    "Alice: Owner" "alice@owney.test" "Bob" "bob@y.org".

Lemma meeting_ordinary : ordinary meeting.
Proof.
  assert (forall s, str_all is_ascii s = true -> Utf8 s) as Hu by exact utf8_ascii.
  constructor; cbn [meeting iv_uid iv_organizer_email iv_attendee_email iv_organizer_name iv_attendee_name
    iv_summary iv_description iv_dtstamp iv_start iv_end].
  1-3: split; [by apply Hu|by repeat constructor].
  1-2: split; [by apply Hu|reflexivity].
  - split; [|vm_compute; reflexivity].
    repeat first [apply utf8_nil | apply utf8_one; [reflexivity|] | apply utf8_three; [reflexivity..|]].
  - intros d [= <-]. by apply Hu.
  - unfold four_digit_years. lia.
Qed.

Lemma parse_render_witness :
  formats_utc /\ ordinary meeting /\ parse_invite (render meeting) = Some (invitation_of meeting).
Proof.
  split; [done|]. split; [exact meeting_ordinary|]. apply parse_render; [done|exact meeting_ordinary].
Defined.

Lemma render_line_length_witness :
  length (raw_lines (render meeting)) = 16%nat
  /\ Forall (fun l => (String.length l <= 75)%nat) (raw_lines (render meeting)).
Proof.
  split; [vm_compute; reflexivity|]. apply render_line_length; [done|exact meeting_ordinary].
Defined.

(** * The confirmation mails: nothing a visitor enters becomes a header field, and no
    failure of a mail touches the booking; the four passes of [html_escape] amount to
    replacing each character once. *)

(** ** HTML *)

Definition entity (c : ascii) : string :=
  if Ascii.eqb c "&" then "&amp;" else if Ascii.eqb c "<" then "&lt;"
  else if Ascii.eqb c ">" then "&gt;" else if Ascii.eqb c quote then "&quot;" else str_of c.
Fixpoint entities (s : string) : string :=
  match s with EmptyString => EmptyString | String c s' => entity c +:+ entities s' end.

Lemma replace_with_app c r s t : replace_with c r (s +:+ t) = replace_with c r s +:+ replace_with c r t.
Proof. induction s as [|a s IH]; [done|]. rewrite append_cons. cbn [replace_with]. by rewrite IH, append_assoc. Qed.

Lemma html_escape_spec s :
  html_escape s = entities s
  /\ str_all (fun c => negb (Ascii.eqb c "<" || Ascii.eqb c ">" || Ascii.eqb c quote)) (html_escape s) = true.
Proof.
  assert (html_escape s = entities s) as E.
  { unfold html_escape. induction s as [|c s IH]; [done|]. cbn [entities replace_with].
    rewrite !replace_with_app, IH. f_equal. by destruct c as [[] [] [] [] [] [] [] []]. }
  split; [done|]. rewrite E. clear E. induction s as [|c s IH]; [done|]. cbn [entities].
  rewrite str_all_app, IH, andb_true_r. by destruct c as [[] [] [] [] [] [] [] []].
Qed.

(** ** Header fields *)

Lemma is_break_free s : str_all (fun c => negb (is_break c)) s = no_breaks s.
Proof.
  unfold no_breaks, avoids, is_break. induction s as [|c s IH]; [done|]. simpl. rewrite IH.
  destruct (Ascii.eqb c cr), (Ascii.eqb c lf); simpl; by rewrite ?andb_false_r.
Qed.

Lemma printable_no_breaks s : printable s = true -> no_breaks s = true.
Proof.
  rewrite <- is_break_free. unfold printable. apply str_all_impl.
  intros c. by destruct c as [[] [] [] [] [] [] [] []].
Qed.

Lemma filtered_no_breaks s :
  no_breaks (str_filter (fun a => negb (Ascii.eqb a quote || is_break a)) s) = true.
Proof.
  rewrite <- is_break_free. eapply str_all_impl; [|apply str_all_filter].
  intros c. simpl. by destruct (Ascii.eqb c quote), (is_break c).
Qed.

Lemma blanked_no_breaks s : no_breaks (str_map (fun a => if is_break a then " "%char else a) s) = true.
Proof.
  rewrite <- is_break_free, str_all_map. apply str_all_true. intros c. destruct (is_break c) eqn:E; [done|]. by rewrite E.
Qed.

Definition clean_addresses (c : Confirmation) : Prop :=
  no_breaks (co_host c) = true /\ no_breaks (co_from_email c) = true /\ no_breaks (co_to c) = true.

Lemma compose_headers_clean c boundary message_id date :
  clean_addresses c -> no_breaks boundary = true -> no_breaks message_id = true -> printable date = true ->
  Forall (fun h => no_breaks h = true) (compose_headers c boundary message_id date).
Proof.
  intros (Hh & Hf & Ht) Hb Hm Hd%printable_no_breaks. unfold compose_headers.
  repeat constructor; rewrite ?no_breaks_app, ?blanked_no_breaks, ?Hf, ?Ht, ?Hb, ?Hm, ?Hd; try done.
  destruct (co_from_name c); by rewrite !no_breaks_app, ?filtered_no_breaks, Hf.
Qed.

Lemma compose_total a b now c : is_Some (compose a b now c).
Proof. unfold compose. destruct (rfc2822_utc_total now) as [d ->]. by eexists. Qed.

Section ConfirmFacts.
Context `{Chrono} `{!ChronoLabel} `{ChronoUtc} `{FedCrates} `{BlobStore}.
Context `{Serde Availability} `{Serde (list Z)}.
Variable parse_uuid : string -> option string.
Variable parse_message : list Z -> option ParsedMessage.
Variable spacing : string -> bool.

Abbreviation book_and_confirm := (book_and_confirm parse_uuid parse_message spacing).

(** [raw] begins with the seven fields the server writes, an empty line after them, and
    its one [To] field holds [to] between its brackets. *)
Definition server_header (raw to : string) : Prop :=
  exists headers rest,
    raw = crlf_lines headers +:+ crlf +:+ rest
    /\ Forall2 (fun name h => exists v, h = name +:+ ": " +:+ v)
         ["From"; "To"; "Subject"; "Date"; "Message-ID"; "MIME-Version"; "Content-Type"] headers
    /\ Forall (fun h => no_breaks h = true) headers
    /\ headers !! 1%nat = Some ("To: <" +:+ to +:+ ">").

Lemma composed_header a b now c raw :
  clean_addresses c -> no_breaks a = true -> no_breaks b = true ->
  compose a b now c = Some raw -> server_header raw (co_to c).
Proof.
  intros Hclean Ha Hb Hc. unfold compose in Hc. destruct (rfc2822_utc now) as [date|] eqn:Ed; [|done].
  cbn [mbind option_bind] in Hc. injection Hc as <-.
  eexists (compose_headers _ _ _ _), _. split; [reflexivity|]. split.
  { unfold compose_headers. repeat constructor; eexists; reflexivity. }
  split; [|reflexivity]. destruct (Hclean) as (Hh & _ & _).
  apply compose_headers_clean; [done|by rewrite no_breaks_app, Ha| |by eapply rfc2822_utc_printable].
  by rewrite !no_breaks_app, Hb, Hh.
Qed.

(** C22: The mail a visitor is sent and the one the owner gets each have exactly the
    seven header fields the server writes, whatever the visitor put in the name and the
    note and the owner in the title: an address that passed [validate_visitor] has no
    line break, and the other texts lose theirs.  The [To] field of the first holds the
    visitor's address as it was typed, that of the second the owner's (an address with
    angle brackets in it passes the check, and would read as two). *)
Theorem confirmation_headers body host page owner booking tz a1 b1 a2 b2 now raw1 raw2 :
  (forall s, no_breaks s = false -> spacing s = true) ->
  validate_visitor spacing body = None -> bo_visitor_email booking = bb_email body ->
  no_breaks host = true -> no_breaks (email owner) = true ->
  no_breaks a1 = true -> no_breaks b1 = true -> no_breaks a2 = true -> no_breaks b2 = true ->
  compose a1 b1 now (visitor_mail host page owner booking tz) = Some raw1 ->
  compose a2 b2 now (owner_mail host page owner booking tz) = Some raw2 ->
  server_header raw1 (bb_email body) /\ server_header raw2 (email owner).
Proof.
  intros Hsp Hv Hmail Hhost Howner Ha1 Hb1 Ha2 Hb2 Hraw1 Hraw2.
  assert (no_breaks (bb_email body) = true) as Hto.
  { destruct (no_breaks (bb_email body)) eqn:E; [done|]. apply Hsp in E. revert Hv. unfold validate_visitor.
    rewrite E. simpl. rewrite andb_false_r. destruct (_ || _); done. }
  apply composed_header in Hraw1; [|by repeat split; cbn; rewrite ?Hmail|done..].
  apply composed_header in Hraw2; [|by repeat split|done..].
  cbn [co_to visitor_mail] in Hraw1. rewrite Hmail in Hraw1. by split.
Qed.

(** The calendar tables, which no mail operation can reach. *)
Definition same_tables (d d' : CalDb) : Prop := exists core, d' = with_core core d.

Lemma mail_effect_tables {E A} (m : action World E A) s : same_tables (bs_tables s) (bs_tables (mail_effect m s)).
Proof. by eexists. Qed.

Lemma same_tables_trans d d' d'' : same_tables d d' -> same_tables d' d'' -> same_tables d d''.
Proof. intros [c ->] [c' ->]. by exists c'. Qed.

Lemma send_confirmations_runs ctx page owner booking tz s :
  exists s', send_confirmations parse_uuid parse_message ctx page owner booking tz s = Some s'
             /\ same_tables (bs_tables s) (bs_tables s').
Proof.
  unfold send_confirmations.
  destruct (compose_total (cc_uuid4 ctx 0) (cc_uuid4 ctx 1) (cc_now ctx)
    (visitor_mail (host_of (cc_public_url ctx)) page owner booking tz)) as [raw1 E1].
  destruct (compose_total (cc_uuid4 ctx 2) (cc_uuid4 ctx 3) (cc_now ctx)
    (owner_mail (host_of (cc_public_url ctx)) page owner booking tz)) as [raw2 E2].
  rewrite E1, E2. destruct (cc_submitter ctx) as [submit|]; cbn [mbind option_bind]; eexists; (split; [done|]).
  - by eexists.
  - apply mail_effect_tables.
Qed.

(** A booking that was made stays made: whatever the submitter and the mail store
    do with the two mails, the visitor is told "created" and the events and bookings
    are those of the transaction. *)
Lemma booking_stands ctx e b t now stamp slug body s booking page owner d :
  Slots.book parse_uuid spacing e b t now stamp slug body (bs_tables s) = Some (Ok (booking, page, owner), d) ->
  exists s',
    book_and_confirm ctx e b t now stamp slug body s = Some (book_reply booking page, s')
    /\ events (bs_tables s') = events d /\ bookings (bs_tables s') = bookings d /\ pages (bs_tables s') = pages d.
Proof.
  intros Hb. unfold Confirm.book_and_confirm. rewrite Hb. cbn [mbind option_bind].
  apply book_cases in Hb as [[_ Hb]|(row & page' & tz & slot & owner' & bounds & Hch & bo & _ & [= -> -> ->])]; [done|].
  destruct Hch as (_ & _ & _ & _ & _ & -> & _). cbn [mbind option_bind].
  destruct (send_confirmations_runs ctx page' owner' bo tz (mk_book_state d (bs_files s) (bs_tasks s)))
    as (s' & -> & core & Hs'). cbn [bs_tables] in Hs'.
  exists s'. split; [done|]. by rewrite Hs'.
Qed.
End ConfirmFacts.
