(* ===== verification/JmapIsolation.v ===== *)
(** One account cannot reach another's mail through the JMAP methods. *)
From S2P Require Import Prelude Text Bytes Ident Json JmapEnvelope Store StoreFacts Mail MailQueries MailFacts UpdateFacts History Spam Chat Queue Delivery Attributes JmapMail.

Open Scope string_scope.

(** ** What belongs to the others *)

(** The mail tables but for the rows of [account]. *)
Record others_mail (account : string) (d d' : Db) : Prop := {
  om_emails : forall e, e_account e <> account -> e ∈ emails d' <-> e ∈ emails d;
  om_threads : forall t, t_account t <> account -> t ∈ threads d' <-> t ∈ threads d;
  om_keywords : forall e k, e ∈ emails d -> e_account e <> account ->
    (e_id e, k) ∈ email_keyword d' <-> (e_id e, k) ∈ email_keyword d;
  om_placed : forall e m, e ∈ emails d -> e_account e <> account ->
    (e_id e, m) ∈ email_mailbox d' <-> (e_id e, m) ∈ email_mailbox d;
  om_states : forall a t, a <> account -> state_of a t d' = state_of a t d;
  om_tables : accounts d' = accounts d /\ aliases d' = aliases d /\ mailboxes d' = mailboxes d
}.

#[export] Instance others_mail_pre account : PreOrder (others_mail account).
Proof.
  split.
  - intros d. by split.
  - intros d1 d2 d3 [E1 T1 K1 P1 S1 (A1 & L1 & M1)] [E2 T2 K2 P2 S2 (A2 & L2 & M2)]. split.
    + intros e He. by rewrite E2, E1.
    + intros t Ht. by rewrite T2, T1.
    + intros e k Hin He. rewrite K2, K1; [done|done|done|by apply E1|done].
    + intros e m Hin He. rewrite P2, P1; [done|done|done|by apply E1|done].
    + intros a t Ha. by rewrite S2, S1.
    + split_and!; congruence.
Qed.

(** The mail tables as they were. *)
Definition mail_same (d d' : Db) : Prop :=
  accounts d' = accounts d /\ aliases d' = aliases d /\ mailboxes d' = mailboxes d /\ threads d' = threads d
  /\ emails d' = emails d /\ email_mailbox d' = email_mailbox d /\ email_keyword d' = email_keyword d
  /\ states d' = states d.
#[export] Instance mail_same_pre : PreOrder mail_same.
Proof. split; [by intros d|]. intros a b c. unfold mail_same. intros; destruct_and?; split_and!; congruence. Qed.

Lemma mail_same_others account d d' : mail_same d d' -> others_mail account d d'.
Proof.
  intros (Ha & Hl & Hm & Ht & He & Hp & Hk & Hs).
  split; intros; rewrite ?He, ?Ht, ?Hp, ?Hk; try done. unfold state_of. by rewrite Hs.
Qed.

Section Isolation.
Context `{BlobStore}.
Variable parse_uuid : string -> option string.
Variable parse_message : list Z -> option ParsedMessage.
Abbreviation wf := (wf parse_uuid).
Abbreviation canonical := (canonical parse_uuid).

Lemma mail_same_wf d d' : mail_same d d' -> wf d -> wf d'.
Proof. intros (? & ? & ? & ? & ? & ? & ? & ?). by apply wf_frame. Qed.

(** A well-formed database in which only [account]'s mail has changed. *)
Definition within (account : string) (d d' : Db) : Prop := wf d -> others_mail account d d' /\ wf d'.
#[local] Instance within_pre account : PreOrder (within account).
Proof.
  split; [by intros d Hd|]. intros d1 d2 d3 H1 H2 Hd. destruct (H1 Hd) as [O1 W1]. destruct (H2 W1) as [O2 W2].
  split; [by etransitivity|done].
Qed.
Lemma mail_same_within account d d' : mail_same d d' -> within account d d'.
Proof. intros Hs Hd. split; [by apply mail_same_others|by eapply mail_same_wf]. Qed.

(** ** The storage operations *)

Lemma one_email d account i e e' :
  wf d -> e ∈ emails d -> e_id e = i -> e' ∈ emails d -> e_id e' = i -> e_account e' = account -> e_account e = account.
Proof.
  intros Hd He Hi He' Hi' Ha. assert (e = e') as ->; [|done].
  eapply (NoDup_map_inj _ _ _ _ (wf_email_ids _ _ Hd)); congruence.
Qed.

Lemma set_updated_others account i m d e :
  wf d -> (exists e', e' ∈ emails d /\ e_account e' = account /\ e_id e' = i) ->
  e_account e <> account ->
  e ∈ update_where (fun e => String.eqb (e_id e) i) (set_updated m) (emails d) <-> e ∈ emails d.
Proof.
  intros Hd (e' & He' & Ha' & Hi') Hne. rewrite elem_of_update_where.
  assert (forall x, x ∈ emails d -> e_account x <> account -> String.eqb (e_id x) i = false) as Hother.
  { intros x Hx Hax. apply String.eqb_neq. intros Hi. apply Hax. exact (one_email _ _ _ _ _ Hd Hx Hi He' Hi' Ha'). }
  split.
  - intros (x & Hx & ->). destruct (String.eqb (e_id x) i) eqn:E; [|done]. exfalso.
    cbn in Hne. rewrite (Hother x Hx Hne) in E. done.
  - intros He. exists e. by rewrite (Hother e He Hne).
Qed.

Lemma update_email_within account i kws mbs : keeps (within account) (update_email account i kws mbs).
Proof.
  intros d r d' Hrun Hd. pose proof (update_email_run account i kws mbs d) as Hspec. rewrite Hrun in Hspec.
  destruct r as [r|e]; [|by destruct Hspec as [_ ->]].
  destruct Hspec as (Hacc & d1 & Hu & ->). pose proof (updated_wf parse_uuid _ _ _ _ _ _ Hd Hacc Hu) as Hw.
  assert (others_mail account d d1) as Ho.
  { destruct (upd_tables _ _ _ _ _ _ Hu) as (Hmb & Hth & _). pose proof (acc_email _ _ _ _ Hacc) as Hmine.
    split.
    - intros e Hne. rewrite (upd_emails _ _ _ _ _ _ Hu). by apply set_updated_others with (account := account).
    - by rewrite Hth.
    - intros e k He Hne. rewrite (upd_keywords _ _ _ _ _ _ Hu). destruct kws; [|done].
      destruct Hmine as (e' & He' & Ha' & Hi').
      assert (e_id e <> i) by (intros Hi; apply Hne; exact (one_email _ _ _ _ _ Hd He Hi He' Hi' Ha')). naive_solver.
    - intros e m He Hne. rewrite (upd_mailboxes _ _ _ _ _ _ Hu). destruct mbs as [ms|]; [|done].
      destruct Hmine as (e' & He' & Ha' & Hi').
      assert (e_id e <> i) by (intros Hi; apply Hne; exact (one_email _ _ _ _ _ Hd He Hi He' Hi' Ha')).
      rewrite elem_of_app, drop_rows_elem, elem_of_map. naive_solver.
    - intros a t Ha. rewrite (upd_states _ _ _ _ _ _ Hu), bool_decide_false; [lia|naive_solver].
    - split_and!; [apply Hu..|done]. }
  split; [|by apply (mail_same_wf d1)]. etransitivity; [exact Ho|]. by apply mail_same_others.
Qed.

Lemma committed_others fresh now account meta size blob auth chat d d' th new mb :
  wf d -> committed fresh now account meta size blob auth chat d d' th new mb ->
  email_exists (fresh_email fresh) d = false ->
  (new = false -> exists t, t ∈ threads d /\ t_id t = th /\ t_account t = account) ->
  others_mail account d d'.
Proof.
  intros Hd Hc Hfe Hj. split.
  - intros e Hne. rewrite (com_emails _ _ _ _ _ _ _ _ _ _ _ _ _ Hc), elem_of_app, list_elem_of_singleton.
    split; [|by left]. intros [?| ->]; [done|]. by destruct Hne.
  - intros t Hne. rewrite (com_threads _ _ _ _ _ _ _ _ _ _ _ _ _ Hc). destruct new.
    + rewrite elem_of_app, list_elem_of_singleton. split; [|by left]. intros [?| ->]; [done|]. by destruct Hne.
    + destruct (Hj eq_refl) as (t0 & Ht0 & Hi0 & Ha0).
      assert (forall x, x ∈ threads d -> t_account x <> account -> String.eqb (t_id x) th = false) as Hother.
      { intros x Hx Hax. apply String.eqb_neq. intros Hi. apply Hax. rewrite <- Ha0. f_equal.
        eapply (NoDup_map_inj _ _ _ _ (wf_thread_ids _ _ Hd)); congruence. }
      rewrite elem_of_update_where. split.
      * intros (x & Hx & ->). destruct (String.eqb (t_id x) th) eqn:E; [|done]. exfalso.
        cbn in Hne. by rewrite (Hother x Hx Hne) in E.
      * intros Ht. exists t. by rewrite (Hother t Ht Hne).
  - intros e k _ _. by rewrite (com_keywords _ _ _ _ _ _ _ _ _ _ _ _ _ Hc).
  - intros e m He _. rewrite (com_placed _ _ _ _ _ _ _ _ _ _ _ _ _ Hc), elem_of_app, list_elem_of_singleton.
    split; [|by left]. intros [?|[= Hi _]]; [done|]. by destruct (email_exists_false _ _ _ Hfe He).
  - intros a t Ha. unfold state_of at 1. rewrite (com_states _ _ _ _ _ _ _ _ _ _ _ _ _ Hc).
    change (default 0%Z _) with (state_of a t (bump3 account d)). rewrite (bump3_state parse_uuid).
    rewrite bool_decide_false by naive_solver. lia.
  - split; [|split]; [eapply com_accounts|eapply com_aliases|eapply com_mailboxes]; exact Hc.
Qed.

(** Filing a message. *)
Lemma ingest_within fresh now account raw target auth chat (w : World) r (w' : World) :
  canonical (fresh_thread fresh) ->
  ingest_email_into parse_uuid parse_message fresh now account raw target auth chat w = (r, w') ->
  within account (db w) (db w').
Proof.
  intros Hc Hrun Hd. apply ingest_cases in Hrun as Hcases.
  assert (mail_same (db w) (db (snd (put_blob now raw w)))) as Hput.
  { unfold put_blob. destruct (blob_put raw (blob_files w)) as [[i|e] f]; done. }
  destruct Hcases as [(e & _ & [-> | ->])|(i & blob & changed & d1 & l & _ & _ & Htx & -> & _)];
    [by apply mail_same_within|by apply mail_same_within|].
  destruct (mail_same_within account _ _ Hput Hd) as [Ho Hd1].
  assert (wf d1) as Hw by (eapply ingest_tx_wf; eassumption).
  apply ingest_tx_ok in Htx as (found & mb & Hr & Hmb & [Hma _] & Hfe & Hft & Hcom & _ & _); [|done].
  assert (forall th, found = Some th -> exists t, t ∈ threads (db (snd (put_blob now raw w)))
    /\ t_id t = th /\ t_account t = account) as Hjoined.
  { intros th ->. eapply resolve_thread_refs_ok in Hr; [|exact Hd1]. destruct Hr as (e & ? & He & Ha & _ & _ & <-).
    destruct (wf_email_thread _ _ Hd1 e He) as (t & Ht & Hti & Hta). exists t. split_and!; congruence. }
  split; [|by apply (mail_same_wf d1)]. etransitivity; [exact Ho|].
  transitivity d1; [|by apply mail_same_others].
  eapply committed_others; [done|exact Hcom|done|]. intros Hnew. destruct found as [th|]; [|done]. by apply Hjoined.
Qed.

(** Queueing touches no mail, so a submission only files the copy in Sent. *)
Lemma require_keeps R `{!PreOrder R} test what : keeps R (require test what).
Proof. apply keeps_pure; [done|]. intros d. unfold require. by destruct (test d). Qed.

Lemma enqueue_same fresh now account blob mail_from recipient priority :
  keeps mail_same (enqueue_with_priority fresh now account blob mail_from recipient priority).
Proof.
  unfold enqueue_with_priority. destruct (rsplit_once _ _) as [[? domain]|]; [|apply keeps_fail; apply _].
  apply keeps_bind; [apply _|apply require_keeps; apply _|intros _].
  apply keeps_bind; [apply _|apply require_keeps; apply _|intros _].
  apply keeps_bind; [apply _|by apply keeps_modify|intros _]. apply keeps_ret. apply _.
Qed.

(** [within] of the database of a world. *)
Definition world_within (account : string) (w w' : World) : Prop := within account (db w) (db w').
#[local] Instance world_within_pre account : PreOrder (world_within account).
Proof. split; [by intros w|]. intros a b c. unfold world_within. intros; by etransitivity. Qed.

Lemma within_on_db {A} account (m : SM A) : keeps mail_same m -> keeps (world_within account) (on_db m).
Proof.
  intros Hm w r w'. unfold on_db. destruct (m (db w)) as [x d] eqn:E1. intros [= _ <-].
  apply mail_same_within. exact (Hm _ _ _ E1).
Qed.

Lemma submit_within pgp sign fresh fresh_ids now account mail_from recipients raw chat :
  canonical (fresh_thread fresh) ->
  keeps (world_within account)
    (submit_with_priority parse_uuid parse_message pgp sign fresh fresh_ids now account mail_from recipients raw chat).
Proof.
  intros Hc. assert (forall A (m : action World StorageError A), keeps (world_within account) m ->
    keeps (world_within account) (fun w => let '(r, w') := m w in (map_err DStorage r, w'))) as Hstorage.
  { intros A m Hm w r w'. destruct (m w) as [x w1] eqn:E1. intros [= _ <-]. exact (Hm _ _ _ E1). }
  unfold submit_with_priority. apply keeps_bind; [apply _|apply keeps_lift; apply _|intros encrypted].
  apply keeps_bind; [apply _|apply keeps_lift; apply _|intros header].
  apply keeps_bind; [apply _| |intros ingested].
  { apply Hstorage. intros w r w'. by apply ingest_within. }
  apply keeps_bind; [apply _| |intros _; apply keeps_ret; apply _].
  apply keeps_for_each; [apply _|]. intros [n recipient]. apply keeps_bind; [apply _| |intros item].
  - apply Hstorage, within_on_db, enqueue_same.
  - apply Hstorage, within_on_db. by apply keeps_modify.
Qed.

(** An attribute dismissed, and the email stamped. *)
Lemma touched_wf account i m d :
  wf d -> (exists e, e ∈ emails d /\ e_account e = account /\ e_id e = i) ->
  m = (state_of account Email d + 1)%Z ->
  let d' := on_emails (update_where (fun e => String.eqb (e_id e) i) (set_updated m))
              (on_states (fun s => <[(account, data_type_as_str Email) := m]> s) d) in
  others_mail account d d' /\ wf d'.
Proof.
  intros Hd Hmine -> d'.
  assert (forall a t, state_of a t d' = state_of a t d + if bool_decide (a = account /\ t = Email) then 1 else 0)%Z as Hst.
  { intros a t. change (state_of a t d') with (state_of a t
      (on_states (fun s => <[(account, data_type_as_str Email) := (state_of account Email d + 1)%Z]> s) d)).
    rewrite state_of_bumped. repeat case_bool_decide; destruct_and?; subst; try lia; naive_solver. }
  assert (states_grow d d') as Hgrow by (intros a t; rewrite Hst; destruct (bool_decide _); lia).
  split.
  - split; try done; [|intros a t Ha; rewrite Hst, bool_decide_false; [lia|naive_solver]].
    intros e Hne. exact (set_updated_others account i _ d e Hd Hmine Hne).
  - assert (emails d' = update_where (fun e => String.eqb (e_id e) i) (set_updated (state_of account Email d + 1)%Z) (emails d))
      as Hem by done.
    pose proof Hd as [Wt Wti Wei Wp Wc Wet Wpl Whm Wk Ws Wsm Wst Wse].
    constructor; rewrite ?Hem; try done.
    + eapply (tables_ok_frame d); [done..|exact Wt].
    + rewrite update_where_map by done. exact Wei.
    + intros e' (e & He & _ & -> & -> & _)%(set_updated_elem parse_uuid). by apply Wet.
    + intros j m Hp. destruct (Wpl _ _ Hp) as (e & mb & He & ? & ? & ? & ?).
      destruct (set_updated_kept i (state_of account Email d + 1)%Z e _ He) as (e' & ? & ? & ?).
      exists e', mb. naive_solver congruence.
    + intros e' (e & He & Hid & _)%(set_updated_elem parse_uuid). rewrite Hid. by apply Whm.
    + intros a t. pose proof (Ws a t). specialize (Hgrow a t). lia.
    + intros mb Hm. eapply seq_ok_grow; [done|]. by apply Wsm.
    + intros t Ht. eapply seq_ok_grow; [done|]. by apply Wst.
    + intros e' (e & He & Hid & -> & _ & -> & Hup)%(set_updated_elem parse_uuid).
      pose proof (Wse _ He) as Hs. destruct Hup as [->|[Hi ->]]; [by eapply seq_ok_grow|].
      destruct Hmine as (e2 & He2 & Hacct & Hid2). rewrite (one_email _ _ _ _ _ Hd He Hi He2 Hid2 Hacct) in *.
      unfold seq_ok in *. rewrite Hst, bool_decide_true by done. lia.
Qed.

Lemma update_where_others {R} (owner : R -> string) (account : string) test (f : R -> R) l :
  (forall r, r ∈ l -> test r = true -> owner r = account /\ owner (f r) = account) ->
  forall r, owner r <> account -> r ∈ update_where test f l <-> r ∈ l.
Proof.
  intros Ht r Hr. rewrite elem_of_update_where. split.
  - intros (x & Hx & ->). destruct (test x) eqn:E; [|done]. by destruct (Ht _ Hx E).
  - intros Hin. exists r. destruct (test r) eqn:E; [|done]. by destruct (Ht _ Hin E).
Qed.

Definition rows_isolated {R} (owner : R -> string) (account : string) (l l' : list R) : Prop :=
  forall r, owner r <> account -> r ∈ l' <-> r ∈ l.
#[local] Instance rows_isolated_pre {R} owner account : PreOrder (rows_isolated (R := R) owner account).
Proof. split; [by intros l r|]. intros a b c Hab Hbc r Hr. by rewrite (Hbc r Hr), (Hab r Hr). Qed.

Lemma dismiss_isolated now account i kind d r d' :
  dismiss_email_attribute now account i kind d = (r, d') ->
  within account (at_core d) (at_core d') /\ rows_isolated ar_account account (at_rows d) (at_rows d').
Proof.
  unfold dismiss_email_attribute, transaction, bind. intros Hrun.
  destruct (dismiss_tx now account i kind d) as [[changed|e] d1] eqn:Htx; cbn in Hrun; [|by injection Hrun as _ <-].
  assert (mail_same (at_core d1) (at_core d') /\ at_rows d' = at_rows d1) as [Hsame Hrows]
    by (injection Hrun as _ <-; by cbn).
  rewrite Hrows. clear Hrun Hrows.
  unfold dismiss_tx, owned_email_check, on_at_core, gets, ensure, bind, touch_email in Htx. cbn in Htx.
  destruct (owned_email account i (at_core d)) eqn:Ho; cbn in Htx; [|done].
  destruct (existsb _ (at_rows d)) eqn:Hex; cbn in Htx; [|done].
  unfold bind in Htx. destruct (bump account Email (at_core d)) as [[m|e] c] eqn:Hb; cbn in Htx; [|done].
  apply bump_ok in Hb as (-> & _ & ->). injection Htx as _ <-. cbn in *. split.
  - transitivity (on_emails (update_where (fun e => String.eqb (e_id e) i) (set_updated (state_of account Email (at_core d) + 1)%Z))
      (on_states (fun s => <[(account, data_type_as_str Email) := (state_of account Email (at_core d) + 1)%Z]> s) (at_core d))).
    + intros Hd. apply touched_wf; [done| |done].
      apply existsb_exists in Ho as (e & He & [Ha Hi]%andb_true_iff). exists e.
      apply list_elem_of_In in He. by apply String.eqb_eq in Ha, Hi.
    + by apply mail_same_within.
  - intros x. apply update_where_others. intros y _ Hy. unfold dismissable in Hy.
    rewrite !andb_true_iff, String.eqb_eq in Hy. by destruct Hy as [[Ha _] _].
Qed.

Lemma train_one_same account spam token : keeps mail_same (train_one account spam token).
Proof.
  unfold train_one. apply keeps_bind; [apply _|apply require_keeps; apply _|intros; by apply keeps_modify].
Qed.

Lemma train_same account tokens spam : keeps mail_same (train_spam_tokens account tokens spam).
Proof.
  unfold train_spam_tokens. destruct tokens; [apply keeps_pure; [apply _|done]|]. apply keeps_transaction; [apply _|].
  apply keeps_for_each; [apply _|]. intros. apply train_one_same.
Qed.
Lemma train_within account tokens spam : keeps (within account) (train_spam_tokens account tokens spam).
Proof. intros d r d' Hrun. apply mail_same_within. exact (train_same _ _ _ _ _ _ Hrun). Qed.

(** ** The state of the methods *)

(** What may happen to the state when a method runs for [account]. *)
Definition isolated (account : string) (s s' : MailState) : Prop :=
  within account (db (ms_world s)) (db (ms_world s'))
  /\ rows_isolated ch_account account (ms_chat s) (ms_chat s')
  /\ rows_isolated ar_account account (ms_attributes s) (ms_attributes s').
#[local] Instance isolated_pre account : PreOrder (isolated account).
Proof.
  split; [by intros s|]. intros s1 s2 s3 (W1 & C1 & A1) (W2 & C2 & A2).
  split_and!; etransitivity; eassumption.
Qed.

Section Combinators.
Variable account : string.
Abbreviation ok := (keeps (isolated account)).

Lemma ok_with_error {E F A} (h : E -> F) (m : action MailState E A) : ok m -> ok (with_error h m).
Proof.
  intros Hm s r s'. unfold with_error. destruct (m s) as [x s1] eqn:E1. intros [= _ <-]. exact (Hm _ _ _ E1).
Qed.
Lemma ok_on_world {E A} (m : nat -> action World E A) :
  (forall n w r w', m n w = (r, w') -> within account (db w) (db w')) -> ok (on_world m).
Proof.
  intros Hm s r s'. unfold on_world. destruct (m _ _) as [x w] eqn:E1. intros [= _ <-].
  split; [exact (Hm _ _ _ _ E1)|]. by split.
Qed.
Lemma ok_on_store {A} (m : nat -> SM A) : (forall n, keeps (within account) (m n)) -> ok (on_store m).
Proof.
  intros Hm. apply ok_on_world. intros n w r w'. unfold on_db. destruct (m n (db w)) as [x d] eqn:E1.
  intros [= _ <-]. exact (Hm _ _ _ _ E1).
Qed.
Lemma ok_on_chat {A} (m : nat -> action ChatDb StorageError A) :
  (forall n d r d', m n d = (r, d') -> rows_isolated ch_account account (chat_rows d) (chat_rows d')) -> ok (on_chat m).
Proof.
  intros Hm s r s'. unfold on_chat. destruct (m _ _) as [x d] eqn:E1. intros [= _ <-].
  split; [by apply mail_same_within|]. split; [exact (Hm _ _ _ _ E1)|done].
Qed.
Lemma ok_on_attributes {A} (m : nat -> action AttrDb StorageError A) :
  (forall n d r d', m n d = (r, d') ->
     within account (at_core d) (at_core d') /\ rows_isolated ar_account account (at_rows d) (at_rows d')) ->
  ok (on_attributes m).
Proof.
  intros Hm s r s'. unfold on_attributes. destruct (m _ _) as [x d] eqn:E1. intros [= _ <-].
  destruct (Hm _ _ _ _ E1). by split_and!.
Qed.
(** Reads. *)
Lemma ok_read_world {E A} (m : nat -> action World E A) : (forall n w, snd (m n w) = w) -> ok (on_world m).
Proof. intros Hm. apply ok_on_world. intros n w r w' E1. by rewrite <- (Hm n w), E1. Qed.
Lemma ok_read_store {A} (m : nat -> SM A) : (forall n d, snd (m n d) = d) -> ok (on_store m).
Proof. intros Hm. apply ok_on_store. intros n d r d' E1. by rewrite <- (Hm n d), E1. Qed.
Lemma ok_read_chat {A} (m : nat -> action ChatDb StorageError A) : (forall n d, snd (m n d) = d) -> ok (on_chat m).
Proof. intros Hm. apply ok_on_chat. intros n d r d' E1. by rewrite <- (Hm n d), E1. Qed.
Lemma ok_read_attributes {A} (m : nat -> action AttrDb StorageError A) :
  (forall n d, snd (m n d) = d) -> ok (on_attributes m).
Proof. intros Hm. apply ok_on_attributes. intros n d r d' E1. by rewrite <- (Hm n d), E1. Qed.
Lemma ok_draw {E A} (f : nat -> A) : ok (draw (E := E) f).
Proof. intros s r s' [= _ <-]. by split_and!; [apply mail_same_within| |]. Qed.
Lemma ok_checked {A B E} (r : result E A) (k : A -> action MailState E B) :
  (forall a, r = Ok a -> ok (k a)) -> ok (bind (lift r) k).
Proof. destruct r as [a|e]; intros Hk; [by apply (Hk a)|apply keeps_fail; apply _]. Qed.
(** A loop that goes on, whatever became of its body. *)
Lemma ok_either {E F A B} (m : action MailState E A) (k : A -> action MailState F B) (h : E -> action MailState F B) :
  ok m -> (forall a, ok (k a)) -> (forall e, ok (h e)) ->
  ok (fun s => match m s with (Ok a, s') => k a s' | (Err e, s') => h e s' end).
Proof.
  intros Hm Hk Hh s r s'. destruct (m s) as [[a|e] s1] eqn:E1; intros E2;
    (etransitivity; [exact (Hm _ _ _ E1)|first [exact (Hk _ _ _ _ E2)|exact (Hh _ _ _ _ E2)]]).
Qed.
Lemma ok_each l body done_ failed : (forall k v, ok (body k v)) -> ok (each l body done_ failed).
Proof.
  intros Hb. revert done_ failed. induction l as [|[k v] l IH]; intros done_ failed; [apply keeps_ret; apply _|].
  cbn [each]. apply ok_either; [apply Hb|intros; apply IH..].
Qed.
End Combinators.

(** ** The methods *)

Lemma checked_account ctx i a : check_account ctx i = Ok a -> a = id (cx_account ctx).
Proof. unfold check_account. destruct (String.eqb _ _); congruence. Qed.

Ltac keep_step :=
  first [ apply ok_with_error
        | apply ok_draw
        | apply ok_read_store; done
        | apply ok_read_world; done
        | apply ok_read_chat; done
        | apply ok_read_attributes; done
        | apply ok_on_store; intros; first [apply update_email_within | apply train_within]
        | apply ok_on_attributes; intros * Hrun; eapply dismiss_isolated; exact Hrun
        | apply ok_each
        | match goal with
          | |- forall _, _ => intro
          | |- keeps _ (bind _ _) => apply keeps_bind; [apply _| |]
          | |- keeps _ (ret _) => apply keeps_ret; apply _
          | |- keeps _ (fail _) => apply keeps_fail; apply _
          | |- keeps _ (lift _) => apply keeps_lift; apply _
          | |- keeps _ (match ?x with _ => _ end) => destruct x
          | |- keeps _ (let _ := _ in _) => cbv zeta
          end ].
Ltac keep := unfold in_text, in_method, the_state; repeat keep_step.
(** A method decodes its arguments, then checks the account they name. *)
Ltac keep_method :=
  apply ok_checked; intros; apply ok_checked;
  let account := fresh "acct" in let E := fresh "E" in
  intros account E; apply checked_account in E as ->; keep.

Context `{FromValue GetArgs} `{FromValue QueryArgs} `{FromValue ChangesArgs} `{FromValue SetArgs}
  `{FromValue ChatPrefSetArgs} `{FromValue DismissArgs}.
Variable view_message : list Z -> option MessageView.
Variable value_of_text : string -> option Value.
Variable debug : string -> string.
Variable run_raw_sql : string -> Db -> result StorageError (list string).
Variable run_raw_count : string -> Db -> result StorageError nat.
Variable search : string -> string -> nat -> list string.
Variables unicode_alphabetic unicode_numeric : string -> bool.
Variable unicode_lower : string -> string.
Variable hash_order : list string -> list string.
Variables (now_at : nat -> Z) (fresh_at : nat -> Fresh) (uuid_at : nat -> string).
Hypothesis fresh_canonical : forall n, canonical (fresh_thread (fresh_at n)).

Lemma mailbox_get_isolated args ctx : keeps (isolated (id (cx_account ctx))) (mailbox_get debug args ctx).
Proof. keep_method. Qed.

Lemma email_json_isolated a account row fetch :
  keeps (isolated a) (email_json parse_uuid view_message value_of_text account row fetch).
Proof. unfold email_json. keep. Qed.

Lemma email_list_isolated a account subset fetch rows :
  keeps (isolated a) (email_list parse_uuid view_message value_of_text account subset fetch rows).
Proof. induction rows; cbn [email_list]; keep; [apply email_json_isolated|done]. Qed.

Lemma email_get_isolated args ctx :
  keeps (isolated (id (cx_account ctx))) (email_get parse_uuid view_message value_of_text debug args ctx).
Proof. keep_method. apply email_list_isolated. Qed.

Lemma changes_isolated t args ctx : keeps (isolated (id (cx_account ctx))) (changes t args ctx).
Proof. keep_method. Qed.

Lemma thread_get_isolated args ctx : keeps (isolated (id (cx_account ctx))) (thread_get parse_uuid args ctx).
Proof. keep_method. Qed.

Lemma query_isolated args ctx :
  keeps (isolated (id (cx_account ctx))) (email_query parse_uuid run_raw_sql run_raw_count search uuid_at args ctx).
Proof.
  keep_method. apply ok_read_store. intros _ d. unfold filter_emails. by destruct (search _ _ _).
Qed.

Lemma ingest_isolated account raw target chat :
  keeps (isolated account) (on_world (fun n => ingest_email_into parse_uuid parse_message (fresh_at n) (now_at n)
                                                account raw target None chat)).
Proof. apply ok_on_world. intros n w r w' Hrun. eapply ingest_within; [apply fresh_canonical|exact Hrun]. Qed.

Lemma train_isolated account row spam :
  keeps (isolated account) (train unicode_alphabetic unicode_numeric unicode_lower hash_order account row spam).
Proof.
  unfold train. destruct (from_str _) as [blob| |]; try (apply keeps_fail; apply _).
  apply (ok_either account (on_world (fun _ => get_blob blob)) (fun raw s' => (Ok tt, snd (on_store _ s'))));
    [by apply ok_read_world| |intros; apply keeps_ret; apply _].
  intros raw s r s' [= _ <-]. eapply (ok_on_store account); [intros; apply train_within|apply surjective_pairing].
Qed.

Lemma email_set_isolated args ctx :
  keeps (isolated (id (cx_account ctx)))
    (email_set parse_uuid parse_message unicode_alphabetic unicode_numeric unicode_lower hash_order
       now_at fresh_at uuid_at args ctx).
Proof.
  keep_method; unfold apply_create, apply_update; keep; [apply ingest_isolated|apply train_isolated].
Qed.

Lemma identity_get_isolated args ctx : keeps (isolated (id (cx_account ctx))) (identity_get args ctx).
Proof. keep_method. Qed.

Lemma chat_preference_get_isolated args ctx :
  keeps (isolated (id (cx_account ctx))) (chat_preference_get parse_uuid uuid_at args ctx).
Proof. keep_method. Qed.

Lemma set_preference_isolated now account contact preference d r d' :
  set_chat_preference now account contact preference d = (r, d') ->
  rows_isolated ch_account account (chat_rows d) (chat_rows d').
Proof.
  unfold set_chat_preference. destruct (existsb _ (chat_accounts d)); intros [= _ <-]; [|done]. cbn.
  destruct (existsb _ (chat_rows d)); intros x Hx.
  - apply (update_where_others ch_account account); [|done]. intros y _ [Hy%String.eqb_eq _]%andb_true_iff. done.
  - rewrite elem_of_app, list_elem_of_singleton. split; [|by left]. by intros [?| ->].
Qed.

Lemma delete_preference_isolated account contact d r d' :
  delete_chat_preference account contact d = (r, d') ->
  rows_isolated ch_account account (chat_rows d) (chat_rows d').
Proof.
  intros [= _ <-] x Hx. cbn. rewrite list_elem_of_In, filter_In, <- list_elem_of_In. split; [by intros []|].
  intros Hin. split; [done|]. unfold chat_key. by rewrite (proj2 (String.eqb_neq _ _) Hx).
Qed.

Lemma chat_create_isolated account l created : keeps (isolated account) (chat_create now_at account l created).
Proof.
  revert created. induction l as [|[k object] l IH]; intros created; cbn [chat_create]; [keep|].
  apply ok_either; [|intros; apply IH..]. keep. apply ok_on_chat. intros *. apply set_preference_isolated.
Qed.

Lemma chat_update_isolated account l updated : keeps (isolated account) (chat_update now_at account l updated).
Proof.
  revert updated. induction l as [|[k object] l IH]; intros updated; cbn [chat_update]; [keep|].
  apply ok_either; [|intros; apply IH..]. keep. apply ok_on_chat. intros *. apply set_preference_isolated.
Qed.

Lemma chat_destroy_isolated account l destroyed : keeps (isolated account) (chat_destroy account l destroyed).
Proof.
  revert destroyed. induction l as [|k l IH]; intros destroyed; cbn [chat_destroy]; [keep|].
  apply ok_either; [|intros; apply IH..]. apply ok_on_chat. intros n d r d'. apply delete_preference_isolated.
Qed.

Lemma chat_preference_set_isolated args ctx :
  keeps (isolated (id (cx_account ctx))) (chat_preference_set now_at args ctx).
Proof. keep_method; [apply chat_create_isolated|apply chat_update_isolated|apply chat_destroy_isolated]. Qed.

Lemma dismiss_method_isolated args ctx :
  keeps (isolated (id (cx_account ctx))) (email_attribute_dismiss parse_uuid now_at args ctx).
Proof. keep_method. Qed.

(** A submitter acts for the account it is given. *)
Definition submits_within (ctx : JmapCtx) : Prop :=
  forall submit, cx_submitter ctx = Some submit ->
  forall account mail_from recipients raw chat w r w',
    submit account mail_from recipients raw chat w = (r, w') -> world_within account w w'.

(** [DeliveryService::submit_with_priority] is one. *)
Definition delivery_submitter pgp sign fresh fresh_ids now : _ -> _ -> _ -> _ -> _ -> action World string (list string) :=
  fun account mail_from recipients raw chat w =>
    let '(r, w') := submit_with_priority parse_uuid parse_message pgp sign fresh fresh_ids now
                      account mail_from recipients raw chat w in
    (map_err (fun e => submit_error_text (submit_error e)) r, w').
Lemma delivery_submits_within ctx pgp sign fresh fresh_ids now :
  canonical (fresh_thread fresh) ->
  cx_submitter ctx = Some (delivery_submitter pgp sign fresh fresh_ids now) -> submits_within ctx.
Proof.
  intros Hc Hs submit Hsub. rewrite Hs in Hsub. injection Hsub as <-. intros * Hrun.
  unfold delivery_submitter in Hrun. destruct (submit_with_priority _ _ _ _ _ _ _ _ _ _ _ _ _) as [x w1] eqn:E1.
  injection Hrun as _ <-. eapply submit_within; [exact Hc|exact E1].
Qed.

Lemma submission_set_isolated args ctx :
  submits_within ctx -> keeps (isolated (id (cx_account ctx))) (submission_set parse_uuid view_message args ctx).
Proof.
  intros Hsub. apply ok_checked. intros a _. apply ok_checked. intros account ->%checked_account.
  apply ok_checked. intros submit Hs. destruct (cx_submitter ctx) eqn:Hc; [|done]. injection Hs as ->.
  unfold submit_one. keep. apply ok_on_world. intros n w r w'. by apply Hsub.
Qed.

(** C16: No JMAP method on mail, threads, identities, submissions, chat preferences or
    attributes, whatever its arguments and whether it succeeds or fails half way, changes
    a message, a thread, a keyword, a mailbox membership, a modseq, a chat preference or
    an attribute of an account that is not the caller's; and the database stays
    well-formed. *)
Theorem methods_isolate method capability handler args ctx s r s' :
  (method, capability, handler) ∈ METHODS parse_uuid parse_message view_message value_of_text debug
    run_raw_sql run_raw_count search unicode_alphabetic unicode_numeric unicode_lower hash_order
    now_at fresh_at uuid_at ->
  submits_within ctx -> wf (db (ms_world s)) -> handler args ctx s = (r, s') ->
  others_mail (id (cx_account ctx)) (db (ms_world s)) (db (ms_world s'))
  /\ wf (db (ms_world s'))
  /\ rows_isolated ch_account (id (cx_account ctx)) (ms_chat s) (ms_chat s')
  /\ rows_isolated ar_account (id (cx_account ctx)) (ms_attributes s) (ms_attributes s').
Proof.
  intros Hin Hsub Hwf Hrun.
  assert (keeps (isolated (id (cx_account ctx))) (handler args ctx)) as Hk.
  { unfold METHODS in Hin. rewrite !elem_of_cons, elem_of_nil in Hin.
    repeat (destruct Hin as [[= -> -> ->]|Hin];
      [eauto using mailbox_get_isolated, changes_isolated, email_get_isolated, query_isolated, email_set_isolated,
         thread_get_isolated, identity_get_isolated, submission_set_isolated, chat_preference_get_isolated,
         chat_preference_set_isolated, dismiss_method_isolated|]).
    done. }
  destruct (Hk _ _ _ Hrun) as (Hw & Hchat & Hattr). destruct (Hw Hwf). by split_and!.
Qed.
End Isolation.
