(* ===== verification/JmapPatch.v ===== *)
(** What an update of [Email/set] does to a message, and what [Email/set] answers. *)
From S2P Require Import Prelude Text Bytes Ident Json JmapEnvelope Store StoreFacts Mail MailQueries MailFacts UpdateFacts Spam Chat Attributes JmapMail JmapIsolation.

Open Scope string_scope.

(** ** The patch, entry by entry *)

(** The last entry of a patch that speaks of something decides it. *)
Definition last_word (says : string -> Value -> option bool) (patch : list (string * Value)) (was : bool) : bool :=
  fold_left (fun b kv => default b (says (fst kv) (snd kv))) patch was.

Definition is_true (v : Value) : bool := match v with Bool b => b | _ => false end.

(** [keywords] replaces them all; [keywords/k] sets or clears the lower-cased [k]. *)
Definition says_keyword (x : string) (key : string) (value : Value) : option bool :=
  match patch_key key with
  | AllKeywords => m ← as_object value; Some (listed x (map_keys m))
  | OneKeyword k => if String.eqb (to_lowercase k) x then Some (is_true value) else None
  | _ => None
  end.
Definition says_mailbox (x : string) (key : string) (value : Value) : option bool :=
  match patch_key key with
  | AllMailboxes => m ← as_object value; Some (listed x (map_keys m))
  | OneMailbox m => if String.eqb m x then Some (is_true value) else None
  | _ => None
  end.

Lemma says_keyword_eq x key value : says_keyword x key value =
  match patch_key key with
  | AllKeywords => m ← as_object value; Some (listed x (map_keys m))
  | OneKeyword k => if String.eqb (to_lowercase k) x then Some (is_true value) else None
  | _ => None
  end.
Proof. done. Qed.
Lemma says_mailbox_eq x key value : says_mailbox x key value =
  match patch_key key with
  | AllMailboxes => m ← as_object value; Some (listed x (map_keys m))
  | OneMailbox m => if String.eqb m x then Some (is_true value) else None
  | _ => None
  end.
Proof. done. Qed.

Lemma last_word_cons says key value patch was :
  last_word says ((key, value) :: patch) was = last_word says patch (default was (says key value)).
Proof. done. Qed.

Lemma listed_true x l : listed x l = true <-> x ∈ l.
Proof.
  unfold listed. rewrite existsb_exists. split.
  - intros (y & Hy & ->%String.eqb_eq). by apply list_elem_of_In.
  - intros Hx. exists x. split; [by apply list_elem_of_In|apply String.eqb_refl].
Qed.

Lemma switch_ok key value x l l' y :
  switch key value x l = Ok l' -> listed y l' = if String.eqb x y then is_true value else listed y l.
Proof.
  assert (listed y (List.filter (fun k => negb (String.eqb k x)) l) = if String.eqb x y then false else listed y l) as Hdrop.
  { apply Bool.eq_true_iff_eq. rewrite listed_true, list_elem_of_In, filter_In, <- list_elem_of_In, negb_true_iff, String.eqb_neq.
    destruct (String.eqb_spec x y) as [->|]; [by intuition|]. rewrite listed_true. naive_solver. }
  unfold switch. destruct value as [| [] | | | |]; try done; intros [= <-]; [exact Hdrop| |exact Hdrop].
  apply Bool.eq_true_iff_eq. destruct (String.eqb_spec x y) as [->|Hne]; cbn [is_true].
  - split; [done|intros _]. destruct (listed y l) eqn:E; [done|]. rewrite listed_true. set_solver.
  - destruct (listed x l); [done|]. rewrite !listed_true, elem_of_app. set_solver.
Qed.

Lemma read_patch_words row patch keywords mailbox_ids keywords' mailbox_ids' :
  read_patch row patch keywords mailbox_ids = Ok (keywords', mailbox_ids') ->
  forall x,
    listed x (default (ei_keywords row) keywords')
      = last_word (says_keyword x) patch (listed x (default (ei_keywords row) keywords))
    /\ listed x (default (ei_mailbox_ids row) mailbox_ids')
      = last_word (says_mailbox x) patch (listed x (default (ei_mailbox_ids row) mailbox_ids)).
Proof.
  revert keywords mailbox_ids. induction patch as [|[key value] patch IH]; intros kw mb; [by intros [= <- <-]|].
  cbn [read_patch]. destruct (patch_key key) as [|k| |m|] eqn:Hkey; try done.
  - destruct value; try done. intros Hrun x. rewrite !last_word_cons, says_keyword_eq, says_mailbox_eq, Hkey. exact (IH _ _ Hrun x).
  - destruct (switch _ _ _ _) as [l|] eqn:Hs; [|done]. intros Hrun x. destruct (IH _ _ Hrun x) as [-> ->].
    rewrite !last_word_cons, says_keyword_eq, says_mailbox_eq, Hkey.
    split; [|done]. f_equal. transitivity (listed x l); [done|]. rewrite (switch_ok _ _ _ _ _ x Hs).
    by destruct (String.eqb (to_lowercase k) x).
  - destruct value; try done. intros Hrun x. rewrite !last_word_cons, says_keyword_eq, says_mailbox_eq, Hkey. exact (IH _ _ Hrun x).
  - destruct (switch _ _ _ _) as [l|] eqn:Hs; [|done]. intros Hrun x. destruct (IH _ _ Hrun x) as [-> ->].
    rewrite !last_word_cons, says_keyword_eq, says_mailbox_eq, Hkey.
    split; [done|]. f_equal. transitivity (listed x l); [done|]. rewrite (switch_ok _ _ _ _ _ x Hs).
    by destruct (String.eqb m x).
Qed.

(** ** The update of one message *)

Section Update.
Context `{BlobStore}.
Variable parse_uuid : string -> option string.
Variables unicode_alphabetic unicode_numeric : string -> bool.
Variable unicode_lower : string -> string.
Variable hash_order : list string -> list string.
Abbreviation apply_update := (apply_update parse_uuid unicode_alphabetic unicode_numeric unicode_lower hash_order).
Abbreviation train := (train unicode_alphabetic unicode_numeric unicode_lower hash_order).

Lemma parse_mailboxes_ok ids l :
  parse_mailboxes parse_uuid ids = Ok l -> forall b, b ∈ l <-> exists x, x ∈ ids /\ parse_uuid x = Some b.
Proof.
  revert l. induction ids as [|i ids IH]; intros l; cbn [parse_mailboxes].
  - intros [= <-] b. split; [intros ?%not_elem_of_nil; done|]. intros (x & ?%not_elem_of_nil & _). done.
  - destruct (parse_uuid i) as [m|] eqn:Hi; [|done]. cbn.
    destruct (parse_mailboxes parse_uuid ids) as [l'|]; [|done]. intros [= <-] b.
    rewrite elem_of_cons, (IH l' eq_refl). split.
    + intros [->|(x & Hx & Hp)]; [exists i; by split; [left|]|exists x; by split; [right|]].
    + intros (x & [->|Hx]%elem_of_cons & Hp); [left; congruence|right; by exists x].
Qed.

Lemma train_mail_same account row spam s r s' :
  train account row spam s = (r, s') -> mail_same (db (ms_world s)) (db (ms_world s')).
Proof.
  unfold JmapMail.train. destruct (from_str _) as [blob| |]; [|by intros [= _ <-]..].
  unfold on_world at 1. cbn. unfold get_blob. destruct (blob_get _ _) as [raw|e]; [|by intros [= _ <-]].
  intros [= _ <-]. unfold on_store, on_world, on_db. cbn.
  destruct (train_spam_tokens _ _ _ _) as [x d] eqn:E. exact (train_same _ _ _ _ _ _ E).
Qed.

(** The rows the update reads. *)
Lemma the_email_row account i d row :
  head (flat_map (fun i => match select_first (fun e => String.eqb (e_account e) account && String.eqb (e_id e) i) (emails d) with
                           | None => [] | Some e => [email_info d e] end) [i]) = Some row ->
  exists e, e ∈ emails d /\ e_account e = account /\ e_id e = i /\ row = email_info d e.
Proof.
  cbn. unfold select_first. destruct (List.find _ (emails d)) as [e|] eqn:E; [|done]. cbn. intros [= <-].
  apply find_some in E as [He [Ha%String.eqb_eq Hi%String.eqb_eq]%andb_true_iff].
  exists e. by rewrite list_elem_of_In.
Qed.

Lemma column_of i x (l : list (string * string)) :
  listed x (map snd (List.filter (fun p => String.eqb p.1 i) l)) = bool_decide ((i, x) ∈ l).
Proof.
  apply Bool.eq_true_iff_eq. rewrite bool_decide_eq_true, listed_true, list_elem_of_In, in_map_iff, list_elem_of_In.
  split.
  - intros ([j y] & Hy & [Hin Hj%String.eqb_eq]%filter_In). simpl in Hy, Hj. by subst.
  - intros Hin. exists (i, x). split; [done|]. apply filter_In. split; [done|apply String.eqb_refl].
Qed.

Lemma ex_same {A} (f g : A -> bool) (P : A -> Prop) :
  (forall x, f x = g x) -> (exists x, f x = true /\ P x) <-> (exists x, g x = true /\ P x).
Proof. intros Hfg. by setoid_rewrite Hfg. Qed.

Lemma lift_ok {S E A} (r : result E A) (s : S) a s' : lift r s = (Ok a, s') <-> r = Ok a /\ s' = s.
Proof. unfold lift. destruct r; naive_solver. Qed.

Lemma ok_or_ok {E A} (o : option A) (e : E) a : ok_or o e = Ok a -> o = Some a.
Proof. destruct o; naive_solver. Qed.

Lemma with_error_ok {E F A} (h : E -> F) (m : action MailState E A) s a s' :
  with_error h m s = (Ok a, s') <-> m s = (Ok a, s').
Proof. unfold with_error. destruct (m s) as [[x|e] s1]; naive_solver. Qed.

Lemma on_store_run {A} (m : nat -> SM A) s r s' :
  on_store m s = (r, s') -> exists d, m (ms_ticks s) (db (ms_world s)) = (r, d) /\ db (ms_world s') = d.
Proof.
  unfold on_store, on_world, on_db. destruct (m _ _) as [x d] eqn:E. intros [= <- <-]. by exists d.
Qed.

(** The decisions of an update that succeeds. *)
Lemma apply_update_ok account i patch s s' :
  apply_update account i patch s = (Ok tt, s') ->
  exists e m keywords mailbox_ids ids,
    as_object patch = Some m /\ parse_uuid i = Some (e_id e)
    /\ e ∈ emails (db (ms_world s)) /\ e_account e = account
    /\ read_patch (email_info (db (ms_world s)) e) m None None = Ok (keywords, mailbox_ids)
    /\ match mailbox_ids with
       | None => ids = None
       | Some l => exists l', ids = Some l' /\ parse_mailboxes parse_uuid l = Ok l'
       end
    /\ exists d1, update_email account (e_id e) keywords ids (db (ms_world s)) = (Ok tt, d1)
                  /\ mail_same d1 (db (ms_world s')).
Proof.
  unfold JmapMail.apply_update. intros Hrun.
  inv_bind Hrun. apply lift_ok in E as [Hid ->]. inv_bind Hrun. apply lift_ok in E as [Hm ->].
  inv_bind Hrun. apply with_error_ok, on_store_run in E as (d0 & [= <- <-] & Hd).
  inv_bind Hrun. apply lift_ok in E as [Hrow ->]. inv_bind Hrun. apply lift_ok in E as [Hread ->].
  apply ok_or_ok in Hid. apply ok_or_ok in Hm. apply ok_or_ok in Hrow.
  apply the_email_row in Hrow as (e & He & Ha & <- & ->).
  destruct a2 as [keywords mailbox_ids]. inv_bind Hrun. apply lift_ok in E as [Hids ->].
  inv_bind Hrun. apply with_error_ok, on_store_run in E as (d1 & Hup & Hd1).
  exists e, a0, keywords, mailbox_ids, a. destruct a1. rewrite Hd in Hup. split_and!; try done.
  - destruct mailbox_ids as [l|]; [|by injection Hids as <-].
    destruct (parse_mailboxes parse_uuid l) as [l'|]; [|done]. injection Hids as <-. by exists l'.
  - exists d1. split; [done|]. destruct (Bool.eqb _ _).
    + apply ret_ok in Hrun as [_ ->]. by rewrite Hd1.
    + apply train_mail_same in Hrun. by rewrite Hd1 in Hrun.
Qed.

(** C24: An update of [Email/set] that succeeds found the message among the caller's, and
    leaves it with exactly the keywords and mailboxes that the last word of the patch on
    each one gives ([keywords] and [mailboxIds] replacing all, [keywords/k] and
    [mailboxIds/m] one, what is not mentioned staying as it was), keywords in lower case;
    no other message gains or loses either. *)
Theorem email_update_spec account i patch s s' :
  wf parse_uuid (db (ms_world s)) ->
  (forall j m, (j, m) ∈ email_mailbox (db (ms_world s)) -> canonical parse_uuid m) ->
  apply_update account i patch s = (Ok tt, s') ->
  let d := db (ms_world s) in let d' := db (ms_world s') in
  exists e entries,
    as_object patch = Some entries /\ e ∈ emails d /\ e_account e = account /\ parse_uuid i = Some (e_id e)
    /\ (forall k, (e_id e, k) ∈ email_keyword d' <->
         exists x, last_word (says_keyword x) entries (bool_decide ((e_id e, x) ∈ email_keyword d)) = true
                   /\ to_lowercase x = k)
    /\ (forall m, (e_id e, m) ∈ email_mailbox d' <->
         exists x, last_word (says_mailbox x) entries (bool_decide ((e_id e, x) ∈ email_mailbox d)) = true
                   /\ parse_uuid x = Some m)
    /\ forall j x, j <> e_id e ->
         ((j, x) ∈ email_keyword d' <-> (j, x) ∈ email_keyword d)
         /\ ((j, x) ∈ email_mailbox d' <-> (j, x) ∈ email_mailbox d).
Proof.
  intros Hwf Hcan Hrun d d'.
  apply apply_update_ok in Hrun as (e & m & kw & mb & ids & Hm & Hid & He & Ha & Hread & Hids & d1 & Hup & Hsame).
  pose proof (update_email_run account (e_id e) kw ids d) as Hspec. fold d in Hup. rewrite Hup in Hspec.
  destruct Hspec as (_ & d2 & Hu & Hd1). destruct Hsame as (_ & _ & _ & _ & _ & Hmb & Hkw & _).
  assert (email_mailbox d1 = email_mailbox d2 /\ email_keyword d1 = email_keyword d2) as [Hmb1 Hkw1] by (rewrite Hd1; done).
  fold d' in Hmb, Hkw. rewrite Hmb1 in Hmb. rewrite Hkw1 in Hkw. clear Hmb1 Hkw1 Hd1 Hup.
  pose proof (read_patch_words _ _ _ _ _ _ Hread) as Hwords. clear Hread.
  exists e, m. split_and!; try done.
  - intros k. rewrite Hkw, (upd_keywords _ _ _ _ _ _ Hu). setoid_rewrite <- column_of.
    transitivity (exists x, listed x (default (ei_keywords (email_info d e)) kw) = true /\ to_lowercase x = k);
      [|by apply ex_same; intros x; apply Hwords].
    setoid_rewrite listed_true. destruct kw as [l|]; cbn.
    + rewrite elem_of_map. naive_solver.
    + setoid_rewrite <- listed_true. setoid_rewrite column_of. setoid_rewrite bool_decide_eq_true.
      assert (forall x, (e_id e, x) ∈ email_keyword d -> to_lowercase x = x) as Hlow.
      { intros x Hx%(wf_keywords _ _ Hwf). by apply String.eqb_eq. }
      split; [intros Hk; exists k; by split; [|apply Hlow]|]. intros (x & Hx & <-). by rewrite Hlow.
  - intros b. rewrite Hmb, (upd_mailboxes _ _ _ _ _ _ Hu). setoid_rewrite <- column_of.
    transitivity (exists x, listed x (default (ei_mailbox_ids (email_info d e)) mb) = true /\ parse_uuid x = Some b);
      [|by apply ex_same; intros x; apply Hwords].
    setoid_rewrite listed_true. destruct mb as [l|].
    + destruct Hids as (l' & -> & Hl). rewrite elem_of_app, drop_rows_elem, elem_of_map. cbn.
      rewrite <- (parse_mailboxes_ok _ _ Hl). naive_solver.
    + rewrite Hids. cbn. setoid_rewrite <- listed_true. setoid_rewrite column_of. setoid_rewrite bool_decide_eq_true.
      split; [intros Hb; exists b; by split; [|eapply Hcan]|]. intros (x & Hx & Hp).
      pose proof (Hcan _ _ Hx) as Hc. unfold canonical in Hc. congruence.
  - intros j x Hj. rewrite Hkw, Hmb, (upd_keywords _ _ _ _ _ _ Hu), (upd_mailboxes _ _ _ _ _ _ Hu). split.
    + destruct kw; naive_solver.
    + destruct ids; [|done]. rewrite elem_of_app, drop_rows_elem, elem_of_map. naive_solver.
Qed.
End Update.

(** ** The answer of [Email/set] *)

Section Answer.
Context `{BlobStore} `{FromValue SetArgs}.
Variable parse_uuid : string -> option string.
Variable parse_message : list Z -> option ParsedMessage.
Variables unicode_alphabetic unicode_numeric : string -> bool.
Variable unicode_lower : string -> string.
Variable hash_order : list string -> list string.
Variables (now_at : nat -> Z) (fresh_at : nat -> Fresh) (uuid_at : nat -> string).

Lemma bind_run {S E A B} (m : action S E A) (k : A -> action S E B) s a s' x :
  m s = (Ok a, s') -> k a s' = x -> bind m k s = x.
Proof. unfold bind. by intros ->. Qed.

Definition ticked (s : MailState) : MailState :=
  mk_mail_state (ms_world s) (ms_chat s) (ms_attributes s) (S (ms_ticks s)).
Lemma the_state_run account t s :
  the_state account t s = (Ok (state_of account t (db (ms_world s))), ticked s).
Proof. by destruct s as [[] ? ? ?]. Qed.

(** Each key of [l] is answered under exactly one of the two maps. *)
Definition answered (l created not_created : list (string * Value)) : Prop :=
  (forall k, k ∈ map_keys l <-> k ∈ map_keys created \/ k ∈ map_keys not_created)
  /\ forall k, k ∈ map_keys created -> k ∉ map_keys not_created.

Lemma each_answers body l ok_ failed s :
  NoDup (map_keys l) -> (forall k, k ∈ map_keys l -> k ∉ map_keys ok_ /\ k ∉ map_keys failed) ->
  (forall k, k ∈ map_keys ok_ -> k ∉ map_keys failed) ->
  exists ok' failed' s', each l body ok_ failed s = (Ok (ok', failed'), s')
    /\ (forall k, k ∈ map_keys ok' \/ k ∈ map_keys failed' <->
         k ∈ map_keys l \/ k ∈ map_keys ok_ \/ k ∈ map_keys failed)
    /\ forall k, k ∈ map_keys ok' -> k ∉ map_keys failed'.
Proof.
  revert ok_ failed s. induction l as [|[k v] l IH]; intros ok_ failed s Hnd Hnew Hdisj; cbn [each].
  - exists ok_, failed, s. split_and!; [done| |done]. intros k. cbn. rewrite elem_of_nil. tauto.
  - apply NoDup_cons in Hnd as [Hk Hnd]. cbn [map_keys map fst] in *.
    assert (forall x, x ∈ map_keys l -> x <> k /\ x ∉ map_keys ok_ /\ x ∉ map_keys failed) as Hrest.
    { intros x Hx. split; [by intros ->|]. apply Hnew. by right. }
    destruct (Hnew k ltac:(by left)) as [Hko Hkf].
    destruct (body k v s) as [[x|e] s1].
    + destruct (IH (map_insert k x ok_) failed s1) as (ok' & failed' & s' & Hrun & Hkeys & Hd); [done|..].
      * intros y Hy. rewrite map_insert_keys. naive_solver.
      * intros y. rewrite map_insert_keys. naive_solver.
      * exists ok', failed', s'. split_and!; [done| |done]. intros y. rewrite Hkeys, map_insert_keys, elem_of_cons.
        fold (map_keys l). tauto.
    + destruct (IH ok_ (map_insert k (invalid_properties e) failed) s1) as (ok' & failed' & s' & Hrun & Hkeys & Hd); [done|..].
      * intros y Hy. rewrite map_insert_keys. naive_solver.
      * intros y. rewrite map_insert_keys. naive_solver.
      * exists ok', failed', s'. split_and!; [done| |done]. intros y. rewrite Hkeys, map_insert_keys, elem_of_cons.
        fold (map_keys l). tauto.
Qed.

Lemma each_answered body l s :
  NoDup (map_keys l) ->
  exists c nc s', each l body [] [] s = (Ok (c, nc), s') /\ answered l c nc.
Proof.
  intros Hnd. destruct (each_answers body l [] [] s Hnd) as (c & nc & s' & Hrun & Hkeys & Hdisj).
  - intros k _. split; apply not_elem_of_nil.
  - intros k _. apply not_elem_of_nil.
  - exists c, nc, s'. split; [done|]. split; [|done]. intros k. rewrite Hkeys. cbn. rewrite elem_of_nil. tauto.
Qed.

(** C25: [Email/set] with arguments that decode, for the caller's own account, always
    answers: whatever becomes of the single creations and updates, each client id is in
    exactly one of [created] and [notCreated], each updated id in exactly one of
    [updated] and [notUpdated], and [oldState] and [newState] are the account's email
    states before and after. *)
Theorem email_set_answers args a ctx s :
  from_value args = Ok a -> sa_account_id a = id (cx_account ctx) ->
  NoDup (map_keys (default [] (sa_create a))) -> NoDup (map_keys (default [] (sa_update a))) ->
  exists v s' created not_created updated not_updated,
    email_set parse_uuid parse_message unicode_alphabetic unicode_numeric unicode_lower hash_order
      now_at fresh_at uuid_at args ctx s = (Ok v, s')
    /\ field "created" v = Some (Object created) /\ field "notCreated" v = Some (Object not_created)
    /\ answered (default [] (sa_create a)) created not_created
    /\ field "updated" v = Some (Object updated) /\ field "notUpdated" v = Some (Object not_updated)
    /\ answered (default [] (sa_update a)) updated not_updated
    /\ field "oldState" v = Some (Str (pretty (state_of (sa_account_id a) Email (db (ms_world s)))))
    /\ field "newState" v = Some (Str (pretty (state_of (sa_account_id a) Email (db (ms_world s'))))).
Proof.
  intros Hargs Hacct Hc Hu. set (account := id (cx_account ctx)). rewrite Hacct. fold account.
  set (s1 := ticked s).
  destruct (each_answered (fun _ object => apply_create parse_uuid parse_message now_at fresh_at uuid_at ctx account object)
              _ s1 Hc) as (c & nc & s2 & Hcreate & Hcc).
  destruct (each_answered (fun i patch => apply_update parse_uuid unicode_alphabetic unicode_numeric unicode_lower
              hash_order account i patch ;;; ret Null) _ s2 Hu) as (u & nu & s3 & Hupdate & Huu).
  eexists _, (ticked s3), c, nc, u, nu. split.
  - unfold email_set, parse, check_account. rewrite Hargs.
    eapply bind_run; [done|]. eapply bind_run; [by rewrite Hacct, String.eqb_refl|].
    eapply bind_run; [apply the_state_run|]. eapply bind_run; [exact Hcreate|].
    eapply bind_run; [exact Hupdate|]. eapply bind_run; [apply the_state_run|]. reflexivity.
  - by split_and!.
Qed.
End Answer.
