(* ===== verification/Ai.v ===== *)
(** [crates/owney-ai] and [crates/owney-storage/src/ai_store.rs]: the enrichment of
    new mail, the log of undoable actions, and undo.

    The state is that of the JMAP methods ([JmapMail.MailState]) with the log, the
    cursors and the model provider; [ms_ticks] counts the storage calls, so that the
    clock and the ids drawn are functions of it.  The MIME parser and the HTTP exchange
    are parameters; the provider is the argument [ask]. *)
From S2P Require Import Prelude Text Bytes Ident Json Store Mail MailQueries Spam Queue Delivery Attributes JmapMail Ics.

Open Scope string_scope.

(** ** The log and the cursors ([ai_store.rs]) *)

Record ActionRow := mk_action_row {
  ac_id : string;
  ac_account : string;
  ac_email : option string;
  ac_skill : string;
  ac_description : string;
  ac_inverse : option string;
  ac_undone : Z;
  ac_created_at : Z
}.

Record AiAction := mk_ai_action {
  aa_id : string;
  aa_email : option string;
  aa_skill : string;
  aa_description : string;
  aa_inverse_patch : option string;
  aa_undone : bool;
  aa_created_at : Z
}.

(** The tables of [Store], [ai_actions] and [ai_cursor]. *)
Record ActDb := mk_act_db { ad_core : Db; ad_actions : list ActionRow; ad_cursors : list (string * Z) }.
Abbreviation DM A := (action ActDb StorageError A).

Definition on_ad_actions (f : list ActionRow -> list ActionRow) (d : ActDb) : ActDb :=
  mk_act_db (ad_core d) (f (ad_actions d)) (ad_cursors d).
Definition on_ad_cursors (f : list (string * Z) -> list (string * Z)) (d : ActDb) : ActDb :=
  mk_act_db (ad_core d) (ad_actions d) (f (ad_cursors d)).

(** A constraint of the two tables. *)
Definition check (test : ActDb -> bool) (what : string) : DM unit :=
  fun d => if test d then (Ok tt, d) else (Err (Sqlite what), d).

(** [record_ai_action]; [fresh] is the id drawn. *)
Definition record_ai_action (fresh : string) (now : Z) (account : string) (email_id : option string)
    (skill description : string) (inverse_patch : option string) : DM string :=
  check (fun d => account_exists account (ad_core d)
                  && match email_id with Some i => email_exists i (ad_core d) | None => true end)
    "FOREIGN KEY constraint failed" ;;;
  check (fun d => negb (existsb (fun r => String.eqb (ac_id r) fresh) (ad_actions d)))
    "UNIQUE constraint failed: ai_actions.id" ;;;
  modify (on_ad_actions (fun l =>
    (l ++ [mk_action_row fresh account email_id skill description inverse_patch 0 now])%list)) ;;;
  ret fresh.

(** [ai_actions]. *)
Definition newest_action (a b : ActionRow) : bool := (ac_created_at b <=? ac_created_at a)%Z.
Definition row_to_action (parse_uuid : string -> option string) (r : ActionRow) : result StorageError AiAction :=
  i <-? ok_or (parse_uuid (ac_id r)) (Corrupt ("bad action id " +:+ ac_id r)) ;;
  Ok (mk_ai_action i (ac_email r) (ac_skill r) (ac_description r) (ac_inverse r)
        (negb (ac_undone r =? 0)%Z) (ac_created_at r)).
Definition ai_actions (parse_uuid : string -> option string) (account : string) (limit : Z) : DM (list AiAction) :=
  fun d => (collect_results (map (row_to_action parse_uuid)
              (sql_limit (as_i64 limit) (order_by newest_action
                 (List.filter (fun r => String.eqb (ac_account r) account) (ad_actions d))))), d).

(** [ai_action] and [mark_action_undone]. *)
Definition ai_action (parse_uuid : string -> option string) (account i : string) : DM (option AiAction) :=
  actions <- ai_actions parse_uuid account 10000 ;;
  ret (List.find (fun a => String.eqb (aa_id a) i) actions).
Definition set_undone (r : ActionRow) : ActionRow :=
  mk_action_row (ac_id r) (ac_account r) (ac_email r) (ac_skill r) (ac_description r) (ac_inverse r) 1 (ac_created_at r).
Definition mark_action_undone (i : string) : DM unit :=
  modify (on_ad_actions (update_where (fun r => String.eqb (ac_id r) i) set_undone)).

(** [ai_cursor] and [set_ai_cursor]. *)
Definition as_u64 (z : Z) : Z := (z mod 2 ^ 64)%Z.
Definition ai_cursor (account : string) : DM Z :=
  gets (fun d => as_u64 (default 0%Z (option_map snd (List.find (fun c => String.eqb c.1 account) (ad_cursors d))))).
Definition set_ai_cursor (account : string) (modseq : Z) : DM unit :=
  check (fun d => account_exists account (ad_core d)) "FOREIGN KEY constraint failed" ;;;
  modify (on_ad_cursors (fun l =>
    if existsb (fun c => String.eqb c.1 account) l
    then update_where (fun c => String.eqb c.1 account) (fun c => (c.1, as_i64 modseq)) l
    else (l ++ [(account, as_i64 modseq)])%list)).

(** [sender_message_count] and [mailbox_id_by_role]. *)
Definition sender_message_count (account from_addr : string) : SM nat :=
  gets (fun d => length (List.filter (fun e => String.eqb (e_account e) account && opt_is (e_from e) from_addr) (emails d))).
Definition mailbox_id_by_role (account role : string) : SM (option string) :=
  gets (fun d => option_map m_id (select_first (fun m => String.eqb (m_account m) account && opt_is (m_role m) role)
                                    (mailboxes d))).

(** ** Errors, requests and messages *)

Inductive AiError := ATransport (msg : string) | AProvider (msg : string) | AStorage (e : StorageError).

Definition ai_error_text (e : AiError) : string :=
  match e with
  | ATransport msg => "transport: " +:+ msg
  | AProvider msg => "provider: " +:+ msg
  | AStorage e => "storage: " +:+ storage_error_text e
  end.

Record StructuredRequest := mk_structured {
  sr_system : string;
  sr_user : string;
  sr_schema : Value;
  sr_max_tokens : Z
}.

(** mail-parser's view of a message, as far as the skills read it. *)
Inductive HeaderValue := HText (text : string) | HAddress (targets : list (option string)) | HOther.
Inductive PartBody := PText (text : string) | PBinary (bytes : list Z) | PInlineBinary (bytes : list Z) | POther.
Record MessagePart := mk_part {
  mp_content_type : option (string * option string);
  mp_attachment_name : option string;
  mp_body : PartBody
}.
Record AiMessage := mk_ai_message {
  am_body_text : option string;
  am_list_unsubscribe : option HeaderValue;
  am_list_unsubscribe_post : option string;  (* [as_text] of the header *)
  am_parts : list MessagePart
}.

(** [EmailContext]. *)
Record EmailContext := mk_context {
  ec_email_id : string;
  ec_row : EmailInfo;
  ec_body_text : string;
  ec_list_unsubscribe : option string;
  ec_list_unsubscribe_post : bool;
  ec_calendar_parts : list string
}.

(** [eq_ignore_ascii_case]. *)
Definition same_word (a b : string) : bool := String.eqb (to_lowercase a) (to_lowercase b).

Definition ends_with (suffix s : string) : bool :=
  let n := (String.length s - String.length suffix)%nat in
  Nat.leb (String.length suffix) (String.length s) && String.eqb (String.substring n (String.length suffix) s) suffix.

(** [is_calendar_part]. *)
Definition is_calendar_part (p : MessagePart) : bool :=
  match mp_content_type p with
  | Some (ctype, subtype) =>
      (same_word ctype "text" && same_word (default "" subtype) "calendar")
      || (same_word ctype "application" && same_word (default "" subtype) "ics")
  | None => false
  end
  || match mp_attachment_name p with Some name => ends_with ".ics" (to_lowercase name) | None => false end.

(** The calendar parts of a message. *)
Definition calendar_text (p : MessagePart) : list string :=
  if negb (is_calendar_part p) then []
  else match mp_body p with
       | PText text => [text]
       | PBinary bytes | PInlineBinary bytes => [utf8_lossy (string_of bytes)]
       | POther => []
       end.

Definition unsubscribe_header (v : HeaderValue) : option string :=
  match v with
  | HText text => Some text
  | HAddress targets => Some (join ", " (flat_map (fun t => match t with
                                                            | Some t => ["<" +:+ t +:+ ">"]
                                                            | None => []
                                                            end) targets))
  | HOther => None
  end.

(** ** Providers ([provider.rs]) *)

(** [payload["key"]] and [payload[0]]: absent is null. *)
Definition index (k : string) (v : Value) : Value := default Null (field k v).
Definition index_at (n : nat) (v : Value) : Value := default Null (l ← as_array v; l !! n).

(** [MockProvider]: queued answers, in order. *)
Record MockProvider := mk_mock { mk_responses : list Value; mk_requests : list StructuredRequest }.
Definition mock_queue (response : Value) (m : MockProvider) : MockProvider :=
  mk_mock (mk_responses m ++ [response]) (mk_requests m).
Definition mock_structured (request : StructuredRequest) : action MockProvider AiError Value :=
  fun m => let m := mk_mock (mk_responses m) (mk_requests m ++ [request]) in
           match mk_responses m with
           | [] => (Err (AProvider "mock exhausted"), m)
           | r :: rest => (Ok r, mk_mock rest (mk_requests m))
           end.

(** An HTTP exchange: the status line and the body decoded as JSON. *)
Record HttpReply := mk_reply { hr_status : string; hr_success : bool; hr_json : result string Value }.

Section Providers.
Context {N : Type}.
Variable post : string -> list (string * string) -> Value -> action N string HttpReply.
Variable value_to_text : Value -> string.
Variable read_text : string -> result string Value.  (* [serde_json::from_str] *)

Definition reply_of (url : string) (headers : list (string * string)) (body : Value) : action N AiError Value :=
  fun n => match post url headers body n with
           | (Err e, n) => (Err (ATransport e), n)
           | (Ok reply, n) =>
               (match hr_json reply with
                | Err e => Err (ATransport e)
                | Ok payload => if hr_success reply then Ok payload
                                else Err (AProvider (hr_status reply +:+ ": " +:+ value_to_text payload))
                end, n)
           end.

(** [ClaudeProvider]. *)
Definition claude_structured (base_url api_key model : string) (request : StructuredRequest) : action N AiError Value :=
  let body := json_object
    [("model", Str model); ("max_tokens", Number (sr_max_tokens request)); ("system", Str (sr_system request));
     ("messages", Array [json_object [("role", Str "user"); ("content", Str (sr_user request))]]);
     ("tools", Array [json_object [("name", Str "answer"); ("description", Str "Return the structured answer.");
                                   ("input_schema", sr_schema request)]]);
     ("tool_choice", json_object [("type", Str "tool"); ("name", Str "answer")])] in
  payload <- reply_of (base_url +:+ "/v1/messages")
               [("x-api-key", api_key); ("anthropic-version", "2023-06-01")] body ;;
  lift (ok_or (content ← as_array (index "content" payload);
               part ← List.find (fun part => match as_str (index "type" part) with
                                             | Some t => String.eqb t "tool_use" | None => false end) content;
               Some (index "input" part))
          (AProvider ("no tool_use in reply: " +:+ value_to_text payload))).

(** [OpenAiCompatProvider]. *)
Definition openai_structured (base_url : string) (api_key : option string) (model : string)
    (request : StructuredRequest) : action N AiError Value :=
  let system := sr_system request +:+ str_of lf +:+ str_of lf
                +:+ "Answer ONLY with a JSON object matching this schema, no prose:" +:+ str_of lf
                +:+ value_to_text (sr_schema request) in
  let body := json_object
    [("model", Str model);
     ("messages", Array [json_object [("role", Str "system"); ("content", Str system)];
                         json_object [("role", Str "user"); ("content", Str (sr_user request))]]);
     ("response_format", json_object [("type", Str "json_object")])] in
  payload <- reply_of (trim_end_matches (Ascii.eqb "/") base_url +:+ "/v1/chat/completions")
               match api_key with Some key => [("authorization", "Bearer " +:+ key)] | None => [] end body ;;
  text <- lift (ok_or (as_str (index "content" (index "message" (index_at 0 (index "choices" payload)))))
                  (AProvider ("no content: " +:+ value_to_text payload))) ;;
  lift (map_err (fun err => AProvider ("bad JSON from model: " +:+ err)) (read_text text)).
End Providers.

(** ** Skills ([skills.rs]) *)

Record AiState `{BlobStore} (N : Type) := mk_ai_state {
  ai_mail : MailState;
  ai_log : list ActionRow;
  ai_cursors : list (string * Z);
  ai_net : N
}.
Arguments mk_ai_state {_ _} _ _ _ _.
Arguments ai_mail {_ _} _.
Arguments ai_log {_ _} _.
Arguments ai_cursors {_ _} _.
Arguments ai_net {_ _} _.

Definition CATEGORIES : list string := ["personal"; "transactional"; "newsletter"; "notification"; "promotional"].

(** [AiConfig], its default and [deterministic_only]. *)
Record AiConfig := mk_ai_config {
  cf_screener : bool;
  cf_categorizer : bool;
  cf_summarizer : bool;
  cf_unsubscribe : bool;
  cf_calendar_invite : bool;
  cf_max_body_chars : nat;
  cf_summarize_min_chars : nat
}.
Definition default_config : AiConfig := mk_ai_config true true true true true (Z.to_nat 4000) 800.
Definition deterministic_only : AiConfig := mk_ai_config false false false true true (Z.to_nat 4000) 800.

Section Skills.
Context `{BlobStore} {N : Type}.
Variable parse_uuid : string -> option string.
Variable parse_mail : list Z -> option AiMessage.
Variable value_to_text : Value -> string.
Variable read_text : string -> result string Value.
Variable unicode_lower : string -> string.
Variables (now_at : nat -> Z) (uuid_at : nat -> string).
(** [AiProvider::structured]. *)
Variable ask : StructuredRequest -> action N AiError Value.

Abbreviation GM A := (action (AiState N) AiError A).

Definition storage_result {A} (r : result StorageError A) : result AiError A :=
  match r with Ok a => Ok a | Err e => Err (AStorage e) end.

(** A storage call, on the mail tables and on the log. *)
Definition on_mailstore {A} (m : action MailState StorageError A) : GM A :=
  fun s => let '(r, ms) := m (ai_mail s) in
           (storage_result r, mk_ai_state ms (ai_log s) (ai_cursors s) (ai_net s)).
Definition ai_read {A} (m : SM A) : GM A := on_mailstore (on_store (fun _ => m)).
Definition on_log {A} (m : nat -> DM A) : GM A :=
  fun s => let ms := ai_mail s in
           let '(r, d) := m (ms_ticks ms) (mk_act_db (db (ms_world ms)) (ai_log s) (ai_cursors s)) in
           (storage_result r,
            mk_ai_state (mk_mail_state (mk_world (ad_core d) (blob_files (ms_world ms)) (index_tasks (ms_world ms)))
                           (ms_chat ms) (ms_attributes ms) (S (ms_ticks ms)))
              (ad_actions d) (ad_cursors d) (ai_net s)).
Definition on_provider {A} (m : action N AiError A) : GM A :=
  fun s => let '(r, n) := m (ai_net s) in (r, mk_ai_state (ai_mail s) (ai_log s) (ai_cursors s) n).

Definition set_attribute (account i kind content : string) : GM unit :=
  on_mailstore (on_attributes (fun n => set_email_attribute (uuid_at n) (now_at n) account i kind content)).
Definition record (account i skill description : string) (inverse : option string) : GM string :=
  on_log (fun n => record_ai_action (uuid_at n) (now_at n) account (Some i) skill description inverse).

(** [EmailContext::load]. *)
Definition load_context (account i : string) : GM (option EmailContext) :=
  rows <- ai_read (emails_by_ids account [i]) ;;
  match rows with
  | [] => ret None
  | row :: _ =>
      match from_str (e_blob (ei_row row)) with
      | Parsed blob =>
          raw <- on_mailstore (on_world (fun _ => get_blob blob)) ;;
          ret (Some match parse_mail raw with
                    | None => mk_context i row "" None false []
                    | Some m =>
                        mk_context i row (default "" (am_body_text m))
                          (h ← am_list_unsubscribe m; v ← unsubscribe_header h;
                           if String.eqb v "" then None else Some v)
                          match am_list_unsubscribe_post m with
                          | Some v => contains "one-click" (lowercase unicode_lower v)
                          | None => false
                          end
                          (flat_map calendar_text (am_parts m))
                    end)
      | _ => fail (AProvider "bad blob id")
      end
  end.

(** The inverse patches the skills record. *)
Definition mailboxes_patch (ids : list string) : string := value_to_text (json_object [("mailboxIds", strings ids)]).
Definition keywords_patch (l : list string) : string := value_to_text (json_object [("keywords", strings l)]).

(** [screen]. *)
Definition screen (account : string) (ctx : EmailContext) : GM bool :=
  match e_from (ei_row (ec_row ctx)) with
  | None => ret false
  | Some from_addr =>
      count <- ai_read (sender_message_count account from_addr) ;;
      if Nat.ltb 1 count then ret false
      else
      inbox <- ai_read (mailbox_id_by_role account "inbox") ;;
      match inbox with
      | None => ret false
      | Some inbox =>
          if negb (existsb (String.eqb inbox) (ei_mailbox_ids (ec_row ctx))) then ret false
          else
          screener_id <- ai_read (mailbox_id_by_role account "screener") ;;
          match screener_id with
          | None => ret false
          | Some screener_id =>
              screener <- lift (ok_or (parse_uuid screener_id) (AProvider "bad mailbox id")) ;;
              ai_read (update_email account (ec_email_id ctx) None (Some [screener])) ;;;
              record account (ec_email_id ctx) "screener" ("First-time sender " +:+ from_addr +:+ " routed to Screener")
                (Some (mailboxes_patch (ei_mailbox_ids (ec_row ctx)))) ;;;
              ret true
          end
      end
  end.

(** [detect_unsubscribe]: the targets of the header. *)
Definition unsubscribe_target (target : string) : string :=
  trim_end_matches (Ascii.eqb ">") (trim_start_matches (Ascii.eqb "<") (trim_chars target)).
Definition add_target (found : option string * option string) (target : string) : option string * option string :=
  let target := unsubscribe_target target in
  if starts_with "https://" target || starts_with "http://" target then (Some target, found.2)
  else match strip_prefix "mailto:" target with
       | Some address => (found.1, Some address)
       | None => found
       end.
Definition detect_unsubscribe (account : string) (ctx : EmailContext) : GM bool :=
  match ec_list_unsubscribe ctx with
  | None => ret false
  | Some header =>
      let '(http_url, mailto) := fold_left add_target (split_on "," header) (None, None) in
      match http_url, mailto with
      | None, None => ret false
      | _, _ =>
          set_attribute account (ec_email_id ctx) "unsubscribe" (value_to_text (json_object
            [("http", nullable http_url); ("mailto", nullable mailto);
             ("oneClick", Bool (ec_list_unsubscribe_post ctx && match http_url with Some _ => true | None => false end))])) ;;;
          ret true
      end
  end.

(** [detect_calendar_invite]. *)
Definition detect_calendar_invite (account : string) (ctx : EmailContext) : GM bool :=
  match flat_map (fun part => match parse_invite part with Some v => [v] | None => [] end) (ec_calendar_parts ctx) with
  | [] => ret false
  | invite :: _ =>
      set_attribute account (ec_email_id ctx) "calendarInvite" (value_to_text invite) ;;; ret true
  end.

(** [categorize]. *)
Definition categorize_request (ctx : EmailContext) (max_body_chars : nat) : StructuredRequest :=
  mk_structured
    ("You categorize a single email for a personal mail server. "
     +:+ "personal = written by a human to this user; transactional = receipts, "
     +:+ "confirmations, account notices; newsletter = periodic editorial content; "
     +:+ "notification = automated app/service updates; promotional = marketing.")
    ("From: " +:+ default "unknown" (e_from (ei_row (ec_row ctx))) +:+ str_of lf
     +:+ "Subject: " +:+ default "" (e_subject (ei_row (ec_row ctx))) +:+ str_of lf +:+ str_of lf
     +:+ take_chars max_body_chars (ec_body_text ctx))
    (json_object [("type", Str "object");
                  ("properties", json_object [("category", json_object [("type", Str "string"); ("enum", strings CATEGORIES)])]);
                  ("required", strings ["category"])])
    64.
Definition categorize (account : string) (ctx : EmailContext) (max_body_chars : nat) : GM (option string) :=
  answer <- on_provider (ask (categorize_request ctx max_body_chars)) ;;
  match as_str (index "category" answer) with
  | None => fail (AProvider ("no category in " +:+ value_to_text answer))
  | Some category =>
      if negb (existsb (String.eqb category) CATEGORIES) then fail (AProvider ("invalid category " +:+ category))
      else
      ai_read (update_email account (ec_email_id ctx)
                 (Some (ei_keywords (ec_row ctx) ++ ["ai:" +:+ category])%list) None) ;;;
      record account (ec_email_id ctx) "categorizer" ("Categorized as " +:+ category)
        (Some (keywords_patch (ei_keywords (ec_row ctx)))) ;;;
      ret (Some category)
  end.

(** [summarize]. *)
Definition summarize_request (ctx : EmailContext) (max_body_chars : nat) : StructuredRequest :=
  mk_structured "Summarize this email in at most two sentences, plus any action items."
    ("Subject: " +:+ default "" (e_subject (ei_row (ec_row ctx))) +:+ str_of lf +:+ str_of lf
     +:+ take_chars max_body_chars (ec_body_text ctx))
    (json_object [("type", Str "object");
                  ("properties", json_object [("summary", json_object [("type", Str "string")]);
                     ("actionItems", json_object [("type", Str "array"); ("items", json_object [("type", Str "string")])])]);
                  ("required", strings ["summary"])])
    300.
Definition summarize (account : string) (ctx : EmailContext) (min_chars max_body_chars : nat) : GM bool :=
  if Nat.ltb (length (chars (ec_body_text ctx))) min_chars then ret false
  else
  answer <- on_provider (ask (summarize_request ctx max_body_chars)) ;;
  match as_str (index "summary" answer) with
  | None => fail (AProvider ("no summary in " +:+ value_to_text answer))
  | Some _ =>
      set_attribute account (ec_email_id ctx) "summary" (value_to_text answer) ;;;
      record account (ec_email_id ctx) "summarizer" "Summarized message" None ;;;
      ret true
  end.

(** ** The worker ([worker.rs]) *)

(** An error that is only logged. *)
Definition logged {A} (m : GM A) : GM unit := fun s => (Ok tt, snd (m s)).
Definition when_on (on : bool) (m : GM unit) : GM unit := if on then m else ret tt.

(** The skills on one message. *)
Definition run_skills (with_provider : bool) (account : string) (config : AiConfig) (ctx : EmailContext) : GM unit :=
  when_on (cf_screener config) (logged (screen account ctx)) ;;;
  when_on (cf_unsubscribe config) (logged (detect_unsubscribe account ctx)) ;;;
  when_on (cf_calendar_invite config) (logged (detect_calendar_invite account ctx)) ;;;
  when_on with_provider
    (when_on (cf_categorizer config) (logged (categorize account ctx (cf_max_body_chars config))) ;;;
     when_on (cf_summarizer config)
       (logged (summarize account ctx (cf_summarize_min_chars config) (cf_max_body_chars config)))).

(** One round of the loop; whether the message counts as processed. *)
Definition process_one (with_provider : bool) (account : string) (config : AiConfig) (created_id : string) : GM bool :=
  match parse_uuid created_id with
  | None => ret false
  | Some i =>
      ctx <- load_context account i ;;
      match ctx with
      | None => ret false
      | Some ctx =>
          sent <- ai_read (mailbox_id_by_role account "sent") ;;
          drafts <- ai_read (mailbox_id_by_role account "drafts") ;;
          if existsb (fun m => opt_is sent m || opt_is drafts m) (ei_mailbox_ids (ec_row ctx)) then ret false
          else run_skills with_provider account config ctx ;;; ret true
      end
  end.
Fixpoint process_each (with_provider : bool) (account : string) (config : AiConfig) (ids : list string) (processed : nat)
  : GM nat :=
  match ids with
  | [] => ret processed
  | i :: rest =>
      counted <- process_one with_provider account config i ;;
      process_each with_provider account config rest (if counted : bool then S processed else processed)
  end.

(** [process_new_mail]. *)
Definition process_new_mail (with_provider : bool) (account : string) (config : AiConfig) : GM nat :=
  cursor <- on_log (fun _ => ai_cursor account) ;;
  changes <- ai_read (changes_since account Email cursor 64) ;;
  processed <- process_each with_provider account config (created changes) 0 ;;
  on_log (fun _ => set_ai_cursor account (new_state changes)) ;;;
  ret (if has_more changes then S processed else processed).

(** One round of [spawn_worker]: every account, errors logged. *)
Definition worker_round (with_provider : bool) (config : AiConfig) : GM unit :=
  fun s => match ai_read (list_accounts parse_uuid) s with
           | (Err _, s) => (Ok tt, s)
           | (Ok accounts, s) =>
               for_each accounts (fun a => logged (process_new_mail with_provider (id a) config)) s
           end.

(** ** Undo ([undo_action]) *)

Definition patch_keywords (patch : Value) : option (list string) :=
  option_map (flat_map (fun k => match as_str k with Some k => [k] | None => [] end)) (as_array (index "keywords" patch)).
Definition patch_mailboxes (patch : Value) : option (list string) :=
  match as_array (index "mailboxIds" patch) with
  | None => None
  | Some l =>
      match flat_map (fun m => match s ← as_str m; parse_uuid s with Some i => [i] | None => [] end) l with
      | [] => None
      | ids => Some ids
      end
  end.

Definition undo_action (account action_id : string) : GM unit :=
  found <- on_log (fun _ => ai_action parse_uuid account action_id) ;;
  action <- lift (ok_or found (AProvider ("no action " +:+ action_id))) ;;
  if aa_undone action then ret tt
  else
  inverse <- lift (ok_or (aa_inverse_patch action) (AProvider "action is not undoable")) ;;
  patch <- lift (map_err (fun err => AProvider ("bad inverse patch: " +:+ err)) (read_text inverse)) ;;
  email_id <- lift (ok_or (i ← aa_email action; parse_uuid i) (AProvider "action has no email")) ;;
  ai_read (update_email account email_id (patch_keywords patch) (patch_mailboxes patch)) ;;;
  on_log (fun _ => mark_action_undone action_id).
End Skills.

(** ** Search in natural language ([nl_search.rs]) *)

Record JmapFilter := mk_jmap_filter {
  jf_mailboxes : list string;
  jf_from : option string;
  jf_subject : option string;
  jf_to : option string;
  jf_since : option Z;
  jf_before : option Z;
  jf_flags : option (gmap string bool);
  jf_text : option string;
  jf_thread_id : option string
}.

Definition described (t : Value) (what : string) : Value := json_object [("type", t); ("description", Str what)].
Definition or_null (t : string) : Value := strings [t; "null"].

(** The instructions. *)
Definition ARROW : string := utf8_3 "226" "134" "146".
Definition in_quotes (s : string) : string := str_of quote +:+ s +:+ str_of quote.
Definition filter_prompt : string :=
  join (str_of lf)
    ["You are an email search translator. Convert natural language queries into JMAP filter objects."; "";
     "Examples:";
     "- 'unread from alice' " +:+ ARROW +:+ " {" +:+ in_quotes "from" +:+ ": " +:+ in_quotes "alice" +:+ ", "
       +:+ in_quotes "flags" +:+ ": {" +:+ in_quotes "$Seen" +:+ ": false}}";
     "- 'important emails last week' " +:+ ARROW +:+ " {" +:+ in_quotes "flags" +:+ ": {" +:+ in_quotes "$Flagged"
       +:+ ": true}, " +:+ in_quotes "since" +:+ ": <7-days-ago>}";
     "- 'drafts' " +:+ ARROW +:+ " {" +:+ in_quotes "mailboxes" +:+ ": [" +:+ in_quotes "drafts" +:+ "], "
       +:+ in_quotes "flags" +:+ ": {" +:+ in_quotes "$Draft" +:+ ": true}}";
     "- 'from boss before:2024' " +:+ ARROW +:+ " {" +:+ in_quotes "from" +:+ ": " +:+ in_quotes "boss" +:+ ", "
       +:+ in_quotes "before" +:+ ": 1704067200}"; "";
     "Common mailboxes: inbox, sent, archive, drafts, junk, trash, screener.";
     "Unix timestamps: use current time minus duration for 'last X' queries.";
     "Flags: $Seen (read), $Flagged, $Draft, $Junk, $Trash, $HasAttachment.";
     "Return valid JSON only, no explanations."].

(** [translate_to_filter]. *)
Definition translate_to_filter {N} `{FromValue JmapFilter} (ask : StructuredRequest -> action N AiError Value)
    (query : string) : action N AiError JmapFilter :=
  response <- ask (mk_structured filter_prompt
      ("Translate this email search to JMAP filter: " +:+ in_quotes query)
      (json_object [("type", Str "object"); ("properties", json_object
        [("mailboxes", json_object [("type", Str "array"); ("items", json_object [("type", Str "string")]);
                                    ("description", Str "Mailbox roles to search")]);
         ("from", described (or_null "string") "Sender filter");
         ("subject", described (or_null "string") "Subject filter");
         ("to", described (or_null "string") "Recipient filter");
         ("since", described (or_null "integer") "Unix timestamp");
         ("before", described (or_null "integer") "Unix timestamp");
         ("flags", described (or_null "object") "Flag filters: $Seen, $Flagged, $Draft, etc.");
         ("text", described (or_null "string") "Body text search");
         ("thread_id", described (or_null "string") "Single thread ID")])])
      256) ;;
  lift (map_err (fun e => AProvider ("filter parse failed: " +:+ e)) (from_value response)).
