(* ===== verification/AiFacts.v ===== *)
(** The three rules of the AI layer: whatever the model answers, a pass loses no mail
    and touches no other account; no failure of a skill is a failure of the pass, and
    the cursor moves only when the pass ends; an action that was recorded can be
    undone, which puts the message back as it was. *)
From S2P Require Import Prelude Text Bytes Ident Json Store StoreFacts Mail MailQueries MailFacts UpdateFacts MailQueryFacts Spam SpamFacts Queue Delivery Attributes JmapMail JmapIsolation Ics Ai.

Open Scope string_scope.

(** What identifies a message and its content. *)
Definition mail_key (e : EmailRow) : string * string * string * string := (e_id e, e_account e, e_thread e, e_blob e).

Section AiFacts.
Context `{BlobStore} {N : Type}.
Variable parse_uuid : string -> option string.
Variable parse_mail : list Z -> option AiMessage.
Variable value_to_text : Value -> string.
Variable read_text : string -> result string Value.
Variable unicode_lower : string -> string.
Variables (now_at : nat -> Z) (uuid_at : nat -> string).
Variable ask : StructuredRequest -> action N AiError Value.
Abbreviation wf := (wf parse_uuid).
Abbreviation canonical := (canonical parse_uuid).
Abbreviation ai_db s := (db (ms_world (ai_mail (N := N) s))).

(** ** No mail is lost *)

(** From a well-formed database: the mail of the others is untouched, every message is
    still there with its content, and the database stays well-formed, so that each
    message is in a mailbox. *)
Definition kept (account : string) (d d' : Db) : Prop :=
  wf d -> others_mail account d d' /\ wf d' /\ map mail_key (emails d') = map mail_key (emails d).
#[local] Instance kept_pre account : PreOrder (kept account).
Proof.
  split; [by intros d|]. intros d1 d2 d3 H1 H2 Hd. destruct (H1 Hd) as (O1 & W1 & K1). destruct (H2 W1) as (O2 & W2 & K2).
  split; [by etransitivity|]. split; [done|congruence].
Qed.

Lemma mail_same_kept account d d' : mail_same d d' -> kept account d d'.
Proof.
  intros Hs Hd. split; [by apply mail_same_others|]. split; [by eapply mail_same_wf|].
  destruct Hs as (_ & _ & _ & _ & -> & _). done.
Qed.

Lemma key_updated i m l : map mail_key (update_where (fun e => String.eqb (e_id e) i) (set_updated m) l) = map mail_key l.
Proof. by apply update_where_map. Qed.

Lemma update_email_kept account i kws mbs : keeps (kept account) (update_email account i kws mbs).
Proof.
  intros d r d' Hrun Hd. destruct (update_email_within parse_uuid account i kws mbs d r d' Hrun Hd) as [Ho Hw].
  split; [done|]. split; [done|]. pose proof (update_email_run account i kws mbs d) as Hspec. rewrite Hrun in Hspec.
  destruct r as [r|e]; [|by destruct Hspec as [_ ->]]. destruct Hspec as (_ & d1 & Hu & ->).
  cbn. by rewrite (upd_emails _ _ _ _ _ _ Hu), key_updated.
Qed.

Lemma set_attribute_kept fresh now account i kind content d r d' :
  set_email_attribute fresh now account i kind content d = (r, d') -> kept account (at_core d) (at_core d').
Proof.
  unfold set_email_attribute, transaction, bind. intros Hrun.
  destruct (set_attribute_tx fresh now account i kind content d) as [[changed|e] d1] eqn:Htx; cbn in Hrun;
    [|by injection Hrun as _ <-].
  transitivity (at_core d1); [|injection Hrun as _ <-; by apply mail_same_kept]. clear Hrun.
  unfold set_attribute_tx, owned_email_check, on_at_core, gets, ensure, bind, touch_email in Htx. cbn in Htx.
  destruct (owned_email account i (at_core d)) eqn:Ho; cbn in Htx; [|done].
  destruct (negb _ && _); cbn in Htx; [done|]. unfold bind in Htx.
  destruct (bump account Email (at_core d)) as [[m|e] c] eqn:Hb; cbn in Htx; [|done].
  apply bump_ok in Hb as (-> & _ & ->). injection Htx as _ <-. cbn. intros Hd.
  assert (exists e, e ∈ emails (at_core d) /\ e_account e = account /\ e_id e = i) as Hmine.
  { apply existsb_elem in Ho as (e & He & [Ha Hi]%andb_true_iff). exists e. by apply String.eqb_eq in Ha, Hi. }
  destruct (touched_wf parse_uuid account i _ (at_core d) Hd Hmine eq_refl) as [Hot Hw].
  split; [exact Hot|]. split; [exact Hw|]. apply key_updated.
Qed.

(** The cursors stay where they are as well. *)
Definition safe (account : string) (s s' : AiState N) : Prop :=
  kept account (ai_db s) (ai_db s') /\ ai_cursors s' = ai_cursors s.
#[local] Instance safe_pre account : PreOrder (safe account).
Proof. split; [by intros s|]. intros s1 s2 s3 [K1 C1] [K2 C2]. split; [by etransitivity|congruence]. Qed.

Section Safe.
Variable account : string.
Abbreviation ok := (keeps (safe account)).

Lemma safe_bind {E A B} (m : action (AiState N) E A) (k : A -> action (AiState N) E B) :
  ok m -> (forall a, ok (k a)) -> ok (bind m k).
Proof. apply keeps_bind, _. Qed.
Lemma safe_ret {E A} (a : A) : ok (ret (E := E) a).
Proof. apply keeps_ret, _. Qed.
Lemma safe_fail {E A} (e : E) : ok (fail (A := A) e).
Proof. apply keeps_fail, _. Qed.
Lemma safe_lift {E A} (r : result E A) : ok (lift r).
Proof. apply keeps_lift, _. Qed.

Lemma safe_call {A} (m : SM A) : keeps (kept account) m -> ok (ai_read m).
Proof.
  intros Hm s r s'. unfold ai_read, on_mailstore, on_store, on_world, on_db.
  destruct (m (db (ms_world (ai_mail s)))) as [x d] eqn:E1. intros [= _ <-]. split; [exact (Hm _ _ _ E1)|done].
Qed.
Lemma safe_read {A} (m : SM A) : (forall d, snd (m d) = d) -> ok (ai_read m).
Proof. intros Hm. apply safe_call, keeps_pure; [apply _|done]. Qed.
Lemma safe_world {A} (m : action World StorageError A) : (forall w, snd (m w) = w) -> ok (on_mailstore (on_world (fun _ => m))).
Proof.
  intros Hm s r s'. unfold on_mailstore, on_world. specialize (Hm (ms_world (ai_mail s))).
  destruct (m _) as [x w]. cbn in Hm. subst w. by intros [= _ <-].
Qed.
Lemma safe_attribute i kind content : ok (set_attribute now_at uuid_at account i kind content).
Proof.
  intros s r s'. unfold set_attribute, on_mailstore, on_attributes.
  destruct (set_email_attribute _ _ _ _ _ _ _) as [x d] eqn:E1. intros [= _ <-].
  split; [exact (set_attribute_kept _ _ _ _ _ _ _ _ _ E1)|done].
Qed.
Lemma safe_log {A} (m : nat -> DM A) : (forall n d, ad_core (snd (m n d)) = ad_core d /\ ad_cursors (snd (m n d)) = ad_cursors d) -> ok (on_log m).
Proof.
  intros Hm s r s'. unfold on_log. cbv zeta. set (n := ms_ticks _). set (d := mk_act_db _ _ _).
  specialize (Hm n d). destruct (m n d) as [x d']. cbn in Hm. destruct Hm as [Hc Hk]. intros [= _ <-].
  unfold safe. cbn. by rewrite Hc, Hk.
Qed.
Lemma safe_provider {A} (m : action N AiError A) : ok (on_provider m).
Proof. intros s r s'. unfold on_provider. destruct (m _) as [x n]. by intros [= _ <-]. Qed.
Lemma safe_logged {A} (m : action (AiState N) AiError A) : ok m -> ok (logged m).
Proof. intros Hm s r s'. unfold logged. intros [= _ <-]. destruct (m s) as [x s1] eqn:E1. exact (Hm _ _ _ E1). Qed.
Lemma safe_when on m : ok m -> ok (when_on on m).
Proof. intros Hm. destruct on; [done|apply safe_ret]. Qed.
Lemma safe_record i skill description inverse :
  ok (record now_at uuid_at account i skill description inverse).
Proof.
  apply safe_log. intros n d. unfold record_ai_action, bind, check.
  destruct (_ && _); cbn; [|done]. by destruct (negb _).
Qed.
End Safe.

Create HintDb ai.
#[local] Hint Resolve safe_bind safe_ret safe_fail safe_lift safe_call safe_read safe_world safe_attribute safe_log
  safe_provider safe_logged safe_when safe_record update_email_kept : ai.

(** One step of a program that is safe piece by piece. *)
Ltac ai_step :=
  match goal with
  | |- keeps _ (bind _ _) => apply safe_bind; [|intros ?]
  | |- keeps _ (match ?x with _ => _ end) => destruct x
  | |- keeps _ (let _ := _ in _) => cbv zeta
  | |- keeps _ (ai_read (update_email _ _ _ _)) => apply safe_call, update_email_kept
  | |- keeps _ (ai_read _) => apply safe_read; done
  | |- _ => solve [auto with ai]
  end.
Ltac ai_steps := repeat ai_step.

Abbreviation screen := (screen parse_uuid value_to_text now_at uuid_at (N := N)).
Abbreviation categorize := (categorize value_to_text now_at uuid_at ask).

Abbreviation run_skills := (run_skills parse_uuid value_to_text now_at uuid_at ask).
Abbreviation load_context := (load_context parse_mail unicode_lower (N := N)).
Abbreviation process_one := (process_one parse_uuid parse_mail value_to_text unicode_lower now_at uuid_at ask).
Abbreviation process_each := (process_each parse_uuid parse_mail value_to_text unicode_lower now_at uuid_at ask).
Abbreviation process_new_mail := (process_new_mail parse_uuid parse_mail value_to_text unicode_lower now_at uuid_at ask).

Lemma skills_safe account config ctx provider : keeps (safe account) (run_skills provider account config ctx).
Proof.
  unfold Ai.run_skills. ai_steps; apply safe_when; try apply safe_logged.
  - unfold Ai.screen. ai_steps.
  - unfold detect_unsubscribe. ai_steps.
  - unfold detect_calendar_invite. ai_steps.
  - ai_steps; apply safe_when, safe_logged; [unfold Ai.categorize|unfold summarize]; ai_steps.
Qed.

Lemma load_safe account i : keeps (safe account) (load_context account i).
Proof. unfold Ai.load_context. ai_steps. Qed.

Lemma process_each_safe provider account config ids processed :
  keeps (safe account) (process_each provider account config ids processed).
Proof.
  revert processed. induction ids as [|i ids IH]; intros n; cbn [Ai.process_each]; [apply safe_ret|].
  apply safe_bind; [|intros b; apply IH]. unfold Ai.process_one.
  destruct (parse_uuid i) as [j|]; [|apply safe_ret]. apply safe_bind; [apply load_safe|intros ctx].
  ai_steps. apply skills_safe.
Qed.

(** ** What can fail a pass *)

(** The errors of the store, not those of a model. *)
Definition of_the_store (e : AiError) : Prop :=
  match e with AStorage _ => True | AProvider msg => msg = "bad blob id" | ATransport _ => False end.
Definition fails_in_store {A} (m : action (AiState N) AiError A) : Prop :=
  forall s e s', m s = (Err e, s') -> of_the_store e.

Lemma store_bind {A B} (m : action (AiState N) AiError A) (k : A -> action (AiState N) AiError B) :
  fails_in_store m -> (forall a, fails_in_store (k a)) -> fails_in_store (bind m k).
Proof.
  intros Hm Hk s e s'. unfold bind. destruct (m s) as [[a|x] s1] eqn:E1; [apply Hk|].
  intros [= -> _]. exact (Hm _ _ _ E1).
Qed.
Lemma store_never {A} (m : action (AiState N) AiError A) : (forall s, is_ok (m s).1 = true) -> fails_in_store m.
Proof. intros Hm s e s' E1. specialize (Hm s). by rewrite E1 in Hm. Qed.
Lemma store_call {A} (m : action MailState StorageError A) : fails_in_store (on_mailstore m).
Proof. intros s e s'. unfold on_mailstore. destruct (m _) as [[a|x] ms]; [done|]. by intros [= <- _]. Qed.
Lemma store_log {A} (m : nat -> DM A) : fails_in_store (on_log m).
Proof. intros s e s'. unfold on_log. destruct (m _ _) as [[a|x] d]; [done|]. by intros [= <- _]. Qed.

Lemma skills_total provider account config ctx s : is_ok (run_skills provider account config ctx s).1 = true.
Proof.
  assert (forall on m s, is_ok (when_on on (logged (N := N) (A := bool) m) s).1 = true) as Hw by (by intros []).
  unfold Ai.run_skills, bind.
  destruct (cf_screener config), (cf_unsubscribe config), (cf_calendar_invite config), provider,
    (cf_categorizer config), (cf_summarizer config); done.
Qed.

Lemma process_each_store provider account config ids processed :
  fails_in_store (process_each provider account config ids processed).
Proof.
  revert processed. induction ids as [|i ids IH]; intros n; cbn [Ai.process_each]; [by apply store_never|].
  apply store_bind; [|intros b; apply IH]. unfold Ai.process_one.
  destruct (parse_uuid i) as [j|]; [|by apply store_never].
  apply store_bind; [|intros [ctx|]; [|by apply store_never]].
  - unfold Ai.load_context. apply store_bind; [apply store_call|intros [|row rows]]; [by apply store_never|].
    destruct (from_str _).
    + apply store_bind; [apply store_call|intros raw]. by apply store_never.
    + by intros s ? s' [= <- _].
    + by intros s ? s' [= <- _].
  - apply store_bind; [apply store_call|intros sent]. apply store_bind; [apply store_call|intros drafts].
    destruct (existsb _ _); [by apply store_never|].
    apply store_bind; [|intros []; by apply store_never]. apply store_never. intros s. apply skills_total.
Qed.

Lemma set_cursor_runs account m s r s' :
  on_log (fun _ => set_ai_cursor account m) s = (r, s') ->
  kept account (ai_db s) (ai_db s')
  /\ match r with
     | Ok _ => List.find (fun c => String.eqb c.1 account) (ai_cursors s') = Some (account, as_i64 m)
     | Err e => of_the_store e /\ ai_cursors s' = ai_cursors s
     end.
Proof.
  unfold on_log, set_ai_cursor, check, bind, modify. cbn. destruct (account_exists _ _); intros [= <- <-]; [|done].
  split; [done|]. cbn. destruct (existsb _ (ai_cursors s)) eqn:E.
  - apply existsb_elem in E as (c & Hc & Ha).
    assert (forall l, c ∈ l -> List.find (fun c => String.eqb c.1 account)
              (update_where (fun c => String.eqb c.1 account) (fun c => (c.1, as_i64 m)) l) = Some (account, as_i64 m)) as Hf.
    { induction l as [|x l IH]; [by intros ?%elem_of_nil|]. cbn. destruct (String.eqb x.1 account) eqn:Ex; cbn; rewrite Ex.
      - apply String.eqb_eq in Ex. by rewrite Ex.
      - intros [->|Hl]%elem_of_cons; [congruence|by apply IH]. }
    by apply Hf.
  - clear -E. induction (ai_cursors s) as [|x l IH]; cbn in *; [by rewrite String.eqb_refl|].
    destruct (String.eqb x.1 account); [done|by apply IH].
Qed.

(** C19: An enrichment pass is safe whatever the model answers and however its skills
    fail: no message is lost, changed in content or left without a mailbox, no other
    account's mail is touched; only the store can make the pass fail, and then the
    cursor is where it was; otherwise the account's cursor is the state of its mail at
    the start of the pass. *)
Theorem process_new_mail_spec provider account config s r s' :
  wf (ai_db s) ->
  process_new_mail provider account config s = (r, s') ->
  (others_mail account (ai_db s) (ai_db s') /\ wf (ai_db s')
   /\ map mail_key (emails (ai_db s')) = map mail_key (emails (ai_db s)))
  /\ match r with
     | Ok _ => List.find (fun c => String.eqb c.1 account) (ai_cursors s') = Some (account, as_i64 (state_of account Email (ai_db s)))
     | Err e => of_the_store e /\ ai_cursors s' = ai_cursors s
     end.
Proof.
  intros Hd. unfold Ai.process_new_mail. unfold bind at 1.
  destruct (on_log (fun _ => ai_cursor account) s) as [[cursor|e] s1] eqn:E1.
  2: { unfold on_log, ai_cursor, gets in E1. done. }
  assert (safe account s s1 /\ ai_db s1 = ai_db s) as [S1 D1].
  { unfold on_log, ai_cursor, gets in E1. cbn in E1. injection E1 as _ <-. done. }
  unfold bind at 1. destruct (ai_read (changes_since account Email cursor 64) s1) as [[changes|e] s2] eqn:E2.
  2: { intros [= <- <-]. pose proof (store_call _ _ _ _ E2) as He.
       assert (safe account s1 s2) as S2 by (by apply (safe_read account (changes_since account Email cursor 64)) in E2).
       assert (safe account s s2) as [K C] by (by etransitivity). split; [by apply K|by split]. }
  assert (safe account s1 s2) as S2 by (by apply (safe_read account (changes_since account Email cursor 64)) in E2).
  assert (new_state changes = state_of account Email (ai_db s)) as Hnew.
  { unfold ai_read, on_mailstore, on_store, on_world, on_db in E2. unfold changes_since in E2. rewrite D1 in E2.
    cbn in E2. by injection E2 as <- _. }
  unfold bind at 1. destruct (process_each provider account config (created changes) 0 s2) as [[n|e] s3] eqn:E3;
    pose proof (process_each_safe _ _ _ _ _ _ _ _ E3) as S3;
    assert (safe account s s3) as [K3 C3] by (do 2 (etransitivity; [eassumption|]); done).
  2: { intros [= <- <-]. split; [by apply K3|]. split; [|done]. exact (process_each_store _ _ _ _ _ _ _ _ E3). }
  unfold bind at 1. destruct (on_log (fun _ => set_ai_cursor account (new_state changes)) s3) as [x s4] eqn:E4.
  apply set_cursor_runs in E4 as [K4 C4]. rewrite Hnew, C3 in C4.
  assert (kept account (ai_db s) (ai_db s4)) as K by (by etransitivity).
  destruct x as [[]|e]; intros [= <- <-]; (split; [by apply K|done]).
Qed.

(** ** Undo *)

(** The log: distinct ids, each the text of a UUID. *)
Record log_ok (l : list ActionRow) : Prop := mk_log_ok {
  lo_distinct : NoDup (map ac_id l);
  lo_canonical : forall r, r ∈ l -> canonical (ac_id r)
}.
Definition of_account (account : string) (r : ActionRow) : bool := String.eqb (ac_account r) account.

Definition action_of (r : ActionRow) : AiAction :=
  mk_ai_action (ac_id r) (ac_email r) (ac_skill r) (ac_description r) (ac_inverse r) (negb (ac_undone r =? 0)%Z)
    (ac_created_at r).

Lemma find_by_id {R} (key : R -> string) l x :
  NoDup (map key l) -> x ∈ l -> List.find (fun y => String.eqb (key y) (key x)) l = Some x.
Proof.
  induction l as [|y l IH]; [by intros _ ?%elem_of_nil|]. cbn. intros [Hy Hl]%NoDup_cons Hx.
  destruct (String.eqb_spec (key y) (key x)) as [E|E].
  - apply elem_of_cons in Hx as [->|Hx]; [done|]. destruct Hy. rewrite E. apply elem_of_map. by exists x.
  - apply elem_of_cons in Hx as [->|Hx]; [done|]. by apply IH.
Qed.

Lemma filter_marked_length account test l :
  length (List.filter (of_account account) (update_where test set_undone l)) = length (List.filter (of_account account) l).
Proof.
  unfold update_where. induction l as [|r l IH]; [done|]. cbn [map List.filter].
  assert (of_account account (if test r then set_undone r else r) = of_account account r) as -> by (by destruct (test r)).
  destruct (of_account account r); cbn [length]; by rewrite IH.
Qed.

(** An action of the account is found as long as the account has at most ten thousand. *)
Lemma ai_action_found account row d :
  log_ok (ad_actions d) -> (length (List.filter (of_account account) (ad_actions d)) <= Z.to_nat 10000)%nat ->
  row ∈ ad_actions d -> ac_account row = account ->
  ai_action parse_uuid account (ac_id row) d = (Ok (Some (action_of row)), d).
Proof.
  intros [Hnd Hcan] Hlen Hrow Hacc. unfold ai_action, ai_actions, bind, ret.
  set (rows := List.filter _ (ad_actions d)) in *. set (sorted := order_by newest_action rows).
  assert (sorted ≡ₚ rows) as Hperm by apply order_by_Permutation.
  rewrite as_i64_small, sql_limit_take by lia. rewrite take_ge by (by rewrite (Permutation_length Hperm)).
  assert (forall l, (forall r, r ∈ l -> r ∈ ad_actions d) ->
            collect_results (map (row_to_action parse_uuid) l) = Ok (map action_of l)) as Hall.
  { induction l as [|r l IH]; intros Hin; [done|]. cbn [map collect_results].
    assert (canonical (ac_id r)) as Hc by (apply Hcan, Hin; left). unfold MailFacts.canonical in Hc.
    unfold row_to_action at 1. rewrite Hc. cbn. rewrite IH; [done|]. intros x Hx. apply Hin. by right. }
  assert (forall r, r ∈ sorted -> r ∈ ad_actions d /\ ac_account r = account) as Hmem.
  { intros r. rewrite Hperm. unfold rows. rewrite elem_of_filter_bool. unfold of_account. rewrite String.eqb_eq. tauto. }
  rewrite Hall by (intros r Hr; by apply Hmem).
  f_equal. f_equal. change (fun a => String.eqb (aa_id a) (ac_id row)) with (fun a => String.eqb (aa_id a) (aa_id (action_of row))).
  apply (find_by_id aa_id).
  - rewrite map_map. cbn. rewrite Hperm. unfold rows. clear -Hnd.
    induction (ad_actions d) as [|r l IH]; cbn; [constructor|]. cbn in Hnd. apply NoDup_cons in Hnd as [Hr Hl].
    destruct (of_account account r); cbn; [|by apply IH]. apply NoDup_cons. split; [|by apply IH].
    intros (x & [Hin _]%elem_of_filter_bool & Hx)%elem_of_map. apply Hr, elem_of_map. by exists x.
  - apply elem_of_map. exists row. split; [|done]. rewrite Hperm. unfold rows. apply elem_of_filter_bool.
    split; [done|]. unfold of_account. by apply String.eqb_eq.
Qed.

Abbreviation undo_action := (undo_action parse_uuid read_text (N := N)).

(** Undoing a recorded action applies its patch and marks it; a second time it does nothing. *)
Lemma undo_run account (s : AiState N) row i text patch :
  log_ok (ai_log s) -> (length (List.filter (of_account account) (ai_log s)) <= Z.to_nat 10000)%nat ->
  row ∈ ai_log s -> ac_account row = account -> ac_undone row = 0%Z -> ac_inverse row = Some text ->
  read_text text = Ok patch -> ac_email row = Some i -> canonical i ->
  accepts account i (patch_mailboxes parse_uuid patch) (ai_db s) ->
  exists s', undo_action account (ac_id row) s = (Ok tt, s')
    /\ (exists d1 l, updated_db account i (patch_keywords patch) (patch_mailboxes parse_uuid patch) (ai_db s) d1
                     /\ ai_db s' = on_published l d1)
    /\ exists s'', undo_action account (ac_id row) s' = (Ok tt, s'') /\ ai_db s'' = ai_db s'.
Proof.
  intros Hlog Hfew Hrow Hacc Hun Hinv Hread Hmail Hi Haccepts.
  assert (forall t : AiState N, log_ok (ai_log t) -> (length (List.filter (of_account account) (ai_log t)) <= Z.to_nat 10000)%nat ->
            forall r, r ∈ ai_log t -> ac_account r = account ->
            exists t', on_log (fun _ => ai_action parse_uuid account (ac_id r)) t = (Ok (Some (action_of r)), t')
                       /\ ai_db t' = ai_db t /\ ai_log t' = ai_log t /\ ai_cursors t' = ai_cursors t) as Hfind.
  { intros t Ht Hft r Hr Har. unfold on_log. rewrite ai_action_found by done. eexists. by split. }
  destruct (Hfind s Hlog Hfew row Hrow Hacc) as (s1 & E1 & D1 & L1 & _).
  assert (negb (ac_undone row =? 0)%Z = false) as Hnot by (by rewrite Hun).
  pose proof (update_email_run account i (patch_keywords patch) (patch_mailboxes parse_uuid patch) (ai_db s1)) as Hrun.
  destruct (update_email account i _ _ (ai_db s1)) as [[[]|e] d2] eqn:E2; [|rewrite D1 in Hrun; by destruct Hrun].
  destruct Hrun as (_ & d1 & Hupd & Hd2).
  eexists. split.
  { unfold Ai.undo_action. unfold bind at 1. rewrite E1. cbn [ok_or]. unfold bind at 1, lift at 1. cbn [aa_undone action_of].
    rewrite Hnot. cbn [aa_inverse_patch action_of]. rewrite Hinv. unfold bind at 1, lift at 1. cbn [ok_or].
    unfold bind at 1, lift at 1. rewrite Hread. cbn [map_err]. cbn [aa_email action_of]. rewrite Hmail.
    unfold bind at 1, lift at 1. cbn [mbind option_bind]. unfold MailFacts.canonical in Hi. rewrite Hi. cbn [ok_or].
    unfold bind at 1, ai_read, on_mailstore, on_store, on_world, on_db. rewrite E2. reflexivity. }
  split; [exists d1; eexists; split; [by rewrite D1 in Hupd|exact Hd2]|].
  match goal with |- context [undo_action account _ ?t] => set (s2 := t) end.
  assert (ai_log s2 = update_where (fun r => String.eqb (ac_id r) (ac_id row)) set_undone (ai_log s)) as L2
    by (cbn; by rewrite L1).
  destruct (Hfind s2) with (r := set_undone row) as (s3 & E3 & D3 & _).
  - rewrite L2. destruct Hlog as [Hnd Hcan]. split.
    + by rewrite update_where_map.
    + intros r (x & Hx & ->)%elem_of_update_where. destruct (String.eqb _ _); by apply (Hcan x).
  - rewrite L2, filter_marked_length. done.
  - rewrite L2. apply elem_of_update_where. exists row. by rewrite String.eqb_refl.
  - done.
  - exists s3. split; [|done]. unfold Ai.undo_action. unfold bind at 1.
    change (ac_id (set_undone row)) with (ac_id row) in E3. rewrite E3. reflexivity.
Qed.

(** *** What the skills leave behind *)

Lemma record_runs account i skill description inverse (s : AiState N) a s' :
  record now_at uuid_at account i skill description inverse s = (Ok a, s') ->
  exists row, ai_log s' = (ai_log s ++ [row])%list /\ ac_id row = a /\ ai_db s' = ai_db s
    /\ (exists n, a = uuid_at n) /\ (forall r, r ∈ ai_log s -> ac_id r <> a)
    /\ ac_account row = account /\ ac_email row = Some i /\ ac_inverse row = inverse /\ ac_undone row = 0%Z.
Proof.
  unfold record, on_log, record_ai_action, bind, check, modify, ret. cbn. destruct (_ && _); cbn; [|done].
  destruct (existsb _ (ai_log s)) eqn:E; cbn; [done|]. intros [= <- <-]. cbn. eexists. split; [done|].
  split; [done|]. split; [done|]. split; [by eexists|]. split; [|done].
  intros r Hr He. pose proof (existsb_false_elem _ _ _ E Hr) as Hf. cbn in Hf. by rewrite He, String.eqb_refl in Hf.
Qed.

Lemma record_log_ok l row a :
  log_ok l -> ac_id row = a -> canonical a -> (forall r, r ∈ l -> ac_id r <> a) -> log_ok (l ++ [row])%list.
Proof.
  intros [Hnd Hcan] Ha Hc Hnew. split.
  - rewrite map_app. apply NoDup_app. split; [done|]. split; [|cbn; apply NoDup_singleton].
    intros x (r & Hr & ->)%elem_of_map Hx. cbn in Hx. apply list_elem_of_singleton in Hx. apply (Hnew r Hr). congruence.
  - intros r [Hr| ->%list_elem_of_singleton]%elem_of_app; [by apply Hcan|]. by rewrite Ha.
Qed.

(** The context is that of a message of the account, as the database has it. *)
Definition loaded (account : string) (ctx : EmailContext) (d : Db) : Prop :=
  exists e, e ∈ emails d /\ e_account e = account /\ e_id e = ec_email_id ctx
            /\ ec_row ctx = email_info d e /\ canonical (e_id e).

Lemma ai_update_ok account i kws mbs (s : AiState N) u s' :
  ai_read (update_email account i kws mbs) s = (Ok u, s') ->
  ai_log s' = ai_log s /\ accepts account i mbs (ai_db s)
  /\ exists d1 l, updated_db account i kws mbs (ai_db s) d1 /\ ai_db s' = on_published l d1.
Proof.
  unfold ai_read, on_mailstore, on_store, on_world, on_db. pose proof (update_email_run account i kws mbs (ai_db s)) as Hrun.
  destruct (update_email _ _ _ _ _) as [[[]|e] d] eqn:E; cbn; [|done]. intros [= _ <-]. cbn.
  destruct Hrun as (Hacc & d1 & Hupd & ->). split; [done|]. split; [done|]. by exists d1; eexists.
Qed.

Lemma ai_read_pure {A} (m : SM A) (s : AiState N) r s' :
  (forall d, snd (m d) = d) -> ai_read m s = (r, s') -> ai_db s' = ai_db s /\ ai_log s' = ai_log s.
Proof.
  intros Hm. unfold ai_read, on_mailstore, on_store, on_world, on_db. specialize (Hm (ai_db s)).
  destruct (m _) as [x d]. cbn in Hm. subst d. by intros [= _ <-].
Qed.

(** A skill that acted: one update of the message and one row of the log, with the
    patch that says what was there before. *)
Definition acted (account i : string) (kws mbs : option (list string)) (patch : Value) (s s' : AiState N) : Prop :=
  accepts account i mbs (ai_db s)
  /\ (exists d1 l, updated_db account i kws mbs (ai_db s) d1 /\ ai_db s' = on_published l d1)
  /\ exists row, ai_log s' = (ai_log s ++ [row])%list /\ (exists n, ac_id row = uuid_at n)
     /\ (forall r, r ∈ ai_log s -> ac_id r <> ac_id row)
     /\ ac_account row = account /\ ac_email row = Some i /\ ac_inverse row = Some (value_to_text patch)
     /\ ac_undone row = 0%Z.

Lemma update_and_record account i kws mbs skill description patch (s : AiState N) {A} (x : A) r s' :
  (ai_read (update_email account i kws mbs) ;;;
   record now_at uuid_at account i skill description (Some (value_to_text patch)) ;;; ret x) s = (Ok r, s') ->
  r = x /\ acted account i kws mbs patch s s'.
Proof.
  unfold bind at 1. destruct (ai_read _ s) as [[u|e] s1] eqn:E1; [|done].
  apply ai_update_ok in E1 as (L1 & Hacc & Hupd). unfold bind at 1.
  destruct (record _ _ _ _ _ _ _ s1) as [[a|e] s2] eqn:E2; [|done]. intros [= <- <-].
  apply record_runs in E2 as (row & L2 & Hid & D2 & Hn & Hnew & ? & ? & ? & ?). split; [done|].
  split; [done|]. rewrite D2. split; [done|]. exists row. rewrite L2, L1 in *. rewrite Hid. naive_solver.
Qed.

Lemma screen_acted account ctx s s' :
  screen account ctx s = (Ok true, s') ->
  exists screener inbox, inbox ∈ ei_mailbox_ids (ec_row ctx)
    /\ acted account (ec_email_id ctx) None (Some [screener])
         (json_object [("mailboxIds", strings (ei_mailbox_ids (ec_row ctx)))]) s s'.
Proof.
  assert (forall (s0 : AiState N) A (x : A), ret (E := AiError) x s0 = (Ok x, s0)) as Hret by done.
  unfold Ai.screen. destruct (e_from _) as [from|]; [|done]. unfold bind at 1.
  destruct (ai_read (sender_message_count account from) s) as [[n|e] s1] eqn:E1; [|done].
  apply ai_read_pure in E1 as [D1 L1]; [|done]. destruct (Nat.ltb 1 n); [done|]. unfold bind at 1.
  destruct (ai_read (mailbox_id_by_role account "inbox") s1) as [[[inbox|]|e] s2] eqn:E2; [|done|done].
  apply ai_read_pure in E2 as [D2 L2]; [|done].
  destruct (existsb (String.eqb inbox) _) eqn:Hin; cbn [negb]; [|done]. unfold bind at 1.
  destruct (ai_read (mailbox_id_by_role account "screener") s2) as [[[sc|]|e] s3] eqn:E3; [|done|done].
  apply ai_read_pure in E3 as [D3 L3]; [|done]. unfold bind at 1, lift at 1.
  destruct (parse_uuid sc) as [screener|]; cbn [ok_or]; [|done]. intros Hrun.
  apply update_and_record in Hrun as [_ Hacted].
  apply existsb_elem in Hin as (x & Hx & ->%String.eqb_eq). exists screener, x. split; [done|].
  unfold acted in *. by rewrite D3, D2, D1, L3, L2, L1 in Hacted.
Qed.

Lemma categorize_acted account ctx n s c s' :
  categorize account ctx n s = (Ok (Some c), s') ->
  acted account (ec_email_id ctx) (Some (ei_keywords (ec_row ctx) ++ ["ai:" +:+ c])%list) None
    (json_object [("keywords", strings (ei_keywords (ec_row ctx)))]) s s'.
Proof.
  unfold Ai.categorize. unfold bind at 1. unfold on_provider at 1. destruct (ask _ _) as [[answer|e] net]; [|done].
  destruct (as_str _) as [category|]; [|done]. destruct (negb _); [done|]. intros Hrun.
  apply update_and_record in Hrun as [[= ->] Hacted]. exact Hacted.
Qed.

Lemma mailboxes_patch_read ids :
  ids <> [] -> (forall m, m ∈ ids -> canonical m) ->
  patch_mailboxes parse_uuid (json_object [("mailboxIds", strings ids)]) = Some ids
  /\ patch_keywords (json_object [("mailboxIds", strings ids)]) = None.
Proof.
  intros Hne Hcan. split; [|done].
  change (patch_mailboxes _ _) with
    (match flat_map (fun m => match s ← as_str m; parse_uuid s with Some i => [i] | None => [] end) (map Str ids) with
     | [] => None | l => Some l end).
  assert (forall l, (forall m, m ∈ l -> canonical m) ->
    flat_map (fun m => match s ← as_str m; parse_uuid s with Some i => [i] | None => [] end) (map Str l) = l) as Hmap.
  { induction l as [|m l IH]; intros Hl; [done|]. cbn [map flat_map as_str mbind option_bind].
    assert (canonical m) as Hm by (apply Hl; left). unfold MailFacts.canonical in Hm. rewrite Hm.
    rewrite IH; [done|]. intros x Hx. apply Hl. by right. }
  rewrite Hmap by done. by destruct ids.
Qed.

Lemma keywords_patch_read l :
  patch_keywords (json_object [("keywords", strings l)]) = Some l
  /\ patch_mailboxes parse_uuid (json_object [("keywords", strings l)]) = None.
Proof.
  split; [|done].
  change (patch_keywords _) with (Some (flat_map (fun k => match as_str k with Some k => [k] | None => [] end) (map Str l))).
  f_equal. induction l as [|k l IH]; [done|]. cbn. by rewrite IH.
Qed.

(** The rows of one message, before and after. *)
Lemma info_mailboxes d e m : m ∈ ei_mailbox_ids (email_info d e) <-> (e_id e, m) ∈ email_mailbox d.
Proof.
  cbn. rewrite elem_of_map. setoid_rewrite elem_of_filter_bool. setoid_rewrite String.eqb_eq. split.
  - intros ([i x] & [Hin Hi] & ->). cbn in *. by subst i.
  - intros Hin. by exists (e_id e, m).
Qed.
Lemma info_mailboxes_NoDup d e : NoDup (email_mailbox d) -> NoDup (ei_mailbox_ids (email_info d e)).
Proof.
  cbn. induction (email_mailbox d) as [|[i m] l IH]; cbn; [intros _; constructor|]. intros [Hp Hl]%NoDup_cons.
  destruct (String.eqb_spec i (e_id e)) as [->|]; [|by apply IH]. cbn. apply NoDup_cons. split; [|by apply IH].
  intros ([j x] & [Hin Hj]%elem_of_filter_bool & Hx)%elem_of_map. cbn in *. apply String.eqb_eq in Hj. congruence.
Qed.
Lemma info_keywords d e k : k ∈ ei_keywords (email_info d e) <-> (e_id e, k) ∈ email_keyword d.
Proof.
  cbn. rewrite elem_of_map. setoid_rewrite elem_of_filter_bool. setoid_rewrite String.eqb_eq. split.
  - intros ([i x] & [Hin Hi] & ->). cbn in *. by subst i.
  - intros Hin. by exists (e_id e, k).
Qed.

(** Room for two more steps of the account's counters. *)
Definition room (account : string) (d : Db) : Prop :=
  (state_of account Email d + 1 < i64_max /\ state_of account Mailbox d + 1 < i64_max)%Z.

Definition same_rows (d d' : Db) : Prop :=
  (forall j m, (j, m) ∈ email_mailbox d' <-> (j, m) ∈ email_mailbox d)
  /\ (forall j k, (j, k) ∈ email_keyword d' <-> (j, k) ∈ email_keyword d).

Lemma acted_undone account i kws mbs patch (s s1 : AiState N) :
  acted account i kws mbs patch s s1 ->
  (forall v, read_text (value_to_text v) = Ok v) -> (forall n, canonical (uuid_at n)) -> canonical i ->
  log_ok (ai_log s) -> (length (List.filter (of_account account) (ai_log s)) < Z.to_nat 10000)%nat ->
  accepts account i (patch_mailboxes parse_uuid patch) (ai_db s1) ->
  exists row s2, ai_log s1 = (ai_log s ++ [row])%list /\ undo_action account (ac_id row) s1 = (Ok tt, s2)
    /\ (exists d1 l, updated_db account i (patch_keywords patch) (patch_mailboxes parse_uuid patch) (ai_db s1) d1
                     /\ ai_db s2 = on_published l d1)
    /\ exists s3, undo_action account (ac_id row) s2 = (Ok tt, s3) /\ ai_db s3 = ai_db s2.
Proof.
  intros (_ & _ & row & L1 & (n & Hn) & Hnew & Ha & Hm & Hv & Hu) Hjson Hids Hi Hlog Hfew Hacc.
  destruct (undo_run account s1 row i (value_to_text patch) patch) as (s2 & Hrun & Hupd & Hagain); try done.
  - rewrite L1. apply (record_log_ok _ _ (ac_id row)); [done|done| |exact Hnew]. rewrite Hn. apply Hids.
  - rewrite L1, List.filter_app, length_app. cbn. destruct (of_account account row); cbn; lia.
  - rewrite L1. apply elem_of_app. right. by apply list_elem_of_singleton.
  - by exists row, s2.
Qed.

(** The account's own message can be updated again after a skill acted on it. *)
Lemma acted_accepts account ctx kws mbs patch (s s1 : AiState N) :
  wf (ai_db s) -> room account (ai_db s) -> loaded account ctx (ai_db s) ->
  acted account (ec_email_id ctx) kws mbs patch s s1 ->
  (forall ms, patch_mailboxes parse_uuid patch = Some ms -> ms <> [] /\ ms = ei_mailbox_ids (ec_row ctx)) ->
  accepts account (ec_email_id ctx) (patch_mailboxes parse_uuid patch) (ai_db s1).
Proof.
  intros Hd [Hr1 Hr2] (e & He & Hae & Hie & Hrow & _) (Hacc & (d1 & l & Hupd & Hd1) & _) Hpatch. rewrite Hd1. split.
  - cbn. rewrite (upd_emails _ _ _ _ _ _ Hupd). eexists. split; [apply elem_of_update_where; by exists e|].
    by destruct (String.eqb _ _).
  - intros ms Hms. destruct (Hpatch ms Hms) as [Hne ->]. split; [done|]. rewrite Hrow. split.
    + apply info_mailboxes_NoDup. exact (wf_placements _ _ Hd).
    + intros m Hm%info_mailboxes. destruct (wf_placed _ _ Hd _ _ Hm) as (e' & mb & He' & Hmb' & Hi' & <- & Hamb).
      exists mb. cbn. destruct (upd_tables _ _ _ _ _ _ Hupd) as (-> & _). split; [done|]. split; [|done].
      rewrite Hamb. by rewrite (one_email parse_uuid _ _ _ _ _ Hd He' Hi' He eq_refl Hae).
  - rewrite (account_exists_frame (ai_db s)); [apply (acc_account _ _ _ _ Hacc)|exact (upd_accounts _ _ _ _ _ _ Hupd)].
  - assert (forall t, state_of account t (on_published l d1) = state_of account t d1) as -> by done.
    change (state_of account Mailbox (on_published l d1)) with (state_of account Mailbox d1).
    rewrite !(upd_states _ _ _ _ _ _ Hupd), !bool_decide_true by eauto. lia.
Qed.

(** A change of the mailboxes and back, and one of the keywords and back. *)
Lemma mailboxes_restored account e sc d d1 l1 d2 l2 :
  updated_db account (e_id e) None (Some [sc]) d d1 ->
  updated_db account (e_id e) None (Some (ei_mailbox_ids (email_info d e))) (on_published l1 d1) d2 ->
  same_rows d (on_published l2 d2).
Proof.
  intros U1 U2. split.
  - intros j m. cbn [email_mailbox on_published]. rewrite (upd_mailboxes _ _ _ _ _ _ U2).
    cbn [email_mailbox on_published]. rewrite (upd_mailboxes _ _ _ _ _ _ U1).
    rewrite elem_of_app, drop_rows_elem, elem_of_app, drop_rows_elem, !elem_of_map.
    setoid_rewrite info_mailboxes. setoid_rewrite list_elem_of_singleton.
    destruct (decide (j = e_id e)) as [->|Hj]; naive_solver.
  - intros j k. rewrite (upd_keywords _ _ _ _ _ _ U2). cbn. by rewrite (upd_keywords _ _ _ _ _ _ U1).
Qed.

Lemma keywords_restored account e ks d d1 l1 d2 l2 :
  wf d -> updated_db account (e_id e) (Some ks) None d d1 ->
  updated_db account (e_id e) (Some (ei_keywords (email_info d e))) None (on_published l1 d1) d2 ->
  same_rows d (on_published l2 d2).
Proof.
  intros Hd U1 U2. split.
  - intros j m. cbn. rewrite (upd_mailboxes _ _ _ _ _ _ U2). cbn. by rewrite (upd_mailboxes _ _ _ _ _ _ U1).
  - intros j k. rewrite (upd_keywords _ _ _ _ _ _ U2). cbn. rewrite (upd_keywords _ _ _ _ _ _ U1), !elem_of_map.
    setoid_rewrite info_keywords.
    assert (forall x, (e_id e, x) ∈ email_keyword d -> to_lowercase x = x) as Hfix.
    { intros x Hx%(wf_keywords _ _ Hd). by apply String.eqb_eq. }
    destruct (decide (j = e_id e)) as [->|Hj]; [|naive_solver]. split; [|naive_solver].
    intros [[? _]|[_ (x & Hx & ->)]]; [done|]. by rewrite (Hfix x Hx).
Qed.

(** C20: Undo is the inverse of what was done, as long as nothing came in between: when
    the screener or the categorizer acted on a message it had loaded as the database has
    it, and the account has fewer than ten thousand actions in its log, then undoing the
    action it logged succeeds and leaves every message in the mailboxes and with the
    keywords it had; undoing it again changes nothing.  (A keyword set meanwhile, by the
    user or by another skill, is lost: [categorize_forgets_flag],
    [undo_takes_later_flags].) *)
Theorem undo_restores account ctx n (s s1 : AiState N) :
  wf (ai_db s) -> (forall m, m ∈ mailboxes (ai_db s) -> canonical (m_id m)) -> room account (ai_db s) ->
  (forall v, read_text (value_to_text v) = Ok v) -> (forall n, canonical (uuid_at n)) ->
  log_ok (ai_log s) -> (length (List.filter (of_account account) (ai_log s)) < Z.to_nat 10000)%nat ->
  loaded account ctx (ai_db s) ->
  (screen account ctx s = (Ok true, s1) \/ exists c, categorize account ctx n s = (Ok (Some c), s1)) ->
  exists row s2, ai_log s1 = (ai_log s ++ [row])%list
    /\ undo_action account (ac_id row) s1 = (Ok tt, s2) /\ same_rows (ai_db s) (ai_db s2)
    /\ exists s3, undo_action account (ac_id row) s2 = (Ok tt, s3) /\ ai_db s3 = ai_db s2.
Proof.
  intros Hd Hmb Hroom Hjson Hids Hlog Hfew Hload Hact.
  pose proof Hload as (e & He & Hae & Hie & Hrow & Hcan). rewrite Hie in Hcan.
  assert (exists kws mbs patch, acted account (ec_email_id ctx) kws mbs patch s s1
    /\ (forall ms, patch_mailboxes parse_uuid patch = Some ms -> ms <> [] /\ ms = ei_mailbox_ids (ec_row ctx))
    /\ forall d1 l1 d2 l2, updated_db account (e_id e) kws mbs (ai_db s) d1 ->
         updated_db account (e_id e) (patch_keywords patch) (patch_mailboxes parse_uuid patch) (on_published l1 d1) d2 ->
         same_rows (ai_db s) (on_published l2 d2)) as (kws & mbs & patch & Hacted & Hpatch & Hback).
  { destruct Hact as [Hact|(c & Hact)].
    - apply screen_acted in Hact as (sc & inbox & Hin & Hact). eexists _, _, _. split; [exact Hact|].
      destruct (mailboxes_patch_read (ei_mailbox_ids (ec_row ctx))) as [-> ->].
      { intros E0. rewrite E0 in Hin. by apply elem_of_nil in Hin. }
      { intros m Hm. rewrite Hrow in Hm. apply info_mailboxes in Hm.
        destruct (wf_placed _ _ Hd _ _ Hm) as (_ & mb & _ & Hmb' & _ & <- & _). by apply Hmb. }
      split; [intros ms [= <-]; split; [intros E0; rewrite E0 in Hin; by apply elem_of_nil in Hin|done]|].
      rewrite Hrow. intros *. apply mailboxes_restored.
    - apply categorize_acted in Hact. eexists _, _, _. split; [exact Hact|].
      destruct (keywords_patch_read (ei_keywords (ec_row ctx))) as [-> ->]. split; [done|].
      rewrite Hrow. intros *. by apply keywords_restored. }
  destruct (acted_undone _ _ _ _ _ _ _ Hacted Hjson Hids Hcan Hlog Hfew) as (row & s2 & L1 & Hrun & Hupd2 & Hagain).
  { by eapply acted_accepts. }
  exists row, s2. split; [done|]. split; [done|]. split; [|done].
  destruct Hacted as (_ & (d1 & l1 & U1 & D1) & _), Hupd2 as (d2 & l2 & U2 & D2).
  rewrite D1, <- Hie in U2. rewrite <- Hie in U1. rewrite D2. by eapply Hback.
Qed.
End AiFacts.
