(* ===== verification/Mcp.v ===== *)
(** [crates/owney-mcp]: the Model Context Protocol server, one JSON-RPC message at a
    time, and the mailbox service behind its tools.

    A tool is an action on the state of the AI layer ([Ai.AiState]), whose log it
    shares.  The MIME parser, the submitter and serde's text of a value are parameters. *)
From S2P Require Import Prelude Text Bytes Ident Json Store Mail MailQueries Spam Queue Delivery Attributes JmapMail Ics Ai.

Open Scope string_scope.

Definition PROTOCOL_VERSION : string := "2025-06-18".

(** ** The tool catalog ([tools]) *)

Definition tool (name description : string) (schema : Value) : Value :=
  json_object [("name", Str name); ("description", Str description); ("inputSchema", schema)].
Definition annotated_tool (name description : string) (schema : Value) (destructive idempotent : bool) : Value :=
  json_object [("name", Str name); ("description", Str description); ("inputSchema", schema);
    ("annotations", json_object [("destructiveHint", Bool destructive); ("idempotentHint", Bool idempotent)])].

Definition typed (t : string) : Value := json_object [("type", Str t)].
Definition args_schema (properties : list (string * Value)) (required : list string) : Value :=
  json_object (("type", Str "object") :: ("properties", json_object properties)
               :: match required with [] => [] | _ => [("required", strings required)] end).
Definition limit_arg : Value := json_object [("type", Str "integer"); ("default", Number 20)].
Definition letter_args : Value :=
  args_schema [("to", json_object [("type", Str "array"); ("items", typed "string")]);
               ("subject", typed "string"); ("body", typed "string")] ["to"; "subject"; "body"].

Definition tools : list Value :=
  [tool "list_mailboxes" "List the account's mailboxes with unread counts." (args_schema [] []);
   tool "search_email"
     "List recent emails, optionally within one mailbox role (inbox, screener, sent, archive, junk)."
     (args_schema [("mailbox", json_object [("type", Str "string");
        ("description", Str "role: inbox|screener|sent|archive|junk|trash")]); ("limit", limit_arg)] []);
   tool "get_email" "Fetch one email's full body, keywords, and server attributes."
     (args_schema [("id", typed "string")] ["id"]);
   tool "get_thread" "Fetch all emails in a thread." (args_schema [("threadId", typed "string")] ["threadId"]);
   annotated_tool "move_email" "Move an email to a mailbox role (archive, junk, trash, inbox, screener). Undoable."
     (args_schema [("id", typed "string"); ("mailbox", typed "string")] ["id"; "mailbox"]) true false;
   annotated_tool "mark_read" "Mark an email read or unread."
     (args_schema [("id", typed "string"); ("read", json_object [("type", Str "boolean"); ("default", Bool true)])] ["id"])
     true true;
   tool "summarize_thread" "Summarize a thread from its stored server attributes."
     (args_schema [("threadId", typed "string")] ["threadId"]);
   annotated_tool "create_draft" "Create a draft email in the Drafts mailbox (does not send)." letter_args false false;
   annotated_tool "send_email" "Send an email now (requires a send-scoped token)." letter_args true false;
   tool "get_ai_activity" "List recent AI actions taken on this mailbox, each with an undoable flag."
     (args_schema [("limit", limit_arg)] []);
   tool "nl_search"
     "Search using natural language. Examples: 'unread from alice', 'important last week', 'drafts with attachment'."
     (args_schema [("query", json_object [("type", Str "string"); ("description", Str "Natural language search query")]);
        ("limit", json_object [("type", Str "integer"); ("default", Number 20); ("description", Str "Max results")])]
        ["query"]);
   annotated_tool "undo_action" "Undo an AI or agent action by id (from get_ai_activity)."
     (args_schema [("actionId", typed "string")] ["actionId"]) true false].

Definition tool_name (t : Value) : string := default "" (n ← field "name" t; as_str n).

(** ** The service ([service.rs]) *)

Inductive ServiceError :=
  | Invalid (msg : string)
  | ForbiddenBy (msg : string)
  | InStorage (e : StorageError).

Section Mcp.
Context `{BlobStore} {N : Type}.
Variable parse_uuid : string -> option string.
Variable parse_message : list Z -> option ParsedMessage.
Variable parse_mail : list Z -> option AiMessage.
Variable value_to_text : Value -> string.
Variable read_text : string -> result string Value.
Variables (now_at : nat -> Z) (fresh_at : nat -> Fresh) (uuid_at : nat -> string).
Variable package_version : string.

Abbreviation VM A := (action (AiState N) ServiceError A).

Record McpCtx := mk_mcp_ctx {
  mc_account : string;
  mc_email : string;
  mc_submitter : option (string -> string -> list string -> list Z -> action World SubmitError (list string));
  mc_may_send : bool
}.

(** The error of a storage call becomes [ServiceError::Storage]. *)
Definition of_storage (e : AiError) : ServiceError :=
  match e with AStorage e => InStorage e | other => Invalid (ai_error_text other) end.
Definition serving {A} (h : AiError -> ServiceError) (m : action (AiState N) AiError A) : VM A :=
  fun s => let '(r, s') := m s in (map_err h r, s').
Definition svc {A} (m : SM A) : VM A := serving of_storage (ai_read m).
Definition draw_at {A} (f : nat -> A) : VM A :=
  fun s => let ms := ai_mail s in
           (Ok (f (ms_ticks ms)),
            mk_ai_state (mk_mail_state (ms_world ms) (ms_chat ms) (ms_attributes ms) (S (ms_ticks ms)))
              (ai_log s) (ai_cursors s) (ai_net s)).

Definition parse_email_id (i : string) : result ServiceError string :=
  ok_or (parse_uuid i) (Invalid ("bad email id " +:+ i)).
Definition known_ids (ids : list string) : list string :=
  flat_map (fun i => match parse_uuid i with Some i => [i] | None => [] end) ids.

Section Tools.
Variable ctx : McpCtx.

(** [list_mailboxes]. *)
Definition list_mailboxes : VM Value :=
  mailboxes <- svc (mailbox_list (mc_account ctx)) ;;
  ret (Array (map (fun m => json_object
    [("id", Str (mi_id m)); ("name", Str (mi_name m)); ("role", nullable (mi_role m));
     ("total", Number (Z.of_nat (mi_total_emails m))); ("unread", Number (Z.of_nat (mi_unread_emails m)))]) mailboxes)).

(** [search]. *)
Definition search_result (r : EmailInfo) : Value :=
  let e := ei_row r in
  json_object [("id", Str (e_id e)); ("threadId", Str (e_thread e)); ("from", nullable (e_from e));
    ("subject", nullable (e_subject e)); ("keywords", strings (ei_keywords r));
    ("receivedAt", Str (iso8601_utc (e_received_at e)))].
Definition search (mailbox_role : option string) (limit : Z) : VM Value :=
  in_mailbox <- match mailbox_role with
                | Some role => svc (mailbox_id_by_role (mc_account ctx) role)
                | None => ret None
                end ;;
  found <- svc (query_emails (mc_account ctx) in_mailbox 0 (Z.min limit 100)) ;;
  let '(ids, total, _) := found in
  rows <- svc (emails_by_ids (mc_account ctx) (known_ids ids)) ;;
  ret (json_object [("total", Number (Z.of_nat total)); ("results", Array (map search_result rows))]).

(** [get_email]. *)
Definition attribute_entry (a : EmailAttribute) : Value :=
  json_object [("kind", Str (at_kind a));
    ("content", match read_text (at_content a) with Ok v => v | Err _ => Str (at_content a) end);
    ("dismissed", Bool (match at_dismissed_at a with Some _ => true | None => false end))].
Definition get_email (i : string) : VM Value :=
  email_id <- lift (parse_email_id i) ;;
  rows <- svc (emails_by_ids (mc_account ctx) [email_id]) ;;
  row <- lift (ok_or (head rows) (Invalid ("no email " +:+ i))) ;;
  match from_str (e_blob (ei_row row)) with
  | Parsed blob =>
      raw <- serving of_storage (on_mailstore (on_world (fun _ => get_blob blob))) ;;
      attributes <- serving of_storage (on_mailstore (on_attributes (fun _ => list_email_attributes (mc_account ctx) email_id))) ;;
      let e := ei_row row in
      ret (json_object
        [("id", Str (e_id e)); ("threadId", Str (e_thread e)); ("from", nullable (e_from e));
         ("subject", nullable (e_subject e)); ("keywords", strings (ei_keywords row));
         ("mailboxIds", strings (ei_mailbox_ids row)); ("receivedAt", Str (iso8601_utc (e_received_at e)));
         ("body", Str (default "" (m ← parse_mail raw; am_body_text m)));
         ("serverAttributes", Array (map attribute_entry attributes))])
  | _ => fail (Invalid "bad blob")
  end.

(** [get_thread]. *)
Definition get_thread (thread_id : string) : VM Value :=
  tid <- lift (ok_or (parse_uuid thread_id) (Invalid ("bad thread id " +:+ thread_id))) ;;
  threads <- svc (thread_emails (mc_account ctx) [tid]) ;;
  let email_ids := match threads with (_, ids) :: _ => ids | [] => [] end in
  rows <- svc (emails_by_ids (mc_account ctx) (known_ids email_ids)) ;;
  ret (json_object [("threadId", Str thread_id);
    ("emails", Array (map (fun r => json_object
       [("id", Str (e_id (ei_row r))); ("from", nullable (e_from (ei_row r)));
        ("subject", nullable (e_subject (ei_row r))); ("receivedAt", Str (iso8601_utc (e_received_at (ei_row r))))]) rows))]).

(** [move_email]. *)
Definition move_email (i role : string) : VM Value :=
  email_id <- lift (parse_email_id i) ;;
  found <- svc (mailbox_id_by_role (mc_account ctx) role) ;;
  mailbox <- lift (ok_or found (Invalid ("no " +:+ role +:+ " mailbox"))) ;;
  mailbox <- lift (ok_or (parse_uuid mailbox) (Invalid "bad mailbox")) ;;
  rows <- svc (emails_by_ids (mc_account ctx) [email_id]) ;;
  let prior := match rows with r :: _ => ei_mailbox_ids r | [] => [] end in
  svc (update_email (mc_account ctx) email_id None (Some [mailbox])) ;;;
  serving of_storage (record now_at uuid_at (mc_account ctx) email_id "mcp:move" ("Moved to " +:+ role)
    (Some (mailboxes_patch value_to_text prior))) ;;;
  ret (json_object [("moved", Str i); ("to", Str role)]).

(** [set_keyword]. *)
Definition set_keyword (i keyword : string) (present : bool) : VM Value :=
  email_id <- lift (parse_email_id i) ;;
  rows <- svc (emails_by_ids (mc_account ctx) [email_id]) ;;
  row <- lift (ok_or (head rows) (Invalid ("no email " +:+ i))) ;;
  let keyword := to_lowercase keyword in
  let keywords := if present
                  then if existsb (String.eqb keyword) (ei_keywords row) then ei_keywords row
                       else (ei_keywords row ++ [keyword])%list
                  else List.filter (fun k => negb (String.eqb k keyword)) (ei_keywords row) in
  svc (update_email (mc_account ctx) email_id (Some keywords) None) ;;;
  ret (json_object [("id", Str i); ("keyword", Str keyword); ("present", Bool present)]).

(** [summarize_thread]. *)
Definition summarize_thread (thread_id : string) : VM Value :=
  thread <- get_thread thread_id ;;
  ret (json_object [("threadId", Str thread_id);
    ("note", Str "per-message AI summaries appear in get_email.serverAttributes"); ("emails", index "emails" thread)]).

(** [compose]. *)
Definition compose_letter (from : string) (to : list string) (subject body : string) (now : Z) (message : string) : string :=
  let domain := match rsplit_once "@" from with Some (_, d) => d | None => "local" end in
  "From: <" +:+ from +:+ ">" +:+ crlf +:+ "To: " +:+ join ", " to +:+ crlf +:+ "Subject: " +:+ subject +:+ crlf
  +:+ "Date: " +:+ default "" (rfc2822_utc now) +:+ crlf
  +:+ "Message-ID: <" +:+ message +:+ "@" +:+ domain +:+ ">" +:+ crlf +:+ "MIME-Version: 1.0" +:+ crlf
  +:+ "Content-Type: text/plain; charset=utf-8" +:+ crlf +:+ crlf +:+ replace_with lf crlf body.

(** [create_draft]. *)
Definition create_draft (to : list string) (subject body : string) : VM Value :=
  found <- svc (mailbox_id_by_role (mc_account ctx) "drafts") ;;
  drafts <- lift (ok_or found (Invalid "no drafts mailbox")) ;;
  drafts <- lift (ok_or (parse_uuid drafts) (Invalid "bad mailbox")) ;;
  raw <- draw_at (fun n => bytes_of (compose_letter (mc_email ctx) to subject body (now_at n) (uuid_at n))) ;;
  ingested <- serving of_storage (on_mailstore (on_world (fun n =>
    ingest_email_into parse_uuid parse_message (fresh_at n) (now_at n) (mc_account ctx) raw (Id drafts) None false))) ;;
  svc (update_email (mc_account ctx) (in_id ingested) (Some ["$draft"]) None) ;;;
  ret (json_object [("draftId", Str (in_id ingested))]).

(** [send_email]. *)
Definition refused (e : SubmitError) : ServiceError :=
  match e with Refused msg => ForbiddenBy msg | Transport msg => Invalid msg end.
Definition send_email (to : list string) (subject body : string) : VM Value :=
  if negb (mc_may_send ctx) then fail (ForbiddenBy "this token is not permitted to send mail")
  else
  submit <- lift (ok_or (mc_submitter ctx) (Invalid "sending is not enabled")) ;;
  match to with
  | [] => fail (Invalid "at least one recipient required")
  | _ =>
      raw <- draw_at (fun n => bytes_of (compose_letter (mc_email ctx) to subject body (now_at n) (uuid_at n))) ;;
      queued <- (fun s => let ms := ai_mail s in
                          let '(r, w) := submit (mc_account ctx) (mc_email ctx) to raw (ms_world ms) in
                          (map_err refused r,
                           mk_ai_state (mk_mail_state w (ms_chat ms) (ms_attributes ms) (S (ms_ticks ms)))
                             (ai_log s) (ai_cursors s) (ai_net s))) ;;
      ret (json_object [("queued", Number (Z.of_nat (length queued)))])
  end.

(** [get_ai_activity]. *)
Definition activity_entry (a : AiAction) : Value :=
  json_object [("id", Str (aa_id a)); ("skill", Str (aa_skill a)); ("description", Str (aa_description a));
    ("undone", Bool (aa_undone a)); ("undoable", Bool (match aa_inverse_patch a with Some _ => true | None => false end));
    ("createdAt", Str (iso8601_utc (aa_created_at a)))].
Definition get_ai_activity (limit : Z) : VM Value :=
  actions <- serving of_storage (on_log (fun _ => ai_actions parse_uuid (mc_account ctx) (Z.min limit 100))) ;;
  ret (Array (map activity_entry actions)).

(** [undo_action]. *)
Definition undo (action_id : string) : VM Value :=
  i <- lift (ok_or (parse_uuid action_id) (Invalid ("bad action id " +:+ action_id))) ;;
  serving (fun e => Invalid (ai_error_text e)) (undo_action parse_uuid read_text (mc_account ctx) i) ;;;
  ret (json_object [("undone", Str action_id)]).

(** [nl_search]: the query is not used yet. *)
Definition nl_search (query : string) (limit : Z) : VM Value := search (Some "inbox") limit.

(** ** Dispatch ([lib.rs]) *)

Definition str_arg (args : Value) (k : string) : option string := v ← field k args; as_str v.
Definition list_arg (args : Value) (k : string) : list string :=
  match l ← field k args; as_array l with
  | Some l => flat_map (fun v => match as_str v with Some s => [s] | None => [] end) l
  | None => []
  end.
Definition usize_arg (args : Value) (k : string) (otherwise : Z) : Z :=
  match field k args with Some (Number n) => if (0 <=? n)%Z then n else otherwise | _ => otherwise end.
Definition required (args : Value) (k : string) : result ServiceError string :=
  ok_or (str_arg args k) (Invalid ("missing required argument " +:+ k)).

Definition dispatch (name : string) (args : Value) : VM Value :=
  let need k (next : string -> VM Value) : VM Value := a <- lift (required args k) ;; next a in
  if String.eqb name "list_mailboxes" then list_mailboxes
  else if String.eqb name "search_email" then search (str_arg args "mailbox") (usize_arg args "limit" 20)
  else if String.eqb name "get_email" then need "id" get_email
  else if String.eqb name "get_thread" then need "threadId" get_thread
  else if String.eqb name "move_email" then need "id" (fun i => need "mailbox" (move_email i))
  else if String.eqb name "mark_read" then
    let read := default true (v ← field "read" args; as_bool v) in
    need "id" (fun i => set_keyword i "$seen" read)
  else if String.eqb name "summarize_thread" then need "threadId" summarize_thread
  else if String.eqb name "create_draft" then
    need "subject" (fun subject => need "body" (create_draft (list_arg args "to") subject))
  else if String.eqb name "send_email" then
    need "subject" (fun subject => need "body" (send_email (list_arg args "to") subject))
  else if String.eqb name "get_ai_activity" then get_ai_activity (usize_arg args "limit" 20)
  else if String.eqb name "nl_search" then need "query" (fun q => nl_search q (usize_arg args "limit" 20))
  else if String.eqb name "undo_action" then need "actionId" undo
  else fail (Invalid ("unknown tool " +:+ name)).

Definition rpc_error (code : Z) (message : string) : Value :=
  json_object [("code", Number code); ("message", Str message)].

(** [call_tool]: the refusals of a tool are results marked [isError]. *)
Definition tool_text (text : string) (is_error : bool) : Value :=
  json_object [("content", Array [json_object [("type", Str "text"); ("text", Str text)]]); ("isError", Bool is_error)].
Definition call_tool (params : Value) (s : AiState N) : result Value Value * AiState N :=
  let name := default "" (v ← field "name" params; as_str v) in
  let args := default (json_object []) (field "arguments" params) in
  let '(outcome, s) := dispatch name args s in
  (match outcome with
   | Ok value => Ok (tool_text (value_to_text value) false)
   | Err (Invalid msg) | Err (ForbiddenBy msg) => Ok (tool_text msg true)
   | Err (InStorage e) => Err (rpc_error (-32603) (storage_error_text e))
   end, s).

(** [handle]: no answer to a notification. *)
Definition handle (request : Value) (s : AiState N) : option Value * AiState N :=
  match field "id" request with
  | None => (None, s)
  | Some i =>
      let method := default "" (v ← field "method" request; as_str v) in
      let params := default (json_object []) (field "params" request) in
      let '(result, s) :=
        if String.eqb method "initialize" then
          (Ok (json_object [("protocolVersion", Str PROTOCOL_VERSION);
             ("capabilities", json_object [("tools", json_object [("listChanged", Bool false)])]);
             ("serverInfo", json_object [("name", Str "mailserver"); ("version", Str package_version)])]), s)
        else if String.eqb method "tools/list" then (Ok (json_object [("tools", Array tools)]), s)
        else if String.eqb method "tools/call" then call_tool params s
        else if String.eqb method "ping" then (Ok (json_object []), s)
        else (Err (rpc_error (-32601) ("method not found: " +:+ method)), s) in
      (Some match result with
            | Ok value => json_object [("jsonrpc", Str "2.0"); ("id", i); ("result", value)]
            | Err error => json_object [("jsonrpc", Str "2.0"); ("id", i); ("error", error)]
            end, s)
  end.
End Tools.
End Mcp.
