(* ===== verification/JmapCalendar.v ===== *)
(** The calendar and scheduling methods of [crates/owney-jmap-mail/src/]
    ([calendar_methods.rs], [scheduling_methods.rs]), as programs of atomic steps over
    [FedWorld]: sharing with a federated account runs discovery and sends a request. *)
From S2P Require Import Prelude Text Bytes Ident Json JmapEnvelope Store Mail Delivery Calendars Sharing FedStore Scheduling Pgp Interleave FedSig FedSync JmapMail.

Open Scope string_scope.

Definition CALENDAR_CAPABILITY : string := "urn:owney:params:jmap:calendar".
Definition SCHEDULING_CAPABILITY : string := "urn:owney:params:jmap:scheduling".

Definition calendar_capability : Value :=
  json_object [("maxCalendarsPerAccount", Number 100); ("supportsRecurring", Bool true);
    ("supportedSharingTypes", strings ["sharing"; "delegation"]); ("supportsFederatedDiscovery", Bool true)].
Definition scheduling_capability : Value :=
  json_object [("maxPagesPerAccount", Number 20); ("maxDurationsPerPage", Number 8)].

(** ** Arguments *)

(** [GetArgs] of this file; its [ids] are read by nothing. *)
Record CalendarGetArgs := mk_calendar_get { kg_account_id : string; kg_ids : option (list string) }.
Record CalendarShareArgs := mk_share_args {
  ks_account_id : string;
  ks_calendar_id : string;
  ks_invitee_email : string;
  ks_sharing_type : string
}.
Record CalendarInvitationSetArgs := mk_invitation_args {
  ki_account_id : string;
  ki_action : string;
  ki_invitation_id : string
}.

(** [serde_json::to_vec] of an invitation. *)
Class InvitationJson := { invitation_json : FederationInvitation -> list Z }.

(** [rights_json]. *)
Definition rights_json (p : Permissions) : Value :=
  json_object [("mayReadItems", Bool (view_events p)); ("mayWriteItems", Bool (edit_events p));
    ("mayDeleteItems", Bool (delete_events p)); ("mayAdmin", Bool (admin p)); ("mayShare", Bool (change_sharing p))].
Definition owner_rights : Value := rights_json permissions_owner.

Definition calendar_json (c : Calendar) (rights : Value) : Value :=
  json_object [("id", Str (cv_id c)); ("name", Str (cv_name c)); ("description", nullable (cv_description c));
    ("isSubscribed", Bool true); ("myRights", rights)].

(** [storage_err] of [calendar_methods.rs] and of [scheduling_methods.rs]. *)
Definition calendar_err (e : StorageError) : MethodError :=
  match e with NotAuthorized => Forbidden | other => ServerFail (storage_error_text other) end.
Definition scheduling_err (e : StorageError) : MethodError :=
  match e with
  | NotAuthorized => Forbidden
  | BadInput msg => InvalidArguments msg
  | other => ServerFail (storage_error_text other)
  end.

(** ** Scheduling pages as JSON *)

Fixpoint trim_end_char (c : ascii) (s : string) : string :=
  match s with
  | EmptyString => EmptyString
  | String a s' => match trim_end_char c s' with
                   | EmptyString => if Ascii.eqb a c then EmptyString else String a EmptyString
                   | t => String a t
                   end
  end.

Definition booking_json (b : Booking) : Value :=
  json_object [("id", Str (bo_id b)); ("pageId", Str (bo_page b)); ("eventId", Str (bo_event b));
    ("visitorName", Str (bo_visitor_name b)); ("visitorEmail", Str (bo_visitor_email b));
    ("note", nullable (bo_note b)); ("start", Number (bo_start b)); ("end", Number (bo_end b));
    ("startUtc", Str (iso8601_utc (bo_start b))); ("status", Str (bo_status b))].

(** [Value::as_u64] with [u32::try_from]. *)
Definition as_u32_value (v : Value) : option Z :=
  match v with Number z => if ((0 <=? z) && (z <? 2 ^ 32))%Z then Some z else None | _ => None end.

(** The lower-case letters and digits of a text, every other character a hyphen. *)
Fixpoint slug_of (s : string) : string :=
  match s with
  | EmptyString => EmptyString
  | String c s' =>
      if continuation c then slug_of s'
      else String (if ((Ascii.leb "a" c && Ascii.leb c "z") || is_digit c)%bool then c else "-"%char) (slug_of s')
  end.

(** ** The methods *)

Section Methods.
Context `{BlobStore} `{FedCrates} {N : Type} `{!Network N} `{FedJson} `{FedTexts} `{InvitationJson}
  `{Serde Permissions} `{Serde Availability} `{Serde (list Z)}
  `{FromValue CalendarGetArgs} `{FromValue CalendarShareArgs} `{FromValue CalendarInvitationSetArgs}
  `{FromValue Availability} `{FromValue (list Z)}.
Variable parse_uuid : string -> option string.
Variable fresh : string -> string.
Variable known_zone : string -> bool.
Variable unicode_lower : string -> string.
Variable debug : string -> string.
(** [serde_json::to_value] of an availability. *)
Variable availability_value : Availability -> Value.
Variable moment : nat -> Moment.
(** [JmapCtx]: the account of the call, and this server. *)
Variable account : Account.
Variable public_url : string.
Variable config : FederationConfig.

Abbreviation W := (FedWorld N).
Abbreviation FP A := (prog W A).
Abbreviation Method := (Value -> prog W (result MethodError Value)).
Abbreviation cal := (cal moment).
Abbreviation ask := (ask moment).

Definition invalid_arguments : MethodError := InvalidArguments "invalid arguments".
(** [serde_json::from_value], its error dropped. *)
Definition decode {A} `{FromValue A} (args : Value) : result MethodError A :=
  match from_value args with Ok a => Ok a | Err _ => Err invalid_arguments end.
(** [check_account]. *)
Definition check_caller (account_id : string) : result MethodError string :=
  if String.eqb account_id (id account) then Ok (id account) else Err JmapEnvelope.AccountNotFound.
Definition stored {A} (f : Moment -> KM A) : FP (result MethodError A) :=
  ptry (cal f) calendar_err (fun a => Done (Ok a)).

(** *** [calendar_methods.rs] *)

Fixpoint shared_calendars (l : list (string * Permissions)) : FP (result MethodError (list Value)) :=
  match l with
  | [] => Done (Ok [])
  | (calendar_id, perms) :: rest =>
      if negb (view_calendar perms) then shared_calendars rest
      else
        ptry (stored (fun _ => get_calendar_by_id parse_uuid fresh calendar_id)) asis (fun found =>
        ptry (shared_calendars rest) asis (fun others =>
        Done (Ok match found with Some c => calendar_json c (rights_json perms) :: others | None => others end)))
  end.

(** [calendar_get]. *)
Definition calendar_get : Method := fun args =>
  ptry (pure (decode (A := CalendarGetArgs) args)) asis (fun args =>
  ptry (pure (check_caller (kg_account_id args))) asis (fun _ =>
  ptry (stored (fun _ => list_calendars parse_uuid fresh (id account))) asis (fun owned =>
  ptry (stored (fun _ => list_accepted_shared_calendar_ids parse_uuid (id account))) asis (fun shared =>
  ptry (shared_calendars shared) asis (fun others =>
  Done (Ok (json_object [("accountId", Str (kg_account_id args));
    ("list", Array (map (fun c => calendar_json c owner_rights) owned ++ others)%list); ("notFound", Array [])]))))))).

(** Sharing with an account of another server. *)
Definition share_federated (args : CalendarShareArgs) (calendar_id domain : string) : FP (result MethodError Value) :=
  let failed {E} (text : E -> string) := fun e => ServerFail (text e) in
  ptry (stored (fun _ => get_calendar parse_uuid fresh (id account) calendar_id)) asis (fun found =>
  ptry (pure (ok_or found (InvalidArguments "calendar not found"))) asis (fun calendar =>
  ptry (build_client moment public_url config) (failed discovery_text) (fun client =>
  ptry (discover_and_pin moment config client domain) (failed discovery_text) (fun peer =>
  fed_id <-- ask at_uuid ;; cap1 <-- ask at_uuid ;; cap2 <-- ask at_uuid ;;
  ptry (stored (fun m => create_outbound_federation fed_id cap1 cap2 (unix m) calendar_id (ks_invitee_email args)
          (ps_server_url peer) (sharing_of_str (ks_sharing_type args)) (ps_domain peer) (ps_fingerprint peer)))
    asis (fun '(federation_id, capability) =>
  now <-- ask unix ;;
  ptry (post_json moment client (ps_server_url peer +:+ "/.well-known/owney/calendar/invite") (ps_domain peer)
          (invitation_json (mk_fed_invitation federation_id capability (cv_name calendar) (email account)
             (ks_invitee_email args) (ks_sharing_type args) now)))
    (failed client_text) (fun resp =>
  if negb (is_success resp) then Done (Err (ServerFail ("peer rejected invitation: " +:+ status_text (rs_status resp))))
  else Done (Ok (json_object [("invitationId", Str federation_id); ("status", Str "pending");
                              ("federated", Bool true)])))))))).

(** [calendar_share]. *)
Definition calendar_share : Method := fun args =>
  ptry (pure (decode (A := CalendarShareArgs) args)) asis (fun args =>
  ptry (pure (check_caller (ks_account_id args))) asis (fun _ =>
  ptry (pure (ok_or (parse_uuid (ks_calendar_id args)) invalid_arguments)) asis (fun calendar_id =>
  ptry (stored (fun _ => get_calendar parse_uuid fresh (id account) calendar_id)) asis (fun own =>
  match own with
  | None => Done (Err Forbidden)
  | Some _ =>
      match split_once "@" (ks_invitee_email args) with
      | None => Done (Err (InvalidArguments "invitee email must contain '@'"))
      | Some (_, domain) =>
          ptry (cal (fun _ => on_cal_core (account_by_email parse_uuid (ks_invitee_email args))))
            (fun e => ServerFail (storage_error_text e)) (fun target =>
          match target with
          | Some target =>
              ptry (stored (fun m => share_calendar (at_uuid m) (unix m) calendar_id (id account) (id target)
                                       (sharing_of_str (ks_sharing_type args)))) asis (fun sharing =>
              Done (Ok (json_object [("invitationId", Str (cs_id sharing)); ("status", Str "pending");
                                     ("createdAt", Number (cs_created_at sharing))])))
          | None => share_federated args calendar_id domain
          end)
      end
  end)))).

(** [calendar_invitation_get]. *)
Definition calendar_invitation_get : Method := fun args =>
  ptry (pure (decode (A := CalendarGetArgs) args)) asis (fun args =>
  ptry (pure (check_caller (kg_account_id args))) asis (fun _ =>
  ptry (stored (fun _ => list_pending_inbound_federations parse_uuid (id account))) asis (fun invitations =>
  Done (Ok (json_object [("accountId", Str (kg_account_id args));
    ("list", Array (map (fun f => json_object
       [("id", Str (fd_id f)); ("calendarId", Str (fd_calendar f)); ("inviterEmail", Str (fd_target_email f));
        ("sharingType", Str (sharing_as_str (fd_type f))); ("status", Str (fd_status f));
        ("createdAt", Number (fd_created_at f))]) invitations));
    ("notFound", Array [])]))))).

(** [calendar_invitation_set]. *)
Definition calendar_invitation_set : Method := fun args =>
  ptry (pure (decode (A := CalendarInvitationSetArgs) args)) asis (fun args =>
  ptry (pure (check_caller (ki_account_id args))) asis (fun _ =>
  let answered status := Done (Ok (json_object [("invitationId", Str (ki_invitation_id args)); ("status", Str status)])) in
  if String.eqb (ki_action args) "accept"
  then ptry (stored (fun _ => accept_inbound_federation (ki_invitation_id args) (id account))) asis (fun _ =>
       answered "accepted")
  else if String.eqb (ki_action args) "reject"
  then ptry (stored (fun _ => reject_inbound_federation (ki_invitation_id args) (id account))) asis (fun _ =>
       answered "rejected")
  else Done (Err (InvalidArguments ("unknown action: " +:+ ki_action args))))).

(** *** [scheduling_methods.rs] *)

Definition scheduled {A} (f : Moment -> KM A) : FP (result MethodError A) :=
  ptry (cal f) scheduling_err (fun a => Done (Ok a)).

(** [args["accountId"]] as text, checked. *)
Definition caller_named (args : Value) : result MethodError (string * string) :=
  account_id <-? ok_or (v ← field "accountId" args; as_str v) (InvalidArguments "accountId required") ;;
  a <-? check_caller account_id ;; Ok (account_id, a).

(** [page_json]. *)
Definition page_json (p : SchedulingPage) : Value :=
  json_object [("id", Str (sp_id p)); ("slug", Str (sp_slug p));
    ("url", Str (trim_end_char "/" public_url +:+ "/schedule/" +:+ sp_slug p));
    ("title", Str (sp_title p)); ("description", nullable (sp_description p)); ("calendarId", Str (sp_calendar p));
    ("timezone", Str (sp_timezone p)); ("availability", availability_value (sp_availability p));
    ("durationsMins", Array (map Number (sp_durations p))); ("bufferBeforeMins", Number (sp_buffer_before p));
    ("bufferAfterMins", Number (sp_buffer_after p)); ("minNoticeMins", Number (sp_min_notice p));
    ("maxPerDay", opt_field Number (sp_max_per_day p)); ("validFrom", nullable (sp_valid_from p));
    ("validUntil", nullable (sp_valid_until p)); ("status", Str (status_as_str (sp_status p)))].

(** [scheduling_page_get]. *)
Definition scheduling_page_get : Method := fun args =>
  ptry (pure (caller_named args)) asis (fun '(account_id, a) =>
  let ids := l ← (v ← field "ids" args; as_array v);
             Some (flat_map (fun v => match as_str v with Some i => [i] | None => [] end) l) in
  ptry (scheduled (fun _ => list_scheduling_pages parse_uuid a)) asis (fun pages =>
  let shown := List.filter (fun p => match ids with None => true | Some ids => listed (sp_id p) ids end) pages in
  Done (Ok (json_object [("accountId", Str account_id); ("list", Array (map page_json shown));
                         ("notFound", Array [])])))).

Definition bad (key : string) : MethodError := InvalidArguments ("bad " +:+ key).
(** A value read by serde, its error in the message. *)
Definition read_as {A} `{FromValue A} (key : string) (v : Value) : result MethodError A :=
  match from_value v with Ok a => Ok a | Err e => Err (InvalidArguments ("bad " +:+ key +:+ ": " +:+ e)) end.

Section Create.
Variable object : list (string * Value).
Definition given {A} (key : string) (otherwise : A) (read : Value -> result MethodError A) : result MethodError A :=
  match map_get key object with None | Some Null => Ok otherwise | Some v => read v end.
Definition get_str (key : string) : option string := v ← map_get key object; as_str v.
Definition get_u32 (key : string) : result MethodError (option Z) :=
  given key None (fun v => n <-? ok_or (as_u32_value v) (bad key) ;; Ok (Some n)).

(** The slug made of the local part. *)
Definition default_slug : string :=
  slug_of (unicode_lower match split_once "@" (email account) with Some (local, _) => local | None => email account end).

(** [parse_create]. *)
Definition parse_create : result MethodError NewSchedulingPage :=
  calendar <-? ok_or (get_str "calendarId") (InvalidArguments "calendarId is required") ;;
  calendar <-? ok_or (parse_uuid calendar) (InvalidArguments "bad calendarId") ;;
  let display := default (email account) (display_name account) in
  availability <-? given "availability" default_business_hours (read_as "availability") ;;
  durations <-? given "durationsMins" [30%Z] (read_as "durationsMins") ;;
  before <-? get_u32 "bufferBeforeMins" ;;
  after <-? get_u32 "bufferAfterMins" ;;
  notice <-? get_u32 "minNoticeMins" ;;
  max_per_day <-? get_u32 "maxPerDay" ;;
  Ok (mk_new_page (default default_slug (get_str "slug"))
        (default ("Meet with " +:+ display) (get_str "title")) (get_str "description") calendar
        (default "UTC" (get_str "timezone")) availability durations (default 0%Z before) (default 0%Z after)
        (default 0%Z notice) max_per_day (get_str "validFrom") (get_str "validUntil")).
End Create.

Definition empty_patch : SchedulingPagePatch :=
  mk_patch None None None None None None None None None None None None.

(** One entry of a patch. *)
Definition patch_entry (p : SchedulingPagePatch) (key : string) (value : Value) : result MethodError SchedulingPagePatch :=
  let '(mk_patch title description timezone availability durations before after notice max_per_day from until status) := p in
  let named := String.eqb key in
  let minutes := ok_or (as_u32_value value) (bad key) in
  if named "title"
  then Ok (mk_patch (as_str value) description timezone availability durations before after notice max_per_day from until status)
  else if named "description"
  then Ok (mk_patch title (Some (as_str value)) timezone availability durations before after notice max_per_day from until status)
  else if named "timezone"
  then Ok (mk_patch title description (as_str value) availability durations before after notice max_per_day from until status)
  else if named "availability"
  then a <-? read_as key value ;;
       Ok (mk_patch title description timezone (Some a) durations before after notice max_per_day from until status)
  else if named "durationsMins"
  then l <-? read_as key value ;;
       Ok (mk_patch title description timezone availability (Some l) before after notice max_per_day from until status)
  else if named "bufferBeforeMins"
  then n <-? minutes ;;
       Ok (mk_patch title description timezone availability durations (Some n) after notice max_per_day from until status)
  else if named "bufferAfterMins"
  then n <-? minutes ;;
       Ok (mk_patch title description timezone availability durations before (Some n) notice max_per_day from until status)
  else if named "minNoticeMins"
  then n <-? minutes ;;
       Ok (mk_patch title description timezone availability durations before after (Some n) max_per_day from until status)
  else if named "maxPerDay"
  then n <-? match value with Null => Ok None | _ => n <-? minutes ;; Ok (Some n) end ;;
       Ok (mk_patch title description timezone availability durations before after notice (Some n) from until status)
  else if named "validFrom"
  then Ok (mk_patch title description timezone availability durations before after notice max_per_day (Some (as_str value)) until status)
  else if named "validUntil"
  then Ok (mk_patch title description timezone availability durations before after notice max_per_day from (Some (as_str value)) status)
  else if named "status"
  then s <-? match as_str value with
             | Some t => if String.eqb t "active" then Ok Active
                         else if String.eqb t "paused" then Ok Paused
                         else Err (InvalidArguments "status must be active|paused")
             | None => Err (InvalidArguments "status must be active|paused")
             end ;;
       Ok (mk_patch title description timezone availability durations before after notice max_per_day from until (Some s))
  else Err (InvalidArguments ("unknown property " +:+ debug key)).

(** [parse_patch]. *)
Fixpoint parse_patch (p : SchedulingPagePatch) (object : list (string * Value)) : result MethodError SchedulingPagePatch :=
  match object with
  | [] => Ok p
  | (key, value) :: rest => p' <-? patch_entry p key value ;; parse_patch p' rest
  end.

(** What becomes of one object: [Forbidden] ends the call, another error is described. *)
Definition described {A} (r : result MethodError A) : result (option string) A :=
  match r with
  | Ok a => Ok a
  | Err Forbidden => Err None
  | Err e => Err (Some (method_error_to_string e))
  end.

Definition create_one (_ : string) (object : Value) : FP (result (option string) SchedulingPage) :=
  match object with
  | Object fields =>
      r <-- ptry (pure (parse_create fields)) asis (fun new =>
            scheduled (fun m => create_scheduling_page parse_uuid known_zone (at_uuid m) (unix m) (id account) new)) ;;
      Done (described r)
  | _ => Done (Err (Some "not an object"))
  end.

Definition update_one (i : string) (object : Value) : FP (result (option string) SchedulingPage) :=
  r <-- ptry (pure (page_id <-? ok_or (parse_uuid i) (InvalidArguments "bad page id") ;;
                    fields <-? ok_or (as_object object) (InvalidArguments "not an object") ;;
                    patch <-? parse_patch empty_patch fields ;; Ok (page_id, patch)))
          asis (fun '(page_id, patch) =>
        scheduled (fun m => update_scheduling_page parse_uuid known_zone (unix m) (id account) page_id patch)) ;;
  Done (described r).

Fixpoint set_each (body : string -> Value -> FP (result (option string) SchedulingPage))
    (l done_ failed : list (string * Value)) : FP (result MethodError (list (string * Value) * list (string * Value))) :=
  match l with
  | [] => Done (Ok (done_, failed))
  | (k, v) :: rest =>
      r <-- body k v ;;
      match r with
      | Ok page => set_each body rest (map_insert k (page_json page) done_) failed
      | Err None => Done (Err Forbidden)
      | Err (Some description) => set_each body rest done_ (map_insert k (invalid_properties description) failed)
      end
  end.

Definition entries_of (key : string) (args : Value) : list (string * Value) :=
  default [] (v ← field key args; as_object v).

(** [scheduling_page_set]. *)
Definition scheduling_page_set : Method := fun args =>
  ptry (pure (caller_named args)) asis (fun '(account_id, _) =>
  ptry (set_each create_one (entries_of "create" args) [] []) asis (fun '(created, not_created) =>
  ptry (set_each update_one (entries_of "update" args) [] []) asis (fun '(updated, not_updated) =>
  match v ← field "destroy" args; as_array v with
  | Some (_ :: _) => Done (Err (InvalidArguments "destroy is not supported; pause the page instead"))
  | _ => Done (Ok (json_object [("accountId", Str account_id); ("created", Object created);
                                ("notCreated", Object not_created); ("updated", Object updated);
                                ("notUpdated", Object not_updated)]))
  end))).

(** [scheduling_booking_get]. *)
Definition scheduling_booking_get : Method := fun args =>
  ptry (pure (caller_named args)) asis (fun '(account_id, a) =>
  ptry (pure (match v ← field "pageId" args; as_str v with
              | Some i => p <-? ok_or (parse_uuid i) (InvalidArguments "bad pageId") ;; Ok (Some p)
              | None => Ok None
              end)) asis (fun page_id =>
  ptry (scheduled (fun _ => list_bookings parse_uuid a page_id)) asis (fun bookings =>
  Done (Ok (json_object [("accountId", Str account_id); ("list", Array (map booking_json bookings));
                         ("notFound", Array [])]))))).

(** [register]: the methods of the two files. *)
Definition CALENDAR_METHODS : list (string * string * Method) :=
  [("SchedulingPage/get", SCHEDULING_CAPABILITY, scheduling_page_get);
   ("SchedulingPage/set", SCHEDULING_CAPABILITY, scheduling_page_set);
   ("SchedulingBooking/get", SCHEDULING_CAPABILITY, scheduling_booking_get);
   ("Calendar/get", CALENDAR_CAPABILITY, calendar_get); ("Calendar/share", CALENDAR_CAPABILITY, calendar_share);
   ("CalendarInvitation/get", CALENDAR_CAPABILITY, calendar_invitation_get);
   ("CalendarInvitation/set", CALENDAR_CAPABILITY, calendar_invitation_set)].
End Methods.
