(* ===== verification/JmapCalendarFacts.v ===== *)
(** The calendar and scheduling methods act for their caller only, and keep the
    invariant of the calendar tables. *)
From S2P Require Import Prelude Text Bytes Ident Json JmapEnvelope Store Mail Pgp Interleave Calendars Sharing FedStore Scheduling CalHistory FedSig FedSync FedSigFacts FedVerify FedSyncFacts Delivery JmapMail JmapCalendar.

Open Scope string_scope.

(** ** What a call may change *)

(** The tables but for what [a] owns: its sharings, federations and pages. *)
Record own_only (a : string) (d d' : CalDb) : Prop := {
  ow_tables : calendars d' = calendars d /\ events d' = events d /\ bookings d' = bookings d
              /\ invitations d' = invitations d /\ event_map d' = event_map d /\ outbox d' = outbox d;
  ow_sharings : forall r, owns_calendar (sh_calendar r) a d = false -> r ∈ sharings d' <-> r ∈ sharings d;
  ow_federations : forall r, owns_calendar (fr_calendar r) a d = false -> r ∈ federations d' <-> r ∈ federations d;
  ow_pages : forall r, pg_account r <> a -> r ∈ pages d' <-> r ∈ pages d;
  ow_accepted : forall r, r ∈ sharings d' -> sh_status r = "accepted" -> r ∈ sharings d
}.

Lemma owns_same c a d d' : calendars d' = calendars d -> owns_calendar c a d' = owns_calendar c a d.
Proof. unfold owns_calendar. by intros ->. Qed.

#[export] Instance own_only_pre a : PreOrder (own_only a).
Proof.
  split; [by intros d; split|].
  intros d1 d2 d3 [(C1 & E1 & B1 & I1 & M1 & O1) S1 F1 P1 A1] [(C2 & E2 & B2 & I2 & M2 & O2) S2 F2 P2 A2].
  assert (forall c, owns_calendar c a d2 = owns_calendar c a d1) as Hown by (intros c; by apply owns_same).
  split; intros; rewrite ?S2, ?F2, ?P2, ?Hown by (rewrite ?Hown; done); auto.
  split_and!; congruence.
Qed.

(** Only other tables changed: peers, nonces, the account tables, the identity. *)
Lemma own_only_frame a d d' :
  calendars d' = calendars d -> events d' = events d -> bookings d' = bookings d -> invitations d' = invitations d ->
  event_map d' = event_map d -> outbox d' = outbox d -> sharings d' = sharings d -> federations d' = federations d ->
  pages d' = pages d -> own_only a d d'.
Proof. intros ? ? ? ? ? ? Es Ef Ep. split; [done|..]; intros; by rewrite ?Es, ?Ef, ?Ep in *. Qed.

Section Acts.
Context `{SerdeLaws Permissions} `{SerdeLaws Availability} `{SerdeLaws (list Z)}.
Variable parse_uuid : string -> option string.
Variable known_zone : string -> bool.
Abbreviation cal_ok := (cal_ok parse_uuid known_zone).

Definition acts_for (a : string) (d d' : CalDb) : Prop := cal_ok d -> own_only a d d' /\ cal_ok d'.
#[export] Instance acts_for_pre a : PreOrder (acts_for a).
Proof.
  split; [by intros d|]. intros d1 d2 d3 H12 H23 Hd. destruct (H12 Hd) as [O1 K1]. destruct (H23 K1) as [O2 K2].
  split; [by etransitivity|done].
Qed.

Lemma acts_frame a d d' :
  calendars d' = calendars d -> events d' = events d -> bookings d' = bookings d -> invitations d' = invitations d ->
  event_map d' = event_map d -> outbox d' = outbox d -> sharings d' = sharings d -> federations d' = federations d ->
  pages d' = pages d -> acts_for a d d'.
Proof. intros. intros Hd. split; [by apply own_only_frame|]. apply (cal_ok_same parse_uuid known_zone d); [by split_and!|exact Hd]. Qed.

(** ** The storage calls of the methods *)

Lemma insert_sharing_cases row d r d' :
  insert_sharing row d = (r, d') -> d' = d \/ d' = on_sharings (fun l => (l ++ [row])%list) d.
Proof.
  unfold insert_sharing, require_cal, modify. unfold bind. destruct (_ && _); [|intros [= _ <-]; by left].
  destruct (negb _); intros [= _ <-]; [by right|by left].
Qed.
Lemma insert_federation_cases row d r d' :
  insert_federation row d = (r, d') -> d' = d \/ d' = on_federations (fun l => (l ++ [row])%list) d.
Proof.
  unfold insert_federation, require_cal, modify. unfold bind. destruct (calendar_known _ d); [|intros [= _ <-]; by left].
  destruct (negb _); intros [= _ <-]; [by right|by left].
Qed.

Lemma acts_share i now c a target t d : acts_for a d (snd (share_calendar i now c a target t d)).
Proof.
  unfold share_calendar. unfold bind at 1, gets. destruct (owns_calendar c a d) eqn:Ho; [|done]. cbn [negb].
  unfold bind. destruct (insert_sharing _ d) as [r d'] eqn:E. assert (acts_for a d d') as Hacts; [|by destruct r].
  apply insert_sharing_cases in E as [->| ->]; [done|]. intros Hd.
  split; [|apply (cal_ok_same parse_uuid known_zone d); [by split_and!|exact Hd]]. split; try done.
  - intros r' Hr. cbn. rewrite elem_of_app, list_elem_of_singleton. split; [|by left]. intros [?| ->]; [done|].
    cbn in Hr. by rewrite Ho in Hr.
  - intros r' [?| ->%list_elem_of_singleton]%elem_of_app Hs; done.
Qed.

Lemma acts_federate i c1 c2 now c mail url t dom fp a d :
  owns_calendar c a d = true -> acts_for a d (snd (create_outbound_federation i c1 c2 now c mail url t dom fp d)).
Proof.
  intros Ho. unfold create_outbound_federation, bind. destruct (insert_federation _ d) as [r d'] eqn:E.
  assert (acts_for a d d') as Hacts; [|by destruct r].
  apply insert_federation_cases in E as [->| ->]; [done|]. intros Hd.
  split; [|apply (cal_ok_same parse_uuid known_zone d); [by split_and!|exact Hd]]. split; try done.
  intros r' Hr. cbn. rewrite elem_of_app, list_elem_of_singleton. split; [|by left]. intros [?| ->]; [done|].
  cbn in Hr. by rewrite Ho in Hr.
Qed.

Lemma acts_answer status i a d : acts_for a d (snd (answer_federation status i a d)).
Proof.
  set (test := fun r => String.eqb (fr_id r) i && pending_inbound a d r).
  set (d' := on_federations (update_where test (set_federation_status status)) d).
  assert (forall r, test r = true -> owns_calendar (fr_calendar r) a d = true) as Hmine
    by (intros r [_ [_ Hr]%andb_true_iff]%andb_true_iff; done).
  assert (acts_for a d d') as Hacts.
  { intros Hd. split; [|apply (cal_ok_same parse_uuid known_zone d); [by split_and!|exact Hd]]. split; try done.
    intros r Hr. cbn. unfold update_where. rewrite elem_of_map. split.
    - intros (x & Hx & ->). destruct (test x) eqn:E; [|done]. apply Hmine in E. cbn in Hr. congruence.
    - intros Hx. exists r. split; [done|]. destruct (test r) eqn:E; [|done]. apply Hmine in E. congruence. }
  unfold answer_federation, bind, gets, modify. fold test. cbn. fold test. fold d'. by destruct (existsb test (federations d)).
Qed.

Lemma the_page_reads i d r d' : the_page parse_uuid i d = (r, d') -> d' = d.
Proof.
  unfold the_page, read_page, bind, lift. destruct (match select_first _ _ with Some _ => _ | None => _ end);
    by intros [= _ <-].
Qed.

Lemma acts_create_page i now a new d :
  new_page_typed new -> acts_for a d (snd (create_scheduling_page parse_uuid known_zone i now a new d)).
Proof.
  intros Htyped Hd. split; [|by apply create_page_ok]. unfold create_scheduling_page. unfold bind at 1, lift at 1.
  destruct (validate_slug _); [|done]. unfold bind at 1, lift at 1.
  destruct (validate_common _ _ _ _ _ _ _ _ _) as [[]|]; [|done].
  destruct (negb (title_ok (np_title new))); [done|].
  apply transaction_keeps; [done|]. intros p d' Hrun. unfold bind at 1, gets at 1 in Hrun.
  destruct (negb (owns_calendar (np_calendar new) a d)); [done|].
  apply bind_ok in Hrun as (b & d1 & Hins & Hrun). apply insert_page_cases in Hins as [(-> & _)|([= ->] & _ & _ & ->)].
  - destruct b; cbn [negb] in Hrun; [|done]. apply the_page_reads in Hrun. by subst d'.
  - cbn [negb] in Hrun. assert (d' = on_pages (fun l => (l ++ [mk_page_row i a (np_slug new) (np_title new)
      (np_description new) (np_calendar new) (np_timezone new) (to_json (np_availability new)) (to_json (np_durations new))
      (np_buffer_before new) (np_buffer_after new) (np_min_notice new) (np_max_per_day new) (np_valid_from new)
      (np_valid_until new) "active" now now])%list) d) as ->.
    { by apply the_page_reads in Hrun. }
    split; try done. intros r Hr. cbn. rewrite elem_of_app, list_elem_of_singleton. split; [|by left].
    by intros [?| ->].
Qed.

Lemma acts_update_page now a i patch d :
  patch_typed patch -> acts_for a d (snd (update_scheduling_page parse_uuid known_zone now a i patch d)).
Proof.
  intros Htyped Hd. split; [|by apply update_page_ok]. unfold update_scheduling_page.
  apply transaction_keeps; [done|]. intros p d' Hrun.
  apply bind_ok in Hrun as (found & d1 & Hread & Hrun). unfold read_page in Hread. injection Hread as Hread <-.
  apply bind_ok in Hrun as (current & d1 & Hcur & Hrun). unfold lift in Hcur. injection Hcur as Hcur <-.
  destruct found as [c|]; [|done]. destruct (select_first _ (pages d)) as [row|] eqn:Ef; [|done].
  apply find_Some_elem in Ef as [Hrow [Hi%String.eqb_eq Ha%String.eqb_eq]%andb_true_iff].
  destruct (negb (title_ok _)) in Hrun; [done|].
  apply bind_ok in Hrun as ([] & d1 & Hv & Hrun). unfold lift in Hv. injection Hv as Hv <-.
  apply bind_ok in Hrun as ([] & d1 & Hmod & Hrun). unfold modify in Hmod. injection Hmod as <-.
  set (f := fun r : PageRow => mk_page_row (pg_id r) _ _ _ _ _ _ _ _ _ _ _ _ _ _ _ _ _) in Hrun.
  assert (d' = on_pages (update_where (fun r => String.eqb (pg_id r) i) f) d) as ->.
  { by apply the_page_reads in Hrun. }
  assert (forall x, x ∈ pages d -> String.eqb (pg_id x) i = true -> pg_account x = a) as Hone.
  { intros x Hx Hxi%String.eqb_eq. rewrite <- Ha. f_equal.
    eapply NoDup_map_inj; [apply (uniq_pages _ _ _ Hd)|done|done|congruence]. }
  split; try done. intros r Hr. cbn. unfold update_where. rewrite elem_of_map. split.
  - intros (x & Hx & ->). destruct (String.eqb (pg_id x) i) eqn:E; [|done]. by specialize (Hone x Hx E).
  - intros Hx. exists r. split; [done|]. destruct (String.eqb (pg_id r) i) eqn:E; [|done]. by specialize (Hone r Hx E).
Qed.
End Acts.

(** ** The methods *)

Lemma u32_of_value v z : as_u32_value v = Some z -> u32 z.
Proof. unfold as_u32_value, u32. destruct v; try done. destruct (_ && _)%bool eqn:E; [|done]. intros [= ->]. lia. Qed.

Section Calls.
Context `{BlobStore} `{FedCrates} {N : Type} `{!Network N} `{FedJson} `{FedTexts} `{InvitationJson}
  `{SerdeLaws Permissions} `{SerdeLaws Availability} `{SerdeLaws (list Z)}
  `{FromValue CalendarGetArgs} `{FromValue CalendarShareArgs} `{FromValue CalendarInvitationSetArgs}
  `{FromValue Availability} `{FromValue (list Z)}.
Variable parse_uuid : string -> option string.
Variable fresh : string -> string.
Variable known_zone : string -> bool.
Variable unicode_lower : string -> string.
Variable debug : string -> string.
Variable availability_value : Availability -> Value.
Variable moment : nat -> Moment.
Variable account : Account.
Variable public_url : string.
Variable config : FederationConfig.

Abbreviation W := (FedWorld N).
Abbreviation cal_ok := (cal_ok parse_uuid known_zone).
Abbreviation acts := (acts_for parse_uuid known_zone (id account)).

(** A relation that looks at the calendar tables only. *)
Class Tables (R : CalDb -> CalDb -> Prop) := {
  tables_pre :: PreOrder R;
  tables_frame : forall d d', calendars d' = calendars d -> events d' = events d -> bookings d' = bookings d ->
    invitations d' = invitations d -> event_map d' = event_map d -> outbox d' = outbox d ->
    sharings d' = sharings d -> federations d' = federations d -> pages d' = pages d -> R d d'
}.
#[local] Instance acts_tables : Tables acts.
Proof. split; [apply _|]. intros. by apply acts_frame. Qed.

(** With a calendar of the caller at hand. *)
Definition holding (c : string) (d d' : CalDb) : Prop := owns_calendar c (id account) d = true -> acts d d'.
#[local] Instance holding_tables c : Tables (fun d d' => cal_ok d -> holding c d d').
Proof.
  split.
  - split; [by intros d _ _|]. intros d1 d2 d3 Hab Hbc Hd Ho _. destruct (Hab Hd Ho Hd) as [O1 K1].
    assert (owns_calendar c (id account) d2 = true) as Ho2
      by (rewrite <- Ho; apply owns_same, (ow_tables _ _ _ O1)).
    destruct (Hbc K1 Ho2 K1) as [O2 K2]. split; [by etransitivity|done].
  - intros. intros _ _. by apply acts_frame.
Qed.

Section Steps.
Variable R : CalDb -> CalDb -> Prop.
Context `{!Tables R}.
Abbreviation rel := (relates R).

Lemma rel_read {A} (m : Moment -> KM A) : (forall t d, snd (m t d) = d) -> rel (cal moment m : prog W _).
Proof. intros Hm. apply relates_cal. intros t d. by rewrite Hm. Qed.
Lemma rel_pgp {A} (f : Moment -> action PgpWorld PgpError A) : rel (pgp moment f : prog W _).
Proof.
  intros w a w' Hrun. destruct (run_pgp moment f w) as (r & w1 & Hr & Ht). rewrite Hr in Hrun. injection Hrun as <- <-.
  apply tables_frame; unfold caldb, with_core; cbn; by rewrite Ht.
Qed.

Lemma rel_write {A} (m : Moment -> KM A) :
  (forall t d, let d' := snd (m t d) in calendars d' = calendars d /\ events d' = events d /\ bookings d' = bookings d
     /\ invitations d' = invitations d /\ event_map d' = event_map d /\ outbox d' = outbox d
     /\ sharings d' = sharings d /\ federations d' = federations d /\ pages d' = pages d) ->
  rel (cal moment m : prog W _).
Proof. intros Hm. apply relates_cal. intros t d. destruct (Hm t d) as (?&?&?&?&?&?&?&?&?). by apply tables_frame. Qed.

End Steps.

Ltac rel_step := match goal with
  | |- forall _, _ => intro
  | |- relates _ (ptry _ _ _) => apply relates_ptry; [apply _| |]
  | |- relates _ (pbind _ _) => apply relates_bind; [apply _| |]
  | |- relates _ (Done _) => apply relates_done, _
  | |- relates _ (pure _) => apply relates_done, _
  | |- relates _ (FedSig.ask _ _) => apply relates_ask, _
  | |- relates _ (FedSig.net _) => apply relates_net, _
  | |- relates _ (FedSig.pgp _ _) => apply rel_pgp, _
  | |- relates _ (guard_url _ _) => apply relates_guard, _
  | |- relates _ (http _ _ _ _) => apply relates_http, _
  | |- relates _ (send _ _ _ _ _ _ _) => apply relates_send, _
  | |- relates _ (FedSig.cal _ _) => first [apply rel_read; [apply _|done] | apply rel_write; [apply _|done]]
  | |- relates _ (match ?x with _ => _ end) => destruct x
  | |- relates _ (let _ := _ in _) => cbv zeta
  end.
Ltac rel_steps := repeat rel_step.

Section Discovery.
Variable R : CalDb -> CalDb -> Prop.
Context `{!Tables R}.
Abbreviation rel := (relates R).

Lemma rel_build_client : rel (build_client moment public_url config : prog W _).
Proof. unfold build_client, server_cert. rel_steps. Qed.

Lemma rel_pin domain meta : rel (pin moment domain meta : prog W _).
Proof. unfold pin. rel_steps. Qed.

Lemma rel_discover client domain : rel (discover_and_pin moment config client domain : prog W _).
Proof.
  unfold discover_and_pin. destruct (negb _); [rel_steps|]. generalize (server_candidates domain) as urls.
  induction urls as [|url urls IH]; cbn [discover_at]; [rel_steps|].
  unfold get_unsigned. rel_steps; first [exact IH | apply rel_pin].
Qed.
End Discovery.

(** *** The widths of what is parsed *)

Lemma get_u32_typed object key o : get_u32 object key = Ok o -> u32 (default 0%Z o).
Proof.
  unfold get_u32, given. destruct (map_get key object) as [v|]; [|by intros [= <-]; unfold u32; cbn; lia].
  assert (forall r, (n <-? ok_or (as_u32_value v) (bad key) ;; Ok (Some n)) = Ok r -> u32 (default 0%Z r)) as Hsome.
  { intros r. destruct (as_u32_value v) as [z|] eqn:E; [|done]. intros [= <-]. by eapply u32_of_value. }
  destruct v; try exact (Hsome o). intros [= <-]. unfold u32. cbn. lia.
Qed.

Lemma parse_create_typed object new :
  parse_create parse_uuid unicode_lower account object = Ok new -> new_page_typed new.
Proof.
  unfold parse_create. intros Hrun. repeat (apply result_bind_Ok in Hrun as (? & ? & Hrun)). injection Hrun as <-.
  unfold new_page_typed. cbn. split_and!; by eapply get_u32_typed.
Qed.

Lemma patch_entry_typed p key value p' :
  patch_entry debug p key value = Ok p' -> patch_typed p -> patch_typed p'.
Proof.
  destruct p. unfold patch_entry. intros Hrun (Tb & Ta & Tm). cbn in Tb, Ta, Tm.
  assert (forall n, ok_or (as_u32_value value) (bad key) = Ok n -> u32 n) as Hn.
  { intros n. destruct (as_u32_value value) eqn:E; [|done]. intros [= <-]. by eapply u32_of_value. }
  repeat match type of Hrun with (if ?b then _ else _) = _ => destruct b end;
    repeat (apply result_bind_Ok in Hrun as (? & ? & Hrun)); try done; injection Hrun as <-;
    unfold patch_typed; cbn; split_and!; try done; intros z [= <-]; by apply Hn.
Qed.

Lemma parse_patch_typed object p p' : parse_patch debug p object = Ok p' -> patch_typed p -> patch_typed p'.
Proof.
  revert p. induction object as [|[key value] object IH]; intros p; cbn [parse_patch]; [by intros [= <-]|].
  intros Hrun Hp. apply result_bind_Ok in Hrun as (q & Hq & Hrun). eapply IH; [exact Hrun|]. by eapply patch_entry_typed.
Qed.

(** *** The calls *)

Abbreviation acting := (relates (N := N) acts).
Abbreviation calendar_share := (calendar_share parse_uuid fresh moment account public_url config).
Abbreviation share_federated := (share_federated parse_uuid fresh moment account public_url config).

Lemma stored_rel {A} (R : CalDb -> CalDb -> Prop) (m : Moment -> KM A) :
  Tables R -> (forall t d, R d (snd (m t d))) -> relates R (stored moment m : prog W _).
Proof. intros HR Hm. unfold stored. rel_steps. by apply relates_cal. Qed.
Lemma scheduled_rel {A} (R : CalDb -> CalDb -> Prop) (m : Moment -> KM A) :
  Tables R -> (forall t d, R d (snd (m t d))) -> relates R (scheduled moment m : prog W _).
Proof. intros HR Hm. unfold scheduled. rel_steps. by apply relates_cal. Qed.
Lemma stored_read {A} (R : CalDb -> CalDb -> Prop) (m : Moment -> KM A) :
  Tables R -> (forall t d, snd (m t d) = d) -> relates R (stored moment m : prog W _).
Proof. intros HR Hm. apply stored_rel; [done|]. intros t d. by rewrite Hm. Qed.
Lemma scheduled_read {A} (R : CalDb -> CalDb -> Prop) (m : Moment -> KM A) :
  Tables R -> (forall t d, snd (m t d) = d) -> relates R (scheduled moment m : prog W _).
Proof. intros HR Hm. apply scheduled_rel; [done|]. intros t d. by rewrite Hm. Qed.

(** What is known of a decoded value. *)
Lemma known_rel {A B E F} (R : CalDb -> CalDb -> Prop) `{!Tables R} (r : result E A) (h : E -> F)
    (k : A -> prog W (result F B)) :
  (forall a, r = Ok a -> relates R (k a)) -> relates R (ptry (pure r) h k).
Proof.
  intros Hk w x w'. rewrite run_ptry, run_pure. destruct r as [a|e]; [by apply Hk|]. intros [= _ <-]. reflexivity.
Qed.

Ltac method := repeat first
  [ rel_step
  | apply stored_read; [apply _|done]
  | apply scheduled_read; [apply _|done] ].

Lemma calendar_get_acts args : acting (calendar_get parse_uuid fresh moment account args).
Proof.
  unfold calendar_get. method. match goal with |- relates _ (shared_calendars _ _ _ ?l) => induction l as [|[c p] l IH] end;
    cbn [shared_calendars]; method; exact IH.
Qed.

Lemma invitation_get_acts args : acting (calendar_invitation_get parse_uuid moment account args).
Proof. unfold calendar_invitation_get. method. Qed.

Lemma invitation_set_acts args : acting (calendar_invitation_set moment account args).
Proof. unfold calendar_invitation_set. method; (apply stored_rel; [apply _|]; intros; apply acts_answer). Qed.

Lemma page_get_acts args : acting (scheduling_page_get parse_uuid availability_value moment account public_url args).
Proof. unfold scheduling_page_get. method. Qed.

Lemma booking_get_acts args : acting (scheduling_booking_get parse_uuid moment account args).
Proof. unfold scheduling_booking_get. method. Qed.

Lemma set_each_acts body l done_ failed :
  (forall k v, acting (body k v)) -> acting (set_each availability_value public_url body l done_ failed).
Proof.
  intros Hb. revert done_ failed. induction l as [|[k v] l IH]; intros done_ failed; cbn [set_each]; method;
    first [apply Hb | apply IH].
Qed.

Lemma page_set_acts args :
  acting (scheduling_page_set parse_uuid known_zone unicode_lower debug availability_value moment account public_url args).
Proof.
  unfold scheduling_page_set. method; apply set_each_acts; intros k v.
  - unfold create_one. destruct v as [| | | | |fields]; try (apply relates_done, _).
    apply relates_bind; [apply _| |intros ?; apply relates_done, _]. apply known_rel; [apply _|]. intros new Hnew.
    apply scheduled_rel; [apply _|]. intros t d. by apply acts_create_page, (parse_create_typed fields).
  - unfold update_one. apply relates_bind; [apply _| |intros ?; apply relates_done, _]. apply known_rel; [apply _|].
    intros [page_id patch] Hpatch. apply result_bind_Ok in Hpatch as (? & _ & Hpatch).
    apply result_bind_Ok in Hpatch as (? & _ & Hpatch). apply result_bind_Ok in Hpatch as (patch' & Hparse & [= -> ->]).
    apply scheduled_rel; [apply _|]. intros t d. apply acts_update_page. eapply parse_patch_typed; [exact Hparse|].
    by split_and!.
Qed.

Lemma share_federated_rel args c domain :
  relates (N := N) (fun d d' => cal_ok d -> holding c d d') (share_federated args c domain).
Proof.
  unfold JmapCalendar.share_federated, post_json. method; try apply rel_build_client, _; try apply rel_discover, _.
  apply stored_rel; [apply _|]. intros t d _ Ho. by apply acts_federate.
Qed.

(** A read of a calendar of the caller. *)
Lemma get_calendar_owned c d r : fst (get_calendar parse_uuid fresh (id account) c d) = Ok (Some r) ->
  owns_calendar c (id account) d = true.
Proof.
  unfold get_calendar, gets. cbn. destruct (select_first _ _) as [row|] eqn:E; [|done]. intros _.
  apply find_Some_elem in E as [Hin Htest]. unfold owns_calendar. apply existsb_exists. exists row.
  by rewrite <- list_elem_of_In.
Qed.

Lemma calendar_share_acts args : acting (calendar_share args).
Proof.
  unfold JmapCalendar.calendar_share. apply known_rel; [apply _|]. intros a _. apply known_rel; [apply _|]. intros account_id _.
  apply known_rel; [apply _|]. intros c _. intros w x w'. rewrite run_ptry. unfold stored at 1. rewrite run_ptry.
  destruct (run_read moment (get_calendar parse_uuid fresh (id account) c) w) as (w1 & -> & Hw1 & _); [done|].
  destruct (fst _) as [found|e] eqn:Efound; cbn [run]; [|intros [= _ <-]; by rewrite Hw1].
  destruct found as [calendar|]; [|intros [= _ <-]; by rewrite Hw1].
  apply get_calendar_owned in Efound as Ho. rewrite <- Hw1 in Ho |- *. clear Hw1 w Efound.
  match goal with |- run ?p w1 = _ -> _ =>
    assert (relates (fun d d' => cal_ok d -> holding c d d') p) as Hrest end.
  { destruct (split_once _ _) as [[local domain]|]; [|apply relates_done, _]. method.
    - apply stored_rel; [apply _|]. intros t d _ _. apply acts_share.
    - apply share_federated_rel. }
  intros Hrun Hok. exact (Hrest _ _ _ Hrun Hok Ho Hok).
Qed.

(** C17: The JMAP methods on calendars and scheduling pages, federated sharing with its
    discovery and network calls included, act for their caller only: whatever the
    arguments and the answer, sharings and federations of calendars the caller does
    not own and pages of other accounts are as before, no event, booking or calendar
    changes, no sharing becomes accepted, and the invariant of the calendar tables is
    kept. *)
Theorem calendar_methods_isolate method capability handler args (w : W) r (w' : W) :
  (method, capability, handler) ∈ CALENDAR_METHODS parse_uuid fresh known_zone unicode_lower debug
    availability_value moment account public_url config ->
  cal_ok (caldb w) -> run (handler args) w = (r, w') ->
  own_only (id account) (caldb w) (caldb w') /\ cal_ok (caldb w').
Proof.
  intros Hin Hok Hrun. assert (acting (handler args)) as Hacts; [|exact (Hacts _ _ _ Hrun Hok)].
  unfold CALENDAR_METHODS in Hin. rewrite !elem_of_cons, elem_of_nil in Hin.
  repeat (destruct Hin as [[= -> -> ->]|Hin];
    [first [apply page_get_acts | apply page_set_acts | apply booking_get_acts | apply calendar_get_acts
           | apply calendar_share_acts | apply invitation_get_acts | apply invitation_set_acts]|]).
  done.
Qed.
End Calls.
