(* ===== verification/QueueFacts.v ===== *)
(** Correctness of the outbound queue: claims, the workers' protocol as a step
    relation, and what a restart does to it. *)
From S2P Require Import Prelude Text Bytes Ident Store StoreFacts Mail MailFacts MailQueryFacts Queue Delivery.

Open Scope string_scope.

(** ** The claim *)

Lemma claimed_elem ids q : claimed ids q = true <-> q_id q ∈ ids.
Proof.
  unfold claimed. rewrite existsb_elem. setoid_rewrite String.eqb_eq. naive_solver.
Qed.

Lemma due_queued now q : due now q = true <-> q_status q = "queued" /\ (q_next_attempt q <= now)%Z.
Proof. unfold due. by rewrite andb_true_iff, String.eqb_eq, Z.leb_le. Qed.

Lemma sql_limit_incl {R} n (l : list R) x : x ∈ sql_limit n l -> x ∈ l.
Proof.
  unfold sql_limit. destruct (n <? 0)%Z; [done|]. rewrite <- (take_drop (Z.to_nat n) l) at 2.
  rewrite elem_of_app. by left.
Qed.

Lemma claim_ids_due now limit d i :
  i ∈ claim_ids now limit d -> exists q, q ∈ queue d /\ q_id q = i /\ due now q = true.
Proof.
  unfold claim_ids. intros (q & Hq & ->)%elem_of_map.
  apply sql_limit_incl, order_by_elem, elem_of_filter_bool in Hq as [Hq Hdue]. eauto.
Qed.

(** A row is claimed exactly when its id was selected, and then it was due. *)
Lemma claimed_due now limit d q :
  NoDup (map q_id (queue d)) -> q ∈ queue d ->
  claimed (claim_ids now limit d) q = true -> due now q = true.
Proof.
  intros Hnd Hq (q' & Hq' & Hid & Hdue)%claimed_elem%claim_ids_due.
  by rewrite (NoDup_map_inj _ _ _ _ Hnd Hq Hq' (eq_sym Hid)).
Qed.

Lemma urgent_first_total a b : urgent_first a b = true \/ urgent_first b a = true.
Proof.
  unfold urgent_first. rewrite !orb_true_iff, !andb_true_iff, !Z.ltb_lt, !Z.eqb_eq, !Z.leb_le. lia.
Qed.

Lemma urgent_first_trans a b c :
  urgent_first a b = true -> urgent_first b c = true -> urgent_first a c = true.
Proof.
  unfold urgent_first. rewrite !orb_true_iff, !andb_true_iff, !Z.ltb_lt, !Z.eqb_eq, !Z.leb_le. lia.
Qed.

Lemma StronglySorted_take_drop {R} (le : R -> R -> Prop) (l : list R) n x y :
  StronglySorted le l -> x ∈ take n l -> y ∈ drop n l -> le x y.
Proof.
  intros Hs Hx Hy. rewrite <- (take_drop n l) in Hs.
  induction (take n l) as [|z l' IH]; [by apply elem_of_nil in Hx|].
  simpl in Hs. apply StronglySorted_inv in Hs as [Hs Hz]. rewrite Forall_forall in Hz.
  apply elem_of_cons in Hx as [->|Hx]; [|by apply IH].
  apply Hz. apply elem_of_app. by right.
Qed.

Lemma claim_count now limit d :
  (0 <= limit < 2 ^ 63)%Z ->
  length (claim_ids now limit d) = (Z.to_nat limit `min` length (List.filter (due now) (queue d)))%nat.
Proof.
  intros Hl. unfold claim_ids.
  rewrite length_map, as_i64_small, sql_limit_take, length_take by lia.
  by rewrite (Permutation_length (order_by_Permutation _ _)).
Qed.

(** The number of rows an id list without repetition selects. *)
Lemma filter_claimed_length ids l :
  NoDup ids -> NoDup (map q_id l) -> (forall i, i ∈ ids -> i ∈ map q_id l) ->
  length (List.filter (claimed ids) l) = length ids.
Proof.
  intros Hids Hl Hsub. rewrite <- (length_map q_id).
  apply Permutation_length, NoDup_Permutation; [|done|].
  - clear Hsub. induction l as [|q l IH]; simpl in *; [apply NoDup_nil_2|].
    apply NoDup_cons in Hl as [Hq Hl]. destruct (claimed ids q); simpl; [|by apply IH].
    apply NoDup_cons. split; [|by apply IH].
    intros (q' & [Hq' _]%elem_of_filter_bool & Heq)%elem_of_map. apply Hq, elem_of_map. eauto.
  - intros i. rewrite elem_of_map. split.
    + intros (q & [_ Hc%claimed_elem]%elem_of_filter_bool & ->). done.
    + intros Hi. destruct (proj1 (elem_of_map _ _ _) (Hsub _ Hi)) as (q & Hq & ->).
      exists q. split; [|done]. apply elem_of_filter_bool. split; [done|]. by apply claimed_elem.
Qed.

Lemma NoDup_map_sub {R} (f : R -> string) (l l' : list R) : 
  NoDup (map f l) -> (exists k, l ≡ₚ l' ++ k) -> NoDup (map f l').
Proof.
  intros Hl (k & Hk). assert (NoDup (map f (l' ++ k))) as H by (by rewrite <- Hk).
  rewrite map_app in H. by apply NoDup_app in H as [? _].
Qed.

Lemma filter_split {R} (p : R -> bool) l : l ≡ₚ List.filter p l ++ List.filter (fun x => negb (p x)) l.
Proof.
  induction l as [|x l IH]; simpl; [done|]. destruct (p x); simpl.
  - by rewrite <- IH.
  - rewrite <- Permutation_middle. by rewrite <- IH.
Qed.

Lemma claim_ids_NoDup now limit d : NoDup (map q_id (queue d)) -> NoDup (claim_ids now limit d).
Proof.
  intros Hnd. unfold claim_ids, sql_limit.
  assert (NoDup (map q_id (order_by urgent_first (List.filter (due now) (queue d))))) as Hs.
  { rewrite order_by_Permutation. eapply NoDup_map_sub; [exact Hnd|].
    eexists. apply filter_split. }
  destruct (_ <? 0)%Z; [done|]. eapply NoDup_map_sub; [exact Hs|].
  eexists. by rewrite take_drop.
Qed.

(** ** Rows and items *)

Section Queue.
Variable parse_uuid : string -> option string.
Abbreviation canonical := (canonical parse_uuid).

(** The item a well-formed row decodes to. *)
Definition item_of (q : QueueRow) : QueueItem :=
  mk_item (q_id q) (q_account q)
    (match from_str (q_blob q) with Parsed b => b | _ => [] end)
    (q_mail_from q) (q_recipient q) (q_domain q) (q_attempts q) (q_next_attempt q) (q_priority q).

Definition live (q : QueueRow) : Prop := q_status q = "queued" \/ q_status q = "sending".
Definition final (q : QueueRow) : Prop := q_status q = "delivered" \/ q_status q = "failed".

Record row_ok (q : QueueRow) : Prop := {
  row_id : canonical (q_id q);
  row_account : canonical (q_account q);
  row_blob : exists b, wf_blob_id b /\ q_blob q = to_hex b;
  row_priority : (0 <= q_priority q <= 1)%Z;
  row_state : (live q /\ (0 <= q_attempts q <= 9)%Z) \/ (final q /\ (1 <= q_attempts q <= 10)%Z)
}.

Lemma row_to_item_ok q : row_ok q -> row_to_item parse_uuid q = Ok (item_of q).
Proof.
  intros [Hid Hacct (b & Hb & Hhex) Hp Hs]. unfold row_to_item, item_of.
  rewrite Hid, Hacct. simpl. rewrite Hhex, (from_str_to_hex _ Hb). simpl. unfold as_u32.
  rewrite !Z.mod_small by lia. by rewrite Z.min_l by lia.
Qed.

Lemma rows_to_items l :
  (forall q, q ∈ l -> row_ok q) ->
  collect_results (map (row_to_item parse_uuid) l) = Ok (map item_of l).
Proof.
  induction l as [|q l IH]; intros Hl; simpl; [done|].
  rewrite row_to_item_ok by set_solver. simpl. by rewrite IH by set_solver.
Qed.

Lemma due_queue_items_run now limit d :
  (forall q, q ∈ queue d -> row_ok q) ->
  due_queue_items parse_uuid now limit d
  = (Ok (map item_of (List.filter (claimed (claim_ids now limit d)) (queue d))),
     on_queue (update_where (claimed (claim_ids now limit d)) (set_status "sending" now)) d).
Proof.
  intros Hok. unfold due_queue_items. rewrite rows_to_items; [done|].
  intros q [Hq _]%elem_of_filter_bool. by apply Hok.
Qed.

(** A poll hands out min(limit, due) items, all of them queued and due, the
    most urgent ones (chat first, then oldest); their rows are marked sending
    in the same statement, so an immediate second poll hands out none of them. *)
Lemma claim_spec now limit d :
  (0 <= limit < 2 ^ 63)%Z ->
  NoDup (map q_id (queue d)) -> (forall q, q ∈ queue d -> row_ok q) ->
  exists items d',
    due_queue_items parse_uuid now limit d = (Ok items, d')
    /\ length items = (Z.to_nat limit `min` length (List.filter (due now) (queue d)))%nat
    /\ (forall it, it ∈ items -> exists q, q ∈ queue d /\ due now q = true /\ it = item_of q)
    /\ (forall q q', q ∈ queue d -> q' ∈ queue d -> due now q' = true ->
          item_of q ∈ items -> item_of q' ∉ items -> urgent_first q q' = true)
    /\ (forall now' limit' items' d'', due_queue_items parse_uuid now' limit' d' = (Ok items', d'') ->
          forall it it', it ∈ items -> it' ∈ items' -> qi_id it <> qi_id it').
Proof.
  intros Hlim Hnd Hok. set (ids := claim_ids now limit d).
  rewrite (due_queue_items_run _ _ _ Hok). fold ids. eexists _, _. split; [done|].
  assert (Hin : forall q, q ∈ queue d -> item_of q ∈ map item_of (List.filter (claimed ids) (queue d))
                <-> q_id q ∈ ids).
  { intros q Hq. rewrite elem_of_map. setoid_rewrite elem_of_filter_bool. setoid_rewrite claimed_elem. split.
    - intros (q' & [Hq' Hc] & Heq). injection Heq as Hid _. by rewrite Hid.
    - intros Hc. eauto. }
  split_and!.
  - rewrite length_map, filter_claimed_length; [by apply claim_count| | done|].
    + by apply claim_ids_NoDup.
    + intros i (q & Hq & <- & _)%claim_ids_due. apply elem_of_map. eauto.
  - intros it (q & [Hq Hc]%elem_of_filter_bool & ->)%elem_of_map. exists q.
    split_and!; [done| |done]. by eapply claimed_due.
  - intros q q' Hq Hq' Hdue Hc Hn. rewrite Hin in Hc, Hn by done.
    set (l := order_by urgent_first (List.filter (due now) (queue d))) in *.
    assert (Hids : ids = map q_id (take (Z.to_nat limit) l)).
    { unfold ids, claim_ids. by rewrite as_i64_small, sql_limit_take by lia. }
    assert (Hl : forall x, x ∈ l <-> x ∈ queue d /\ due now x = true).
    { intros x. unfold l. by rewrite order_by_elem, elem_of_filter_bool. }
    assert (Htake : forall x, x ∈ queue d -> q_id x ∈ ids <-> x ∈ take (Z.to_nat limit) l).
    { intros x Hx. rewrite Hids, elem_of_map. split; [|by eauto].
      intros (y & Hy & Heq). rewrite (NoDup_map_inj _ _ x y Hnd); try done.
      apply Hl. rewrite <- (take_drop (Z.to_nat limit) l), elem_of_app. by left. }
    apply (StronglySorted_take_drop (fun a b => urgent_first a b = true) l (Z.to_nat limit)).
    + apply order_by_Sorted; [apply urgent_first_total|apply urgent_first_trans].
    + by apply Htake.
    + assert (q' ∈ (take (Z.to_nat limit) l ++ drop (Z.to_nat limit) l)%list) as [H|H]%elem_of_app; [| |done].
      * rewrite take_drop. by apply Hl.
      * by apply Htake in H.
  - intros now' limit' items' d'' H it it' (q & [Hq Hc]%elem_of_filter_bool & ->)%elem_of_map Hit'.
    set (d' := on_queue _ d) in H.
    assert (Hnd' : NoDup (map q_id (queue d'))) by (simpl; by rewrite update_where_map by done).
    assert (Hit : exists q', q' ∈ queue d' /\ qi_id it' = q_id q' /\ due now' q' = true).
    { unfold due_queue_items in H. injection H as Hcol _.
      apply (collect_results_elem _ _ it') in Hcol; [|done].
      apply elem_of_map in Hcol as (x & [Hx Hcx]%elem_of_filter_bool & Hrow). symmetry in Hrow.
      assert (Hdx : due now' x = true) by (eapply claimed_due; done).
      exists x. split_and!; [done| |done].
      apply elem_of_update_where in Hx as (y & Hy & ->). pose proof (Hok _ Hy) as Hyok.
      unfold row_to_item in Hrow. destruct (claimed ids y); simpl in Hrow;
        rewrite (row_id _ Hyok), (row_account _ Hyok) in Hrow; simpl in Hrow;
        destruct (from_str (q_blob y)); simplify_eq/=; done. }
    destruct Hit as (q' & Hq' & -> & [Hst _]%due_queued). simpl. intros Heq.
    apply elem_of_update_where in Hq' as (y & Hy & ->).
    destruct (claimed ids y) eqn:Ey; [done|].
    rewrite <- (NoDup_map_inj _ _ _ _ Hnd Hq Hy Heq) in Ey. congruence.
Qed.
End Queue.

(** * The queue under several workers: the protocol of [spawn_worker] as a step
    relation on the queue and the items in the workers' hands, its safety, and
    the retry policy. *)

(** ** The retry policy *)

Section Policy.
Variable item_hash : string -> Z.

Lemma jitter_bound i delay :
  (0 <= delay)%Z ->
  (- delay <= 10 * jitter item_hash i delay <= delay)%Z.
Proof.
  intros Hd. unfold jitter. cbv zeta.
  pose proof (Z.mod_pos_bound (item_hash i) 21 ltac:(lia)) as Hm.
  set (frac := (item_hash i mod 21 - 10)%Z). assert (-10 <= frac <= 10)%Z as Hf by lia.
  assert (-10 * delay <= delay * frac <= 10 * delay)%Z as Hp by nia.
  set (p := (delay * frac)%Z) in *.
  pose proof (Z.quot_rem p 100 ltac:(lia)) as Hq.
  destruct (Z.le_gt_cases 0 p) as [Hs|Hs].
  - pose proof (Z.rem_bound_pos p 100 Hs ltac:(lia)). lia.
  - pose proof (Z.rem_bound_pos_neg p 100 ltac:(lia) ltac:(lia)). lia.
Qed.

Lemma schedule_delay (p : Z) n delay :
  (if (p =? 1)%Z then CHAT_BACKOFF else BACKOFF) !! n = Some delay ->
  (n < 9)%nat /\ (30 <= delay <= 61200)%Z.
Proof.
  intros H. assert (Hd : delay ∈ (if (p =? 1)%Z then CHAT_BACKOFF else BACKOFF))
    by (by eapply list_elem_of_lookup_2).
  assert (Hn : (n < length (if (p =? 1)%Z then CHAT_BACKOFF else BACKOFF))%nat)
    by (by eapply lookup_lt_Some).
  destruct (p =? 1)%Z; simpl in Hn; (split; [done|]); unfold CHAT_BACKOFF, BACKOFF in Hd;
    rewrite !elem_of_cons in Hd; destruct_or?; subst; try lia; by apply elem_of_nil in Hd.
Qed.

(** A success is final and so is a permanent error; any other error is
    retried while the schedule (nine delays) lasts, after the schedule's delay
    for that attempt give or take a tenth, and is final at the tenth attempt. *)
Lemma outcome_policy now item r :
  (0 <= qi_attempts item)%Z ->
  match outcome_of item_hash now item r with
  | OutDelivered => r = Ok tt
  | OutFailed _ => (exists w, r = Err (DPermanent w)) \/ (r <> Ok tt /\ 9 <= qi_attempts item)%Z
  | OutRetry _ next =>
      (exists e, r = Err e /\ forall w, e <> DPermanent w)
      /\ (qi_attempts item < 9)%Z
      /\ exists delay,
           (if (qi_priority item =? 1)%Z then CHAT_BACKOFF else BACKOFF) !! Z.to_nat (qi_attempts item)
             = Some delay
           /\ (9 * delay <= 10 * (next - now) <= 11 * delay)%Z /\ (now < next)%Z
  end.
Proof.
  intros Ha. unfold outcome_of. destruct r as [[]|e]; [done|].
  destruct (match e with DPermanent _ => true | _ => false end) eqn:Ep.
  { destruct e; try done. left. eauto. }
  assert (Hnp : forall w, e <> DPermanent w) by (intros w ->; done).
  assert (forall o, match e with DPermanent error => OutFailed error | _ => o end = o) as Hm
    by (intros; by destruct e).
  rewrite Hm. destruct (_ !! _) as [delay|] eqn:El.
  - destruct (schedule_delay _ _ _ El) as [Hn Hd]. split; [eauto|]. split; [lia|].
    exists delay. split; [done|]. pose proof (jitter_bound (qi_id item) delay ltac:(lia)). lia.
  - right. split; [done|]. apply lookup_ge_None in El.
    destruct (qi_priority item =? 1)%Z; simpl in El; lia.
Qed.
End Policy.

(** ** The pool of workers *)

Section Pool.
Variable parse_uuid : string -> option string.
Variable item_hash : string -> Z.
Abbreviation canonical := (canonical parse_uuid).
Abbreviation row_ok := (row_ok parse_uuid).

(** The queue, the workers running, the items claimed and not yet recorded, each with
    its worker, and the claims abandoned since the last reset. *)
Record Pool := mk_pool {
  p_db : Db;
  p_running : list nat;
  p_held : list (nat * QueueItem);
  p_lost : list string
}.

Definition held_ids (s : Pool) : list string := map (fun p => qi_id p.2) (p_held s).
Definition held_by (worker : nat) (p : nat * QueueItem) : bool := Nat.eqb p.1 worker.

(** The moves of [spawn_worker]'s task, of any number of workers in any number of
    processes.  Every worker resets the claims when it starts, whoever holds them, or
    goes on without if that fails; it polls when it has nothing in hand; an attempt
    ends with its outcome recorded, or not ([record_attempt] failed), and a worker may
    stop at any time with items in hand. *)
Inductive pool_step (s : Pool) : Pool -> Prop :=
  | pool_enqueue fresh now account blob mail_from recipient priority item d' :
      canonical fresh -> canonical account -> wf_blob_id blob -> (0 <= priority)%Z ->
      enqueue_with_priority fresh now account blob mail_from recipient priority (p_db s) = (Ok item, d') ->
      pool_step s (mk_pool d' (p_running s) (p_held s) (p_lost s))
  | pool_start worker now n d' :
      worker ∉ p_running s -> reset_stale_claims now (p_db s) = (Ok n, d') ->
      pool_step s (mk_pool d' (worker :: p_running s) (p_held s) [])
  | pool_start_blind worker :
      worker ∉ p_running s ->
      pool_step s (mk_pool (p_db s) (worker :: p_running s) (p_held s) (p_lost s))
  | pool_claim worker now limit items d' :
      worker ∈ p_running s -> List.filter (held_by worker) (p_held s) = [] ->
      due_queue_items parse_uuid now limit (p_db s) = (Ok items, d') ->
      pool_step s (mk_pool d' (p_running s) (p_held s ++ map (pair worker) items) (p_lost s))
  | pool_record before worker item after now r d' :
      p_held s = (before ++ (worker, item) :: after)%list ->
      record_attempt now (qi_id item) (outcome_of item_hash now item r) (p_db s) = (Ok tt, d') ->
      pool_step s (mk_pool d' (p_running s) (before ++ after) (p_lost s))
  | pool_unrecorded before worker item after :
      p_held s = (before ++ (worker, item) :: after)%list ->
      pool_step s (mk_pool (p_db s) (p_running s) (before ++ after) (qi_id item :: p_lost s))
  | pool_stop worker :
      pool_step s (mk_pool (p_db s) (List.filter (fun w => negb (Nat.eqb w worker)) (p_running s))
        (List.filter (fun p => negb (held_by worker p)) (p_held s))
        (map (fun p => qi_id p.2) (List.filter (held_by worker) (p_held s)) ++ p_lost s)).

(** No worker starts while an item is in someone's hands. *)
Definition orderly_step (s s' : Pool) : Prop :=
  pool_step s s' /\ ((length (p_running s) < length (p_running s'))%nat -> p_held s = []).

Record pool_ok (s : Pool) : Prop := {
  pool_ids : NoDup (map q_id (queue (p_db s)));
  pool_rows : forall q, q ∈ queue (p_db s) -> row_ok q;
  pool_held_ids : NoDup (held_ids s);
  pool_held : forall w it, (w, it) ∈ p_held s ->
    exists q, q ∈ queue (p_db s) /\ q_status q = "sending" /\ it = item_of q;
  pool_sending : forall q, q ∈ queue (p_db s) -> q_status q = "sending" -> q_id q ∈ held_ids s \/ q_id q ∈ p_lost s
}.

Lemma row_ok_status q st now :
  row_ok q -> live q -> st = "queued" \/ st = "sending" -> row_ok (set_status st now q).
Proof.
  intros [Hid Ha Hb Hp [[_ Hat]|[Hf _]]] Hl Hst; [|unfold live, final in *; naive_solver congruence].
  constructor; try done. left. split; [|done]. destruct Hst as [-> | ->]; [by left|by right].
Qed.

(** Recording an outcome keeps the row well formed: the tenth attempt is final. *)
Lemma row_ok_finish q now r :
  row_ok q -> q_status q = "sending" ->
  row_ok (match outcome_of item_hash now (item_of q) r with
          | OutDelivered => finish_row "delivered" None None now q
          | OutRetry e n => finish_row "queued" (Some e) (Some n) now q
          | OutFailed e => finish_row "failed" (Some e) None now q
          end).
Proof.
  intros [Hid Ha Hb Hp Hs] Hst.
  assert (0 <= q_attempts q <= 9)%Z as Hat
    by (destruct Hs as [[_ ?]|[[?|?] _]]; [done|congruence..]).
  pose proof (jitter_bound item_hash) as _.
  destruct (outcome_of item_hash now (item_of q) r) as [|e n|e] eqn:E; constructor; simpl; try done.
  - right. split; [by left|lia].
  - left. split; [by left|].
    unfold outcome_of in E. destruct r as [[]|err]; [done|].
    destruct ((if (qi_priority (item_of q) =? 1)%Z then CHAT_BACKOFF else BACKOFF)
                !! Z.to_nat (qi_attempts (item_of q))) as [delay|] eqn:El; [|by destruct err].
    apply schedule_delay in El as [Hn _]. simpl in Hn. lia.
  - right. split; [by right|lia].
Qed.

Lemma record_attempt_run now i item_outcome d :
  record_attempt now i item_outcome d
  = (Ok tt, on_queue (update_where (fun q => String.eqb (q_id q) i) (fun q =>
       match item_outcome with
       | OutDelivered => finish_row "delivered" None None now q
       | OutRetry e n => finish_row "queued" (Some e) (Some n) now q
       | OutFailed e => finish_row "failed" (Some e) None now q
       end)) d).
Proof. by destruct item_outcome. Qed.

Lemma finish_status now o q :
  q_status (match o with
            | OutDelivered => finish_row "delivered" None None now q
            | OutRetry e n => finish_row "queued" (Some e) (Some n) now q
            | OutFailed e => finish_row "failed" (Some e) None now q
            end) <> "sending".
Proof. by destruct o. Qed.

Lemma finish_id now o q :
  q_id (match o with
        | OutDelivered => finish_row "delivered" None None now q
        | OutRetry e n => finish_row "queued" (Some e) (Some n) now q
        | OutFailed e => finish_row "failed" (Some e) None now q
        end) = q_id q.
Proof. by destruct o. Qed.

Lemma enqueue_ok fresh now account blob mail_from recipient priority d item d' :
  enqueue_with_priority fresh now account blob mail_from recipient priority d = (Ok item, d') ->
  exists row, d' = on_queue (fun l => (l ++ [row])%list) d
    /\ q_id row = fresh /\ q_account row = account /\ q_blob row = to_hex blob
    /\ q_status row = "queued" /\ q_attempts row = 0%Z /\ q_priority row = Z.min priority 1
    /\ forall q, q ∈ queue d -> q_id q <> fresh.
Proof.
  unfold enqueue_with_priority. destruct (rsplit_once "@" recipient) as [[l dom]|]; [|done].
  intros H. inv_bind H. apply require_ok in E as (_ & -> & _).
  inv_bind H. apply require_ok in E as (Ht & -> & _). inv_bind H. apply modify_ok in E as ->.
  apply ret_ok in H as [-> ->]. eexists. split_and!; try done.
  intros q Hq. apply negb_true_iff in Ht. by apply String.eqb_neq, (existsb_false_elem _ _ _ Ht).
Qed.

Lemma filter_submseteq_bool {A} (f : A -> bool) l : List.filter f l ⊆+ l.
Proof. induction l as [|x l IH]; cbn; [done|]. destruct (f x); [by apply submseteq_skip|by apply submseteq_cons]. Qed.

(** Items leave the hands, their rows still marked. *)
Lemma pool_abandon s held lost running :
  pool_ok s -> held ⊆+ p_held s -> (forall i, i ∈ held_ids s -> i ∈ map (fun p => qi_id p.2) held \/ i ∈ lost) ->
  p_lost s ⊆ lost -> pool_ok (mk_pool (p_db s) running held lost).
Proof.
  intros [Hnd Hrows Hhn Hheld Hsend] Hsub Hids Hlost. constructor; cbn; [done|done| | |].
  - unfold held_ids in *. cbn. apply submseteq_Permutation in Hsub as [rest Hperm].
    rewrite Hperm, map_app in Hhn. by apply NoDup_app in Hhn as [? _].
  - intros w it Hin. eapply Hheld, elem_of_submseteq; [exact Hin|done].
  - intros q Hq Hst. destruct (Hsend q Hq Hst) as [Hh|Hl]; [by apply Hids|right; by apply Hlost].
Qed.

Lemma pool_step_ok s s' : orderly_step s s' -> pool_ok s -> pool_ok s'.
Proof.
  intros [Hs Hquiet] Hok. pose proof Hok as [Hnd Hrows Hhn Hheld Hsend]. destruct Hs as
    [fresh now account blob mf rc pr item d' Hcf Hca Hwb Hpr He
    |worker now n d' _ Hr|worker _|worker now limit items d' _ _ Hc|before worker item after now r d' Hheldeq Hr
    |before worker item after Hheldeq|worker].
  - apply enqueue_ok in He as (row & -> & Hid & Ha & Hb & Hst & Hat & Hp & Hnew).
    constructor; simpl; [|intros q [Hq| ->%list_elem_of_singleton]%elem_of_app| | |].
    + apply NoDup_map_snoc; [done|]. intros q Hq. rewrite Hid. by apply Hnew.
    + by apply Hrows.
    + constructor; rewrite ?Hid, ?Ha, ?Hb, ?Hp, ?Hat; [done|done|eauto|lia|].
      left. split; [by left|lia].
    + done.
    + intros w it Hin. destruct (Hheld _ _ Hin) as (q & ? & ? & ?). exists q. set_solver.
    + intros q [Hq| ->%list_elem_of_singleton]%elem_of_app Hq'; [by apply Hsend|congruence].
  - cbn in Hquiet. unfold reset_stale_claims in Hr. injection Hr as _ <-. constructor; simpl.
    + by rewrite update_where_map by done.
    + intros q' (q & Hq & ->)%elem_of_update_where. destruct (is_sending q) eqn:E; [|by apply Hrows].
      apply String.eqb_eq in E. apply row_ok_status; [by apply Hrows|by right|by left].
    + unfold held_ids. cbn. rewrite Hquiet by (cbn; lia). apply NoDup_nil_2.
    + rewrite Hquiet by (cbn; lia). intros w it Hin. by apply elem_of_nil in Hin.
    + intros q' (q & Hq & ->)%elem_of_update_where. destruct (is_sending q) eqn:E; [done|].
      apply String.eqb_neq in E. done.
  - constructor; cbn; done.
  - rewrite due_queue_items_run in Hc by done. injection Hc as <- <-.
    set (ids := claim_ids now limit (p_db s)).
    assert (Hcl : forall q, q ∈ queue (p_db s) -> claimed ids q = true -> q_status q = "queued").
    { intros q Hq Hci. eapply claimed_due, due_queued in Hci; naive_solver. }
    constructor; simpl.
    + by rewrite update_where_map by done.
    + intros q' (q & Hq & ->)%elem_of_update_where. destruct (claimed ids q) eqn:E; [|by apply Hrows].
      apply row_ok_status; [by apply Hrows|left; by apply Hcl|by right].
    + unfold held_ids. simpl. rewrite map_app, !map_map. apply NoDup_app. split_and!; [done| |].
      * intros i (p & Hp & ->)%elem_of_map (q & [Hq Hci]%elem_of_filter_bool & Heq)%elem_of_map.
        destruct p as [w it]. destruct (Hheld _ _ Hp) as (q' & Hq' & Hst & ->). simpl in Heq.
        rewrite (NoDup_map_inj _ _ _ _ Hnd Hq' Hq Heq) in Hst. rewrite Hcl in Hst; done.
      * eapply (NoDup_map_sub q_id); [exact Hnd|]. eexists. apply filter_split.
    + intros w it [Hin|(i & Hi & [= -> ->])%elem_of_map]%elem_of_app.
      * destruct (Hheld _ _ Hin) as (q & Hq & Hst & ->). exists q. split; [|done].
        apply elem_of_update_where. exists q. split; [done|].
        destruct (claimed ids q) eqn:E; [|done]. rewrite Hcl in Hst; done.
      * apply elem_of_map in Hi as (q & [Hq Hci]%elem_of_filter_bool & ->).
        exists (set_status "sending" now q). split; [|done]. apply elem_of_update_where.
        exists q. by rewrite Hci.
    + intros q' (q & Hq & ->)%elem_of_update_where Hst. unfold held_ids. simpl.
      rewrite map_app, map_map, elem_of_app. destruct (claimed ids q) eqn:E.
      * left. right. apply elem_of_map. exists (item_of q). split; [|done]. apply elem_of_map.
        exists q. split; [|done]. by apply elem_of_filter_bool.
      * destruct (Hsend q Hq Hst) as [Hh|Hl]; [left; by left|by right].
  - rewrite record_attempt_run in Hr. injection Hr as <-.
    destruct (Hheld worker item) as (q0 & Hq0 & Hst0 & ->); [rewrite Hheldeq; set_solver|].
    unfold held_ids in Hhn. rewrite Hheldeq, map_app in Hhn. simpl in Hhn.
    rewrite <- Permutation_middle in Hhn. apply NoDup_cons in Hhn as [Hout Hhn].
    rewrite <- map_app in Hout, Hhn.
    constructor; simpl.
    + rewrite update_where_map; [done|]. intros q. apply finish_id.
    + intros q' (q & Hq & ->)%elem_of_update_where. destruct (String.eqb (q_id q) (q_id q0)) eqn:E;
        [|by apply Hrows]. apply String.eqb_eq in E.
      rewrite (NoDup_map_inj _ _ _ _ Hnd Hq Hq0 E). apply row_ok_finish; [by apply Hrows|done].
    + exact Hhn.
    + intros w it Hin. destruct (Hheld w it) as (q & Hq & Hst & ->); [rewrite Hheldeq; set_solver|].
      exists q. split; [|done]. apply elem_of_update_where. exists q. split; [done|].
      destruct (String.eqb (q_id q) (q_id q0)) eqn:E; [|done]. apply String.eqb_eq in E.
      exfalso. apply Hout, elem_of_map. exists (w, item_of q). split; [done|]. by simpl.
    + intros q' (q & Hq & ->)%elem_of_update_where. destruct (String.eqb (q_id q) (q_id q0)) eqn:E.
      * intros H. by apply finish_status in H.
      * intros Hst. apply Hsend in Hst; [|done]. unfold held_ids in *. rewrite Hheldeq in Hst. simpl.
        rewrite map_app in *. simpl in Hst. rewrite elem_of_app, elem_of_cons in *.
        apply String.eqb_neq in E. naive_solver.
  - apply (pool_abandon s); [done| | |set_solver].
    + rewrite Hheldeq. apply submseteq_app; [done|]. by apply submseteq_cons.
    + unfold held_ids. rewrite Hheldeq, !map_app. cbn. set_solver.
  - apply (pool_abandon s); [done| | |set_solver].
    + apply filter_submseteq_bool.
    + intros i (p & Hp & ->)%elem_of_map. rewrite elem_of_app, !elem_of_map.
      setoid_rewrite elem_of_filter_bool. destruct (held_by worker p) eqn:E; [right; left|left]; exists p; by rewrite ?E.
Qed.

Lemma pool_start_ok d : queue d = [] -> pool_ok (mk_pool d [] [] []).
Proof.
  intros Hq. constructor; simpl; rewrite ?Hq; try apply NoDup_nil_2; intros *; by intros ?%elem_of_nil.
Qed.

Lemma reachable_pool_ok d s : queue d = [] -> rtc orderly_step (mk_pool d [] [] []) s -> pool_ok s.
Proof.
  intros Hq Hr. assert (H0 : pool_ok (mk_pool d [] [] [])) by (by apply pool_start_ok).
  revert H0. induction Hr as [|s1 s2 s3 Hs _ IH]; [done|]. intros H0. apply IH. by eapply pool_step_ok.
Qed.


(** The exclusion ends where a second process starts its worker: resetting
    the stale claims takes live ones too, and the next poll hands an item that
    another worker is delivering out again. *)
Lemma second_start_doubles s now w it :
  pool_ok s -> (w, it) ∈ p_held s -> (qi_next_attempt it <= now)%Z ->
  (Z.of_nat (length (queue (p_db s))) < 2 ^ 63)%Z ->
  exists items, fst ((_ <- reset_stale_claims now ;;
                      due_queue_items parse_uuid now (Z.of_nat (length (queue (p_db s))))) (p_db s))
                = Ok items /\ it ∈ items.
Proof.
  intros [Hnd Hrows Hhn Hheld Hsend] Hin Hnext Hlen. destruct (Hheld _ _ Hin) as (q & Hq & Hst & ->).
  unfold bind, reset_stale_claims. set (d' := on_queue _ (p_db s)).
  assert (Hrows' : forall q, q ∈ queue d' -> row_ok q).
  { intros q' (q1 & Hq1 & ->)%elem_of_update_where. destruct (is_sending q1) eqn:E; [|by apply Hrows].
    apply String.eqb_eq in E. apply row_ok_status; [by apply Hrows|by right|by left]. }
  rewrite due_queue_items_run by done. eexists. split; [done|].
  set (q' := set_status "queued" now q).
  assert (Hq' : q' ∈ queue d').
  { apply elem_of_update_where. exists q. split; [done|]. unfold is_sending. by rewrite Hst. }
  apply elem_of_map. exists q'. split; [|done]. apply elem_of_filter_bool. split; [done|].
  apply claimed_elem. unfold claim_ids. apply elem_of_map. exists q'. split; [|done].
  rewrite MailQueryFacts.as_i64_small, MailQueryFacts.sql_limit_take by lia. rewrite take_ge.
  - apply order_by_elem, elem_of_filter_bool. split; [done|]. by apply due_queued.
  - rewrite Nat2Z.id, (Permutation_length (order_by_Permutation _ _)).
    transitivity (length (queue d')); [|unfold d'; simpl; unfold update_where; by rewrite length_map].
    apply List.filter_length_le.
Qed.
End Pool.
