(* ===== verification/DeliveryFacts.v ===== *)
(** Correctness of one delivery: relay order, the classification of errors, the
    report sent to the sender, and the whole of [process_item]. *)
From S2P Require Import Prelude Text Bytes Ident Store StoreFacts Mail MailFacts History Queue Delivery.

Open Scope string_scope.

(** ** Relays *)

Definition temporary (e : DeliveryError) : Prop := forall w, e <> DPermanent w.

Definition answers (net : Relay -> RelayBehaviour) (r : Relay) (e : DeliveryError) : Prop :=
  deliver_to (net r) = Err e.

(** Relays are tried in the resolver's order: the message is delivered by
    the first one that takes it, provided every relay before it failed for a
    temporary reason; the first permanent refusal before that ends the attempt;
    and otherwise every relay was tried and the last error is reported. *)
Lemma try_relays_order net relays last :
  match try_relays net relays last with
  | Ok _ => exists before r after,
      relays = (before ++ r :: after)%list /\ deliver_to (net r) = Ok tt
      /\ forall r', r' ∈ before -> exists e, answers net r' e /\ temporary e
  | Err (DPermanent w) =>
      (exists before r after,
        relays = (before ++ r :: after)%list /\ answers net r (DPermanent w)
        /\ forall r', r' ∈ before -> exists e, answers net r' e /\ temporary e)
      \/ (relays = [] /\ last = Some (DPermanent w))
  | Err e =>
      (forall r, r ∈ relays -> exists e', answers net r e' /\ temporary e')
      /\ match List.last (map Some relays) None with
         | Some r => answers net r e
         | None => e = default (DTemporary "no relay reachable") last
         end
  end.
Proof.
  revert last. induction relays as [|r relays IH]; intros last; simpl.
  - destruct (default _ last) as [| | | |w|] eqn:E; try (split; [by intros r ?%elem_of_nil|done]).
    right. split; [done|]. destruct last; simpl in E; congruence.
  - destruct (deliver_to (net r)) as [[]|e] eqn:Ed.
    + exists [], r, relays. split_and!; [done|done|]. by intros r' ?%elem_of_nil.
    + destruct (match e with DPermanent _ => true | _ => false end) eqn:Ep.
      { destruct e; try done. left. exists [], r, relays.
        split_and!; [done|done|]. by intros r' ?%elem_of_nil. }
      assert (Ht : temporary e) by (intros w ->; done).
      assert (Hm : match e with DPermanent w => Err (DPermanent w) | _ => try_relays net relays (Some e) end
                   = try_relays net relays (Some e)) by (by destruct e).
      rewrite Hm. clear Hm. specialize (IH (Some e)).
      assert (Hhead : forall r', r' = r -> exists e', answers net r' e' /\ temporary e')
        by (intros r' ->; by exists e).
      assert (Hlast : match List.last (map Some relays) None with
                      | Some r' => List.last (Some r :: map Some relays) None = Some r'
                      | None => List.last (Some r :: map Some relays) None = Some r
                      end).
      { clear. destruct relays as [|r1 relays]; [done|].
        change (List.last (Some r :: map Some (r1 :: relays)) None)
          with (List.last (map Some (r1 :: relays)) None).
        destruct (List.last (map Some (r1 :: relays)) None) eqn:E; [done|].
        exfalso. revert r1 E. induction relays as [|r2 relays IH]; intros r1 E; [done|].
        by apply (IH r2). }
      destruct (try_relays net relays (Some e)) as [[]|e'] eqn:Et.
      * destruct IH as (b & r0 & a & -> & Hok & Hb). exists (r :: b), r0, a.
        split_and!; [done|done|]. intros r' [->|Hr']%elem_of_cons; [by apply Hhead|by apply Hb].
      * destruct (match e' with DPermanent _ => true | _ => false end) eqn:Ep'.
        { destruct e' as [| | | |w|]; try done. destruct IH as [(b & r0 & a & -> & Hok & Hb)|[_ [= ->]]].
          - left. exists (r :: b), r0, a. split_and!; [done|done|].
            intros r' [->|Hr']%elem_of_cons; [by apply Hhead|by apply Hb].
          - by destruct (Ht w). }
        assert (Hsuff : (forall r', r' ∈ r :: relays -> exists e', answers net r' e' /\ temporary e')
          /\ match List.last (Some r :: map Some relays) None with
             | Some r' => answers net r' e'
             | None => e' = default (DTemporary "no relay reachable") last
             end); [|by destruct e'].
        assert (IH' : (forall r0, r0 ∈ relays -> exists e', answers net r0 e' /\ temporary e')
          /\ match List.last (map Some relays) None with
             | Some r0 => answers net r0 e'
             | None => e' = e
             end) by (by destruct e').
        destruct IH' as [Hall Hl]. split.
        -- intros r' [->|Hr']%elem_of_cons; [by apply Hhead|by apply Hall].
        -- destruct (List.last (map Some relays) None) as [r0|]; rewrite Hlast; [done|by subst].
Qed.

(** ** Errors *)

Lemma parse_enhanced_status_shape err code :
  parse_enhanced_status err = Some code -> code ∈ split_whitespace err /\ is_enhanced code = true.
Proof. apply find_Some_elem. Qed.

(** The class and subject of an enhanced status. *)
Lemma is_enhanced_chars code :
  is_enhanced code = true ->
  exists a c e, code = String a (String "." (String c (String "." (String e ""))))
    /\ is_digit a = true /\ is_digit c = true /\ is_digit e = true.
Proof.
  destruct code as [|a [|b [|c [|d [|e [|]]]]]]; try done. simpl.
  rewrite !andb_true_iff. intros [[[[? Hb%Ascii.eqb_eq] ?] Hd%Ascii.eqb_eq] ?]. subst. eauto 8.
Qed.

(** The retry decision for an SMTP error.  Bad credentials never retry; an
    enhanced status decides when its class is 4 or 5, 5.2.x (mailbox) being
    retried like 4.x.x; anything else falls back to the reply code. *)
Lemma map_send_error_spec e :
  (map_send_error e = DPermanent (rendered e) \/ map_send_error e = DTemporary (rendered e))
  /\ match e with
     | AuthenticationFailed _ => map_send_error e = DPermanent (rendered e)
     | _ =>
         match parse_enhanced_status (rendered e) with
         | Some (String "5" (String _ (String "2" _))) => map_send_error e = DTemporary (rendered e)
         | Some (String "5" _) => map_send_error e = DPermanent (rendered e)
         | Some (String "4" _) => map_send_error e = DTemporary (rendered e)
         | _ => map_send_error e = DPermanent (rendered e) <->
                exists code dbg r, e = UnexpectedReply code dbg r /\ (500 <= code)%Z
         end
     end.
Proof.
  assert (Hfall : forall e', (match e' with
      | UnexpectedReply code _ _ => if (500 <=? code)%Z then DPermanent (rendered e') else DTemporary (rendered e')
      | _ => DTemporary (rendered e') end = DPermanent (rendered e') <->
      exists code dbg r, e' = UnexpectedReply code dbg r /\ (500 <= code)%Z)
    /\ (match e' with
      | UnexpectedReply code _ _ => if (500 <=? code)%Z then DPermanent (rendered e') else DTemporary (rendered e')
      | _ => DTemporary (rendered e') end = DPermanent (rendered e')
      \/ match e' with
      | UnexpectedReply code _ _ => if (500 <=? code)%Z then DPermanent (rendered e') else DTemporary (rendered e')
      | _ => DTemporary (rendered e') end = DTemporary (rendered e'))).
  { intros [code dbg r|r|r]; simpl; [|naive_solver..].
    destruct (500 <=? code)%Z eqn:E; [apply Z.leb_le in E|apply Z.leb_gt in E];
      (split; [split; [try done|]|auto]); [eauto 6| |intros (c & ? & ? & [= -> -> ->] & ?); lia]. done. }
  destruct e as [code dbg r|r|r]; [|simpl; auto|];
    [pose proof (Hfall (UnexpectedReply code dbg r)) as [H1 H2]|pose proof (Hfall (OtherSendError r)) as [H1 H2]];
    unfold map_send_error; simpl in *;
    (destruct (parse_enhanced_status r) as [st|] eqn:E; [|done]);
    apply parse_enhanced_status_shape in E as [_ (a & c & x & -> & Ha & Hc & _)%is_enhanced_chars];
    unfold nth_char; simpl;
    (destruct (Ascii.eqb a "5") eqn:Ea;
      [apply Ascii.eqb_eq in Ea as ->; destruct (Ascii.eqb c "2") eqn:Ec;
        [apply Ascii.eqb_eq in Ec as ->; by auto|]; split; [by auto|];
        revert Ec Hc; clear; destruct c as [[] [] [] [] [] [] [] []]; by intros ?|]);
    (destruct (Ascii.eqb a "4") eqn:E4; [apply Ascii.eqb_eq in E4 as ->; by auto|]);
    (split; [done|]); revert Ha Ea E4 H1; clear; destruct a as [[] [] [] [] [] [] [] []]; by intros ?.
Qed.

(** ** The report *)

Lemma no_crlf_of_printable s : printable s = true -> str_filter is_crlf s = "".
Proof.
  induction s as [|c s IH]; [done|]. unfold printable. simpl.
  rewrite andb_true_iff, negb_true_iff. intros [Hc Hs].
  assert (is_crlf c = false) as ->; [|by apply IH].
  revert Hc. clear. destruct c as [[] [] [] [] [] [] [] []]; done.
Qed.

Lemma no_crlf_replace r s : str_filter is_crlf r = "" -> str_filter is_crlf (replace_char is_crlf r s) = "".
Proof.
  intros Hr. induction s as [|c s IH]; [done|]. cbn [replace_char]. rewrite str_filter_app, IH.
  destruct (is_crlf c) eqn:E; [by rewrite Hr|]. simpl. by rewrite E.
Qed.

Lemma no_crlf_status err : str_filter is_crlf (default "5.0.0" (parse_enhanced_status err)) = "".
Proof.
  destruct (parse_enhanced_status err) as [code|] eqn:E; [|done]. simpl.
  apply parse_enhanced_status_shape in E as [_ (a & c & x & -> & Ha & Hc & Hx)%is_enhanced_chars].
  assert (Hd : forall y, is_digit y = true -> is_crlf y = false).
  { intros y. destruct y as [[] [] [] [] [] [] [] []]; done. }
  simpl. by rewrite !Hd.
Qed.

Lemma no_crlf_date unix : str_filter is_crlf (default "" (rfc2822_utc unix)) = "".
Proof.
  destruct (rfc2822_utc unix) as [d|] eqn:E; [|done]. simpl.
  by apply no_crlf_of_printable, (rfc2822_utc_printable unix).
Qed.

Lemma no_crlf_pretty (z : Z) : str_filter is_crlf (pretty z) = "".
Proof. apply no_crlf_of_printable, printable_pretty. Qed.

(** No header or part can be smuggled into the delivery report: whatever
    the relay's error text, the envelope sender, the recipient and the time,
    the line breaks of the report are those of the template. *)
Lemma build_dsn_no_injection hostname now item error :
  str_filter is_crlf hostname = "" ->
  str_filter is_crlf (build_dsn hostname now item error (default "5.0.0" (parse_enhanced_status error)))
  = str_filter is_crlf (build_dsn "mx" 0 (mk_item "" "" [] "" "" "" 0 0 0) "" "5.0.0").
Proof.
  intros Hh. transitivity (str_filter is_crlf
    (build_dsn "" 0 (mk_item "" "" [] "" "" "" 0 0 0) "" "5.0.0")); [|by vm_compute].
  unfold build_dsn. cbv zeta. rewrite !str_filter_app.
  rewrite Hh, !no_crlf_date, !no_crlf_pretty, !no_crlf_status, !no_crlf_replace by done.
  by vm_compute.
Qed.

(** ** One item, start to end *)

Section Process.
Variable parse_uuid : string -> option string.
Variable parse_message : list Z -> option ParsedMessage.
Context `{BlobStore}.
Variable item_hash : string -> Z.
Variable hostname : string.

(** The row after an outcome. *)
Definition recorded (now : Z) (o : AttemptOutcome) : QueueRow -> QueueRow :=
  match o with
  | OutDelivered => finish_row "delivered" None None now
  | OutRetry e n => finish_row "queued" (Some e) (Some n) now
  | OutFailed e => finish_row "failed" (Some e) None now
  end.

Definition announced (item : QueueItem) (o : AttemptOutcome) : Event :=
  Delivery (qi_account item) (qi_id item)
    match o with
    | OutDelivered => Delivered (qi_recipient item)
    | OutRetry e _ => TemporaryFailure (qi_recipient item) e
    | OutFailed e => PermanentFailure (qi_recipient item) e
    end.

(** Filing a message leaves the queue alone. *)
Lemma ingest_queue fresh now acct raw target auth chat w r w' :
  wf parse_uuid (db w) ->
  ingest_email_into parse_uuid parse_message fresh now acct raw target auth chat w = (r, w') ->
  queue (db w') = queue (db w).
Proof.
  intros Hd Hi.
  assert (exists b, db (snd (put_blob now raw w)) = on_blobs (fun _ => b) (db w)) as (b & Hb).
  { unfold put_blob. destruct (blob_put raw (blob_files w)) as [[j|e] f]; simpl; [by eexists|].
    exists (blobs (db w)). by destruct (db w). }
  apply ingest_cases in Hi as [(e & -> & [-> | ->])|(i & blob & changed & d1 & l & -> & _ & Htx & -> & _)].
  - done.
  - by rewrite Hb.
  - apply ingest_tx_ok in Htx as (found & mb & _ & _ & _ & _ & _ & Hc & _); [|by apply put_blob_wf].
    simpl. rewrite (com_queue _ _ _ _ _ _ _ _ _ _ _ _ _ Hc). by rewrite Hb.
Qed.

(** The world once the row is updated. *)
Definition after_record (now : Z) (o : AttemptOutcome) (item : QueueItem) (w : World) : World :=
  mk_world (on_queue (update_where (fun q => String.eqb (q_id q) (qi_id item)) (recorded now o)) (db w))
    (blob_files w) (index_tasks w).

(** The report a failure is answered with. *)
Definition report (now : Z) (item : QueueItem) (error : string) : list Z :=
  bytes_of (build_dsn hostname now item error (default "5.0.0" (parse_enhanced_status error))).

(** The sender's report, after the world went from [w] to [w']: filed in the
    inbox of the sender's account as one new mail holding it, its states
    announced; or, when the storage refused it, absent. *)
Definition reported (fresh : Fresh) (now : Z) (item : QueueItem) (error : string) (w w' : World)
    (r : result StorageError IngestedEmail) : Prop :=
  let acct := qi_account item in
  let dsn := report now item error in
  let announcement := announced item (OutFailed error) in
  match r with
  | Ok i => exists mb,
      mb ∈ mailboxes (db w) /\ target_matches acct (Role "inbox") mb
      /\ emails (db w') = (emails (db w) ++
           [new_email fresh now acct (parse_meta parse_message dsn) (Z.of_nat (length dsn)) (in_blob i)
              None false (in_thread i) (state_of acct Email (db w'))])%list
      /\ email_mailbox (db w') = (email_mailbox (db w) ++ [(in_id i, m_id mb)])%list
      /\ published (db w') = (published (db w) ++
           [StateChange acct [(Email, state_of acct Email (db w')); (Thread, state_of acct Thread (db w'));
                              (Mailbox, state_of acct Mailbox (db w'))]; announcement])%list
  | Err _ => emails (db w') = emails (db w) /\ email_mailbox (db w') = email_mailbox (db w)
             /\ published (db w') = (published (db w) ++ [announcement])%list
  end.

Lemma bounce_reports fresh now item error w :
  wf parse_uuid (db w) ->
  let o := OutFailed error in
  let filing := ingest_email parse_uuid parse_message fresh now (qi_account item) (report now item error)
                  "inbox" None (after_record now o item w) in
  let w' := snd (on_db (publish (announced item o)) (snd filing)) in
  bounce parse_uuid parse_message hostname fresh now item error (after_record now o item w)
    = (Ok tt, snd filing)
  /\ queue (db w') = queue (db (after_record now o item w))
  /\ reported fresh now item error w w' (fst filing).
Proof.
  intros Hd o filing w'. split; [done|].
  assert (Hd1 : wf parse_uuid (db (after_record now o item w))) by (by apply (wf_frame _ (db w))).
  unfold w', ingest_email in *. clear w'. unfold ingest_email in filing.
  destruct filing as [r w2] eqn:Ei. unfold filing in Ei. clear filing. simpl.
  split; [by eapply ingest_queue in Ei|].
  apply ingest_run in Ei; [|done]. unfold reported. destruct r as [i|e].
  - destruct Ei as (mb & Hmb & Htm & He & Hp & _ & _ & Hpub & Hid & _). exists mb.
    split_and!; [done|done|exact He|exact Hp|]. simpl. rewrite Hpub. by rewrite <- app_assoc.
  - destruct Ei as (b & Hb). simpl. by rewrite Hb.
Qed.

(** C27: The worker never drops an item silently.  Whatever the blob store, the
    resolver and the relays do, processing returns.  If the outcome cannot be
    recorded nothing else happens: nothing is reported, nothing announced, and the
    claim stays.  Otherwise the item's row (and no other) records the outcome with
    one more attempt, and the outcome is announced last on the bus, to the item's
    account and under its id.  Delivered and deferred items cause nothing else.  A
    final failure first files the delivery report for that very error in the inbox
    of the sender's account, as one new mail with its own state announcement; it
    is missing only if the storage refuses to ingest it. *)
Theorem process_item_spec fresh now resolve net unrecorded item w :
  wf parse_uuid (db w) ->
  let o := outcome_of item_hash now item (attempt w resolve net item) in
  exists w',
    process_item parse_uuid parse_message item_hash hostname fresh now resolve net unrecorded item w
      = (Ok tt, w')
    /\ match unrecorded with
       | Some _ => w' = w
       | None =>
           queue (db w') = update_where (fun q => String.eqb (q_id q) (qi_id item)) (recorded now o) (queue (db w))
           /\ match o with
              | OutFailed error =>
                  reported fresh now item error w w'
                    (fst (ingest_email parse_uuid parse_message fresh now (qi_account item)
                            (report now item error) "inbox" None (after_record now o item w)))
              | _ => db w' = on_published (fun es => (es ++ [announced item o])%list)
                               (db (after_record now o item w))
                     /\ blob_files w' = blob_files w
              end
       end.
Proof.
  intros Hd o. unfold process_item. unfold bind at 1, gets. fold o.
  destruct unrecorded as [e|]; [by eexists|].
  assert (Hrec : on_db (record_attempt now (qi_id item) o) w = (Ok tt, after_record now o item w))
    by (unfold on_db, after_record; by destruct o).
  unfold bind at 1. rewrite Hrec. clear Hrec. clearbody o. destruct o as [|error next|error].
  - eexists. by split_and!.
  - eexists. by split_and!.
  - destruct (bounce_reports fresh now item error w Hd) as (Hb & Hq & Hr).
    unfold bind at 1. rewrite Hb. eexists. split; [done|]. split; [exact Hq|exact Hr].
Qed.
End Process.
