(* ===== verification/McpFacts.v ===== *)
(** What an agent can do through the Model Context Protocol server: only to the account
    its token belongs to, without mail going out unless the token may send; and what
    the catalog says of a tool holds of it. *)
From S2P Require Import Prelude Text Bytes Ident Json Store StoreFacts Mail MailQueries MailFacts UpdateFacts MailQueryFacts Spam Queue Delivery QueueFacts DeliveryFacts Attributes JmapMail JmapIsolation Ics Ai AiFacts Mcp.

Open Scope string_scope.

(** ** The outbound queue under an update *)

Definition queue_same (d d' : Db) : Prop := queue d' = queue d.
#[export] Instance queue_same_pre : PreOrder queue_same.
Proof. split; [by intros d|]. intros a b c. unfold queue_same. congruence. Qed.

Ltac queue_step :=
  match goal with
  | |- keeps _ (transaction _) => apply keeps_transaction; [apply _|]
  | |- keeps _ (bind _ _) => apply keeps_bind; [apply _| |intros ?]
  | |- keeps _ (for_each _ _) => apply keeps_for_each; [apply _|intros ?]
  | |- keeps _ (modify _) => by apply keeps_modify
  | |- keeps _ (match ?x with _ => _ end) => destruct x
  | |- keeps _ (ensure ?b _) => unfold ensure; destruct b
  | |- keeps _ (require _ _) => apply require_keeps, _
  | |- keeps _ _ => by apply keeps_pure; [apply _|]
  end.

Lemma bump_queue account t : keeps queue_same (bump account t).
Proof. unfold bump. do 2 queue_step; [queue_step..|]. by intros d r d' [= _ <-]. Qed.

Lemma update_email_queue account i kws mbs : keeps queue_same (update_email account i kws mbs).
Proof.
  unfold update_email, update_email_tx, replace_keywords, replace_mailboxes, check_mailbox,
    insert_keyword, insert_email_mailbox, publish.
  repeat (first [apply bump_queue|queue_step]).
Qed.

Section McpFacts.
Context `{BlobStore} {N : Type}.
Variable parse_uuid : string -> option string.
Variable parse_message : list Z -> option ParsedMessage.
Variable parse_mail : list Z -> option AiMessage.
Variable value_to_text : Value -> string.
Variable read_text : string -> result string Value.
Variables (now_at : nat -> Z) (fresh_at : nat -> Fresh) (uuid_at : nat -> string).
Variable package_version : string.
Hypothesis fresh_canonical : forall n, canonical parse_uuid (fresh_thread (fresh_at n)).
Hypothesis uuid_canonical : forall n, canonical parse_uuid (uuid_at n).
Abbreviation wf := (wf parse_uuid).
Abbreviation log_ok := (log_ok parse_uuid).
Abbreviation State := (AiState N).
Abbreviation ai_db s := (db (ms_world (ai_mail (N := N) s))).

(** ** Programs that only read *)

(** Nothing but the clock moved. *)
Definition at_rest (s s' : State) : Prop :=
  ms_world (ai_mail s') = ms_world (ai_mail s) /\ ms_chat (ai_mail s') = ms_chat (ai_mail s)
  /\ ms_attributes (ai_mail s') = ms_attributes (ai_mail s) /\ ai_log s' = ai_log s
  /\ ai_cursors s' = ai_cursors s /\ ai_net s' = ai_net s.
#[local] Instance at_rest_pre : PreOrder at_rest.
Proof. split; [by intros s|]. intros a b c. unfold at_rest. intros; destruct_and?; split_and!; congruence. Qed.

Lemma rest_call {A} h (m : action MailState StorageError A) :
  (forall ms, let ms' := snd (m ms) in ms_world ms' = ms_world ms /\ ms_chat ms' = ms_chat ms /\ ms_attributes ms' = ms_attributes ms) ->
  keeps at_rest (serving (N := N) h (on_mailstore m)).
Proof.
  intros Hm s r s'. unfold serving, on_mailstore. specialize (Hm (ai_mail s)). destruct (m (ai_mail s)) as [x ms].
  intros [= _ <-]. cbn in *. by destruct Hm as (? & ? & ?).
Qed.
Lemma rest_svc {A} (m : SM A) : (forall d, snd (m d) = d) -> keeps at_rest (svc (N := N) m).
Proof.
  intros Hm. apply rest_call. intros ms. unfold on_store, on_world, on_db. specialize (Hm (db (ms_world ms))).
  destruct (m _) as [x d]. cbn in *. subst d. by destruct (ms_world ms).
Qed.
Lemma rest_world {A} h (m : action World StorageError A) :
  (forall w, snd (m w) = w) -> keeps at_rest (serving (N := N) h (on_mailstore (on_world (fun _ => m)))).
Proof.
  intros Hm. apply rest_call. intros ms. unfold on_world. specialize (Hm (ms_world ms)).
  destruct (m _) as [x w]. cbn in *. by subst w.
Qed.
Lemma rest_attributes {A} h (m : action AttrDb StorageError A) :
  (forall d, snd (m d) = d) -> keeps at_rest (serving (N := N) h (on_mailstore (on_attributes (fun _ => m)))).
Proof.
  intros Hm. apply rest_call. intros ms. unfold on_attributes.
  specialize (Hm (mk_attr_db (db (ms_world ms)) (ms_attributes ms))). destruct (m _) as [x d]. cbn in *. subst d. cbn.
  by destruct (ms_world ms).
Qed.
Lemma rest_log {A} h (m : nat -> DM A) : (forall n d, snd (m n d) = d) -> keeps at_rest (serving (N := N) h (on_log m)).
Proof.
  intros Hm s r s'. unfold serving, on_log. cbv zeta. set (n := ms_ticks _). set (d := mk_act_db _ _ _).
  specialize (Hm n d). destruct (m n d) as [x d']. cbn in Hm. subst d'. intros [= _ <-].
  split_and!; try done. cbn. by destruct (ms_world (ai_mail s)).
Qed.

Ltac rest_step :=
  match goal with
  | |- keeps _ (bind _ _) => apply keeps_bind; [apply _| |intros ?]
  | |- keeps _ (svc _) => by apply rest_svc
  | |- keeps _ (serving _ (on_mailstore (on_world _))) => by apply rest_world
  | |- keeps _ (serving _ (on_mailstore (on_attributes _))) => by apply rest_attributes
  | |- keeps _ (serving _ (on_log _)) => by apply rest_log
  | |- keeps _ (match ?x with _ => _ end) => destruct x
  | |- keeps _ (let _ := _ in _) => cbv zeta
  | |- keeps _ _ => by apply keeps_pure; [apply _|]
  end.

Abbreviation dispatch := (dispatch parse_uuid parse_message parse_mail value_to_text read_text now_at fresh_at uuid_at (N := N)).
Abbreviation handle := (handle parse_uuid parse_message parse_mail value_to_text read_text now_at fresh_at uuid_at package_version (N := N)).

(** ** The catalog *)

Definition catalog : list string := map tool_name tools.
(** The arguments the schema of a tool requires, but for the recipients of a letter,
    which [list_arg] reads as no recipient when they are missing. *)
Definition required_args (t : Value) : list string :=
  match s ← field "inputSchema" t; r ← field "required" s; as_array r with
  | Some l => List.filter (fun k => negb (String.eqb k "to")) (flat_map (fun v => match as_str v with Some k => [k] | None => [] end) l)
  | None => []
  end.

Lemma search_rests ctx role limit : keeps at_rest (search parse_uuid (N := N) ctx role limit).
Proof. unfold search, known_ids. repeat rest_step. Qed.
Lemma get_thread_rests ctx i : keeps at_rest (get_thread parse_uuid (N := N) ctx i).
Proof. unfold get_thread. repeat rest_step. Qed.
Lemma get_email_rests ctx i : keeps at_rest (get_email parse_uuid parse_mail read_text (N := N) ctx i).
Proof. unfold get_email. repeat rest_step. Qed.

(** [dispatch] at a tool of the catalog. *)
Ltac at_tool :=
  match goal with |- context [tool_name ?t] => let n := eval vm_compute in (tool_name t) in change (tool_name t) with n end;
  cbv [Mcp.dispatch String.eqb Ascii.eqb Bool.eqb].

Lemma plain_tools_rest ctx args :
  Forall (fun t => field "annotations" t = None -> keeps at_rest (dispatch ctx (tool_name t) args)) tools.
Proof.
  unfold tools. repeat apply List.Forall_cons; try apply List.Forall_nil; intros Ha; try (by vm_compute in Ha);
    clear Ha; at_tool.
  - unfold list_mailboxes. repeat rest_step.
  - apply search_rests.
  - rest_step; [rest_step|apply get_email_rests].
  - rest_step; [rest_step|apply get_thread_rests].
  - rest_step; [rest_step|]. unfold summarize_thread. rest_step; [apply get_thread_rests|rest_step].
  - unfold get_ai_activity. repeat rest_step.
  - rest_step; [rest_step|apply search_rests].
Qed.

Lemma required_missing args k {A} (next : string -> action State ServiceError A) s :
  str_arg args k = None ->
  bind (lift (required args k)) next s = (Err (Invalid ("missing required argument " +:+ k)), s).
Proof. intros Hm. unfold bind, lift, required. by rewrite Hm. Qed.
Lemma required_given args k a {A} (next : string -> action State ServiceError A) s :
  str_arg args k = Some a -> bind (lift (required args k)) next s = next a s.
Proof. intros Hm. unfold bind, lift, required. by rewrite Hm. Qed.

(** Where the argument [k] is the second one asked for. *)
Ltac second_missing k Hm :=
  match goal with |- context [bind (lift (required ?args ?k1)) _ _] =>
    let E := fresh in
    destruct (str_arg args k1) as [?|] eqn:E;
      [exists k; rewrite (required_given _ _ _ _ _ E)|exists k1];
      (split; [by repeat constructor|]; split; [done|]; by apply required_missing) end.

Lemma missing_named ctx args s :
  Forall (fun t => forall k, k ∈ required_args t -> str_arg args k = None ->
    exists k', k' ∈ required_args t /\ str_arg args k' = None
      /\ dispatch ctx (tool_name t) args s = (Err (Invalid ("missing required argument " +:+ k')), s)) tools.
Proof.
  unfold tools. repeat apply List.Forall_cons; try apply List.Forall_nil; intros k Hk Hm;
    match type of Hk with _ ∈ ?l => let l' := eval vm_compute in l in change l with l' in * end;
    repeat (apply elem_of_cons in Hk as [-> |Hk]); try (by apply elem_of_nil in Hk); at_tool.
  all: try (eexists; split; [|split; [exact Hm|by apply required_missing]]; by repeat constructor).
  all: match type of Hm with str_arg _ ?k = None => second_missing k Hm end.
Qed.

Lemma unknown_tool ctx name args s :
  name ∉ catalog -> dispatch ctx name args s = (Err (Invalid ("unknown tool " +:+ name)), s).
Proof.
  intros Hn. unfold Mcp.dispatch.
  repeat match goal with |- context [String.eqb name ?x] =>
    destruct (String.eqb_spec name x) as [-> |?]; [exfalso; apply Hn; change catalog with (ltac:(let l := eval vm_compute in catalog in exact l)); by repeat constructor|] end.
  done.
Qed.

(** C23: The catalog tells the truth: a tool it does not annotate as one that writes
    leaves everything as it was; a tool called without an argument its schema requires
    (the recipients of a letter aside) names one that is missing and does nothing; a
    name that is not in the catalog is answered as unknown and does nothing. *)
Theorem catalog_is_honest ctx args s :
  (forall t, t ∈ tools -> field "annotations" t = None -> at_rest s (dispatch ctx (tool_name t) args s).2)
  /\ (forall t k, t ∈ tools -> k ∈ required_args t -> str_arg args k = None ->
       exists k', k' ∈ required_args t /\ str_arg args k' = None
         /\ dispatch ctx (tool_name t) args s = (Err (Invalid ("missing required argument " +:+ k')), s))
  /\ (forall name, name ∉ catalog -> dispatch ctx name args s = (Err (Invalid ("unknown tool " +:+ name)), s)).
Proof.
  split; [|split].
  - intros t Ht Ha. pose proof (proj1 (Forall_forall _ _) (plain_tools_rest ctx args) t Ht Ha) as Hk.
    destruct (dispatch ctx (tool_name t) args s) as [r s'] eqn:E. exact (Hk _ _ _ E).
  - intros t k Ht. exact (proj1 (Forall_forall _ _) (missing_named ctx args s) t Ht k).
  - intros name. apply unknown_tool.
Qed.

(** ** What a session may touch *)

(** From a sound state: the account's own mail and log only, and no letter on its way
    out without the right to send. *)
Definition confined (ctx : McpCtx) (s s' : State) : Prop :=
  wf (ai_db s) -> log_ok (ai_log s) ->
  others_mail (mc_account ctx) (ai_db s) (ai_db s') /\ wf (ai_db s')
  /\ rows_isolated ac_account (mc_account ctx) (ai_log s) (ai_log s') /\ log_ok (ai_log s')
  /\ ms_chat (ai_mail s') = ms_chat (ai_mail s) /\ ms_attributes (ai_mail s') = ms_attributes (ai_mail s)
  /\ ai_cursors s' = ai_cursors s
  /\ (mc_may_send ctx = false -> queue (ai_db s') = queue (ai_db s)).
#[local] Existing Instance rows_isolated_pre.
#[local] Instance confined_pre ctx : PreOrder (confined ctx).
Proof.
  split; [by intros s|]. intros s1 s2 s3 H1 H2 Hd Hl.
  destruct (H1 Hd Hl) as (O1 & W1 & R1 & L1 & C1 & A1 & K1 & Q1).
  destruct (H2 W1 L1) as (O2 & W2 & R2 & L2 & C2 & A2 & K2 & Q2).
  split; [by etransitivity|]. split; [done|]. split; [by etransitivity|]. split; [done|].
  split_and!; try congruence. intros Hs. by rewrite (Q2 Hs), (Q1 Hs).
Qed.

Section Confined.
Variable ctx : McpCtx.
Abbreviation ok := (keeps (confined ctx)).

Lemma rest_is_confined s s' : at_rest s s' -> confined ctx s s'.
Proof.
  intros (Hw & Hc & Ha & Hg & Hk & _) Hd Hl. rewrite Hw, Hg. split; [done|]. split; [done|]. split; [done|]. by split_and!.
Qed.

Lemma rest_confined {E A} (m : action State E A) : keeps at_rest m -> ok m.
Proof. intros Hm s r s' Hrun. exact (rest_is_confined _ _ (Hm _ _ _ Hrun)). Qed.

Lemma confined_serving {A} h (m : action State AiError A) : ok m -> ok (serving h m).
Proof.
  intros Hm s r s'. unfold serving. destruct (m s) as [x s1] eqn:E1. intros [= _ <-]. exact (Hm _ _ _ E1).
Qed.

Lemma confined_update i kws mbs : ok (ai_read (N := N) (update_email (mc_account ctx) i kws mbs)).
Proof.
  intros s r s'. unfold ai_read, on_mailstore, on_store, on_world, on_db.
  destruct (update_email _ _ _ _ _) as [x d] eqn:E1. intros [= _ <-] Hd Hl. cbn.
  destruct (update_email_within parse_uuid _ _ _ _ _ _ _ E1 Hd) as [Ho Hw]. split_and!; try done.
  intros _. exact (update_email_queue _ _ _ _ _ _ _ E1).
Qed.

(** A step on the log that changes the account's rows only. *)
Lemma confined_log {A} (m : nat -> DM A) :
  (forall n d r d', m n d = (r, d') -> log_ok (ad_actions d) ->
     ad_core d' = ad_core d /\ ad_cursors d' = ad_cursors d
     /\ rows_isolated ac_account (mc_account ctx) (ad_actions d) (ad_actions d') /\ log_ok (ad_actions d')) ->
  ok (on_log (N := N) m).
Proof.
  intros Hm s r s'. unfold on_log. cbv zeta. set (n := ms_ticks _). set (d := mk_act_db _ _ _).
  destruct (m n d) as [x d'] eqn:E1. intros [= _ <-] Hd Hl. destruct (Hm _ _ _ _ E1 Hl) as (Hc & Hk & Hr & Hl').
  cbn in *. rewrite Hc, Hk. cbn. split_and!; done.
Qed.

Lemma confined_record i skill description inverse :
  ok (record (N := N) now_at uuid_at (mc_account ctx) i skill description inverse).
Proof.
  apply confined_log. intros n d r d'. unfold record_ai_action, bind, check, modify, ret. cbn.
  destruct (_ && _); cbn; [|by intros [= _ <-]]. destruct (existsb _ _) eqn:E; cbn; [by intros [= _ <-]|].
  intros [= _ <-] Hl. cbn. split; [done|]. split; [done|]. split.
  - intros row Hrow. rewrite elem_of_app, list_elem_of_singleton. split; [|by left]. intros [?| ->]; [done|]. by destruct Hrow.
  - eapply record_log_ok; [done|done|apply uuid_canonical|]. intros x Hx Hid.
    pose proof (existsb_false_elem _ _ _ E Hx) as Hf. cbn in Hf. by rewrite Hid, String.eqb_refl in Hf.
Qed.

(** Only an action of the account is found, and marking it marks that row alone. *)
Lemma ai_action_owned account i d a d' :
  log_ok (ad_actions d) -> ai_action parse_uuid account i d = (Ok (Some a), d') ->
  exists row, row ∈ ad_actions d /\ ac_account row = account /\ ac_id row = i.
Proof.
  intros [_ Hcan]. unfold ai_action, ai_actions, bind. destruct (collect_results _) as [l|e] eqn:E; [|done].
  intros [= Hf _]. apply find_some in Hf as [Hin Hi%String.eqb_eq].
  apply list_elem_of_In, (collect_results_elem _ _ _ E) in Hin.
  apply elem_of_map in Hin as (row & Hrow & Hok). exists row.
  apply sql_limit_incl in Hrow. rewrite order_by_Permutation in Hrow.
  apply elem_of_filter_bool in Hrow as [Hrow Hacc%String.eqb_eq].
  split; [done|]. split; [done|]. unfold row_to_action in Hok.
  assert (canonical parse_uuid (ac_id row)) as Hc by (by apply Hcan). unfold MailFacts.canonical in Hc.
  rewrite Hc in Hok. cbn in Hok. injection Hok as ->. done.
Qed.

Lemma mark_confined i s r s' :
  (exists row, row ∈ ai_log s /\ ac_account row = mc_account ctx /\ ac_id row = i) ->
  on_log (N := N) (fun _ => mark_action_undone i) s = (r, s') -> confined ctx s s'.
Proof.
  intros (row & Hrow & Hacc & Hid). unfold on_log, mark_action_undone, modify. cbn. intros [= _ <-] Hd Hl. cbn.
  split; [done|]. split; [done|]. split; [|split; [|by split_and!]].
  - intros x. apply update_where_others. intros y Hy Hiy%String.eqb_eq.
    assert (y = row) as -> by (eapply (NoDup_map_inj _ _ _ _ (lo_distinct _ _ Hl)); congruence). done.
  - destruct Hl as [Hnd Hcan]. split; [cbn; unfold update_where; rewrite map_map; erewrite map_ext; [exact Hnd|]; intros y; cbn; by destruct (String.eqb _ _)|].
    intros x (y & Hy & ->)%elem_of_update_where. destruct (String.eqb _ _); by apply Hcan in Hy.
Qed.

Lemma found_rests i s (r : result AiError (option AiAction)) s' :
  on_log (N := N) (fun _ => ai_action parse_uuid (mc_account ctx) i) s = (r, s') ->
  at_rest s s' /\ (log_ok (ai_log s) -> forall a, r = Ok (Some a) ->
    exists row, row ∈ ai_log s /\ ac_account row = mc_account ctx /\ ac_id row = i).
Proof.
  intros Hrun. split.
  - assert (serving of_storage (on_log (N := N) (fun _ => ai_action parse_uuid (mc_account ctx) i)) s = (map_err of_storage r, s'))
      as Hs by (unfold serving; by rewrite Hrun).
    eapply rest_log; [|exact Hs]. intros n d. unfold ai_action, ai_actions, bind. by destruct (collect_results _).
  - intros Hl a ->. unfold on_log in Hrun. cbv zeta in Hrun.
    destruct (ai_action _ _ _ _) as [[x|e] d'] eqn:E1; cbn in Hrun; [|done]. injection Hrun as -> _.
    exact (ai_action_owned _ _ (mk_act_db _ (ai_log s) _) _ _ Hl E1).
Qed.

Lemma undo_confined i : ok (undo_action parse_uuid read_text (N := N) (mc_account ctx) i).
Proof.
  intros s r s' Hrun Hd Hl. cut (confined ctx s s'); [intros Hc; exact (Hc Hd Hl)|].
  unfold undo_action in Hrun. unfold bind at 1 in Hrun.
  destruct (on_log _ s) as [found s1] eqn:E1; apply found_rests in E1 as [Hrest Hrow]. specialize (Hrow Hl).
  transitivity s1; [by apply rest_is_confined|]. clear Hd Hl.
  assert (forall r, r ∈ ai_log s <-> r ∈ ai_log s1) as Hsame by (destruct Hrest as (_ & _ & _ & -> & _); done).
  assert (forall a : AiAction, found = Ok (Some a) ->
    exists row, row ∈ ai_log s1 /\ ac_account row = mc_account ctx /\ ac_id row = i) as Hmine.
  { intros a Ha. destruct (Hrow a Ha) as (row & Hin & ?). exists row. by rewrite <- Hsame. }
  clear Hrow Hsame Hrest. unfold bind, lift, ret in Hrun.
  destruct found as [[a|]|e]; cbn in Hrun; [|by injection Hrun as _ <-..].
  destruct (aa_undone a); [by injection Hrun as _ <-|].
  destruct (aa_inverse_patch a) as [inverse|]; cbn in Hrun; [|by injection Hrun as _ <-].
  destruct (read_text inverse) as [patch|e]; cbn in Hrun; [|by injection Hrun as _ <-].
  destruct (_ ≫= _) as [j|] in Hrun; cbn in Hrun; [|by injection Hrun as _ <-].
  destruct (ai_read _ s1) as [[u|e] s2] eqn:E2; apply confined_update in E2 as C2; [|by injection Hrun as _ <-].
  etransitivity; [exact C2|]. eapply mark_confined; [|exact Hrun].
  apply ai_update_ok in E2 as [-> _]. by eapply Hmine.
Qed.

(** A submitter that queues for the account it is given. *)
Definition submits_for : Prop :=
  forall submit, mc_submitter ctx = Some submit -> forall mail_from recipients raw w r w',
    submit (mc_account ctx) mail_from recipients raw w = (r, w') -> world_within parse_uuid (mc_account ctx) w w'.
Hypothesis submits : submits_for.

Lemma draw_rests {A} (f : nat -> A) : keeps at_rest (draw_at (N := N) f).
Proof. by intros s r s' [= _ <-]. Qed.

Ltac confined_step :=
  match goal with
  | |- keeps _ (bind _ _) => apply keeps_bind; [apply _| |intros ?]
  | |- keeps _ (svc (update_email _ _ _ _)) => apply confined_serving, confined_update
  | |- keeps _ (serving _ (record _ _ _ _ _ _ _)) => apply confined_serving, confined_record
  | |- keeps _ (svc _) => by apply rest_confined, rest_svc
  | |- keeps _ (draw_at _) => apply rest_confined, draw_rests
  | |- keeps _ (match ?x with _ => _ end) => destruct x
  | |- keeps _ (let _ := _ in _) => cbv zeta
  | |- keeps _ _ => by apply keeps_pure; [apply _|]
  end.

Lemma send_confined to subject body : ok (send_email now_at uuid_at (N := N) ctx to subject body).
Proof.
  unfold send_email. destruct (mc_may_send ctx) eqn:Hmay; cbn [negb]; [|confined_step].
  destruct (mc_submitter ctx) as [submit|] eqn:Hs; [|by apply keeps_pure; [apply _|]].
  assert (forall A (k : _ -> action State ServiceError A), ok (k submit) -> ok (bind (lift (ok_or (Some submit) (Invalid "sending is not enabled"))) k))
    as Hgiven by done.
  apply Hgiven. clear Hgiven. destruct to as [|first rest]; [confined_step|]. confined_step; [confined_step|].
  confined_step; [|confined_step]. intros s r s' Hrun Hd Hl.
  destruct (submit _ _ _ _ _) as [x w] eqn:E1 in Hrun. injection Hrun as _ <-. cbn.
  destruct (submits _ Hs _ _ _ _ _ _ E1 Hd) as [Ho Hw]. split_and!; try done. congruence.
Qed.

Lemma draft_confined to subject body :
  ok (create_draft parse_uuid parse_message now_at fresh_at uuid_at (N := N) ctx to subject body).
Proof.
  unfold create_draft. repeat confined_step. apply confined_serving.
  intros s r s'. unfold on_mailstore, on_world. destruct (ingest_email_into _ _ _ _ _ _ _ _ _ _) as [x w] eqn:E.
  intros [= _ <-] Hd Hl. cbn. destruct (ingest_within _ _ _ _ _ _ _ _ _ _ _ _ (fresh_canonical _) E Hd) as [Ho Hw].
  split_and!; try done. intros _. by eapply ingest_queue in E.
Qed.

Lemma move_confined i role : ok (move_email parse_uuid value_to_text now_at uuid_at (N := N) ctx i role).
Proof. unfold move_email. repeat confined_step. Qed.
Lemma keyword_confined i keyword present : ok (set_keyword parse_uuid (N := N) ctx i keyword present).
Proof. unfold set_keyword. repeat confined_step. Qed.

Lemma dispatch_confined name args : ok (dispatch ctx name args).
Proof.
  destruct (decide (name ∈ catalog)) as [Hin|Hout].
  2: { apply rest_confined. intros s r s' Hrun. rewrite (unknown_tool _ _ _ _ Hout) in Hrun. by injection Hrun as _ <-. }
  apply elem_of_map in Hin as (t & Ht & ->). destruct (field "annotations" t) eqn:Ha.
  - revert t Ht v Ha. refine (proj1 (Forall_forall (fun t => forall v, field "annotations" t = Some v -> ok (dispatch ctx (tool_name t) args)) _) _).
    unfold tools. repeat apply List.Forall_cons; try apply List.Forall_nil; intros v Ha; try (by vm_compute in Ha);
      clear Ha v; at_tool.
    + do 2 (confined_step; [confined_step|]). apply move_confined.
    + cbv zeta. confined_step; [confined_step|]. apply keyword_confined.
    + do 2 (confined_step; [confined_step|]). apply draft_confined.
    + do 2 (confined_step; [confined_step|]). apply send_confined.
    + confined_step; [confined_step|]. unfold undo. confined_step; [confined_step|]. confined_step; [|confined_step].
      apply confined_serving, undo_confined.
  - apply rest_confined. exact (proj1 (Forall_forall _ _) (plain_tools_rest ctx args) t Ht Ha).
Qed.
End Confined.

(** C18: An agent is confined to the account of its token: whatever it asks, the mail of
    the others and their log of actions stay as they are, no preference, attribute or
    cursor moves, the tables and the log stay sound, and without the right to send no
    letter enters the outbound queue; it gets one answer per request with an id, under
    that id, and none for a notification, which does nothing. *)
Theorem agent_is_confined ctx request s :
  submits_for ctx -> wf (ai_db s) -> log_ok (ai_log s) ->
  let '(answer, s') := handle ctx request s in
  (others_mail (mc_account ctx) (ai_db s) (ai_db s') /\ wf (ai_db s')
   /\ rows_isolated ac_account (mc_account ctx) (ai_log s) (ai_log s') /\ log_ok (ai_log s')
   /\ ms_chat (ai_mail s') = ms_chat (ai_mail s) /\ ms_attributes (ai_mail s') = ms_attributes (ai_mail s)
   /\ ai_cursors s' = ai_cursors s
   /\ (mc_may_send ctx = false -> queue (ai_db s') = queue (ai_db s)))
  /\ match field "id" request with
     | None => answer = None /\ s' = s
     | Some i => exists a, answer = Some a /\ field "id" a = Some i
                 /\ (is_Some (field "result" a) <-> field "error" a = None)
     end.
Proof.
  intros Hsub Hd Hl. destruct (handle ctx request s) as [answer s'] eqn:E. unfold Mcp.handle in E.
  destruct (field "id" request) as [i|].
  2: { injection E as <- <-. split; [|done]. exact (reflexivity (R := confined ctx) s Hd Hl). }
  destruct (if String.eqb _ "initialize" then _ else _) as [result s1] eqn:Er. injection E as <- <-. split.
  - apply (fun H : confined ctx s s1 => H Hd Hl).
    repeat match type of Er with (if ?b then _ else _) = _ => destruct b end; try by injection Er as _ <-.
    unfold call_tool in Er. destruct (dispatch _ _ _ s) as [outcome s2] eqn:Ed. injection Er as _ <-.
    exact (dispatch_confined ctx Hsub _ _ _ _ _ Ed).
  - eexists. split; [done|].
    destruct result; (split; [reflexivity|]); split; try done; try by eexists.
    by intros [x Hx].
Qed.
End McpFacts.
