(* ===== verification/HandlerFacts.v ===== *)
(** The mail policy and the SMTP session together: what a delivery files, and
    that no connection can do more than that. *)
From S2P Require Import Prelude Text Bytes Ident SmtpSession SmtpFacts Authn Store StoreFacts Mail MailQueries MailFacts History Spam Pgp Chat Queue Delivery Handler.

Open Scope string_scope.

(** ** The invariant under a status update *)

Section Status.
Variable parse_uuid : string -> option string.
Abbreviation wf := (wf parse_uuid).

Lemma set_pgp_status_wf i status d : wf d -> wf (snd (set_pgp_status i status d)).
Proof.
  intros Hd. unfold set_pgp_status, modify. simpl.
  set (f := fun e => mk_email _ _ _ _ _ _ _ _ _ _ _ _ _ _). set (test := fun e => String.eqb (e_id e) i).
  assert (forall e', e' ∈ update_where test f (emails d) ->
    exists e, e ∈ emails d /\ e_id e' = e_id e /\ e_account e' = e_account e /\ e_thread e' = e_thread e
              /\ e_created e' = e_created e /\ e_updated e' = e_updated e) as Hold.
  { intros e' (e & He & ->)%elem_of_update_where. exists e. by destruct (test e). }
  constructor; simpl; try apply Hd.
  - destruct (wf_tables _ _ Hd). by constructor.
  - rewrite update_where_map by done. apply Hd.
  - intros e' (e & He & _ & -> & -> & _)%Hold. by apply (wf_email_thread _ _ Hd).
  - intros j m Hp. destruct (wf_placed _ _ Hd _ _ Hp) as (e & mb & He & ? & ? & ? & ?).
    exists (if test e then f e else e), mb. split; [apply elem_of_update_where; eauto|].
    by destruct (test e).
  - intros e' (e & He & -> & _)%Hold. by apply (wf_has_mailbox _ _ Hd).
  - intros e' (e & He & _ & -> & _ & -> & ->)%Hold. by apply (wf_seq_emails _ _ Hd).
Qed.
End Status.

(** ** The inbound PGP stage and the database *)

Section PgpFrame.
Context `{BlobStore} `{Sequoia}.
Variable parse_uuid : string -> option string.
Variable parse_message : list Z -> option ParsedMessage.
Variable autocrypt_of : list Z -> option string.

(** Of the mail database, a PGP operation touches the blob table only. *)
Definition blobs_only (w w' : PgpWorld) : Prop :=
  exists b, db (pw_world w') = on_blobs (fun _ => b) (db (pw_world w)).
#[local] Instance blobs_only_pre : PreOrder blobs_only.
Proof.
  split; [intros w; exists (blobs (db (pw_world w))); by destruct (db (pw_world w))|].
  intros w1 w2 w3 (b & Hb) (b' & Hb'). exists b'. rewrite Hb', Hb. by destruct (db (pw_world w1)).
Qed.
Abbreviation frames := (keeps blobs_only).

Lemma frames_read {E A} (m : action PgpWorld E A) : (forall w, snd (m w) = w) -> frames m.
Proof. apply keeps_pure. apply _. Qed.
Lemma frames_modify {E} (f : PgpWorld -> PgpWorld) :
  (forall w, pw_world (f w) = pw_world w) -> frames (modify (E:=E) f).
Proof.
  intros Hf. apply keeps_modify. intros w. exists (blobs (db (pw_world w))). rewrite Hf. by destruct (db (pw_world w)).
Qed.
Ltac frames := repeat match goal with
  | |- forall _, _ => intro
  | |- frames (bind _ _) => apply keeps_bind; [apply _| |]
  | |- frames (ret _) => apply keeps_ret; apply _
  | |- frames (lift _) => apply keeps_lift; apply _
  | |- frames (match ?x with _ => _ end) => destruct x
  end.
Lemma frames_put_blob now raw : frames (storage (put_blob now raw)).
Proof.
  intros w r w'. unfold storage, put_blob, blobs_only.
  destruct (blob_put raw (blob_files (pw_world w))) as [[i|e] f]; simpl; intros [= _ <-]; simpl.
  - eexists. unfold on_blobs. reflexivity.
  - exists (blobs (db (pw_world w))). by destruct (db (pw_world w)).
Qed.
Lemma frames_require account : frames (require_account account).
Proof.
  apply frames_read. intros [[d f t] p]. unfold require_account, storage, on_db, require. simpl.
  by destruct (account_exists account d).
Qed.

Lemma frames_own_cert now entropy account_id : frames (own_cert parse_uuid now entropy account_id).
Proof.
  unfold own_cert. apply keeps_bind; [apply _|by apply frames_read|]. intros [[fingerprint blob]|].
  - unfold get_cert. frames. by apply frames_read; intros [[d f t] p].
  - apply keeps_bind; [apply _|by apply frames_read; intros [[d f t] p]|]. intros found. frames.
    + apply frames_put_blob.
    + apply keeps_bind; [apply _|apply frames_require|]. intros []. by apply frames_modify.
Qed.

Lemma frames_harvest now account raw : frames (harvest parse_message autocrypt_of now account raw).
Proof.
  unfold harvest. frames. apply keeps_bind; [apply _|by apply frames_read|]. frames; [apply frames_require|].
  by apply frames_modify.
Qed.

Lemma frames_inbound now entropy account raw :
  frames (inbound parse_uuid parse_message autocrypt_of now entropy account raw).
Proof.
  unfold inbound, known_sender. frames;
    first [apply frames_harvest | apply frames_own_cert | apply frames_put_blob | by apply frames_read].
Qed.
End PgpFrame.

(** ** Delivery *)

Section Deliver.
Context `{BlobStore} `{MailAuth} `{Sequoia}.
Variable parse_uuid : string -> option string.
Variable parse_message : list Z -> option ParsedMessage.
Variable autocrypt_of : list Z -> option string.
Variable verdict_json : AuthVerdict -> option string.
Variable spam_json : SpamVerdict -> option string.
Variable show_hundredths : f32 -> string.
Variable scanner : string -> string -> list Z -> Db -> SpamVerdict.
Variable clock : Clock.
Variable core : ServerCore.

Abbreviation deliver_one :=
  (deliver_one parse_uuid parse_message autocrypt_of verdict_json spam_json clock core).
Abbreviation handler_deliver :=
  (handler_deliver parse_uuid parse_message autocrypt_of verdict_json spam_json show_hundredths
     scanner clock core).
Abbreviation wf := (wf parse_uuid).

(** The ids drawn for threads read back as themselves (they are UUIDs). *)
Hypothesis fresh_canonical : forall n, canonical parse_uuid (fresh_thread (fresh_at clock n)).

(** What deliveries leave alone. *)
Record same_accounts (d d' : Db) : Prop := {
  sa_accounts : accounts d' = accounts d;
  sa_aliases : aliases d' = aliases d;
  sa_mailboxes : mailboxes d' = mailboxes d
}.

(** An email filed for a recipient: in the account that its address resolves
    to, in that account's mailbox of the role, with our verdict. *)
Definition filed (d : Db) (role : string) (auth : option string) (recipient : string)
    (p : EmailRow * string) : Prop :=
  exists a mb now,
    (owns d recipient a \/ ((forall a', ~ owns d recipient a') /\ aliased d now recipient a))
    /\ mb ∈ mailboxes d /\ m_account mb = a_id a /\ m_role mb = Some role /\ m_id mb = p.2
    /\ e_account p.1 = a_id a /\ e_auth_results p.1 = auth.

(** The database holds these emails more than before, each in its mailbox. *)
Definition filed_all (d d' : Db) (role : string) (auth : option string) (recipients : list string) : Prop :=
  exists news, Forall2 (filed d role auth) recipients news
    /\ emails d' = (emails d ++ map fst news)%list
    /\ email_mailbox d' = (email_mailbox d ++ map (fun p => (e_id p.1, p.2)) news)%list
    /\ same_accounts d d'.

Lemma on_storage_run {A} (m : action World StorageError A) s r s' :
  on_storage m s = (r, s') ->
  exists r0 w', m (core_world s) = (r0, w') /\ s' = set_world w' s
    /\ match r0 with Ok a => r = Ok a | Err e => r = Err (Temporary (storage_error_text e)) end.
Proof.
  unfold on_storage. destruct (m (core_world s)) as [[a|e] w'] eqn:E; intros [= <- <-]; eauto 8.
Qed.

Lemma security_loop account addresses s :
  exists l, for_each addresses (publish_security account) s
            = (Ok tt, set_world (mk_world (on_published (fun es => (es ++ l)%list) (core_db s))
                                   (blob_files (core_world s)) (index_tasks (core_world s))) s).
Proof.
  revert s. induction addresses as [|a addresses IH]; intros s.
  - exists []. cbn [for_each]. unfold ret. f_equal. destruct s as [[w p] c sr t], w as [d f ts].
    unfold set_world, core_db, core_world. simpl. destruct d. unfold on_published. simpl.
    by rewrite app_nil_r.
  - cbn [for_each]. unfold bind at 1, publish_security at 1, on_storage at 1, on_db, publish, modify.
    cbv beta iota zeta. destruct (IH (set_world (mk_world
      (on_published (fun es => (es ++ [Security (Some account) OtherKind ("PGP key changed for " +:+ a)])%list)
         (core_db s)) (blob_files (core_world s)) (index_tasks (core_world s))) s)) as (l & Hl).
    exists ([Security (Some account) OtherKind ("PGP key changed for " +:+ a)] ++ l)%list.
    etrans; [exact Hl|]. f_equal. unfold set_world, core_db, core_world. simpl.
    unfold on_published. simpl. by rewrite <- app_assoc.
Qed.

Lemma set_spam_verdict_run i json s :
  exists sr, set_spam_verdict i json s = (Ok tt, mk_core_state (core_pgp s) (core_chat s) sr (tick s)).
Proof.
  unfold set_spam_verdict, modify. destruct (email_exists i (core_db s)).
  - eexists. reflexivity.
  - exists (spam_results s). by destruct s.
Qed.

(** The row of the email just filed, with its PGP status set. *)
Lemma status_of_last i status l e d :
  emails d = (l ++ [e])%list -> e_id e = i -> (forall x, x ∈ l -> e_id x <> i) ->
  exists e', emails (snd (set_pgp_status i status d)) = (l ++ [e'])%list
    /\ e_id e' = i /\ e_account e' = e_account e /\ e_auth_results e' = e_auth_results e.
Proof.
  intros Hl He Hother. unfold set_pgp_status, modify. simpl. rewrite Hl. unfold update_where.
  rewrite map_app. simpl. rewrite (proj2 (String.eqb_eq _ _) He). eexists. split.
  - f_equal. rewrite <- (map_id l) at 2. apply map_ext_in. intros x Hx%list_elem_of_In.
    by rewrite (proj2 (String.eqb_neq _ _) (Hother x Hx)).
  - by split_and!.
Qed.

(** One recipient. *)
Lemma deliver_one_run mail verdict spam raw recipient s r s' :
  wf (core_db s) -> ids_parse parse_uuid (core_db s) ->
  deliver_one mail verdict spam raw recipient s = (r, s') ->
  wf (core_db s') /\
  match r with
  | Ok _ => filed_all (core_db s) (core_db s')
              (if f32_ge (score spam) (quarantine_threshold (spam_config core)) then "junk" else "inbox")
              (verdict_json verdict) [recipient]
  | Err e => (exists what, e = Temporary what) /\ emails (core_db s') = emails (core_db s)
             /\ email_mailbox (core_db s') = email_mailbox (core_db s)
             /\ same_accounts (core_db s) (core_db s')
  end.
Proof.
  intros Hd Hids. set (role := if f32_ge _ _ then "junk" else "inbox"). unfold Handler.deliver_one.
  unfold bind at 1, gets at 1. set (t := tick s).
  destruct (resolve_recipient_run parse_uuid (core_db s) (now_at clock t) recipient
              (wf_tables _ _ Hd) Hids) as (o & Hres & Ho).
  unfold bind at 1. unfold on_storage at 1, on_db at 1.
  change (db (core_world s)) with (core_db s). rewrite Hres. cbv beta iota zeta.
  assert (set_world (mk_world (core_db s) (blob_files (core_world s)) (index_tasks (core_world s))) s = s)
    as -> by (by destruct s as [[[d f ts] p] c sr tk]).
  unfold bind at 1, lift at 1. destruct o as [a|]; simpl ok_or; cbv beta iota.
  2: { intros [= <- <-]. split; [done|]. split; [eauto|]. done. }
  destruct (proj1 (Ho a) eq_refl) as (row & -> & Hown). simpl id.
  unfold bind at 1.
  destruct (inbound _ _ _ _ _ _ _ _) as [[pgp|e] p1] eqn:Ep;
    apply frames_inbound in Ep as Hframe; destruct Hframe as (b & Hb); cbv beta iota zeta.
  2: { intros [= <- <-]. change (core_db (set_pgp p1 s)) with (db (pw_world p1)). simpl in Hb. rewrite Hb.
       split; [by apply (wf_frame _ (core_db s))|]. split; [eauto|]. done. }
  simpl in Hb. unfold bind at 1.
  destruct (security_loop (a_id row) (io_key_changes pgp) (set_pgp p1 s)) as (l & Hl). rewrite Hl. clear Hl.
  unfold bind at 1, gets at 1. cbv beta iota zeta. set (s2 := set_world _ (set_pgp p1 s)).
  assert (wf (core_db s2)) as Hd2.
  { apply (wf_frame _ (core_db s)); try done; unfold s2, core_db, core_world; simpl; rewrite Hb; done. }
  assert (same_accounts (core_db s) (core_db s2) /\ emails (core_db s2) = emails (core_db s)
          /\ email_mailbox (core_db s2) = email_mailbox (core_db s)) as (Hsame & Hem & Hmb).
  { unfold s2, core_db, core_world. simpl. rewrite Hb. done. }
  set (chat := chat_mode_of _). clearbody s2 chat. unfold bind at 1.
  destruct (on_storage _ s2) as [r3 s3] eqn:E3.
  apply on_storage_run in E3 as (r0 & w3 & Hing & -> & Hr3). unfold ingest_email_with_chat in Hing.
  pose proof (ingest_run parse_uuid parse_message _ _ _ _ _ _ _ _ _ _ Hd2 Hing) as Hspec.
  assert (wf (db w3)) as Hd3.
  { pose proof (step_wf parse_uuid parse_message (core_world s2) w3) as Hw. apply Hw; [|done].
    pose proof (step_ingest parse_uuid parse_message (core_world s2) (fresh_at clock t) (now_at clock t)
      (a_id row) (io_raw pgp) (Role role) (verdict_json verdict) chat (fresh_canonical t)) as Hs.
    fold role in Hing. by rewrite Hing in Hs. }
  destruct r0 as [i|e]; subst r3; cbv beta iota.
  2: { intros [= <- <-]. destruct Hspec as (b' & Hb'). change (core_db (set_world w3 s2)) with (db w3).
       split; [done|]. rewrite Hb'. simpl. split; [eauto|]. split; [exact Hem|]. split; [exact Hmb|].
       destruct Hsame. by constructor. }
  destruct Hspec as (mb & Hmbin & [Htacc Htrole] & Hems & Hplaces & _ & _ & _ & Hfresh & Ha3 & Hal3 & Hmb3).
  change (db (core_world s2)) with (core_db s2) in *.
  set (row_new := new_email _ _ _ _ _ _ _ _ _ _) in Hems.
  assert (forall x, x ∈ emails (core_db s2) -> e_id x <> in_id i) as Hother.
  { pose proof (wf_email_ids _ _ Hd3) as Hnd. rewrite Hems, map_app in Hnd.
    apply NoDup_app in Hnd as (_ & Hnd & _). intros x Hx Heq.
    apply (Hnd (e_id x)); [apply elem_of_map; eauto|]. simpl. rewrite Heq, Hfresh. by left. }
  assert (exists sr, match spam_json spam with
                     | Some json => set_spam_verdict (in_id i) json
                     | None => ret tt
                     end (set_world w3 s2)
          = (Ok tt, mk_core_state (core_pgp (set_world w3 s2)) (core_chat s2) sr (tick s2))) as (sr & Hsr).
  { destruct (spam_json spam) as [json|].
    - destruct (set_spam_verdict_run (in_id i) json (set_world w3 s2)) as (sr & ->). by exists sr.
    - exists (spam_results s2). by destruct s2. }
  unfold bind at 1. rewrite Hsr. cbv beta iota. clear Hsr.
  set (s4 := mk_core_state _ _ sr _).
  assert (exists s5 e', match io_pgp_status pgp with
                        | Some status => on_storage (on_db (set_pgp_status (in_id i) status))
                        | None => ret tt
                        end s4 = (Ok tt, s5)
          /\ wf (core_db s5) /\ emails (core_db s5) = (emails (core_db s2) ++ [e'])%list
          /\ e_id e' = in_id i /\ e_account e' = a_id row /\ e_auth_results e' = verdict_json verdict
          /\ email_mailbox (core_db s5) = email_mailbox (db w3)
          /\ same_accounts (db w3) (core_db s5)) as (s5 & e' & Hrun & Hd5 & Hem5 & Hid & Hacc & Hauth & Hpl & Hsame5).
  { destruct (io_pgp_status pgp) as [status|].
    - destruct (status_of_last (in_id i) status _ _ (db w3) Hems (eq_sym Hfresh) Hother) as (e' & He' & Hrest).
      eexists _, e'. split; [reflexivity|]. split; [by apply set_pgp_status_wf|].
      split; [exact He'|]. destruct Hrest as (-> & -> & ->). split_and!; done.
    - exists s4, row_new. split; [done|]. split; [exact Hd3|]. split; [exact Hems|]. split_and!; done. }
  unfold bind at 1. rewrite Hrun. cbv beta iota. unfold modify. intros [= <- <-].
  change (core_db (advance s5)) with (core_db s5). split; [done|].
  destruct Hsame as [Ha2 Hal2 Hmb2], Hsame5 as [Ha5 Hal5 Hmb5].
  exists [(e', m_id mb)]. simpl. split; [|split; [by rewrite Hem5, Hem|split]].
  - constructor; [|constructor]. exists row, mb, (now_at clock t). split; [exact Hown|].
    rewrite Hmb2 in Hmbin. split_and!; done.
  - by rewrite Hpl, Hplaces, Hmb, Hid.
  - constructor; [by rewrite Ha5, Ha3|by rewrite Hal5, Hal3|by rewrite Hmb5, Hmb3].
Qed.

Lemma filed_frame d d' role auth r p : same_accounts d d' -> filed d' role auth r p -> filed d role auth r p.
Proof.
  intros Hs (a & mb & now & Hown & Hmb & Hrest). exists a, mb, now.
  destruct Hs as [Ha Hal Hm]. unfold owns, aliased in *. rewrite Ha, Hal in Hown. rewrite Hm in Hmb. done.
Qed.

Lemma deliver_loop mail verdict spam raw recipients : forall s r s',
  wf (core_db s) -> ids_parse parse_uuid (core_db s) ->
  for_each recipients (deliver_one mail verdict spam raw) s = (r, s') ->
  let role := if f32_ge (score spam) (quarantine_threshold (spam_config core)) then "junk" else "inbox" in
  wf (core_db s') /\
  match r with
  | Ok _ => filed_all (core_db s) (core_db s') role (verdict_json verdict) recipients
  | Err e => exists reached failed rest what,
      e = Temporary what /\ recipients = (reached ++ failed :: rest)%list
      /\ filed_all (core_db s) (core_db s') role (verdict_json verdict) reached
  end.
Proof.
  induction recipients as [|recipient rest IH]; intros s r s' Hd Hids; cbn [for_each].
  - intros [= <- <-]. split; [done|]. exists []. simpl. rewrite !app_nil_r. done.
  - unfold bind. destruct (deliver_one mail verdict spam raw recipient s) as [r1 s1] eqn:E1.
    destruct (deliver_one_run _ _ _ _ _ _ _ _ Hd Hids E1) as [Hd1 H1r]. destruct r1 as [u|e].
    + intros Hrest. destruct H1r as (news & Hnews & Hem & Hmb & Hsame).
      assert (ids_parse parse_uuid (core_db s1)) as Hids1
        by (unfold ids_parse; by rewrite (sa_accounts _ _ Hsame)).
      destruct (IH _ _ _ Hd1 Hids1 Hrest) as [Hd' Hr]. split; [exact Hd'|].
      assert (forall rs, filed_all (core_db s1) (core_db s')
                (if f32_ge (score spam) (quarantine_threshold (spam_config core)) then "junk" else "inbox")
                (verdict_json verdict) rs ->
              filed_all (core_db s) (core_db s')
                (if f32_ge (score spam) (quarantine_threshold (spam_config core)) then "junk" else "inbox")
                (verdict_json verdict) (recipient :: rs)) as Hcons.
      { intros rs (news' & Hnews' & Hem' & Hmb' & Hsame'). exists (news ++ news')%list.
        split; [|split; [|split]].
        - change (recipient :: rs) with ([recipient] ++ rs)%list. apply Forall2_app; [done|]. eapply Forall2_impl; [exact Hnews'|].
          intros. by eapply filed_frame.
        - by rewrite Hem', Hem, map_app, app_assoc.
        - by rewrite Hmb', Hmb, map_app, app_assoc.
        - destruct Hsame, Hsame'. constructor; congruence. }
      destruct r as [u'|e]; [by apply Hcons|].
      destruct Hr as (reached & failed & rest' & what & -> & -> & Hfiled).
      exists (recipient :: reached), failed, rest', what. split; [done|]. split; [done|]. by apply Hcons.
    + intros [= <- <-]. split; [exact Hd1|]. destruct H1r as ((what & ->) & Hem & Hmb & Hsame).
      exists [], recipient, rest, what. split; [done|]. split; [done|].
      exists []. simpl. rewrite !app_nil_r. by split_and!.
Qed.

(** C29: One message handed to the server's policy: it is refused for good, with
    nothing changed, exactly when the spam score reaches the threshold; it is
    accepted only when every recipient, in order, got exactly one new email in
    the inbox (or the junk mailbox) of the account its address resolves to; and
    a temporary failure leaves a copy with the recipients before the one that
    failed, so that the sender's next attempt gives them another. *)
Theorem handler_deliver_spec mail s r s' :
  wf (core_db s) -> ids_parse parse_uuid (core_db s) ->
  handler_deliver mail s = (r, s') ->
  let spam := scan_mail scanner clock core mail s in
  let auth := verdict_json (auth_verdict clock core mail s) in
  let role := if f32_ge (score spam) (quarantine_threshold (spam_config core)) then "junk" else "inbox" in
  wf (core_db s') /\
  match r with
  | Err (Permanent _) => s' = s /\ f32_ge (score spam) (reject_threshold (spam_config core)) = true
  | Ok _ =>
      f32_ge (score spam) (reject_threshold (spam_config core)) = false
      /\ filed_all (core_db s) (core_db s') role auth (mail_recipients mail)
  | Err (Temporary _) =>
      f32_ge (score spam) (reject_threshold (spam_config core)) = false
      /\ exists reached failed rest, mail_recipients mail = (reached ++ failed :: rest)%list
         /\ filed_all (core_db s) (core_db s') role auth reached
  end.
Proof.
  intros Hd Hids. unfold Handler.handler_deliver.
  destruct (f32_ge (score _) (reject_threshold _)) eqn:E; [by intros [= <- <-]|].
  intros Hrun. destruct (deliver_loop _ _ _ _ _ _ _ _ Hd Hids Hrun) as [Hd' Hr]. split; [done|].
  destruct r as [u|e]; [done|]. destruct Hr as (reached & failed & rest & what & -> & Hrecipients & Hfiled).
  split; [done|]. eauto.
Qed.

(** ** A whole connection *)

Definition is_local (address : string) : Prop :=
  exists local, rsplit_once "@" (to_lowercase (trim address)) = Some (local, core_domain core).

Lemma rcpt_accepts address s s' :
  handler_rcpt parse_uuid clock core address s = (Accept, s') -> is_local address.
Proof.
  unfold handler_rcpt. destruct (rsplit_once "@" _) as [[local domain]|] eqn:E; [|done].
  destruct (String.eqb_spec domain (core_domain core)) as [->|Hne]; simpl; [|done].
  intros _. by exists local.
Qed.

(** What holds of the storage after any part of a connection that handed these
    messages to the policy. *)
Definition conn_inv (s0 s : CoreState) (handed : list InboundMail) : Prop :=
  wf (core_db s) /\ same_accounts (core_db s0) (core_db s)
  /\ exists news, emails (core_db s) = (emails (core_db s0) ++ news)%list
     /\ (length news <= list_sum (map (fun m => length (mail_recipients m)) handed))%nat.

Lemma conn_inv_rcpt s0 address s l :
  conn_inv s0 s l -> conn_inv s0 (snd (handler_rcpt parse_uuid clock core address s)) l.
Proof.
  intros Hinv. unfold handler_rcpt. destruct (rsplit_once "@" _) as [[local domain]|]; [|done].
  destruct (negb _); [done|]. by destruct (fst _) as [[a|]|e].
Qed.

Lemma conn_inv_deliver s0 mail s l :
  ids_parse parse_uuid (core_db s0) ->
  conn_inv s0 s l -> conn_inv s0 (snd (handler_deliver mail s)) (l ++ [mail])%list.
Proof.
  intros Hids0 (Hd & Hsame & news & Hnews & Hlen).
  assert (ids_parse parse_uuid (core_db s)) as Hids
    by (unfold ids_parse; by rewrite (sa_accounts _ _ Hsame)).
  unfold conn_inv. rewrite map_app, list_sum_app. simpl.
  unfold Handler.handler_deliver.
  destruct (f32_ge _ _); [simpl; split_and!; [done..|]; exists news; split; [done|lia]|].
  destruct (for_each _ _ s) as [r s'] eqn:Hrun.
  destruct (deliver_loop _ _ _ _ _ _ _ _ Hd Hids Hrun) as [Hd' Hr]. simpl.
  assert (forall rs, filed_all (core_db s) (core_db s')
    (if f32_ge (score (scan_mail scanner clock core mail s)) (quarantine_threshold (spam_config core))
     then "junk" else "inbox")
    (verdict_json (auth_verdict clock core mail s)) rs ->
    (length rs <= length (mail_recipients mail))%nat ->
    wf (core_db s') /\ same_accounts (core_db s0) (core_db s')
    /\ exists news, emails (core_db s') = (emails (core_db s0) ++ news)%list
       /\ (length news <= list_sum (map (fun m => length (mail_recipients m)) l)
                          + (length (mail_recipients mail) + 0))%nat) as Hdone.
  { intros rs (more & Hmore & Hem & _ & Hsame') Hrs. split; [done|]. split.
    - destruct Hsame, Hsame'. constructor; congruence.
    - exists (news ++ map fst more)%list. rewrite Hem, Hnews, app_assoc. split; [done|].
      rewrite length_app, length_map, <- (Forall2_length _ _ _ Hmore). lia. }
  destruct r as [u|e].
  - by eapply Hdone.
  - destruct Hr as (reached & failed & rest & what & _ & Hrec & Hfiled).
    eapply Hdone; [exact Hfiled|]. rewrite Hrec, length_app. simpl. lia.
Qed.

(** C28: The listener and the policy together: whatever a peer sends over a
    connection, the storage stays well formed, accounts, aliases and mailboxes
    stay as they are, only mail addressed to the server's own domain is handed
    on (the server is not a relay), and no more emails appear than there are
    recipients in the messages handed on. *)
Theorem connection_is_contained `{Receivers} params remote time greeting_ok handshake_ok plain encrypted
    s0 e session w written :
  wf (core_db s0) -> ids_parse parse_uuid (core_db s0) -> (0 <= max_message_size params)%Z ->
  serve_connection params remote
    (server_core parse_uuid parse_message autocrypt_of verdict_json spam_json show_hundredths scanner
       clock core) time greeting_ok handshake_ok plain encrypted s0
  = (e, session, w, written) ->
  wf (core_db (hstate w))
  /\ same_accounts (core_db s0) (core_db (hstate w))
  /\ Forall (fun m => Forall is_local (mail_recipients m)) (handed w)
  /\ exists news, emails (core_db (hstate w)) = (emails (core_db s0) ++ news)%list
     /\ (length news <= list_sum (map (fun m => length (mail_recipients m)) (handed w)))%nat.
Proof.
  intros Hd Hids Hsize Hserve.
  assert (conn_inv s0 (hstate w) (handed w)) as (Hd' & Hsame & Hnews).
  { eapply (connection_handler params remote _ time (conn_inv s0)); [| |exact Hserve|].
    - intros a h l. apply conn_inv_rcpt.
    - intros m h l. by apply conn_inv_deliver.
    - split; [done|]. split; [done|]. exists []. simpl. rewrite app_nil_r. split; [done|lia]. }
  split; [done|]. split; [done|]. split; [|done].
  eapply (connection_mail_ok _ _ _ _ is_local) in Hserve as [Hmail _]; [|exact rcpt_accepts|exact Hsize].
  eapply Forall_impl; [exact Hmail|]. intros m (_ & Hall & _). exact Hall.
Qed.
End Deliver.
