(* ===== verification/Blob.v ===== *)
(** [crates/owney-storage/src/blob.rs]: the encrypted, content-addressed blob
    store, an implementation of [Mail.BlobStore].

    A blob is addressed by the digest of its plaintext; its file is
    [magic, wrap nonce, wrapped key, data nonce, ciphertext].  The digest and the
    cipher are parameters with the laws of their crates: fixed lengths, and
    decryption undoing encryption.  [put] is a sequence of system calls, and
    several writers may run at once: [put_step] is one call of one writer.  A
    crash may undo renames and creations whose directory was not flushed and
    scramble the bytes of files that were not; the shard directories themselves
    are taken to survive it.  Read errors other than a missing file are not
    modelled. *)
From S2P Require Import Prelude Text Bytes Ident Store Mail.

Open Scope string_scope.

Definition bytes : Type := list Z.

Definition MAGIC : bytes := [77; 83; 66; 49]%Z.
Definition NONCE_LEN : nat := 24.
Definition WRAPPED_KEY_LEN : nat := 48.
Definition HEADER_LEN : nat := 4 + NONCE_LEN + WRAPPED_KEY_LEN + NONCE_LEN.

Definition bytes_eqb (a b : bytes) : bool := bool_decide (a = b).

(** [blake3] and [chacha20poly1305]. *)
Class Primitives := {
  hash : bytes -> BlobId;
  encrypt : bytes -> bytes -> bytes -> bytes -> option bytes;  (* key, nonce, aad, message *)
  decrypt : bytes -> bytes -> bytes -> bytes -> option bytes
}.

Class PrimitiveLaws `{Primitives} := {
  hash_wf m : wf_blob_id (hash m);
  decrypt_encrypt key nonce aad m c :
    encrypt key nonce aad m = Some c -> decrypt key nonce aad c = Some m;
  encrypt_length key nonce aad m c :
    encrypt key nonce aad m = Some c -> length c = (length m + 16)%nat
}.

(** ** The file system

    A file has contents and knows whether they are on the disk ([sync_all]); a
    name has the files it has stood for, the present one first, back to the last
    time its directory was flushed ([None]: no file).  A crash leaves any one of
    them at the name, and of a file that was not flushed anything. *)
Record Node := mk_node { n_bytes : bytes; n_synced : bool }.

Definition Fs : Type := gmap string (list (option Node)).

Definition versions (p : string) (f : Fs) : list (option Node) := default [None] (f !! p).

Definition get_node (p : string) (f : Fs) : option Node := mjoin (head (versions p f)).
Definition get_file (p : string) (f : Fs) : option bytes := n_bytes <$> get_node p f.

(** Writing replaces the contents of the file in place, or makes a new file. *)
Definition write_file (p : string) (c : bytes) (f : Fs) : Fs :=
  <[p := Some (mk_node c false) ::
      match versions p f with Some _ :: rest => rest | vs => vs end]> f.

Definition sync_file (p : string) (f : Fs) : Fs :=
  match versions p f with
  | Some n :: rest => <[p := Some (mk_node (n_bytes n) true) :: rest]> f
  | _ => f
  end.

Definition remove_file (p : string) (f : Fs) : Fs := <[p := None :: versions p f]> f.

Definition rename_file (p q : string) (f : Fs) : Fs :=
  match get_node p f with
  | Some n => <[q := Some n :: versions q f]> (remove_file p f)
  | None => f
  end.

(** Flushing a directory: its names stand for their present files only. *)
Definition sync_dir (dir : string) (f : Fs) : Fs :=
  map_imap (fun p vs => Some (if String.prefix (dir +:+ "/") p then take 1 vs else vs)) f.

(** What a crash may leave of one version of a name. *)
Definition survives (v o : option Node) : Prop :=
  match v, o with
  | Some n, Some n' => n_synced n' = true /\ (n_synced n = true -> n_bytes n' = n_bytes n)
  | None, None => True
  | _, _ => False
  end.

Definition crashed (f f' : Fs) : Prop :=
  forall p, exists v o, v ∈ versions p f /\ versions p f' = [o] /\ survives v o.

(** [std::fs::rename]: done, refused because the target exists, or failed. *)
Inductive RenameOutcome := RenameDone | RenameAlreadyExists | RenameFailed.

(** The randomness and the answers of the operating system during one [put]. *)
Record PutEnv := mk_env {
  pe_key : option bytes;       (* the key and nonces, or a failed RNG *)
  pe_wrap_nonce : bytes;
  pe_data_nonce : bytes;
  pe_mkdir : bool;             (* create_dir_all *)
  pe_tmp_nonce : option Z;     (* the name of the temporary file *)
  pe_create : bool;            (* fs::write: opening (and truncating) the file *)
  pe_write : option nat;       (* fs::write: writing it, or failing after so many bytes *)
  pe_sync : bool;              (* opening the temporary file and [sync_all] *)
  pe_rename : RenameOutcome;
  pe_remove : bool;            (* removing the temporary file *)
  pe_sync_dir : bool           (* opening the directory and [sync_all] *)
}.

Section Blob.
Context `{Primitives}.
Variable root : string.
Variable master : bytes.

(** [BlobStore::path_for]. *)
Definition dir_for (i : BlobId) : string := root +:+ "/" +:+ String.substring 0 2 (to_hex i).
Definition path_for (i : BlobId) : string := dir_for i +:+ "/" +:+ to_hex i.

(** The temporary name of [write_atomically]. *)
Definition tmp_path (i : BlobId) (nonce : Z) : string :=
  dir_for i +:+ "/." +:+ to_hex i +:+ "." +:+ pretty nonce +:+ ".tmp".

(** The file contents [put] computes. *)
Definition seal (env : PutEnv) (plaintext : bytes) : result StorageError bytes :=
  let id := hash plaintext in
  blob_key <-? ok_or (pe_key env) (Crypto "os rng") ;;
  wrapped_key <-? ok_or (encrypt master (pe_wrap_nonce env) [] blob_key) (Crypto "wrap blob key") ;;
  ciphertext <-? ok_or (encrypt blob_key (pe_data_nonce env) id plaintext) (Crypto "encrypt blob") ;;
  Ok (MAGIC ++ pe_wrap_nonce env ++ wrapped_key ++ pe_data_nonce env ++ ciphertext)%list.

(** The decoding half of [get]. *)
Definition open (i : BlobId) (raw : bytes) : result StorageError bytes :=
  let hex := to_hex i in
  if (length raw <? HEADER_LEN)%nat || negb (bytes_eqb (take 4 raw) MAGIC)
  then Err (Corrupt ("blob " +:+ hex +:+ ": bad header"))
  else
    let rest := drop 4 raw in
    let '(wrap_nonce, rest) := (take NONCE_LEN rest, drop NONCE_LEN rest) in
    let '(wrapped_key, rest) := (take WRAPPED_KEY_LEN rest, drop WRAPPED_KEY_LEN rest) in
    let '(data_nonce, ciphertext) := (take NONCE_LEN rest, drop NONCE_LEN rest) in
    blob_key <-? ok_or (decrypt master wrap_nonce [] wrapped_key) (Crypto "unwrap blob key") ;;
    if negb (length blob_key =? 32)%nat
    then Err (Corrupt ("blob " +:+ hex +:+ ": bad key length"))
    else
      plaintext <-? ok_or (decrypt blob_key data_nonce i ciphertext) (Crypto "decrypt blob") ;;
      if negb (bytes_eqb (hash plaintext) i)
      then Err (Corrupt ("blob " +:+ hex +:+ ": content hash mismatch"))
      else Ok plaintext.

(** [BlobStore::get]. *)
Definition get (i : BlobId) (f : Fs) : result StorageError bytes :=
  match get_file (path_for i) f with
  | None => Err (BlobNotFound (to_hex i))
  | Some raw => open i raw
  end.

(** [BlobStore::contains]. *)
Definition contains_blob (i : BlobId) (f : Fs) : bool :=
  match get_file (path_for i) f with Some _ => true | None => false end.

(** ** One writer, system call by system call *)

Inductive Writer :=
  | Start (plaintext : bytes)                            (* before the dedup check *)
  | Sealed (id : BlobId) (file : bytes)                  (* the file computed, nothing written *)
  | Created (id : BlobId) (file : bytes) (tmp : string)  (* an empty temporary file *)
  | Written (id : BlobId) (tmp : string)                 (* a complete temporary file *)
  | Synced (id : BlobId) (tmp : string)                  (* after the attempt to flush it *)
  | Placed (id : BlobId)                                 (* renamed, or found placed by another *)
  | Finished (r : result StorageError BlobId).

Definition put_step (env : PutEnv) (w : Writer) (f : Fs) : Writer * Fs :=
  match w with
  | Start plaintext =>
      let id := hash plaintext in
      if contains_blob id f then (Finished (Ok id), f)
      else match seal env plaintext with
           | Ok file => (Sealed id file, f)
           | Err e => (Finished (Err e), f)
           end
  | Sealed id file =>
      if pe_mkdir env
      then match pe_tmp_nonce env with
           | Some n =>
               if pe_create env
               then (Created id file (tmp_path id n), write_file (tmp_path id n) [] f)
               else (Finished (Err (Io (tmp_path id n))), f)
           | None => (Finished (Err (Crypto "os rng")), f)
           end
      else (Finished (Err (Io (dir_for id))), f)
  | Created id file tmp =>
      match pe_write env with
      | None => (Written id tmp, write_file tmp file f)
      | Some k => (Finished (Err (Io tmp)), write_file tmp (take k file) f)
      end
  | Written id tmp => (Synced id tmp, if pe_sync env then sync_file tmp f else f)
  | Synced id tmp =>
      match pe_rename env with
      | RenameDone => (Placed id, rename_file tmp (path_for id) f)
      | RenameAlreadyExists => (Placed id, if pe_remove env then remove_file tmp f else f)
      | RenameFailed => (Finished (Err (Io (path_for id))), f)
      end
  | Placed id => (Finished (Ok id), if pe_sync_dir env then sync_dir (dir_for id) f else f)
  | Finished r => (Finished r, f)
  end.

(** [BlobStore::put] on its own: the steps in a row. *)
Definition put (env : PutEnv) (plaintext : bytes) (f : Fs) : result StorageError BlobId * Fs :=
  let run '(w, f) := put_step env w f in
  match run (run (run (run (run (run (Start plaintext, f)))))) with
  | (Finished r, f') => (r, f')
  | (_, f') => (Err Closed, f')
  end.
End Blob.
