(* ===== verification/BlobFacts.v ===== *)
(** Correctness of the blob store: what is put is read back, whatever the
    interleaving of the writers and wherever a crash falls; and the instance of
    the interface that ingestion is proved against. *)
From S2P Require Import Prelude Text Bytes Ident Store Mail Blob.

Open Scope string_scope.

(** ** Paths *)

Lemma append_inj_r s1 s2 t1 t2 :
  String.length t1 = String.length t2 -> s1 +:+ t1 = s2 +:+ t2 -> t1 = t2.
Proof.
  revert s2. induction s1 as [|c s1 IH]; intros [|c2 s2] Hl Heq.
  - done.
  - exfalso. apply (f_equal String.length) in Heq. rewrite !append_length in Heq. simpl in Heq. lia.
  - exfalso. apply (f_equal String.length) in Heq. rewrite !append_length in Heq. simpl in Heq. lia.
  - rewrite !append_cons in Heq. injection Heq as -> Heq. by eapply IH.
Qed.

Section Paths.
Variable root : string.

Lemma dir_for_length i : wf_blob_id i -> String.length (dir_for root i) = (String.length root + 3)%nat.
Proof.
  intros [Hl _]. unfold dir_for. rewrite !append_length.
  pose proof (to_hex_length i) as Hh. rewrite Hl in Hh.
  destruct (to_hex i) as [|a [|b [|c s]]]; simpl in *; lia.
Qed.

Lemma path_for_length i : wf_blob_id i -> String.length (path_for root i) = (String.length root + 68)%nat.
Proof.
  intros Hi. unfold path_for. rewrite !append_length, dir_for_length, to_hex_length by done.
  rewrite (proj1 Hi). simpl. lia.
Qed.

Lemma path_for_inj i j :
  wf_blob_id i -> wf_blob_id j -> path_for root i = path_for root j -> i = j.
Proof.
  intros Hi Hj Heq. unfold path_for in Heq.
  rewrite <- !append_assoc in Heq. apply append_inj_r in Heq.
  - apply from_str_to_hex in Hi, Hj. congruence.
  - by rewrite !to_hex_length, (proj1 Hi), (proj1 Hj).
Qed.

Lemma tmp_not_path i j n : wf_blob_id i -> wf_blob_id j -> tmp_path root i n <> path_for root j.
Proof.
  intros Hi Hj Heq. apply (f_equal String.length) in Heq.
  rewrite path_for_length in Heq by done. unfold tmp_path in Heq.
  rewrite !append_length, dir_for_length, to_hex_length, (proj1 Hi) in Heq by done.
  simpl in Heq. lia.
Qed.
End Paths.

(** ** What each call of the file system does to the names *)

Section FileSystem.
Implicit Types (p q : string) (f : Fs).

Lemma versions_insert p q vs f :
  versions p (<[q := vs]> f) = if decide (p = q) then vs else versions p f.
Proof.
  unfold versions, Fs in *. destruct (decide (p = q)) as [->|].
  - by rewrite lookup_insert_eq.
  - by rewrite lookup_insert_ne.
Qed.

Lemma versions_write p q c f : p <> q -> versions p (write_file q c f) = versions p f.
Proof. intros Hne. unfold write_file. by rewrite versions_insert, decide_False. Qed.

Lemma node_write q c f : get_node q (write_file q c f) = Some (mk_node c false).
Proof. unfold get_node, write_file. by rewrite versions_insert, decide_True. Qed.

Lemma versions_sync p q f : p <> q -> versions p (sync_file q f) = versions p f.
Proof.
  intros Hne. unfold sync_file. destruct (versions q f) as [|[n|] rest]; try done.
  by rewrite versions_insert, decide_False.
Qed.

Lemma node_sync q f n :
  get_node q f = Some n -> get_node q (sync_file q f) = Some (mk_node (n_bytes n) true).
Proof.
  unfold get_node at 1, sync_file. destruct (versions q f) as [|[n'|] rest]; simpl; try done.
  intros [= ->]. unfold get_node. by rewrite versions_insert, decide_True.
Qed.

Lemma versions_remove p q f : p <> q -> versions p (remove_file q f) = versions p f.
Proof. intros Hne. unfold remove_file. by rewrite versions_insert, decide_False. Qed.

Lemma versions_rename p q t f n :
  get_node t f = Some n -> q <> t ->
  versions p (rename_file t q f)
  = if decide (p = q) then Some n :: versions q f
    else if decide (p = t) then None :: versions t f else versions p f.
Proof.
  intros Hn Hne. unfold rename_file. rewrite Hn, versions_insert. destruct (decide (p = q)) as [->|]; [done|].
  unfold remove_file. by rewrite versions_insert.
Qed.

Lemma versions_sync_dir p dir f :
  versions p (sync_dir dir f)
  = if String.prefix (dir +:+ "/") p then take 1 (versions p f) else versions p f.
Proof.
  unfold versions, sync_dir, Fs in *. rewrite map_lookup_imap.
  destruct (f !! p) as [vs|]; simpl; by destruct (String.prefix _ _).
Qed.

Lemma node_sync_dir p dir f : get_node p (sync_dir dir f) = get_node p f.
Proof.
  unfold get_node. rewrite versions_sync_dir. destruct (String.prefix _ _); [|done].
  by destruct (versions p f).
Qed.

Lemma node_ne p f f' : versions p f' = versions p f -> get_node p f' = get_node p f.
Proof. unfold get_node. by intros ->. Qed.

Lemma get_file_node p f n : get_node p f = Some n -> get_file p f = Some (n_bytes n).
Proof. unfold get_file. by intros ->. Qed.

Lemma node_version p f n : get_node p f = Some n -> Some n ∈ versions p f.
Proof.
  unfold get_node. destruct (versions p f) as [|v vs]; [done|]. simpl. intros ->. by apply list_elem_of_here.
Qed.

Lemma get_file_Some p f : is_Some (get_file p f) <-> is_Some (get_node p f).
Proof. unfold get_file. by rewrite fmap_is_Some. Qed.
End FileSystem.

Lemma prefix_app s t : String.prefix s (s +:+ t) = true.
Proof.
  induction s as [|c s IH]; [by destruct t|]. rewrite append_cons. simpl.
  destruct (Ascii.ascii_dec c c); [done|congruence].
Qed.

(** ** Sealing and opening *)

Section Store.
Context `{PrimitiveLaws}.
Variable root : string.
Variable master : bytes.

Record env_ok (env : PutEnv) : Prop := {
  env_key : forall k, pe_key env = Some k -> length k = 32%nat;
  env_wrap : length (pe_wrap_nonce env) = NONCE_LEN;
  env_data : length (pe_data_nonce env) = NONCE_LEN
}.

Lemma ok_or_Ok {A} (o : option A) e (a : A) : ok_or o e = (Ok a : result StorageError A) -> o = Some a.
Proof. destruct o; simpl; congruence. Qed.

Lemma Ok_inj {E A} (a b : A) : (Ok a : result E A) = Ok b -> a = b.
Proof. congruence. Qed.

(** Opening a sealed file under the digest of its plaintext gives it back. *)
Lemma open_seal env m file :
  env_ok env -> seal master env m = Ok file -> open master (hash m) file = Ok m.
Proof.
  intros [Hk Hw Hd] Hs. unfold seal in Hs.
  apply result_bind_Ok in Hs as (key & Hkey%ok_or_Ok & Hs).
  apply result_bind_Ok in Hs as (wrapped & Hwrap%ok_or_Ok & Hs).
  apply result_bind_Ok in Hs as (cipher & Hc%ok_or_Ok & Hs).
  apply Ok_inj in Hs as <-. pose proof (encrypt_length _ _ _ _ _ Hwrap) as Hwl. rewrite (Hk _ Hkey) in Hwl.
  unfold open.
  assert (Hhead : (length (MAGIC ++ pe_wrap_nonce env ++ wrapped ++ pe_data_nonce env ++ cipher)%list
                   <? HEADER_LEN)%nat = false).
  { apply Nat.ltb_ge. rewrite !length_app. unfold HEADER_LEN, WRAPPED_KEY_LEN, NONCE_LEN in *.
    change (length MAGIC) with 4%nat. unfold bytes in *. lia. }
  rewrite Hhead. unfold bytes_eqb at 1.
  assert (take 4 (MAGIC ++ pe_wrap_nonce env ++ wrapped ++ pe_data_nonce env ++ cipher)%list = MAGIC) as ->
    by done.
  rewrite bool_decide_true by done. cbn [orb negb].
  change (drop 4 (MAGIC ++ pe_wrap_nonce env ++ wrapped ++ pe_data_nonce env ++ cipher)%list)
    with (pe_wrap_nonce env ++ wrapped ++ pe_data_nonce env ++ cipher)%list.
  rewrite <- Hw, take_app_length, drop_app_length, Hw.
  replace WRAPPED_KEY_LEN with (length wrapped) by (unfold WRAPPED_KEY_LEN; lia).
  rewrite take_app_length, drop_app_length.
  rewrite <- Hd, take_app_length, drop_app_length.
  rewrite (decrypt_encrypt _ _ _ _ _ Hwrap). simpl. rewrite (Hk _ Hkey). simpl.
  rewrite (decrypt_encrypt _ _ _ _ _ Hc). simpl. unfold bytes_eqb.
  by rewrite bool_decide_true.
Qed.

(** What [open] accepts is always content of that name. *)
Lemma open_hash i file m : open master i file = Ok m -> hash m = i.
Proof.
  unfold open. destruct (_ || _); [done|]. intros Hs.
  apply result_bind_Ok in Hs as (key & _ & Hs). destruct (negb _); [done|].
  apply result_bind_Ok in Hs as (m' & _ & Hs).
  destruct (bytes_eqb (hash m') i) eqn:E; [|done]. injection Hs as <-.
  by apply bool_decide_eq_true in E.
Qed.

(** ** Any number of writers *)

(** The writers at work, each with its plaintext; every plaintext handed to a
    [put] so far; and the files. *)
Record System := mk_system {
  s_writers : list (bytes * Writer);
  s_given : list bytes;
  s_files : Fs
}.

(** What the operating system promises of its answers: the random name of a
    temporary file is not in use, and a rename refused with [AlreadyExists] was
    refused because the target exists. *)
Record honest (env : PutEnv) (w : Writer) (f : Fs) : Prop := {
  honest_tmp : forall i file n, w = Sealed i file -> pe_tmp_nonce env = Some n ->
    get_node (tmp_path root i n) f = None;
  honest_rename : forall i tmp, w = Synced i tmp -> pe_rename env = RenameAlreadyExists ->
    contains_blob root i f = true
}.

(** The code goes on when flushing the temporary file fails; what follows is for
    flushes that succeed ([ignored_flush_failure] is the other case). *)
Inductive sys_step : System -> System -> Prop :=
  | sys_arrive ws given f m :
      sys_step (mk_system ws given f) (mk_system (ws ++ [(m, Start m)]) (m :: given) f)
  | sys_writer before m w after given f env w' f' :
      env_ok env -> honest env w f -> pe_sync env = true ->
      put_step root master env w f = (w', f') ->
      sys_step (mk_system (before ++ (m, w) :: after) given f)
               (mk_system (before ++ (m, w') :: after) given f')
  | sys_crash ws given f f' : crashed f f' -> sys_step (mk_system ws given f) (mk_system [] given f').

(** A file that reads back as one of the plaintexts given, under its name. *)
Definition good_file (given : list bytes) (i : BlobId) (file : bytes) : Prop :=
  exists m, m ∈ given /\ hash m = i /\ open master i file = Ok m.

Definition good_node (given : list bytes) (i : BlobId) (n : Node) : Prop :=
  n_synced n = true /\ good_file given i (n_bytes n).

(** The temporary file a writer is working on. *)
Definition tmp_of (w : Writer) : option string :=
  match w with
  | Created _ _ tmp | Written _ tmp | Synced _ tmp => Some tmp
  | _ => None
  end.

Definition writer_ok (given : list bytes) (f : Fs) (m : bytes) (w : Writer) : Prop :=
  match w with
  | Start m' => m' = m
  | Sealed i file => i = hash m /\ good_file given i file
  | Created i file tmp =>
      i = hash m /\ good_file given i file /\ is_Some (get_node tmp f) /\ exists n, tmp = tmp_path root i n
  | Written i tmp =>
      i = hash m /\ (exists n, get_node tmp f = Some n /\ good_file given i (n_bytes n))
      /\ exists n, tmp = tmp_path root i n
  | Synced i tmp =>
      i = hash m /\ (exists n, get_node tmp f = Some n /\ good_node given i n)
      /\ exists n, tmp = tmp_path root i n
  | Placed i | Finished (Ok i) => i = hash m /\ is_Some (get_node (path_for root i) f)
  | Finished (Err _) => True
  end.

(** Every file a blob's name has, or may have after a crash, is on the disk and
    good. *)
Definition fs_ok (given : list bytes) (f : Fs) : Prop :=
  forall i n, wf_blob_id i -> Some n ∈ versions (path_for root i) f -> good_node given i n.

Record sys_ok (s : System) : Prop := {
  sys_files : fs_ok (s_given s) (s_files s);
  sys_writers : forall m w, (m, w) ∈ s_writers s -> m ∈ s_given s /\ writer_ok (s_given s) (s_files s) m w;
  sys_tmps : NoDup (omap (fun p => tmp_of p.2) (s_writers s))
}.

(** How one step may change the versions of a blob's name. *)
Inductive moved (given : list bytes) (i : BlobId) (vs : list (option Node)) : list (option Node) -> Prop :=
  | moved_not : moved given i vs vs
  | moved_new n : good_node given i n -> moved given i vs (Some n :: vs)
  | moved_flushed : moved given i vs (take 1 vs).

Lemma good_file_more m given i file : good_file given i file -> good_file (m :: given) i file.
Proof. intros (m' & Hm & Hrest). exists m'. split; [by apply list_elem_of_further|done]. Qed.

Lemma writer_ok_more m' given f m w : writer_ok given f m w -> writer_ok (m' :: given) f m w.
Proof.
  pose proof (fun i file => good_file_more m' given i file) as Hmore.
  destruct w as [?|i file|i file t|i t|i t|i|[i|?]]; simpl; try done.
  - intros [-> ?]. auto.
  - intros (-> & ? & ?). auto.
  - intros (-> & (n & ? & ?) & ?). split_and!; [done| |done]. exists n. auto.
  - intros (-> & (n & ? & ? & ?) & ?). split_and!; [done| |done]. exists n. split; [done|]. split; auto.
Qed.

Lemma moved_node given i f f' :
  moved given i (versions (path_for root i) f) (versions (path_for root i) f') ->
  is_Some (get_node (path_for root i) f) -> is_Some (get_node (path_for root i) f').
Proof.
  unfold get_node. destruct 1; [done|eauto|]. by destruct (versions _ f).
Qed.

Lemma moved_good given f f' :
  (forall i, wf_blob_id i -> moved given i (versions (path_for root i) f) (versions (path_for root i) f')) ->
  fs_ok given f -> fs_ok given f'.
Proof.
  intros Hm Hf i n Hi. specialize (Hf i). destruct (Hm i Hi) as [|n' Hn'|].
  - auto.
  - intros [[= ->]|Hin]%elem_of_cons; [done|by apply Hf].
  - intros Hin. apply Hf; [done|]. by eapply subseteq_take.
Qed.

Lemma open_sealed env m given file :
  env_ok env -> m ∈ given -> seal master env m = Ok file -> good_file given (hash m) file.
Proof. intros Henv Hm Hs. exists m. split_and!; [done|done|by eapply open_seal]. Qed.

(** The names of the blobs: untouched, given a good file, or flushed. *)
Lemma put_step_paths env m w given f w' f' i :
  writer_ok given f m w -> wf_blob_id i -> put_step root master env w f = (w', f') ->
  moved given i (versions (path_for root i) f) (versions (path_for root i) f').
Proof.
  intros Hw Hi Hs. pose proof (hash_wf m) as Hwf.
  assert (Htmp : forall n, path_for root i <> tmp_path root (hash m) n)
    by (intros n; by apply not_eq_sym, tmp_not_path).
  destruct w as [m'|j file|j file tmp|j tmp|j tmp|j|r]; simpl in Hs, Hw.
  - destruct (contains_blob _ _ f); [injection Hs as <- <-; constructor|].
    destruct (seal _ _ _); injection Hs as <- <-; constructor.
  - destruct Hw as [-> _].
    destruct (pe_mkdir env); [|injection Hs as <- <-; constructor].
    destruct (pe_tmp_nonce env) as [n|]; [|injection Hs as <- <-; constructor].
    destruct (pe_create env); injection Hs as <- <-; [|constructor].
    rewrite versions_write by done. constructor.
  - destruct Hw as (-> & _ & _ & n & ->).
    destruct (pe_write env); injection Hs as <- <-; rewrite versions_write by done; constructor.
  - destruct Hw as (-> & _ & n & ->). injection Hs as <- <-.
    destruct (pe_sync env); [|constructor]. rewrite versions_sync by done. constructor.
  - destruct Hw as (-> & (nd & Hnd & Hgood) & n & ->).
    destruct (pe_rename env); injection Hs as <- <-; [| |constructor].
    + rewrite (versions_rename _ _ _ _ nd) by (try done; by apply not_eq_sym, tmp_not_path).
      destruct (decide _) as [Heq|]; [|rewrite decide_False by done; constructor].
      apply path_for_inj in Heq as ->; [by constructor|done|done].
    + destruct (pe_remove env); [|constructor]. rewrite versions_remove by done. constructor.
  - injection Hs as <- <-. destruct (pe_sync_dir env); [|constructor].
    rewrite versions_sync_dir. destruct (String.prefix _ _); constructor.
  - injection Hs as <- <-. constructor.
Qed.

(** The temporary files of the other writers. *)
Lemma put_step_others env m w given f w' f' t n i :
  writer_ok given f m w -> honest env w f -> put_step root master env w f = (w', f') ->
  wf_blob_id i -> t = tmp_path root i n -> tmp_of w <> Some t -> is_Some (get_node t f) ->
  get_node t f' = get_node t f.
Proof.
  intros Hw [Hfresh _] Hs Hi -> Hne Hsome. pose proof (hash_wf m) as Hwf.
  destruct w as [m'|j file|j file tmp|j tmp|j tmp|j|r]; simpl in Hs, Hw, Hne.
  - destruct (contains_blob _ _ f); [by injection Hs as <- <-|].
    by destruct (seal _ _ _); injection Hs as <- <-.
  - destruct (pe_mkdir env); [|by injection Hs as <- <-].
    destruct (pe_tmp_nonce env) as [n'|] eqn:En; [|by injection Hs as <- <-].
    destruct (pe_create env); injection Hs as <- <-; [|done].
    apply node_ne, versions_write. intros Heq. specialize (Hfresh _ _ _ eq_refl eq_refl).
    rewrite Heq, Hfresh in Hsome. by destruct Hsome.
  - destruct (pe_write env); injection Hs as <- <-; apply node_ne, versions_write; congruence.
  - injection Hs as <- <-. destruct (pe_sync env); [|done]. apply node_ne, versions_sync. congruence.
  - destruct Hw as (-> & (nd & Hnd & _) & n' & ->).
    destruct (pe_rename env); injection Hs as <- <-; [| |done].
    + apply node_ne. rewrite (versions_rename _ _ _ _ nd) by (try done; by apply not_eq_sym, tmp_not_path).
      rewrite decide_False by (by apply tmp_not_path). rewrite decide_False; [done|congruence].
    + destruct (pe_remove env); [|done]. apply node_ne, versions_remove. congruence.
  - injection Hs as <- <-. destruct (pe_sync_dir env); [|done]. apply node_sync_dir.
  - by injection Hs as <- <-.
Qed.

(** The writer itself, and the temporary file it goes on with. *)
Lemma put_step_writer env m w given f w' f' :
  env_ok env -> honest env w f -> pe_sync env = true -> m ∈ given -> writer_ok given f m w ->
  put_step root master env w f = (w', f') ->
  writer_ok given f' m w'
  /\ (tmp_of w' = tmp_of w \/ tmp_of w' = None
      \/ exists tmp, tmp_of w' = Some tmp /\ get_node tmp f = None).
Proof.
  intros Henv [Hfresh Hexists] Hsync Hm Hw Hs. pose proof (hash_wf m) as Hwf.
  destruct w as [m'|j file|j file tmp|j tmp|j tmp|j|r]; simpl in Hs, Hw.
  - subst m'. unfold contains_blob in Hs. destruct (get_file _ f) as [file|] eqn:E.
    + injection Hs as <- <-. simpl. split; [|auto]. split; [done|]. apply get_file_Some. eauto.
    + destruct (seal master env m) as [file|e] eqn:Es; injection Hs as <- <-; simpl; [|auto].
      split; [|auto]. split; [done|]. by eapply open_sealed.
  - destruct Hw as [-> Hg]. destruct (pe_mkdir env); [|injection Hs as <- <-; simpl; auto].
    destruct (pe_tmp_nonce env) as [n|]; [|injection Hs as <- <-; simpl; auto].
    destruct (pe_create env); injection Hs as <- <-; simpl; [|auto].
    rewrite node_write. split; [split_and!; eauto|]. right. right. eauto.
  - destruct Hw as (-> & Hg & _ & n & ->).
    destruct (pe_write env); injection Hs as <- <-; simpl; [auto|].
    rewrite node_write. split; [split_and!; eauto|]. by left.
  - destruct Hw as (-> & (nd & Hnd & Hg) & n & ->). rewrite Hsync in Hs. injection Hs as <- <-. simpl.
    rewrite (node_sync _ _ _ Hnd). split; [|by left]. split_and!; [done| |eauto]. eexists. split; [done|].
    by split.
  - destruct Hw as (-> & (nd & Hnd & _) & n & ->).
    assert (Hpt : path_for root (hash m) <> tmp_path root (hash m) n) by (by apply not_eq_sym, tmp_not_path).
    destruct (pe_rename env); injection Hs as <- <-; simpl; [| |auto]; (split; [split; [done|]|auto]).
    + unfold get_node. rewrite (versions_rename _ _ _ _ nd) by done. rewrite decide_True by done. eauto.
    + specialize (Hexists _ _ eq_refl eq_refl). unfold contains_blob in Hexists.
      assert (is_Some (get_node (path_for root (hash m)) f)) as Hsome.
      { apply get_file_Some. destruct (get_file _ f); [eauto|done]. }
      destruct (pe_remove env); [|done]. by rewrite (node_ne _ f) by by apply versions_remove.
  - injection Hs as <- <-. simpl. split; [|auto]. destruct Hw as [-> Hsome]. split; [done|].
    destruct (pe_sync_dir env); [by rewrite node_sync_dir|done].
  - injection Hs as <- <-. auto.
Qed.

(** A writer that is not stepping keeps its state right. *)
Lemma writer_ok_frame given m w f f' :
  writer_ok given f m w ->
  (forall i, wf_blob_id i -> is_Some (get_node (path_for root i) f) ->
     is_Some (get_node (path_for root i) f')) ->
  (forall tmp n i, wf_blob_id i -> tmp = tmp_path root i n -> tmp_of w = Some tmp ->
     is_Some (get_node tmp f) -> get_node tmp f' = get_node tmp f) ->
  writer_ok given f' m w.
Proof.
  intros Hw Hpath Htmp. pose proof (hash_wf m) as Hwf.
  destruct w as [m'|i file|i file tmp|i tmp|i tmp|i|[i|e]]; simpl in *; try done.
  - destruct Hw as (-> & Hg & Hsome & n & ->). split_and!; [done|done| |eauto].
    erewrite Htmp; eauto.
  - destruct Hw as (-> & (nd & Hnd & Hg) & n & ->). split_and!; [done| |eauto].
    exists nd. erewrite Htmp; eauto.
  - destruct Hw as (-> & (nd & Hnd & Hg) & n & ->). split_and!; [done| |eauto].
    exists nd. erewrite Htmp; eauto.
  - destruct Hw as (-> & Hsome). eauto.
  - destruct Hw as (-> & Hsome). eauto.
Qed.

Lemma writer_tmp_exists given m w f tmp :
  writer_ok given f m w -> tmp_of w = Some tmp -> is_Some (get_node tmp f).
Proof.
  destruct w as [m'|i file|i file t|i t|i t|i|[i|e]]; simpl; try done.
  - by intros (_ & _ & ? & _) [= <-].
  - intros (_ & (n & Hf & _) & _) [= <-]. eauto.
  - intros (_ & (n & Hf & _) & _) [= <-]. eauto.
Qed.

Lemma tmp_elem (ws : list (bytes * Writer)) m w tmp :
  (m, w) ∈ ws -> tmp_of w = Some tmp -> tmp ∈ omap (fun p => tmp_of p.2) ws.
Proof. intros Hin Ht. apply list_elem_of_omap. by exists (m, w). Qed.

(** No two writers share a temporary file, before and after a step. *)
Lemma tmps_step given f before (m : bytes) (w : Writer) after w' :
  NoDup (omap (fun p => tmp_of p.2) (before ++ (m, w) :: after)%list) ->
  (forall m2 w2, (m2, w2) ∈ (before ++ after)%list -> writer_ok given f m2 w2) ->
  (tmp_of w' = tmp_of w \/ tmp_of w' = None
   \/ exists tmp, tmp_of w' = Some tmp /\ get_node tmp f = None) ->
  NoDup (omap (fun p => tmp_of p.2) (before ++ (m, w') :: after)%list).
Proof.
  intros Hnd Hok Hcase. rewrite omap_app in Hnd |- *. simpl in *.
  assert (Hrest : NoDup (omap (fun p => tmp_of p.2) before ++ omap (fun p => tmp_of p.2) after)).
  { destruct (tmp_of w); [|done]. rewrite <- Permutation_middle in Hnd. by apply NoDup_cons in Hnd as [_ ?]. }
  destruct Hcase as [->|[->|(tmp & -> & Hnone)]]; [done|done|].
  rewrite <- Permutation_middle. apply NoDup_cons. split; [|done].
  rewrite <- omap_app. intros ((m2 & w2) & Hin & Ht2)%list_elem_of_omap.
  apply (writer_tmp_exists _ _ _ _ _ (Hok _ _ Hin)) in Ht2. rewrite Hnone in Ht2. by destruct Ht2.
Qed.

Lemma tmps_apart before (m : bytes) (w : Writer) after m2 w2 tmp :
  NoDup (omap (fun p => tmp_of p.2) (before ++ (m, w) :: after)%list) ->
  (m2, w2) ∈ (before ++ after)%list -> tmp_of w2 = Some tmp -> tmp_of w <> Some tmp.
Proof.
  intros Hnd Hin Ht2 Ht. rewrite omap_app in Hnd. simpl in Hnd. rewrite Ht in Hnd.
  rewrite <- Permutation_middle in Hnd. apply NoDup_cons in Hnd as [Hn _]. apply Hn.
  rewrite <- omap_app. by eapply tmp_elem.
Qed.

Lemma crash_ok given f f' : crashed f f' -> fs_ok given f -> fs_ok given f'.
Proof.
  intros Hc Hf i n Hi Hin. destruct (Hc (path_for root i)) as (v & o & Hv & Ho & Hs).
  rewrite Ho in Hin. apply list_elem_of_singleton in Hin as <-. destruct v as [n0|]; [|done].
  destruct Hs as [Hsy Hb]. destruct (Hf _ _ Hi Hv) as [Hsy0 Hg]. split; [done|]. by rewrite Hb.
Qed.

Lemma sys_step_ok s s' : sys_step s s' -> sys_ok s -> sys_ok s'.
Proof.
  intros Hs [Hf Hws Hnd].
  destruct Hs as [ws given f m|before m w after given f env w' f' Henv Hhon Hsync Hstep|ws given f f' Hc];
    simpl in *.
  - constructor; simpl.
    + intros i n Hi Hin. destruct (Hf _ _ Hi Hin) as [? Hg]. split; [done|]. by apply good_file_more.
    + intros m' w' [Hin|[= -> ->]%list_elem_of_singleton]%elem_of_app.
      * destruct (Hws _ _ Hin). split; [by apply list_elem_of_further|]. by apply writer_ok_more.
      * split; [by apply list_elem_of_here|done].
    + by rewrite omap_app, app_nil_r.
  - destruct (Hws m w) as [Hm Hw]; [set_solver|].
    assert (Hothers : forall m2 w2, (m2, w2) ∈ (before ++ after)%list -> m2 ∈ given /\ writer_ok given f m2 w2)
      by (intros m2 w2 Hin; apply Hws; set_solver).
    destruct (put_step_writer _ _ _ _ _ _ _ Henv Hhon Hsync Hm Hw Hstep) as [Hw' Hcase].
    assert (Hpaths : forall i, wf_blob_id i ->
      moved given i (versions (path_for root i) f) (versions (path_for root i) f'))
      by (intros i Hi; by eapply put_step_paths).
    constructor; simpl.
    + by eapply moved_good.
    + intros m2 w2 Hin.
      assert ((m2, w2) = (m, w') \/ (m2, w2) ∈ (before ++ after)%list) as [[= -> ->]|Hin'] by set_solver;
        [done|].
      destruct (Hothers _ _ Hin') as [Hm2 Hok]. split; [done|]. eapply writer_ok_frame; [exact Hok| |].
      * intros i Hi. by eapply moved_node, Hpaths.
      * intros tmp n i Hi -> Ht2 Hsome. eapply (put_step_others env m w); eauto.
        by eapply tmps_apart.
    + eapply tmps_step; [done| |done]. intros m2 w2 Hin. by apply Hothers.
  - constructor; simpl; [by eapply crash_ok| |apply NoDup_nil_2]. by intros m w ?%elem_of_nil.
Qed.

Lemma steps_ok s s' : rtc sys_step s s' -> sys_ok s -> sys_ok s'.
Proof. induction 1; [done|]. eauto using sys_step_ok. Qed.

Lemma reachable_sys_ok s : rtc sys_step (mk_system [] [] ∅) s -> sys_ok s.
Proof.
  intros Hr. eapply steps_ok; [done|]. constructor; simpl.
  - intros i n _ Hin. unfold versions, Fs in *. rewrite lookup_empty in Hin.
    by apply list_elem_of_singleton in Hin.
  - by intros m w ?%elem_of_nil.
  - apply NoDup_nil_2.
Qed.

(** A name no crash can take away. *)
Definition durable (i : BlobId) (f : Fs) : Prop :=
  is_Some (get_node (path_for root i) f) /\ None ∉ versions (path_for root i) f.

Lemma durable_step i s s' :
  wf_blob_id i -> sys_ok s -> sys_step s s' -> durable i (s_files s) -> durable i (s_files s').
Proof.
  intros Hi [_ Hws _] Hs Hd.
  destruct Hs as [ws given f m|before m w after given f env w' f' Henv Hhon Hsync Hstep|ws given f f' Hc];
    simpl in *; [done| |].
  - destruct (Hws m w) as [_ Hw]; [set_solver|]. destruct Hd as [Hsome Hn].
    assert (Hm : moved given i (versions (path_for root i) f) (versions (path_for root i) f'))
      by by eapply put_step_paths.
    split; [by eapply moved_node|]. destruct Hm; [done| |].
    + intros [|]%elem_of_cons; done.
    + intros Hin. apply Hn. by eapply subseteq_take.
  - destruct Hd as [_ Hn]. destruct (Hc (path_for root i)) as (v & o & Hv & Ho & Hs).
    destruct v as [n|]; [|done]. destruct o as [n'|]; [|done].
    unfold durable, get_node. rewrite Ho. split; [simpl; eauto|]. by intros ?%list_elem_of_singleton.
Qed.

Lemma durable_steps i s s' :
  wf_blob_id i -> sys_ok s -> rtc sys_step s s' -> durable i (s_files s) -> durable i (s_files s').
Proof.
  intros Hi Hok Hr. revert Hok. induction Hr as [|s1 s2 s3 Hs _ IH]; [done|]. intros Hok Hd.
  apply IH; [by eapply sys_step_ok|]. by eapply durable_step.
Qed.

Lemma dir_sync_durable i f :
  is_Some (get_node (path_for root i) f) -> durable i (sync_dir (dir_for root i) f).
Proof.
  intros Hsome. unfold durable. rewrite node_sync_dir. split; [done|].
  rewrite versions_sync_dir. unfold path_for at 1. rewrite <- append_assoc, prefix_app.
  unfold get_node in Hsome. destruct (versions _ f) as [|v vs]; simpl in *; [by destruct Hsome|].
  intros Hin%list_elem_of_singleton. subst v. by destruct Hsome.
Qed.

(** C26: Neither concurrent writers nor crashes damage the store.  The writers'
    system calls interleave in any order and may fail (a write cut short, a
    rename refused because another writer was first, a directory that cannot be
    flushed), and a crash may undo every rename not yet followed by a flush of
    its directory and scramble every byte not yet flushed; only the flush of the
    temporary file, whose failure the code ignores, is taken to succeed.  Then a
    file that bears a blob's name opens to a plaintext that was handed to [put]
    and has that digest (the very one, unless two of the plaintexts collide); a
    writer that reported success finds its blob there; and once a writer that
    placed or found its blob has flushed the directory, the blob stays readable
    through everything that follows, crashes included (the shard directory
    itself, whose own entry the code does not flush, is taken to survive). *)
Theorem concurrent_puts_readable s :
  rtc sys_step (mk_system [] [] ∅) s ->
  (forall i, wf_blob_id i -> contains_blob root i (s_files s) = true ->
     exists m, m ∈ s_given s /\ hash m = i /\ get root master i (s_files s) = Ok m)
  /\ (forall m i, (m, Finished (Ok i)) ∈ s_writers s ->
        i = hash m /\ contains_blob root i (s_files s) = true)
  /\ (forall before m i after env s',
        s_writers s = (before ++ (m, Placed i) :: after)%list -> env_ok env -> pe_sync env = true ->
        pe_sync_dir env = true ->
        let '(w, f) := put_step root master env (Placed i) (s_files s) in
        w = Finished (Ok i)
        /\ (rtc sys_step (mk_system (before ++ (m, w) :: after) (s_given s) f) s' ->
            contains_blob root i (s_files s') = true)).
Proof.
  intros Hr. pose proof (reachable_sys_ok _ Hr) as Hok. destruct (Hok) as [Hf Hws _].
  assert (Hcontains : forall i f, contains_blob root i f = true <-> is_Some (get_node (path_for root i) f)).
  { intros i f. rewrite <- get_file_Some. unfold contains_blob.
    destruct (get_file _ f); split; intros Hx; try done; by destruct Hx. }
  split_and!.
  - intros i Hi [n Hn]%Hcontains. destruct (Hf _ _ Hi (node_version _ _ _ Hn)) as (_ & m & Hm & Hh & Ho).
    exists m. split_and!; [done|done|]. unfold get. by rewrite (get_file_node _ _ _ Hn).
  - intros m i Hin. apply Hws in Hin as (_ & -> & Hsome). split; [done|]. by apply Hcontains.
  - intros before m i after env s' Hin Henv Hsync Hdir. destruct (put_step _ _ _ _ _) as [w f] eqn:Es.
    destruct (Hws m (Placed i)) as (_ & -> & Hsome); [rewrite Hin; set_solver|].
    assert (Hd : durable (hash m) f /\ w = Finished (Ok (hash m))).
    { simpl in Es. rewrite Hdir in Es. injection Es as <- <-. split; [|done]. by apply dir_sync_durable. }
    destruct Hd as [Hd ->]. split; [done|]. intros Hr'. apply Hcontains.
    refine (proj1 (durable_steps _ _ _ (hash_wf m) _ Hr' Hd)).
    eapply sys_step_ok; [|exact Hok]. destruct s as [ws given f0]. simpl in *. subst ws.
    eapply sys_writer; [exact Henv| |exact Hsync|exact Es]. by split.
Qed.
End Store.

(** ** The interface that ingestion uses *)

Section Instance_.
Context `{PrimitiveLaws}.
Variable root : string.
Variable master : bytes.
(** The randomness and system answers each [put] meets. *)
Variable environment : bytes -> Fs -> PutEnv.
Hypothesis environment_ok : forall m f, env_ok (environment m f).
(** A rename is refused with [AlreadyExists] only when the target exists. *)
Hypothesis environment_honest : forall m f,
  pe_rename (environment m f) = RenameAlreadyExists -> contains_blob root (hash m) f = true.
(** The plaintexts considered, among which the digest does not collide. *)
Variable messages : bytes -> Prop.
Hypothesis no_collision : forall a b, messages a -> messages b -> hash a = hash b -> a = b.

#[local] Instance blob_store : BlobStore := {
  files := Fs;
  blob_put m f := put root master (environment m f) m f;
  blob_get i f := get root master i f
}.

Definition good_store (f : Fs) : Prop :=
  forall i file, wf_blob_id i -> get_file (path_for root i) f = Some file ->
    exists m, messages m /\ hash m = i /\ open master i file = Ok m.

(** How a lone [put] ends: nothing stored and an error, or a temporary file left
    behind and an error, or the blob already there, or the blob written. *)
Lemma put_cases env m f r f' :
  env_ok env -> (pe_rename env = RenameAlreadyExists -> contains_blob root (hash m) f = true) ->
  put root master env m f = (r, f') ->
  (forall i, wf_blob_id i -> i <> hash m \/ is_Some (get_file (path_for root (hash m)) f) ->
     get_file (path_for root i) f' = get_file (path_for root i) f)
  /\ (forall file, get_file (path_for root (hash m)) f = None ->
        get_file (path_for root (hash m)) f' = Some file -> open master (hash m) file = Ok m)
  /\ (forall i, r = Ok i -> i = hash m /\ is_Some (get_file (path_for root i) f')).
Proof.
  intros Henv Hhon Hp. pose proof (hash_wf m) as Hwf.
  assert (Htmp : forall n i, wf_blob_id i -> path_for root i <> tmp_path root (hash m) n)
    by (intros n i Hi; by apply not_eq_sym, tmp_not_path).
  assert (Hsync : forall n g, get_file (tmp_path root (hash m) n)
      (if pe_sync env then sync_file (tmp_path root (hash m) n) g else g)
    = get_file (tmp_path root (hash m) n) g).
  { intros n g. destruct (pe_sync env); [|done]. unfold get_file.
    destruct (get_node (tmp_path root (hash m) n) g) as [nd|] eqn:E; [by rewrite (node_sync _ _ _ E)|].
    unfold sync_file. unfold get_node in E. destruct (versions _ g) as [|[?|] ?] eqn:Ev; try done;
      unfold get_node; by rewrite Ev. }
  (* a file system that gave the blobs' names nothing new *)
  set (same f1 := forall i, wf_blob_id i -> versions (path_for root i) f1 = versions (path_for root i) f).
  assert (Hfail : forall f1 e, same f1 -> (Err e, f1) = (r, f') ->
    (forall i, wf_blob_id i -> i <> hash m \/ is_Some (get_file (path_for root (hash m)) f) ->
       get_file (path_for root i) f' = get_file (path_for root i) f)
    /\ (forall file, get_file (path_for root (hash m)) f = None ->
          get_file (path_for root (hash m)) f' = Some file -> open master (hash m) file = Ok m)
    /\ (forall i, r = Ok i -> i = hash m /\ is_Some (get_file (path_for root i) f'))).
  { intros f1 e Hsame [= <- <-].
    assert (Heq : forall i, wf_blob_id i -> get_file (path_for root i) f1 = get_file (path_for root i) f)
      by (intros i Hi; unfold get_file; by rewrite (node_ne _ _ _ (Hsame i Hi))).
    split_and!; [by intros i Hi _; apply Heq| |done]. intros file Hnone. rewrite Heq by done. congruence. }
  unfold put in Hp. simpl in Hp. destruct (contains_blob root (hash m) f) eqn:Ec; unfold contains_blob in Ec.
  { destruct (get_file (path_for root (hash m)) f) as [old|] eqn:Eold; [|done].
    injection Hp as <- <-. split_and!; [done|congruence|]. intros i [= <-]. rewrite Eold. eauto. }
  destruct (get_file (path_for root (hash m)) f) as [old|] eqn:Eold; [done|].
  destruct (seal master env m) as [file|e] eqn:Es; [|by eapply Hfail; [|exact Hp]].
  apply open_seal in Es; [|done]. simpl in Hp.
  destruct (pe_mkdir env); [|by eapply Hfail; [|exact Hp]].
  destruct (pe_tmp_nonce env) as [n|]; [|by eapply Hfail; [|exact Hp]].
  destruct (pe_create env); [|by eapply Hfail; [|exact Hp]]. simpl in Hp.
  destruct (pe_write env) as [k|].
  { eapply Hfail; [|exact Hp]. intros i Hi. by rewrite !versions_write by by apply Htmp. }
  simpl in Hp.
  set (g := if pe_sync env then _ else _) in Hp.
  assert (Hg : same g).
  { intros i Hi. unfold g. destruct (pe_sync env); rewrite ?versions_sync by (by apply Htmp);
      by rewrite !versions_write by by apply Htmp. }
  assert (Hnode : exists nd, get_node (tmp_path root (hash m) n) g = Some nd /\ n_bytes nd = file).
  { specialize (Hsync n (write_file (tmp_path root (hash m) n) file
      (write_file (tmp_path root (hash m) n) [] f))). fold g in Hsync.
    unfold get_file in Hsync. rewrite node_write in Hsync. simpl in Hsync.
    apply fmap_Some in Hsync as (nd & ? & ?). eauto. }
  destruct Hnode as (nd & Hnd & Hfile). destruct (pe_rename env); simpl in Hp;
    [|by specialize (Hhon eq_refl)|by eapply Hfail; [|exact Hp]].
  injection Hp as <- <-.
  assert (Hat : forall i, wf_blob_id i ->
    get_file (path_for root i)
      (if pe_sync_dir env then sync_dir (dir_for root (hash m)) (rename_file (tmp_path root (hash m) n)
         (path_for root (hash m)) g) else rename_file (tmp_path root (hash m) n) (path_for root (hash m)) g)
    = if decide (i = hash m) then Some file else get_file (path_for root i) f).
  { intros i Hi. transitivity (get_file (path_for root i)
      (rename_file (tmp_path root (hash m) n) (path_for root (hash m)) g)).
    { destruct (pe_sync_dir env); [|done]. unfold get_file. by rewrite node_sync_dir. }
    unfold get_file, get_node. rewrite (versions_rename _ _ _ _ nd) by (try done; by apply Htmp).
    destruct (decide (i = hash m)) as [->|Hne].
    - rewrite decide_True by done. simpl. by rewrite Hfile.
    - rewrite decide_False by (by intros ?%path_for_inj). rewrite decide_False by by apply Htmp.
      by rewrite (Hg i Hi). }
  split_and!.
  - intros i Hi [Hne|Hsome]; [|by destruct Hsome]. by rewrite Hat, decide_False.
  - intros file' _. rewrite Hat, decide_True by done. by intros [= <-].
  - intros i [= <-]. split; [done|]. rewrite Hat, decide_True by done. eauto.
Qed.

#[local] Instance blob_store_laws : BlobStoreLaws.
Proof.
  refine {| good_files := (good_store : files -> Prop); storable := messages |}.
  - intros m f r f' Hg Hm Hp. destruct (put_cases _ _ _ _ _ (environment_ok m f) (environment_honest m f) Hp) as (Hsame & Hnew & _).
    intros i file Hi Hfile. pose proof (hash_wf m) as Hwf.
    destruct (decide (i = hash m)) as [->|Hne].
    + destruct (get_file (path_for root (hash m)) f) as [old|] eqn:Eold.
      * rewrite Hsame in Hfile by (eauto). by eapply Hg.
      * exists m. eauto.
    + rewrite Hsame in Hfile by eauto. by eapply Hg.
  - intros m f i f' Hp. destruct (put_cases _ _ _ _ _ (environment_ok m f) (environment_honest m f) Hp) as (_ & _ & Hok).
    destruct (Hok _ eq_refl) as [-> _]. apply hash_wf.
  - intros m f i f' Hg Hm Hp.
    destruct (put_cases _ _ _ _ _ (environment_ok m f) (environment_honest m f) Hp) as (Hsame & Hnew & Hok).
    destruct (Hok _ eq_refl) as [-> (file & Hfile)]. pose proof (hash_wf m) as Hwf.
    simpl. unfold get. rewrite Hfile.
    destruct (get_file (path_for root (hash m)) f) as [old|] eqn:Eold; [|by apply Hnew].
    rewrite Hsame in Hfile by eauto. destruct (Hg _ _ Hwf Hfile) as (m' & Hm' & Hh & Ho).
    by rewrite Ho, (no_collision m m' Hm Hm' (eq_sym Hh)).
  - intros m f r f' i m' Hg Hm Hp Hi Hget.
    destruct (put_cases _ _ _ _ _ (environment_ok m f) (environment_honest m f) Hp) as (Hsame & _).
    simpl in *. unfold get in *. destruct (get_file (path_for root i) f) as [file|] eqn:E; [|done].
    rewrite Hsame; [by rewrite E|done|].
    destruct (decide (i = hash m)) as [->|]; [right; eauto|by left].
Defined.
End Instance_.

(** * Concrete inputs for the blob store: primitives that satisfy the laws, a
    store over them, and two writers of the same blob interleaved. *)

(** A digest that keeps the first 32 bytes, and a cipher that appends a tag. *)
Definition toy_hash (m : bytes) : BlobId := take 32 (map (fun b => (b mod 256)%Z) m ++ repeat 0%Z 32).

#[export] Instance toy_primitives : Primitives := {
  hash := toy_hash;
  encrypt _ _ _ m := Some (m ++ repeat 0%Z 16)%list;
  decrypt _ _ _ c := if (length c <? 16)%nat then None else Some (take (length c - 16) c)
}.

#[export] Instance toy_primitive_laws : PrimitiveLaws.
Proof.
  constructor.
  - intros m. unfold hash. simpl. unfold toy_hash. split.
    + rewrite length_take, length_app, length_map, repeat_length. lia.
    + apply Forall_take, Forall_app. split.
      * apply Forall_forall. intros b (x & _ & ->)%elem_of_map. apply Z.mod_pos_bound. lia.
      * apply Forall_forall. intros b Hb. apply list_elem_of_In, repeat_spec in Hb. lia.
  - intros key nonce aad m c. unfold encrypt, decrypt, toy_primitives.
    intros Hc. assert (c = (m ++ repeat 0%Z 16)%list) as -> by congruence.
    rewrite length_app, repeat_length, (proj2 (Nat.ltb_ge _ _)) by lia. f_equal.
    replace (length m + 16 - 16)%nat with (length m) by lia. apply take_app_length.
  - intros key nonce aad m c. unfold encrypt, toy_primitives.
    intros Hc. assert (c = (m ++ repeat 0%Z 16)%list) as -> by congruence.
    by rewrite length_app, repeat_length.
Defined.

Definition toy_env (n : Z) : PutEnv :=
  mk_env (Some (repeat 1%Z 32)) (repeat 2%Z 24) (repeat 3%Z 24) true (Some n) true None true RenameDone
    true true.

Lemma toy_env_ok n : env_ok (toy_env n).
Proof. constructor; simpl; try done. by intros k [= <-]. Defined.

Definition note : bytes := [72; 105]%Z.
Definition memo : bytes := [66; 121; 101]%Z.

Lemma toy_env_honest n (m : bytes) (f : Fs) :
  pe_rename (toy_env n) = RenameAlreadyExists -> contains_blob "blobs" (hash m) f = true.
Proof. done. Defined.

#[export] Instance toy_store : BlobStore := blob_store "blobs" [] (fun _ _ => toy_env 7).

Lemma toy_no_collision a b :
  a ∈ [note; memo] -> b ∈ [note; memo] -> hash a = hash b -> a = b.
Proof.
  rewrite !elem_of_cons. intros [-> | [-> | []%elem_of_nil]] [-> | [-> | []%elem_of_nil]]; done.
Defined.

#[export] Instance toy_store_laws : BlobStoreLaws :=
  blob_store_laws "blobs" [] (fun _ _ => toy_env 7) (fun _ _ => toy_env_ok 7) (toy_env_honest 7)
    (fun m => m ∈ [note; memo]) toy_no_collision.

(** Two writers of the same note, step by step: both pass the dedup check, the
    second renames over the first, the first flushes the directory, the machine
    crashes, and what was not flushed is lost. *)
Definition tick (j : nat) (n : Z) (s : System) : System :=
  match s_writers s !! j with
  | Some (m, w) =>
      let '(w', f') := put_step "blobs" [] (toy_env n) w (s_files s) in
      mk_system (<[j := (m, w')]> (s_writers s)) (s_given s) f'
  | None => s
  end.

Definition name_free (j : nat) (n : Z) (s : System) : bool :=
  match s_writers s !! j with
  | Some (_, Sealed i _) => negb (bool_decide (is_Some (get_node (tmp_path "blobs" i n) (s_files s))))
  | _ => true
  end.

Lemma tick_step j n s : name_free j n s = true -> rtc (sys_step "blobs" []) s (tick j n s).
Proof.
  destruct s as [ws given f]. unfold name_free, tick. simpl.
  destruct (ws !! j) as [[m w]|] eqn:E; [|done].
  destruct (put_step _ _ _ w f) as [w' f'] eqn:Ep. intros Hfree. apply rtc_once.
  assert (Hws : ws = (take j ws ++ (m, w) :: drop (S j) ws)%list) by (by rewrite take_drop_middle).
  rewrite insert_take_drop by (by eapply lookup_lt_Some). rewrite Hws at 1.
  apply (sys_writer _ _ _ _ _ _ _ _ (toy_env n)); [apply toy_env_ok| |done|done].
  split; [|done]. intros i file n' -> [= <-]. apply negb_true_iff, bool_decide_eq_false in Hfree.
  destruct (get_node _ f); [|done]. destruct Hfree. eauto.
Qed.

Definition both_started : System := mk_system [(note, Start note); (note, Start note)] [note; note] ∅.
Definition ticks (js : list nat) (s : System) : System :=
  foldl (fun s j => tick j (Z.of_nat j) s) s js.

(** Both have renamed. *)
Definition race : System := ticks [0; 1; 0; 1; 0; 0; 1; 1; 0; 1]%nat both_started.

Lemma race_reachable : rtc (sys_step "blobs" []) (mk_system [] [] ∅) race.
Proof.
  apply (rtc_l _ _ (mk_system [(note, Start note)] [note] ∅)); [apply (sys_arrive "blobs" [] [] [] ∅ note)|].
  apply (rtc_l _ _ both_started); [apply (sys_arrive "blobs" [] [(note, Start note)] [note] ∅ note)|].
  unfold race, ticks. cbn [foldl].
  repeat (etrans; [|apply tick_step; vm_compute; reflexivity]). apply rtc_refl.
Qed.

(** A crash that brings back the oldest version of every name, with the bytes
    that were on the disk. *)
Definition rewind (f : Fs) : Fs :=
  omap (fun vs => match List.last vs None with
                  | Some n => Some [Some (mk_node (if n_synced n then n_bytes n else []) true)]
                  | None => None
                  end) f.

Definition no_empty (f : Fs) : bool :=
  forallb (fun pv : string * list (option Node) => negb (length pv.2 =? 0)%nat) (map_to_list f).

Lemma rewind_crashed f : no_empty f = true -> crashed f (rewind f).
Proof.
  intros Hne p. unfold versions, rewind, Fs in *. rewrite lookup_omap.
  destruct (f !! p) as [vs|] eqn:E; simpl; [|by exists None, None; split_and!; [apply list_elem_of_here|..]].
  assert (Hv : vs <> []).
  { intros ->. unfold no_empty in Hne. rewrite forallb_forall in Hne.
    specialize (Hne (p, [])). simpl in Hne. apply elem_of_map_to_list in E.
    apply list_elem_of_In in E. by specialize (Hne E). }
  exists (List.last vs None).
  assert (Hin : List.last vs None ∈ vs).
  { destruct (exists_last Hv) as (front & v & ->). rewrite last_last. apply elem_of_app. right.
    by apply list_elem_of_here. }
  destruct (List.last vs None) as [n|].
  - eexists. split_and!; [done|done|]. simpl. split; [done|]. by intros ->.
  - exists None. by split_and!.
Qed.

Definition placed : Writer := Placed (hash note).
Definition settled : Fs := (put_step "blobs" [] (toy_env 0) placed (s_files race)).2.
Definition after_crash : System := mk_system [] (s_given race) (rewind settled).

Lemma concurrent_puts_readable_witness :
  s_writers race = [(note, placed); (note, placed)]
  /\ get "blobs" [] (hash note) (rewind (s_files race)) = Err (BlobNotFound (to_hex (hash note)))
  /\ contains_blob "blobs" (hash note) (s_files after_crash) = true.
Proof.
  split; [vm_compute; reflexivity|]. split; [vm_compute; reflexivity|].
  destruct (concurrent_puts_readable "blobs" [] race race_reachable) as (_ & _ & H).
  assert (Hws : s_writers race = ([] ++ (note, Placed (hash note)) :: [(note, placed)])%list)
    by (vm_compute; reflexivity).
  specialize (H [] note (hash note) [(note, placed)] (toy_env 0) after_crash Hws (toy_env_ok 0) eq_refl eq_refl).
  destruct (put_step _ _ _ _ _) as [w f] eqn:E. destruct H as [Hw H]. apply H.
  apply rtc_once. replace f with settled by (unfold settled, placed; by rewrite E).
  apply sys_crash, rewind_crashed. vm_compute. reflexivity.
Defined.

(** ** When the flush of the temporary file fails *)

Definition unflushed (n : Z) : PutEnv :=
  mk_env (Some (repeat 1%Z 32)) (repeat 2%Z 24) (repeat 3%Z 24) true (Some n) true None false RenameDone
    true true.

(** The code ignores a failing flush and reports success all the same.  After a
    crash the blob's name may then stand for an empty file: reading it fails, and
    every later [put] of the content takes the name for the blob and reports
    success without writing anything. *)
Lemma ignored_flush_failure :
  let '(r, f) := put "blobs" [] (unflushed 0) note ∅ in
  let f' := rewind f in
  r = Ok (hash note) /\ crashed f f'
  /\ get "blobs" [] (hash note) f' = Err (Corrupt ("blob " +:+ to_hex (hash note) +:+ ": bad header"))
  /\ put "blobs" [] (toy_env 1) note f' = (Ok (hash note), f').
Proof.
  destruct (put _ _ _ _ _) as [r f] eqn:E.
  assert (Hr : r = (put "blobs" [] (unflushed 0) note ∅).1) by by rewrite E.
  assert (Hf : f = (put "blobs" [] (unflushed 0) note ∅).2) by by rewrite E.
  clear E. subst r f. split_and!; [vm_compute; reflexivity| |vm_compute; reflexivity|vm_compute; reflexivity].
  apply rewind_crashed. vm_compute. reflexivity.
Qed.
