(* ===== verification/MailWitness.v ===== *)
(** Concrete databases for the account, mail and query theorems. *)
From S2P Require Import Prelude Text Bytes Ident Store StoreFacts Mail MailQueries MailFacts UpdateFacts History MailQueryFacts Blob BlobFacts.

Open Scope string_scope.

Lemma blob_id_hex_roundtrip_witness :
  from_str (to_hex (repeat 171%Z 32)) = Parsed (repeat 171%Z 32)
  /\ String.length (to_hex (repeat 171%Z 32)) = 64%nat
  /\ (forall id', wf_blob_id id' -> to_hex id' = to_hex (repeat 171%Z 32) -> id' = repeat 171%Z 32).
Proof.
  apply (blob_id_hex_roundtrip (repeat 171%Z 32)). split; [reflexivity|].
  apply Forall_forall. intros b Hb. apply list_elem_of_In, repeat_spec in Hb. lia.
Defined.

Lemma pair_of {A B} (p : A * B) a : fst p = a -> p = (a, snd p).
Proof. destruct p; simpl. by intros ->. Qed.

(** Every text is a UUID. *)
Definition any_id (s : string) : option string := Some s.

(** The note starts a thread, the memo answers it. *)
Definition toy_message (raw : bytes) : option ParsedMessage :=
  if bytes_eqb raw note
  then Some (mk_parsed_message None None (Some "Hi") (Some "note@x") (Some "Note") (Some [Some "Bob@X.org"]))
  else if bytes_eqb raw memo
  then Some (mk_parsed_message None (Some "note@x") None (Some "memo@x") (Some "Re: Note") None)
  else None.

Definition mailbox_ids (n : nat) : string := "mbox" +:+ pretty (Z.of_nat n).

Definition start : World := mk_world empty_db (∅ : Fs) [].
Definition after_account : World :=
  snd (on_db (create_account any_id "alice" mailbox_ids 1 " Alice@Example.org " None) start).
Definition fresh_1 : Fresh := mk_fresh "email1" "thread1" "contact1".
Definition fresh_2 : Fresh := mk_fresh "email2" "thread2" "contact2".
Definition after_note : World :=
  snd (ingest_email_into any_id toy_message fresh_1 2 "alice" note (Role "inbox") None false after_account).
Definition after_memo : World :=
  snd (ingest_email_into any_id toy_message fresh_2 3 "alice" memo (Role "inbox") None false after_note).

Definition ingested_1 : IngestedEmail := mk_ingested "email1" "thread1" (toy_hash note).
Definition ingested_2 : IngestedEmail := mk_ingested "email2" "thread1" (toy_hash memo).

Lemma note_ingested :
  ingest_email_into any_id toy_message fresh_1 2 "alice" note (Role "inbox") None false after_account
  = (Ok ingested_1, after_note).
Proof.
  exact (pair_of (ingest_email_into any_id toy_message fresh_1 2 "alice" note (Role "inbox") None false
    after_account) (Ok ingested_1) ltac:(vm_compute; reflexivity)).
Qed.

Lemma memo_ingested :
  ingest_email_into any_id toy_message fresh_2 3 "alice" memo (Role "inbox") None false after_note
  = (Ok ingested_2, after_memo).
Proof.
  exact (pair_of (ingest_email_into any_id toy_message fresh_2 3 "alice" memo (Role "inbox") None false
    after_note) (Ok ingested_2) ltac:(vm_compute; reflexivity)).
Qed.

Abbreviation toy_step := (step any_id toy_message).

Lemma memo_reachable : rtc toy_step start after_memo.
Proof.
  apply (rtc_l _ _ after_account); [by apply step_create_account|].
  apply (rtc_l _ _ after_note); [by apply step_ingest|].
  apply (rtc_l _ _ after_memo); [by apply step_ingest|apply rtc_refl].
Qed.

Lemma after_account_wf : wf any_id (db after_account).
Proof.
  eapply (step_wf any_id toy_message start); [by apply step_create_account|apply wf_empty].
Qed.

Lemma after_note_wf : wf any_id (db after_note).
Proof. eapply step_wf; [by apply step_ingest|apply after_account_wf]. Qed.

Lemma after_memo_wf : wf any_id (db after_memo).
Proof. eapply step_wf; [by apply step_ingest|apply after_note_wf]. Qed.

Lemma reachable_wf_witness : wf any_id (db after_memo).
Proof. exact (reachable_wf any_id toy_message (∅ : Fs) [] after_memo memo_reachable). Defined.

Lemma create_account_atomic_witness :
  match create_account any_id "alice" mailbox_ids 1 " Alice@Example.org " None empty_db with
  | (Ok a, d') => a = mk_account_view "alice" "alice@example.org" None 1
                  /\ length (mailboxes d') = 7%nat
  | (Err _, _) => False
  end.
Proof.
  pose proof (create_account_atomic any_id "alice" mailbox_ids 1 " Alice@Example.org " None empty_db
    eq_refl) as H.
  destruct (create_account any_id "alice" mailbox_ids 1 " Alice@Example.org " None empty_db)
    as [[a|e] d'] eqn:E; [|vm_compute in E; discriminate].
  destruct H as (-> & _ & _ & Hm & Hl & _). rewrite Hm, length_app, Hl. split; reflexivity.
Defined.

Lemma ingest_all_or_nothing_witness :
  exists mb, mb ∈ mailboxes (db after_note) /\ m_role mb = Some "inbox"
    /\ email_mailbox (db after_memo) = (email_mailbox (db after_note) ++ [("email2", m_id mb)])%list
    /\ map fst (email_mailbox (db after_memo)) = ["email1"; "email2"].
Proof.
  destruct (ingest_all_or_nothing any_id toy_message fresh_2 3 "alice" memo (Role "inbox") None false
    after_note (Ok ingested_2) after_memo after_note_wf memo_ingested)
    as (mb & Hmb & [_ Hrole] & _ & Hp & _).
  exists mb. split_and!; [exact Hmb|exact Hrole|exact Hp|vm_compute; reflexivity].
Defined.

Lemma ingest_then_raw_witness :
  email_raw (in_id ingested_1) after_note = (Ok (Some note), after_note).
Proof.
  apply (ingest_then_raw any_id toy_message fresh_1 2 "alice" note (Role "inbox") None false after_account
    ingested_1 after_note after_account_wf).
  - intros i file _ Hf. vm_compute in Hf. discriminate.
  - left.
  - exact note_ingested.
Defined.

Lemma resolve_recipient_spec_witness :
  exists o, resolve_recipient any_id 5 "ALICE@example.org" (db after_memo) = (Ok o, db after_memo)
            /\ o <> None.
Proof.
  destruct (resolve_recipient_spec any_id (db after_memo) 5 "ALICE@example.org") as (o & Ho & _).
  - apply (wf_tables _ _ after_memo_wf).
  - apply Forall_forall. reflexivity.
  - exists o. split; [exact Ho|]. vm_compute in Ho. injection Ho as <-. discriminate.
Defined.

Lemma disable_account_blocks_witness :
  exists o, resolve_recipient any_id 5 "alice@example.org" (snd (disable_account 5 "alice" (db after_memo)))
            = (Ok o, snd (disable_account 5 "alice" (db after_memo)))
            /\ forall v, o = Some v -> id v <> "alice".
Proof.
  assert (E : disable_account 5 "alice" (db after_memo)
              = (Ok tt, snd (disable_account 5 "alice" (db after_memo))))
    by (exact (pair_of (disable_account 5 "alice" (db after_memo)) (Ok tt) eq_refl)).
  assert (Hids : ids_parse any_id (db after_memo)) by (apply Forall_forall; reflexivity).
  destruct (disable_account_blocks any_id (db after_memo) 5 "alice" "alice@example.org" _ _
    (wf_tables _ _ after_memo_wf) Hids E) as [H _].
  exact H.
Defined.

Lemma changes_since_complete_witness :
  "email2" ∈ created (mk_changes ["email2"] [] 2 false).
Proof.
  assert (Hrows : exists rows, tracked_rows Email (db after_memo) = Ok rows) by (eexists; reflexivity).
  destruct Hrows as (rows & Hrows).
  destruct (changes_since_complete "alice" Email 1 10 ltac:(lia) ltac:(lia) (db after_memo)
    (mk_changes ["email2"] [] 2 false) (db after_memo) rows) as (_ & Hc & _);
    [vm_compute; reflexivity|reflexivity|exact Hrows|].
  apply Hc. vm_compute in Hrows. injection Hrows as <-. eexists. split_and!.
  - split; [right; left|]. split; [reflexivity|]. simpl. lia.
  - reflexivity.
  - simpl. lia.
Defined.

Lemma truncated_changes_are_lost_witness :
  changes_since "alice" Email 0 1 (db after_memo) = (Ok (mk_changes ["email1"] [] 2 true), db after_memo)
  /\ changes_since "alice" Email 2 1 (db after_memo) = (Ok (mk_changes [] [] 2 false), db after_memo).
Proof.
  split; [vm_compute; reflexivity|].
  assert (Hrows : exists rows, tracked_rows Email (db after_memo) = Ok rows) by (eexists; reflexivity).
  destruct Hrows as (rows & Hrows).
  apply (truncated_changes_are_lost any_id "alice" Email 0 1 (db after_memo)
    (mk_changes ["email1"] [] 2 true) (db after_memo) rows 1 ltac:(lia) ltac:(lia) ltac:(lia)
    after_memo_wf); [vm_compute; reflexivity|vm_compute; reflexivity|exact Hrows|reflexivity].
Defined.

Definition flagged_db : Db :=
  snd (update_email "alice" "email1" (Some ["$Flagged"; "$Seen"]) None (db after_memo)).

Lemma update_is_reported_witness :
  changes_since "alice" Email 2 10 flagged_db = (Ok (mk_changes [] ["email1"] 3 false), flagged_db).
Proof.
  apply (update_is_reported any_id "alice" "email1" (Some ["$Flagged"; "$Seen"]) None (db after_memo)
    flagged_db 10 after_memo_wf); [lia|vm_compute; reflexivity].
Defined.

Lemma on_db_db {A} (m : SM A) (w : World) : db (snd (on_db m w)) = snd (m (db w)).
Proof. unfold on_db. by destruct (m (db w)). Qed.

Lemma flagged_wf : wf any_id flagged_db.
Proof.
  pose proof (step_wf any_id toy_message after_memo _
    (step_update_email any_id toy_message after_memo "alice" "email1" (Some ["$Flagged"; "$Seen"]) None)
    after_memo_wf) as H.
  rewrite on_db_db in H. exact H.
Qed.

Lemma flag_filters_miss_witness :
  query_emails_with_filters (fun _ _ => Ok []) (fun _ _ => Ok 0%nat) "alice" None None None None
    (Some true) None 0 10 flagged_db = (Ok ([], 0%nat, 3%Z), flagged_db).
Proof.
  exact (proj1 (flag_filters_miss any_id (fun _ _ => Ok []) (fun _ _ => Ok 0%nat) flagged_db "alice" None None
    None None (Some true) None 0 10 flagged_wf eq_refl)).
Defined.

Lemma query_emails_window_witness :
  exists full, length full = 2%nat
    /\ query_emails "alice" None 1 1 (db after_memo)
       = (Ok (map e_id (take 1 (drop 1 full)), length full, 2%Z), db after_memo).
Proof.
  destruct (query_emails_window (db after_memo) "alice" None 1 1 ltac:(lia) ltac:(lia))
    as (full & Hp & _ & Hq).
  exists full. split; [|exact Hq]. apply Permutation_length in Hp. rewrite Hp. vm_compute. reflexivity.
Defined.
