(* ===== verification/JmapWitness.v ===== *)
(** Concrete calls of the JMAP mail methods on the databases of [MailWitness]. *)
From S2P Require Import Prelude Text Bytes Ident Json JmapEnvelope Store StoreFacts Mail MailQueries MailFacts UpdateFacts History Spam Chat Attributes Queue Delivery JmapMail JmapIsolation JmapPatch Blob BlobFacts MailWitness.

Open Scope string_scope.

(** The argument objects, decoded the way serde's derive does: a field of the right
    kind, [null] or absent where it is optional. *)
Definition text_field (k : string) (v : Value) : result string string :=
  match field k v with
  | Some (Str s) => Ok s
  | Some _ => Err ("invalid type for " +:+ k)
  | None => Err ("missing field " +:+ k)
  end.
Definition optional {A} (read : Value -> result string A) (k : string) (v : Value) : result string (option A) :=
  match field k v with
  | None | Some Null => Ok None
  | Some x => a <-? read x ;; Ok (Some a)
  end.
Definition read_object (v : Value) : result string (list (string * Value)) := ok_or (as_object v) "expected a map".

#[local] Instance set_args : FromValue SetArgs := {| from_value v :=
  account <-? text_field "accountId" v ;; create <-? optional read_object "create" v ;;
  update <-? optional read_object "update" v ;; Ok (mk_set_args account create update) |}.
#[local] Instance dismiss_args : FromValue DismissArgs := {| from_value v :=
  account <-? text_field "accountId" v ;; email <-? text_field "emailId" v ;;
  kind <-? text_field "kind" v ;; Ok (mk_dismiss_args account email kind) |}.
#[local] Instance no_get : FromValue GetArgs := {| from_value _ := Err "" |}.
#[local] Instance no_query : FromValue QueryArgs := {| from_value _ := Err "" |}.
#[local] Instance no_changes : FromValue ChangesArgs := {| from_value _ := Err "" |}.
#[local] Instance no_chat : FromValue ChatPrefSetArgs := {| from_value _ := Err "" |}.

(** Bob joins Alice, whose two messages are stored. *)
Definition with_bob : World :=
  snd (on_db (create_account any_id "bob" (fun n => "b" +:+ pretty (Z.of_nat n)) 5 "bob@example.org" None) after_memo).
Lemma with_bob_wf : wf any_id (db with_bob).
Proof. eapply (step_wf any_id toy_message after_memo); [by apply step_create_account|apply after_memo_wf]. Qed.
Definition mail_start : MailState := mk_mail_state with_bob [] [] 10.

Definition toy_submitter := delivery_submitter any_id toy_message (fun raw => Ok raw) (fun _ => Ok [])
  (mk_fresh "email9" "thread9" "contact9") (fun n => "q" +:+ pretty (Z.of_nat n)) 9.
Definition ctx_of (i mail : string) : JmapCtx := mk_ctx (mk_account_view i mail None 1) (Some toy_submitter).

Definition no_text (s : string) : bool := false.
Definition same (s : string) : string := s.
Definition fresh_of (n : nat) : Fresh :=
  mk_fresh ("e" +:+ pretty (Z.of_nat n)) ("t" +:+ pretty (Z.of_nat n)) ("c" +:+ pretty (Z.of_nat n)).
Abbreviation toy_methods := (METHODS any_id toy_message (fun _ => None) (fun _ => None) same
  (fun _ _ => Ok []) (fun _ _ => Ok 0%nat) (fun _ _ _ => []) no_text no_text same (fun l => l)
  (fun n => Z.of_nat n) fresh_of (fun n => "u" +:+ pretty (Z.of_nat n))).
Abbreviation toy_email_set := (email_set any_id toy_message no_text no_text same (fun l => l)
  (fun n => Z.of_nat n) fresh_of (fun n => "u" +:+ pretty (Z.of_nat n))).

Lemma owned_email_spec account i d :
  owned_email account i d = true -> exists e, e ∈ emails d /\ e_account e = account /\ e_id e = i.
Proof.
  intros (e & He & [Ha%String.eqb_eq Hi%String.eqb_eq]%andb_true_iff)%existsb_exists. exists e.
  by rewrite list_elem_of_In.
Qed.

(** The patch [{"keywords/$Flagged": true}] of [email1], and a message to create. *)
Definition flag_patch : list (string * Value) := [("keywords/$Flagged", Bool true)].
Definition set_request (account : string) : Value :=
  json_object [("accountId", Str account);
    ("create", json_object [("c1", json_object [("subject", Str "no mailbox")])]);
    ("update", json_object [("email1", Object flag_patch); ("email7", Object flag_patch)])].

(** Bob tries to flag Alice's message: he is answered, and her mail is as it was. *)
Definition bobs_run := toy_email_set (set_request "bob") (ctx_of "bob" "bob@example.org") mail_start.
Lemma bobs_run_is : toy_email_set (set_request "bob") (ctx_of "bob" "bob@example.org") mail_start = (fst bobs_run, snd bobs_run).
Proof. apply surjective_pairing. Qed.
#[local] Opaque bobs_run.

Lemma methods_isolate_witness :
  others_mail "bob" (db with_bob) (db (ms_world (snd bobs_run)))
  /\ (exists e, e ∈ emails (db with_bob) /\ e_account e = "alice" /\ e_id e = "email1").
Proof.
  split.
  - refine (proj1 (methods_isolate any_id toy_message (fun _ => None) (fun _ => None) same
      (fun _ _ => Ok []) (fun _ _ => Ok 0%nat) (fun _ _ _ => []) no_text no_text same (fun l => l)
      (fun n => Z.of_nat n) fresh_of (fun n => "u" +:+ pretty (Z.of_nat n)) (fun _ => eq_refl)
      "Email/set" MAIL_CAPABILITY toy_email_set (set_request "bob") (ctx_of "bob" "bob@example.org")
      mail_start (fst bobs_run) (snd bobs_run) _ _ with_bob_wf bobs_run_is)).
    + do 5 right. left.
    + by eapply delivery_submits_within.
  - apply owned_email_spec. vm_compute. reflexivity.
Defined.

(** Alice flags it herself. *)
Definition flagging := apply_update any_id no_text no_text same (fun l => l) "alice" "email1" (Object flag_patch) mail_start.
Lemma flagging_is :
  apply_update any_id no_text no_text same (fun l => l) "alice" "email1" (Object flag_patch) mail_start = (Ok tt, snd flagging).
Proof. refine (pair_of flagging (Ok tt) _). vm_compute. reflexivity. Qed.
#[local] Opaque flagging.

Lemma email_update_spec_witness : ("email1", "$flagged") ∈ email_keyword (db (ms_world (snd flagging))).
Proof.
  destruct (email_update_spec any_id no_text no_text same (fun l => l) "alice" "email1" (Object flag_patch) mail_start
    (snd flagging) with_bob_wf (fun _ _ _ => eq_refl) flagging_is)
    as (e & entries & [= <-] & _ & _ & [= Hid] & Hk & _).
  rewrite Hid. apply Hk. exists "$flagged". split; reflexivity.
Defined.

Lemma email_set_answers_witness :
  exists v s', toy_email_set (set_request "bob") (ctx_of "bob" "bob@example.org") mail_start = (Ok v, s')
    /\ exists updated not_updated : list (string * Value),
         field "notUpdated" v = Some (Object not_updated)
         /\ ("email1" ∈ map_keys updated \/ "email1" ∈ map_keys not_updated).
Proof.
  destruct (email_set_answers any_id toy_message no_text no_text same (fun l => l)
    (fun n => Z.of_nat n) fresh_of (fun n => "u" +:+ pretty (Z.of_nat n)) (set_request "bob")
    (mk_set_args "bob" (Some [("c1", json_object [("subject", Str "no mailbox")])])
       (Some [("email1", Object flag_patch); ("email7", Object flag_patch)]))
    (ctx_of "bob" "bob@example.org") mail_start)
    as (v & s' & c & nc & u & nu & Hrun & _ & _ & _ & _ & Hnu & [Hanswered _] & _).
  - reflexivity.
  - reflexivity.
  - apply NoDup_singleton.
  - apply NoDup_cons. split; [|apply NoDup_singleton]. rewrite list_elem_of_singleton. discriminate.
  - exists v, s'. split; [exact Hrun|]. exists u, nu. split; [exact Hnu|]. apply Hanswered. left.
Defined.
