(* ===== verification/AiWitness.v ===== *)
(** The AI layer on the two stored messages of [MailWitness], with the queued answers
    of the crate's own mock provider. *)
From S2P Require Import Prelude Text Bytes Ident Json JmapEnvelope Store StoreFacts Mail MailQueries MailFacts UpdateFacts Spam Attributes Queue Delivery JmapMail Ics JmapIsolation Ai AiFacts Mcp McpFacts Blob BlobFacts MailWitness JmapWitness.

Open Scope string_scope.

(** ** A text form of JSON values that reads back

    The bits of stdpp's encoding of the value as a tree. *)
Abbreviation Tree := (gen_tree (bool + Z + string)).
Fixpoint tree_of (v : Value) : Tree :=
  match v with
  | Null => GenNode 0 []
  | Bool b => GenLeaf (inl (inl b))
  | Number n => GenLeaf (inl (inr n))
  | Str s => GenLeaf (inr s)
  | Array l => GenNode 1 (map tree_of l)
  | Object m => GenNode 2 (map (fun kv => GenNode 3 [GenLeaf (inr kv.1); tree_of kv.2]) m)
  end.
Fixpoint value_of_tree (t : Tree) : Value :=
  match t with
  | GenLeaf (inl (inl b)) => Bool b
  | GenLeaf (inl (inr n)) => Number n
  | GenLeaf (inr s) => Str s
  | GenNode 1 l => Array (map value_of_tree l)
  | GenNode 2 l => Object (map (fun t => match t with
                                        | GenNode 3 [GenLeaf (inr k); t'] => (k, value_of_tree t')
                                        | _ => ("", Null)
                                        end) l)
  | GenNode _ _ => Null
  end.
Lemma value_of_tree_of v : value_of_tree (tree_of v) = v.
Proof.
  induction v as [| | | |l IH|m IH] using value_nested_ind; try done; cbn; f_equal; rewrite map_map.
  - induction IH as [|x l Hx _ IHl]; cbn; [done|]. by rewrite Hx, IHl.
  - induction IH as [|[k x] m Hx _ IHm]; cbn in *; [done|]. by rewrite Hx, IHm.
Qed.

Definition write_value (v : Value) : string := bits (encode (tree_of v)).
Definition read_value (s : string) : result string Value :=
  ok_or (option_map value_of_tree (decode (unbits s))) "expected value".
Lemma read_write v : read_value (write_value v) = Ok v.
Proof. unfold read_value, write_value. by rewrite unbits_bits, decode_encode; cbn; rewrite value_of_tree_of. Qed.

(** ** The mailbox *)

(** The body of a stored message is its text. *)
Definition toy_mail (raw : list Z) : option AiMessage :=
  Some (mk_ai_message (Some (string_of raw)) (Some (HAddress [Some "https://x.org/u"; Some "mailto:u@x.org"])) None
    [mk_part (Some ("Text", Some "CALENDAR")) None (PText ("BEGIN:VEVENT" +:+ crlf +:+ "UID:7" +:+ crlf))]).
Definition clock (n : nat) : Z := Z.of_nat n.
Definition draw_id (n : nat) : string := "u" +:+ pretty (Z.of_nat n).

Abbreviation toy_pass := (process_new_mail any_id toy_mail write_value same clock draw_id mock_structured).
Abbreviation toy_screen := (screen any_id write_value clock draw_id (N := MockProvider)).
Abbreviation toy_categorize := (categorize write_value clock draw_id mock_structured).
Abbreviation toy_undo := (undo_action any_id read_value (N := MockProvider)).

Definition answering (l : list Value) : MockProvider := mk_mock l [].
Definition ai_start (l : list Value) : AiState MockProvider := mk_ai_state mail_start [] [] (answering l).
Definition category (c : string) : Value := json_object [("category", Str c)].

Lemma ai_start_wf l : wf any_id (db (ms_world (ai_mail (ai_start l)))).
Proof. cbn [ai_start ai_mail mail_start ms_world]. exact with_bob_wf. Qed.

(** A pass over both messages; the second answer of the model is not a category. *)
Definition pass := toy_pass true "alice" default_config (ai_start [category "personal"; category "weird"]).
Lemma pass_is : toy_pass true "alice" default_config (ai_start [category "personal"; category "weird"]) = (Ok 2%nat, snd pass).
Proof. refine (pair_of pass (Ok 2%nat) _). vm_compute. reflexivity. Qed.
#[local] Opaque pass.

Lemma pass_state :
  as_i64 (state_of "alice" Email (db (ms_world (ai_mail (ai_start [category "personal"; category "weird"]))))) = 2%Z.
Proof. vm_compute. reflexivity. Qed.

Lemma process_new_mail_spec_witness :
  List.find (fun c => String.eqb c.1 "alice") (ai_cursors (snd pass)) = Some ("alice", 2%Z)
  /\ map mail_key (emails (db (ms_world (ai_mail (snd pass)))))
     = map mail_key (emails (db (ms_world (ai_mail (ai_start [category "personal"; category "weird"]))))).
Proof.
  destruct (process_new_mail_spec any_id toy_mail write_value same clock draw_id mock_structured true "alice" default_config
    (ai_start [category "personal"; category "weird"]) (Ok 2%nat) (snd pass) (ai_start_wf _) pass_is)
    as [(_ & _ & Hkeys) Hcursor].
  rewrite pass_state in Hcursor. split; [exact Hcursor|exact Hkeys].
Defined.

(** The first message, as the worker loads it. *)
Definition note_context : EmailContext :=
  mk_context "email1" (match emails (db with_bob) with e :: _ => email_info (db with_bob) e | [] => mk_email_info (mk_email "" "" "" "" None None None 0 0 0 0 None None false) [] [] end)
    "Hi" None false [].
Lemma note_loaded : loaded any_id "alice" note_context (db with_bob).
Proof.
  assert (exists e l, emails (db with_bob) = e :: l /\ e_account e = "alice" /\ e_id e = "email1") as (e & l & He & Ha & Hi).
  { eexists _, _. split; [vm_compute; reflexivity|]. by split. }
  exists e. split; [rewrite He; left|]. split; [exact Ha|]. split; [exact Hi|].
  split; [unfold note_context; rewrite He; reflexivity|reflexivity].
Qed.

Definition screened := toy_screen "alice" note_context (ai_start []).
Lemma screened_is : toy_screen "alice" note_context (ai_start []) = (Ok true, snd screened).
Proof. refine (pair_of screened (Ok true) _). vm_compute. reflexivity. Qed.
#[local] Opaque screened.

(** The screener moved the note; undoing that puts it back in the inbox. *)
Lemma undo_restores_witness :
  exists row s2, ai_log (snd screened) = [row]
    /\ toy_undo "alice" (ac_id row) (snd screened) = (Ok tt, s2)
    /\ ("email1", "mbox0") ∈ email_mailbox (db (ms_world (ai_mail s2))).
Proof.
  destruct (undo_restores any_id write_value read_value same clock draw_id mock_structured "alice" note_context 100
    (ai_start []) (snd screened)) as (row & s2 & Hlog & Hundo & [Hmailbox _] & _).
  - apply ai_start_wf.
  - intros m _. reflexivity.
  - split; vm_compute; reflexivity.
  - exact read_write.
  - intros n. reflexivity.
  - split; [apply NoDup_nil_2|]. intros r Hr. by apply elem_of_nil in Hr.
  - cbn. lia.
  - exact note_loaded.
  - left. exact screened_is.
  - exists row, s2. split; [exact Hlog|]. split; [exact Hundo|]. apply Hmailbox. vm_compute. left.
Defined.

(** ** What the layer does not promise *)

(** The keywords are written back as they were when the message was loaded: a flag the
    user sets while the model thinks is lost. *)
Definition flagged_meanwhile : AiState MockProvider :=
  mk_ai_state (mk_mail_state (snd (on_db (update_email "alice" "email1" (Some ["$flagged"]) None) with_bob)) [] [] 10) [] []
    (answering [category "personal"]).
Lemma categorize_forgets_flag :
  has_kw (db (ms_world (ai_mail flagged_meanwhile))) "email1" "$flagged" = true
  /\ has_kw (db (ms_world (ai_mail (snd (toy_categorize "alice" note_context 100 flagged_meanwhile))))) "email1" "$flagged" = false.
Proof. by vm_compute. Qed.

(** A message whose content cannot be read stops every pass, with and without a model:
    the cursor stays before it, and the messages behind it are never looked at. *)
Definition blob_lost : AiState MockProvider :=
  mk_ai_state (mk_mail_state (mk_world (db with_bob) ∅ []) [] [] 10) [] [] (answering []).
Lemma unreadable_blob_stops_the_worker :
  is_ok (fst (toy_pass false "alice" deterministic_only blob_lost)) = false
  /\ ai_cursors (snd (toy_pass false "alice" deterministic_only blob_lost)) = []
  /\ ms_attributes (ai_mail (snd (toy_pass false "alice" deterministic_only blob_lost))) = [].
Proof. by vm_compute. Qed.

(** An undo after the user has changed the keywords again puts the old ones back. *)
Definition categorized : AiState MockProvider := snd (toy_categorize "alice" note_context 100 (ai_start [category "personal"])).
Definition then_flagged : AiState MockProvider :=
  snd (ai_read (update_email "alice" "email1" (Some ["ai:personal"; "$flagged"]) None) categorized).
Lemma undo_takes_later_flags :
  exists row, ai_log categorized = [row]
    /\ has_kw (db (ms_world (ai_mail then_flagged))) "email1" "$flagged" = true
    /\ has_kw (db (ms_world (ai_mail (snd (toy_undo "alice" (ac_id row) then_flagged))))) "email1" "$flagged" = false.
Proof. eexists. split; [vm_compute; reflexivity|]. by vm_compute. Qed.

(** * An agent at the mailbox of [AiWitness]: one that may not send, asked to. *)

(** The delivery service, as the MCP server is given it. *)
Definition agent_submitter account mail_from recipients raw : action World SubmitError (list string) :=
  fun w => let '(r, w') := submit_with_priority any_id toy_message (fun raw => Ok raw) (fun _ => Ok [])
                             (mk_fresh "email9" "thread9" "contact9") (fun n => pretty (Z.of_nat n)) 30
                             account mail_from recipients raw false w in
           (map_err submit_error r, w').
Definition agent (may_send : bool) : McpCtx := mk_mcp_ctx "alice" "alice@x.org" (Some agent_submitter) may_send.

Lemma agent_submits may_send : submits_for any_id (agent may_send).
Proof.
  intros submit [= <-] mail_from recipients raw w r w' Hrun. unfold agent_submitter in Hrun.
  destruct (submit_with_priority _ _ _ _ _ _ _ _ _ _ _ _ _) as [x w1] eqn:E1. injection Hrun as _ <-.
  eapply submit_within; [|exact E1]. reflexivity.
Qed.

Definition tool_call (name : string) (arguments : list (string * Value)) : Value :=
  json_object [("jsonrpc", Str "2.0"); ("id", Number 7); ("method", Str "tools/call");
    ("params", json_object [("name", Str name); ("arguments", json_object arguments)])].
Definition letter : list (string * Value) := [("to", strings ["bob@x.org"]); ("subject", Str "Hi"); ("body", Str "there")].

Abbreviation toy_handle := (handle any_id toy_message toy_mail write_value read_value clock fresh_of draw_id "0.1"
  (N := MockProvider)).
Definition asked := toy_handle (agent false) (tool_call "send_email" letter) (ai_start []).
Lemma asked_is : toy_handle (agent false) (tool_call "send_email" letter) (ai_start []) =
  (Some (json_object [("jsonrpc", Str "2.0"); ("id", Number 7);
     ("result", tool_text "this token is not permitted to send mail" true)]), snd asked).
Proof. refine (pair_of asked (Some _) _). vm_compute. reflexivity. Qed.
#[local] Opaque asked.

Lemma agent_is_confined_witness :
  queue (db (ms_world (ai_mail (snd asked)))) = queue (db (ms_world (ai_mail (ai_start []))))
  /\ wf any_id (db (ms_world (ai_mail (snd asked)))).
Proof.
  assert (forall n, canonical any_id (fresh_thread (fresh_of n))) as Hfresh by reflexivity.
  assert (forall n, canonical any_id (draw_id n)) as Hid by reflexivity.
  pose proof (agent_is_confined any_id toy_message toy_mail write_value read_value clock fresh_of draw_id "0.1"
    Hfresh Hid (agent false) (tool_call "send_email" letter) (ai_start []) (agent_submits false) (ai_start_wf [])) as Hspec.
  rewrite asked_is in Hspec.
  destruct Hspec as [(_ & Hwf & _ & _ & _ & _ & _ & Hqueue) _].
  - split; [apply NoDup_nil_2|]. intros r Hr. by apply elem_of_nil in Hr.
  - split; [by apply Hqueue|exact Hwf].
Defined.

(** With the right to send, the letter is queued for the recipient it names. *)
Lemma letter_is_queued :
  map q_recipient (queue (db (ms_world (ai_mail (snd (toy_handle (agent true) (tool_call "send_email" letter) (ai_start [])))))))
  = ["bob@x.org"].
Proof. vm_compute. reflexivity. Qed.
