(* ===== verification/PgpWitness.v ===== *)
(** Concrete inputs for the PGP stages: an OpenPGP that satisfies the laws, and
    messages that are harvested, encrypted and read back. *)
From S2P Require Import Prelude Text Bytes Ident Store Mail Pgp PgpFacts Blob BlobFacts MailWitness.

Open Scope string_scope.

(** A cert is its owner's name; a sealed message shows its plaintext and its
    signer in hexadecimal. *)
Definition unhex (s : string) : option (list Z) :=
  match parse_bytes 0 s with Parsed l => Some l | _ => None end.
Definition is_bytes (l : list Z) : bool := forallb (fun b => (0 <=? b)%Z && (b <? 256)%Z) l.

Definition toy_body (plaintext : list Z) (signer : string) : string :=
  str_of lf +:+ to_hex plaintext +:+ "." +:+ to_hex (bytes_of signer) +:+ str_of lf.

Definition toy_seal (keys : list string) (signer : string) (plaintext : list Z) : result string (list Z) :=
  if is_bytes plaintext
  then Ok (bytes_of (BEGIN_MARK +:+ toy_body plaintext signer +:+ END_MARK +:+ str_of lf))
  else Err "not bytes".

Definition toy_unseal (own : string) (certs : list string) (c : list Z)
  : result string (list Z * list Layer) :=
  match strip_prefix (BEGIN_MARK +:+ str_of lf) (string_of c) with
  | None => Err "not a message"
  | Some rest =>
      match split_once lf rest with
      | None => Err "truncated"
      | Some (body, _) =>
          match split_once "." body with
          | None => Err "malformed"
          | Some (p, s) =>
              match unhex p, unhex s with
              | Some plaintext, Some signer =>
                  Ok (plaintext, [SignatureGroup
                    [if existsb (String.eqb (string_of signer)) certs then GoodSig else MissingKey]])
              | _, _ => Err "malformed"
              end
          end
      end
  end.

#[export] Instance toy_sequoia : Sequoia := {
  Cert := string; Key := string;
  cert_from_bytes b := Ok (string_of b);
  cert_to_vec c := Ok (bytes_of c);
  cert_as_tsk c := Ok (bytes_of c);
  cert_fingerprint c := "fpr:" +:+ c;
  cert_generate user_id entropy := Ok user_id;
  encryption_keys c := Ok [c];
  signing_key c := Ok (Some c);
  decryption_keys c := Ok [c];
  verification_keys c := [c];
  message_encrypt := toy_seal;
  message_decrypt := toy_unseal;
  detached_sign k m := Ok (bytes_of k);
  detached_layers c m s :=
    Ok [SignatureGroup [if String.eqb (string_of s) c then GoodSig else BadSig]];
  base64_encode l := to_hex l;
  base64_decode s := match unhex s with Some l => Ok l | None => Err "invalid byte" end;
  digest_hex m := "ab";
  sha1 m := Ok m
}.

Lemma byte_range c : (0 <= Z.of_nat (byte_of c) < 256)%Z.
Proof. unfold byte_of. pose proof (nat_ascii_bounded c). lia. Qed.

Lemma bytes_of_range s : Forall (fun b => (0 <= b < 256)%Z) (bytes_of s).
Proof. induction s as [|c s IH]; constructor; [apply byte_range|exact IH]. Qed.

Lemma unhex_to_hex l : Forall (fun b => (0 <= b < 256)%Z) l -> unhex (to_hex l) = Some l.
Proof. intros Hl. unfold unhex. by rewrite parse_bytes_to_hex. Qed.

Lemma hex_chars_checked :
  forall_range 16 0 (fun n => is_hex_char (hex_digit n)) = true.
Proof. vm_compute. reflexivity. Qed.

Lemma to_hex_chars l : Forall (fun b => (0 <= b < 256)%Z) l -> str_all is_hex_char (to_hex l) = true.
Proof.
  induction 1 as [|b l Hb _ IH]; [done|]. rewrite to_hex_cons. simpl. rewrite IH, andb_true_r.
  destruct (nibbles b Hb) as [Hh Hl].
  by rewrite !(forall_range_spec _ _ _ hex_chars_checked) by lia.
Qed.

Lemma hex_avoids c l :
  is_hex_char c = false -> Forall (fun b => (0 <= b < 256)%Z) l -> avoids c (to_hex l) = true.
Proof.
  intros Hc Hl. unfold avoids. eapply str_all_impl; [|by apply to_hex_chars]. simpl.
  intros x Hx. destruct (Ascii.eqb_spec x c); [congruence|done].
Qed.

Definition toy_line (plaintext : list Z) (signer : string) : string :=
  to_hex plaintext +:+ "." +:+ to_hex (bytes_of signer).

Lemma toy_text plaintext signer tail :
  toy_body plaintext signer +:+ tail = String lf (toy_line plaintext signer +:+ String lf tail).
Proof. unfold toy_body, toy_line. rewrite !append_assoc. reflexivity. Qed.

#[export] Instance toy_sequoia_laws : SequoiaLaws.
Proof.
  constructor; [done|].
  intros keys signer plaintext c Hc. unfold message_encrypt in Hc. simpl in Hc. unfold toy_seal in Hc.
  destruct (is_bytes plaintext) eqn:Hb; [|done].
  assert (Forall (fun b => (0 <= b < 256)%Z) plaintext) as Hrange.
  { apply Forall_forall. intros b Hin%list_elem_of_In. unfold is_bytes in Hb.
    rewrite forallb_forall in Hb. specialize (Hb b Hin). rewrite andb_true_iff in Hb. lia. }
  exists (toy_body plaintext signer). split; [congruence|]. clear Hc.
  pose proof (hex_avoids "." _ eq_refl Hrange) as Hdot.
  pose proof (hex_avoids lf _ eq_refl Hrange) as Hlf.
  pose proof (hex_avoids lf _ eq_refl (bytes_of_range signer)) as Hlf'.
  assert (avoids lf (to_hex plaintext +:+ "." +:+ to_hex (bytes_of signer)) = true) as Hline.
  { unfold avoids in *. by rewrite !str_all_app, Hlf, Hlf'. }
  split; [|split].
  - unfold toy_body. rewrite !str_all_app.
    assert (forall l, Forall (fun b => (0 <= b < 256)%Z) l -> str_all is_ascii (to_hex l) = true) as Ha.
    { intros l Hl. eapply str_all_impl; [|by apply to_hex_chars].
      intros x. unfold is_hex_char, is_digit, is_ascii.
      rewrite orb_true_iff, !andb_true_iff, !Nat.leb_le, Nat.ltb_lt. lia. }
    by rewrite (Ha _ Hrange), (Ha _ (bytes_of_range signer)).
  - rewrite toy_text, (find_split_sep lf) by done.
    change END_MARK with (END_MARK +:+ "") at 2. rewrite (find_split_sep lf), find_split_head; [|done|done|].
    + rewrite <- (append_nil_r (toy_body plaintext signer)), toy_text. reflexivity.
    + apply (find_split_avoids " "); [done|].
      pose proof (hex_avoids " " _ eq_refl Hrange) as Hsp.
      pose proof (hex_avoids " " _ eq_refl (bytes_of_range signer)) as Hsp'.
      unfold toy_line, avoids in *. by rewrite !str_all_app, Hsp, Hsp'.
  - intros own certs ks k _ _ _. unfold message_decrypt, toy_sequoia, toy_unseal.
    rewrite string_of_bytes_of, toy_text.
    change (BEGIN_MARK +:+ String lf ?x) with ((BEGIN_MARK +:+ str_of lf) +:+ x).
    rewrite strip_prefix_self, split_once_avoids by done.
    unfold toy_line. change ("." +:+ ?x) with (String "." x). rewrite split_once_avoids by done.
    rewrite !unhex_to_hex, string_of_bytes_of by (done || apply bytes_of_range).
    eexists. split; [done|]. intros sender Hin Hs. apply list_elem_of_singleton in Hs as <-.
    apply list_elem_of_In in Hin. unfold any_good. simpl.
    assert (existsb (String.eqb signer) certs = true) as ->; [|done].
    apply existsb_exists. exists signer. split; [done|apply String.eqb_refl].
Defined.

(** Bob writes with an Autocrypt header; Alice's server harvests his key. *)
Definition bob_message (raw : list Z) : option ParsedMessage :=
  Some (mk_parsed_message None None None None None (Some [Some "bob@x.org"])).
Definition bob_header (raw : list Z) : option string :=
  Some ("addr=bob@x.org; prefer-encrypt=mutual; keydata=" +:+ to_hex (bytes_of "bob-2")).

Definition pgp_start : PgpWorld :=
  mk_pgp_world after_account (mk_pgp_db [] [mk_peer "alice" "bob@x.org" (bytes_of "bob") "fpr:bob" None 1]).
Definition pgp_harvested : PgpWorld := snd (harvest bob_message bob_header 7 "alice" note pgp_start).

Lemma harvest_spec_witness :
  harvest bob_message bob_header 7 "alice" note pgp_start
  = (Ok (Some "bob-2", ["bob@x.org"]), pgp_harvested)
  /\ pw_world pgp_harvested = pw_world pgp_start.
Proof.
  assert (E : harvest bob_message bob_header 7 "alice" note pgp_start
              = (Ok (Some "bob-2", ["bob@x.org"]), pgp_harvested))
    by exact (pair_of (harvest bob_message bob_header 7 "alice" note pgp_start)
               (Ok (Some "bob-2", ["bob@x.org"])) ltac:(vm_compute; reflexivity)).
  split; [exact E|].
  exact (proj1 (harvest_spec bob_message bob_header 7 "alice" note pgp_start _ _ _ E)).
Defined.

Definition pgp_sent : PgpWorld :=
  snd (outbound any_id 7 1 "alice" "alice@example.org" ["Bob@x.org"] note pgp_start).
Definition pgp_out : list Z :=
  match fst (outbound any_id 7 1 "alice" "alice@example.org" ["Bob@x.org"] note pgp_start) with
  | Ok out => out
  | Err _ => []
  end.

Lemma note_encrypted :
  fst (outbound any_id 7 1 "alice" "alice@example.org" ["Bob@x.org"] note pgp_start) = Ok pgp_out.
Proof. vm_compute. reflexivity. Qed.

Lemma note_sent :
  outbound any_id 7 1 "alice" "alice@example.org" ["Bob@x.org"] note pgp_start = (Ok pgp_out, pgp_sent).
Proof.
  exact (pair_of (outbound any_id 7 1 "alice" "alice@example.org" ["Bob@x.org"] note pgp_start)
    (Ok pgp_out) note_encrypted).
Qed.

Lemma outbound_spec_witness :
  exists cert header,
    own_cert any_id 7 1 "alice" pgp_start = (Ok cert, pgp_sent)
    /\ autocrypt_header "alice@example.org" cert true = Ok header
    /\ exists armored, extract_armored pgp_out = Some armored.
Proof.
  destruct (outbound_spec any_id 7 1 "alice" "alice@example.org" ["Bob@x.org"] note pgp_start pgp_out
              pgp_sent note_sent) as (cert & header & Hcert & Hheader & _).
  exists cert, header. split; [exact Hcert|]. split; [exact Hheader|].
  eexists. vm_compute. reflexivity.
Defined.

(** Alice's message arrives at Bob's account, whose key is in the blob store. *)
Definition alice_message (raw : list Z) : option ParsedMessage :=
  Some (mk_parsed_message None None None None None (Some [Some "alice@example.org"])).
Definition alice_header (raw : list Z) : option string :=
  Some ("addr=alice@example.org; keydata=" +:+ to_hex (bytes_of "alice")).
Definition wrapped : list Z :=
  match encrypt_pgp_mime "alice" ["bob"] "addr=alice" note with Ok o => o | Err _ => [] end.
Definition bob_home : PgpWorld :=
  let '(r, w) := put_blob 5 (bytes_of "bob") after_account in
  match r with
  | Ok blob => mk_pgp_world w (mk_pgp_db [mk_own_key "alice" "fpr:bob" (to_hex blob) 5] [])
  | Err _ => mk_pgp_world w (mk_pgp_db [] [])
  end.
Definition arrival := inbound any_id alice_message alice_header 8 1 "alice" wrapped bob_home.
Definition arrived : InboundOutcome := match fst arrival with Ok o => o | Err _ => mk_outcome [] None [] end.

Lemma wrapped_arrives : arrival = (Ok arrived, snd arrival).
Proof. exact (pair_of arrival (Ok arrived) ltac:(vm_compute; reflexivity)). Qed.

Lemma bob_has_own : has_own "alice" "bob" bob_home.
Proof.
  eexists _, _, _. split; [vm_compute; reflexivity|]. split; vm_compute; reflexivity.
Qed.

Lemma mime_roundtrip_witness :
  exists signature original, arrived = mk_outcome note (Some (decrypted_status signature original)) [].
Proof.
  destruct (mime_roundtrip (H1 := toy_sequoia_laws) any_id alice_message alice_header
              "alice" ["bob"] "addr=alice" note wrapped "alice" "bob" ["bob"] "bob" ["bob"] "bob" 8 1 "alice"
              bob_home arrived (snd arrival)) as (harvested & changes & pub & signature & original & w1 & Hh & _ & _ & Ho & _).
  - vm_compute. reflexivity.
  - vm_compute. reflexivity.
  - vm_compute. reflexivity.
  - reflexivity.
  - right. by left.
  - reflexivity.
  - by left.
  - apply bob_has_own.
  - reflexivity.
  - by left.
  - apply wrapped_arrives.
  - exists signature, original. rewrite Ho. f_equal. assert (changes = []) as ->; [|done].
    apply (f_equal fst) in Hh. simpl in Hh. vm_compute in Hh. congruence.
Defined.
