(* ===== verification/DeliveryWitness.v ===== *)
(** A small queue, its workers and one delivery, for the theorems of the outbound side. *)
From S2P Require Import Prelude Text Bytes Ident SmtpSession SmtpFacts Authn Store StoreFacts Mail MailFacts History Spam Pgp Chat Queue Delivery Handler QueueFacts DeliveryFacts HandlerFacts Blob BlobFacts MailWitness PgpWitness.

Open Scope string_scope.

Lemma toy_hash_wf : wf_blob_id (toy_hash note).
Proof. exact (@hash_wf toy_primitives toy_primitive_laws note). Qed.

Definition no_hash (_ : string) : Z := 3.

Definition put_in (i recipient : string) (priority : Z) (d : Db) : Db :=
  snd (enqueue_with_priority i 10 "alice" (toy_hash note) "alice@example.org" recipient priority d).

(** One ordinary recipient and one chat recipient. *)
Definition queued_db : Db := put_in "q2" "dan@y.org" 1 (put_in "q1" "bob@x.org" 0 (db after_account)).

Lemma queued_rows_ok q : q ∈ queue queued_db -> row_ok any_id q.
Proof.
  intros Hq. assert (wf_blob_id (toy_hash note)) as Hb by exact toy_hash_wf.
  assert (queue queued_db = [
    mk_queue_row "q1" "alice" (to_hex (toy_hash note)) "alice@example.org" "bob@x.org" "x.org" 0 10
      "queued" None 0 10 10;
    mk_queue_row "q2" "alice" (to_hex (toy_hash note)) "alice@example.org" "dan@y.org" "y.org" 0 10
      "queued" None 1 10 10]) as Heq by (vm_compute; reflexivity).
  rewrite Heq in Hq. apply elem_of_cons in Hq as [-> | [-> | []%elem_of_nil]%elem_of_cons];
    (constructor; [done|done|by eexists|simpl; lia|left; split; [by left|simpl; lia]]).
Qed.

Lemma claim_spec_witness :
  exists items, fst (due_queue_items any_id 20 1 queued_db) = Ok items /\ length items = 1%nat.
Proof.
  assert (Hnd : NoDup (map q_id (queue queued_db))).
  { assert (map q_id (queue queued_db) = ["q1"; "q2"]) as -> by (vm_compute; reflexivity).
    by apply (bool_decide_unpack (NoDup ["q1"; "q2"])). }
  destruct (claim_spec any_id 20 1 queued_db ltac:(lia) Hnd queued_rows_ok) as (items & d' & H & Hl & _).
  exists items. rewrite H. split; [reflexivity|]. rewrite Hl. vm_compute. reflexivity.
Defined.

Definition empty_pool : Pool := mk_pool (db after_account) [] [] [].
Definition enqueued : Pool := mk_pool (put_in "q1" "bob@x.org" 0 (db after_account)) [] [] [].
Definition started : Pool := mk_pool (snd (reset_stale_claims 15 (p_db enqueued))) [0%nat] [] [].

Definition item_1 : QueueItem :=
  mk_item "q1" "alice" (toy_hash note) "alice@example.org" "bob@x.org" "x.org" 0 10 0.

Definition claimed_pool : Pool :=
  mk_pool (snd (due_queue_items any_id 20 16 (p_db started))) [0%nat] [(0%nat, item_1)] [].

Lemma claimed_reachable : rtc (orderly_step any_id no_hash) empty_pool claimed_pool.
Proof.
  apply (rtc_l _ _ enqueued).
  - split; [|cbn; lia]. apply (pool_enqueue _ _ empty_pool "q1" 10 "alice" (toy_hash note) "alice@example.org" "bob@x.org" 0
      item_1); [done|done|exact toy_hash_wf|lia|].
    exact (pair_of (enqueue_with_priority "q1" 10 "alice" (toy_hash note) "alice@example.org" "bob@x.org" 0
      (db after_account)) (Ok item_1) ltac:(vm_compute; reflexivity)).
  - apply (rtc_l _ _ started).
    { split; [|done]. apply (pool_start _ _ enqueued 0 15 0%nat); [cbn; by intros ?%elem_of_nil|vm_compute; reflexivity]. }
    apply (rtc_l _ _ claimed_pool); [|apply rtc_refl].
    split; [|cbn; lia]. apply (pool_claim _ _ started 0 20 16 [item_1]); [left|done|].
    exact (pair_of (due_queue_items any_id 20 16 (p_db started)) (Ok [item_1])
      ltac:(vm_compute; reflexivity)).
Qed.


Lemma outcome_policy_witness :
  exists next, outcome_of no_hash 100 item_1 (Err (DTemporary "busy"))
               = OutRetry "temporary failure: busy" next /\ (154 <= next <= 166)%Z.
Proof.
  pose proof (outcome_policy no_hash 100 item_1 (Err (DTemporary "busy")) ltac:(simpl; lia)) as H.
  destruct (outcome_of no_hash 100 item_1 (Err (DTemporary "busy"))) as [|e next|e] eqn:E;
    try (vm_compute in E; discriminate).
  exists next. destruct H as (_ & _ & delay & Hd & Hb & _). vm_compute in Hd. injection Hd as <-.
  split; [|lia]. vm_compute in E. injection E as <- <-. reflexivity.
Defined.

Lemma second_start_doubles_witness :
  exists items, fst ((_ <- reset_stale_claims 30 ;;
                      due_queue_items any_id 30 (Z.of_nat (length (queue (p_db claimed_pool)))))
                       (p_db claimed_pool)) = Ok items
                /\ item_1 ∈ items.
Proof.
  apply (second_start_doubles any_id no_hash claimed_pool 30 0 item_1).
  - apply (reachable_pool_ok any_id no_hash (db after_account)); [vm_compute; reflexivity|].
    exact claimed_reachable.
  - left.
  - simpl. lia.
  - vm_compute. reflexivity.
Defined.

Lemma build_dsn_no_injection_witness :
  str_filter is_crlf (build_dsn "mx.example.org" 1783137275
    (mk_item "q1" "alice" [] ("a@x" +:+ crlf +:+ "Bcc: v@x") "bob@x.org" "x.org" 9 10 0)
    ("550 5.1.1 no" +:+ crlf +:+ "X-Evil: 1") (default "5.0.0" (parse_enhanced_status ("550 5.1.1 no" +:+ crlf +:+ "X-Evil: 1"))))
  = str_filter is_crlf (build_dsn "mx" 0 (mk_item "" "" [] "" "" "" 0 0 0) "" "5.0.0").
Proof. apply build_dsn_no_injection. reflexivity. Defined.

Definition refusing (_ : Relay) : RelayBehaviour :=
  mk_behaviour (Ok tt) (Err (UnexpectedReply 554 "554 go away" "554 go away")) (Ok tt) (Ok tt) (Ok tt).

Definition queued_world : World := mk_world queued_db (blob_files after_note) [].

Lemma queued_wf : wf any_id (db queued_world).
Proof.
  apply (wf_frame any_id (db after_account)); try (vm_compute; reflexivity). apply after_account_wf.
Qed.

Lemma process_item_spec_witness :
  exists w', process_item any_id toy_message no_hash "mx.example.org" fresh_2 20
               (fun _ => Ok [mk_relay "mx.x.org" 25]) refusing None item_1 queued_world = (Ok tt, w')
             /\ map q_status (queue (db w')) = ["failed"; "queued"]
             /\ length (emails (db w')) = S (length (emails (db queued_world))).
Proof.
  destruct (process_item_spec any_id toy_message no_hash "mx.example.org" fresh_2 20
    (fun _ => Ok [mk_relay "mx.x.org" 25]) refusing None item_1 queued_world queued_wf)
    as (w' & Hrun & Hq & Hr).
  exists w'. split; [exact Hrun|]. split; [rewrite Hq; vm_compute; reflexivity|].
  assert (Ho : exists error, outcome_of no_hash 20 item_1
    (attempt queued_world (fun _ => Ok [mk_relay "mx.x.org" 25]) refusing item_1) = OutFailed error)
    by (eexists; vm_compute; reflexivity).
  destruct Ho as [error Ho]. rewrite Ho in Hr. unfold reported in Hr.
  destruct (fst _) as [i|e] eqn:E; [|exfalso; revert E].
  - destruct Hr as (mb & _ & _ & -> & _). rewrite length_app. simpl. lia.
  - vm_compute. discriminate.
Defined.

(** * The policy and the session on a concrete server: one account, a scanner
    that finds nothing, and a peer that sends one message. *)

(** Checks that find nothing to check. *)
#[export] Instance toy_auth : MailAuth := {
  Message := unit;
  verify_iprev _ := IprevPass;
  verify_spf_ehlo _ _ _ := SpfNone;
  verify_spf_mail_from _ _ _ _ := SpfPass;
  message_parse _ := Some tt;
  verify_dkim _ := [mk_dkim_output (Some (mk_signature "x.org" "s1" 0 0)) DkimPass];
  verify_arc _ := DkimNone;
  verify_dmarc _ _ _ _ := mk_dmarc_output DmarcPass DmarcNone PolicyReject
}.

Lemma authentication_results_unfold_witness :
  split_str fold_sep (authentication_results
    (verify "mx.example.org" false (mk_auth_input "192.0.2.1" "peer" "bob@x.org" [])) "mx.example.org")
  = ["mx.example.org"; "iprev=pass"; "spf=pass"; "dkim=pass header.d=x.org header.s=s1"; "arc=none";
     "dmarc=pass policy.dmarc=reject"].
Proof.
  rewrite (authentication_results_unfold "mx.example.org" false
    (mk_auth_input "192.0.2.1" "peer" "bob@x.org" []) "mx.example.org").
  - reflexivity.
  - intros message o s Ho Hs. apply list_elem_of_singleton in Ho as ->. by injection Hs as <-.
  - reflexivity.
Defined.

Lemma cache_bounded_witness :
  (size (entries (cache_insert "b" tt 9 (cache_insert "a" tt 5 (cache_new 1)))) <= 1)%nat.
Proof.
  refine (proj1 (cache_bounded 1 3 (cache_insert "b" tt 9 (cache_insert "a" tt 5 (cache_new 1))) _)).
  eapply (reach_step _ 2 3); [|lia|apply step_insert].
  eapply (reach_step _ 1 2); [|lia|apply step_insert]. apply reach_new.
Defined.

Definition toy_clock : Clock :=
  mk_clock (fun n => 100 + Z.of_nat n)%Z
    (fun n => mk_fresh ("email-" +:+ pretty (Z.of_nat n)) ("thread-" +:+ pretty (Z.of_nat n))
                ("contact-" +:+ pretty (Z.of_nat n)))
    Z.of_nat (fun n => "nobody") (fun n => false).

Definition toy_core : ServerCore := mk_server_core "example.org" "mx.example.org" default_spam_config.
Definition quiet_scanner (remote account : string) (raw : list Z) (d : Db) : SpamVerdict := default_verdict.
Definition no_header (raw : list Z) : option string := None.
Definition no_json {A} (a : A) : option string := None.
Definition no_score (s : f32) : string := "".

Definition core_start : CoreState :=
  mk_core_state (mk_pgp_world after_account (mk_pgp_db [] [])) [] [] 0.

Definition hello_mail : InboundMail :=
  mk_mail "192.0.2.1" "peer" "bob@x.org" [" ALICE@example.org"] "Hello".

Abbreviation toy_deliver :=
  (handler_deliver any_id toy_message no_header no_json no_json no_score quiet_scanner toy_clock toy_core).

Lemma core_start_wf : wf any_id (core_db core_start).
Proof. exact after_account_wf. Qed.

Lemma core_start_ids : ids_parse any_id (core_db core_start).
Proof. apply Forall_forall. reflexivity. Qed.

Lemma toy_threads_canonical n : canonical any_id (fresh_thread (fresh_at toy_clock n)).
Proof. reflexivity. Qed.

Lemma hello_delivered : fst (toy_deliver hello_mail core_start) = Ok tt.
Proof. vm_compute. reflexivity. Qed.

Lemma handler_deliver_spec_witness :
  filed_all (core_db core_start) (core_db (snd (toy_deliver hello_mail core_start))) "inbox" None
    [" ALICE@example.org"].
Proof.
  pose proof (handler_deliver_spec any_id toy_message no_header no_json no_json no_score quiet_scanner
    toy_clock toy_core toy_threads_canonical hello_mail core_start (Ok tt)
    (snd (toy_deliver hello_mail core_start)) core_start_wf core_start_ids
    (pair_of (toy_deliver hello_mail core_start) (Ok tt) hello_delivered)) as [_ [_ Hfiled]].
  exact Hfiled.
Defined.

Definition mail_script : list turn :=
  [mk_turn 1 (Bytes (line "Epeer" +:+ line "Mbob@x.org" +:+ line "Ralice@example.org"
                     +:+ line "Rbob@x.org" +:+ line "D" +:+ "Hello.")) true].

Abbreviation mail_run :=
  (serve_connection toy_params "192.0.2.1"
    (server_core any_id toy_message no_header no_json no_json no_score quiet_scanner toy_clock toy_core)
    0 true true mail_script [] core_start).

Lemma connection_is_contained_witness :
  exists e session w written, mail_run = (e, session, w, written)
    /\ map mail_recipients (handed w) = [["alice@example.org"]]
    /\ Forall (fun m => Forall (is_local toy_core) (mail_recipients m)) (handed w).
Proof.
  assert (map mail_recipients (handed (let '(_, _, w, _) := mail_run in w)) = [["alice@example.org"]]) as Hm
    by (vm_compute; reflexivity).
  destruct mail_run as [[[e session] w] written] eqn:E. exists e, session, w, written.
  split; [reflexivity|]. split; [exact Hm|].
  destruct (connection_is_contained any_id toy_message no_header no_json no_json no_score
    quiet_scanner toy_clock toy_core toy_threads_canonical toy_params "192.0.2.1" 0 true true mail_script []
    core_start e session w written core_start_wf core_start_ids ltac:(vm_compute; discriminate) E)
    as (_ & _ & Hlocal & _).
  exact Hlocal.
Defined.
