(* ===== verification/FedWitness.v ===== *)
(** Concrete runs of the federation: two servers, a calendar that one shares with the
    other, the requests between them. *)
From S2P Require Import Prelude Text Bytes Ident Store StoreFacts Mail Pgp PgpFacts Interleave Calendars Sharing FedStore CalWitness FedSig FedSync FedSigFacts FedVerify FedPaging FedSyncFacts Blob BlobFacts MailWitness PgpWitness.

Open Scope string_scope.

(** ** Small instances *)

(** A URL is its host and what follows it. *)
Definition toy_pairs (q : string) : list (string * string) :=
  map (fun s => default (s, "") (split_once "=" s)) (split_on "&" q).
Definition toy_url (s : string) : option (string * string) :=
  match strip_prefix "http://placeholder" s, strip_prefix "https://" s with
  | Some t, _ => Some ("placeholder", t)
  | None, Some r => Some match split_once "/" r with Some (h, t) => (h, String "/" t) | None => (r, "/") end
  | None, None => None
  end.

#[export] Instance toy_crates : FedCrates := {
  Url := string * string;
  url_parse := toy_url;
  url_scheme _ := "https";
  url_username _ := "";
  url_password _ := None;
  url_host u := Some u.1;
  url_port _ := Some 443%Z;
  url_path u := match split_once "?" u.2 with Some (p, _) => p | None => u.2 end;
  url_query u := option_map snd (split_once "?" u.2);
  query_pairs u := match split_once "?" u.2 with Some (_, q) => toy_pairs q | None => [] end;
  url_encode s := s;
  blake3 b := map (fun z => (z mod 256)%Z) b;
  cert_userids c := [c];
  cert_strip c := c;
  armor_public b := Ok (string_of b)
}.

Lemma split_once_app c s a b : split_once c s = Some (a, b) -> s = a +:+ String c b.
Proof.
  revert a b. induction s as [|x s IH]; intros a b; cbn [split_once]; [done|].
  destruct (Ascii.eqb_spec x c) as [->|]; [by intros [= <- <-]|].
  destruct (split_once c s) as [[a' b']|]; [|done]. intros [= <- <-]. by rewrite append_cons, (IH a' b').
Qed.

Lemma toy_target u : target_text u = u.2.
Proof.
  destruct u as [h t]. unfold target_text. cbn [url_path url_query toy_crates snd].
  destruct (split_once "?" t) as [[p q]|] eqn:E; cbn [option_map].
  - symmetry. by apply split_once_app.
  - apply append_nil_r.
Qed.

#[export] Instance toy_fed_laws : FedLaws.
Proof.
  split.
  - intros l Hl. by apply hex_avoids.
  - intros l Hl. cbn [base64_decode base64_encode toy_sequoia]. by rewrite unhex_to_hex.
  - intros b. apply Forall_forall. intros z (x & _ & ->)%elem_of_map. apply Z.mod_pos_bound. lia.
  - intros k m s [= <-]. apply bytes_of_range.
  - intros c b pub m s. intros [= <-] [= <-] [= <-]. cbn. unfold verify_detached. cbn.
    rewrite !string_of_bytes_of, String.eqb_refl. done.
  - intros u _. exists ("placeholder", target_text u). rewrite toy_target. split; [|done].
    unfold url_parse, toy_crates, toy_url. by rewrite strip_prefix_self.
Defined.

(** A network that answers what it is told and knows one address. *)
#[export] Instance scripted : Network (list WireResponse) := {
  http_send _ l := match l with r :: rest => (Ok r, rest) | [] => (Err "closed", []) end;
  lookup_host _ _ l := (Some [V4 203 0 114 7], l)
}.

(** Messages as fields separated by line feeds. *)
Definition fields (l : list string) : string := join (str_of lf) l.
Definition item_text (i : SealedItem) : string :=
  it_remote_uid i +:+ " " +:+ pretty (it_updated_at i) +:+ " " +:+ it_sealed i.
Definition item_of (s : string) : option SealedItem :=
  match split_on " " s with
  | [u; t; c] => Some (mk_item u (default 0%Z (parse_i64 t)) c)
  | _ => None
  end.
Fixpoint all_some {A} (l : list (option A)) : option (list A) :=
  match l with
  | [] => Some []
  | x :: rest => a ← x; k ← all_some rest; Some (a :: k)
  end.

#[export] Instance toy_json : FedJson := {
  error_json s := s;
  exists_json := "exists";
  invited_json i := i;
  ok_json := "ok";
  sync_json i p := fields (default "" (sy_author_cert p) :: pretty (sy_next_since p) :: sy_next_after p
                           :: (if sy_has_more p then "more" else "end") :: map item_text (sy_items p));
  sync_of_json s :=
    match split_on lf s with
    | c :: t :: a :: m :: items =>
        items ← all_some (map item_of items);
        Some (mk_sync_page (if String.eqb c "" then None else Some c) items (default 0%Z (parse_i64 t)) a
                (String.eqb m "more"))
    | _ => None
    end;
  payload_json p := fields [ep_title p; pretty (ep_start p); pretty (ep_end p); ep_author_email p];
  payload_of_json s :=
    match split_on lf s with
    | [t; s; e; a] => Some (mk_payload t None (default 0%Z (parse_i64 s)) (default 0%Z (parse_i64 e)) None a)
    | _ => None
    end;
  metadata_json m := fields [md_server_url m; default "" (md_public_cert m)];
  metadata_of_json s :=
    match split_on lf s with
    | [u; c] => Some (mk_metadata u [] "" None (Some c) None)
    | _ => None
    end;
  invitation_of_json _ := None;
  notify_json i := i;
  notify_of_json s := Some s
}.

#[export] Instance toy_texts : FedTexts := {
  storage_text _ := "storage"; pgp_text _ := "pgp"; client_text _ := "client"; apply_text _ := "apply";
  discovery_text _ := "discovery"; status_text z := pretty z
}.

Definition toy_moment (i : nat) : Moment :=
  mk_moment (1000 + Z.of_nat i) ("id" +:+ pretty (Z.of_nat i)) ("n" +:+ pretty (Z.of_nat i)) (Z.of_nat i).

(** A record of six flags as six characters. *)
Definition flag (b : bool) : string := if b then "1" else "0".
#[export] Instance toy_permissions : Serde Permissions := {
  to_json p := flag (view_calendar p) +:+ flag (view_events p) +:+ flag (edit_events p)
               +:+ flag (delete_events p) +:+ flag (change_sharing p) +:+ flag (admin p);
  of_json s := match map (Ascii.eqb "1") (String.list_ascii_of_string s) with
               | [a; b; c; d; e; f] => Some (mk_permissions a b c d e f)
               | _ => None
               end
}.

(** ** The two servers *)

Definition here : string := "https://example.org/".
Definition yorg : FederationClient := mk_client "yorg <alice@example.org>" "y.org" false ∅.

(** Alice shares her calendar with someone at y.org. *)
Definition sharing_ops : list (CalDb -> CalDb) :=
  [fun d => snd (create_calendar "cal" 1 "alice" "Work" None d);
   fun d => snd (create_calendar_event "e1" 5 "cal" "Standup" None 100 200 None d);
   fun d => snd (create_calendar_event "e2" 6 "cal" "Review" None 300 400 None d);
   fun d => snd (upsert_federation_peer 2 "y.org" "https://y.org" (bytes_of (cl_cert yorg)) "fpr:yorg" d);
   fun d => snd (create_outbound_federation "fed" "se" "cret" 3 "cal" "bob@y.org" "https://y.org" SharingOnly
                   "y.org" "fpr:yorg" d)].
Definition sharing_db : CalDb := fold_left (fun d f => f d) sharing_ops (empty_cal_db (db after_account)).
Definition server (net : list WireResponse) : FedWorld (list WireResponse) :=
  mk_fed_world (mk_pgp_world after_account (mk_pgp_db [] [])) sharing_db net 0.

Definition sync_path : string := "/.well-known/owney/calendar/sync/fed?since=0&after=".
Definition wire_headers (nonce : string) : list (string * string) :=
  signed_headers yorg 1001 nonce (bytes_of (cl_cert yorg)) (Some "secret") [].
Definition sync_request : Raw := mk_raw "GET" sync_path (header_of (wire_headers "n0")) [].
Definition sync_params (name : string) : option string :=
  if String.eqb name "since" then Some "0" else if String.eqb name "after" then Some "" else None.

Definition served_reply : WireResponse * FedWorld (list WireResponse) :=
  run (calendar_sync any_id asis toy_moment here "fed" sync_params sync_request) (server []).

Example shared_page : rs_status (fst served_reply) = 200%Z.
Proof. vm_compute. reflexivity. Qed.

(** The subscriber: an accepted federation with a mirror calendar. *)
Definition mirror_ops : list (CalDb -> CalDb) :=
  [fun d => snd (create_calendar "mirror" 1 "alice" "Work (shared)" None d);
   fun d => snd (create_calendar_event "own" 5 "mirror" "Mine" None 1 2 None d);
   fun d => snd (create_inbound_federation 3 "fed" "mirror" "alice@example.org" "https://example.org" SharingOnly
                   "example.org" "fpr:alice" "secret" d);
   fun d => snd (accept_inbound_federation "fed" "alice" d)].
Definition mirror_db : CalDb := fold_left (fun d f => f d) mirror_ops (empty_cal_db (db after_account)).
Definition subscriber : FedWorld (list WireResponse) :=
  mk_fed_world (mk_pgp_world after_account (mk_pgp_db [] [])) mirror_db [fst served_reply] 0.
Definition mirror_federation : CalendarFederation :=
  mk_federation "fed" "mirror" "alice@example.org" "https://example.org" SharingOnly permissions_sharing
    "accepted" None None 3 (Some "example.org") (Some "fpr:alice") (Some "secret") (Some "inbound").

Definition pulled : result SyncError (option (Z * string * nat)) * FedWorld (list WireResponse) :=
  run (pull any_id toy_moment 3 yorg (cl_cert yorg) mirror_federation "example.org" "secret" 0 "" 0) subscriber.

(** ** Witnesses *)

Lemma is_private_blocks_witness :
  valid_ip (V6 0 0 0 0 0 65535 25664 1)
  /\ is_private (V6 0 0 0 0 0 65535 25664 1)
     = existsb (in_block (v6_number 0 0 0 0 0 65535 25664 1)) (V6_BLOCKS ++ map mapped V4_BLOCKS).
Proof.
  assert (valid_ip (V6 0 0 0 0 0 65535 25664 1)) as Hv by (cbn; unfold word; rewrite !Forall_cons; split_and!; [lia..|constructor]).
  split; [exact Hv|]. exact (is_private_blocks _ Hv).
Defined.

Lemma sync_serves_only_the_share_witness :
  rs_status (fst served_reply) = 200%Z
  /\ exists s f, read_signed (rq_headers sync_request) = Ok s
     /\ granted any_id "fed" (rq_headers sync_request) (sg_domain s) "fpr:yorg" (caldb (server [])) f.
Proof.
  split; [exact shared_page|].
  destruct (sync_serves_only_the_share any_id asis toy_moment here
    "fed" sync_params sync_request (server []) (fst served_reply) (snd served_reply)
    (surjective_pairing _) shared_page) as (s & peer & f & page & Ha & _ & Hg & _).
  destruct Ha as [Hr _ Hp _]. exists s, f. split; [exact Hr|].
  assert (sg_domain s = "y.org") as Hs by (vm_compute in Hr; by injection Hr as <-).
  assert (ps_fingerprint peer = "fpr:yorg") as <-; [|exact Hg].
  rewrite Hs in Hp. assert (option_map ps_fingerprint (pinned "y.org" (caldb (server []))) = Some "fpr:yorg") as Hf
    by (by vm_compute). rewrite Hp in Hf. by injection Hf.
Defined.

Lemma mirror_mapped : mapped_ok any_id (caldb subscriber).
Proof.
  split.
  - assert (event_map (caldb subscriber) = []) as -> by (by vm_compute). by intros m Hm%elem_of_nil.
  - assert (map ev_id (events (caldb subscriber)) = ["own"]) as -> by (by vm_compute).
    apply NoDup_singleton.
  - done.
Qed.

Lemma pull_contained_witness :
  mapped_ok any_id (caldb subscriber)
  /\ contained "fed" "mirror" (caldb subscriber) (caldb (snd pulled))
  /\ length (events (caldb (snd pulled))) = 3%nat.
Proof.
  split; [exact mirror_mapped|].
  split; [|by vm_compute].
  exact (proj1 (pull_contained any_id toy_moment (fun _ => eq_refl)
    3 yorg (cl_cert yorg) mirror_federation "example.org" "secret" 0 "" 0
    subscriber (fst pulled) (snd pulled) mirror_mapped (surjective_pairing _))).
Defined.

(** A request and the same request again. *)
Definition sent_once : prog (FedWorld (list WireResponse)) (option (string * string)) :=
  accepting toy_moment here "GET" sync_path (rq_headers sync_request) [].
Definition after_one := run sent_once (server []).
Definition after_two := run sent_once (snd after_one).

Example first_accepted : fst after_one = Some ("fpr:yorg", "n0").
Proof. vm_compute. reflexivity. Qed.
Example second_refused : fst after_two = None.
Proof. vm_compute. reflexivity. Qed.
Lemma one_runs : run sent_once (server []) = (fst after_one, snd after_one).
Proof. exact (surjective_pairing (run sent_once (server []))). Qed.
Lemma two_runs : run sent_once (snd after_one) = (fst after_two, snd after_two).
Proof. exact (surjective_pairing (run sent_once (snd after_one))). Qed.
#[local] Opaque after_one after_two.

Lemma two_requests :
  sys_reachable (request toy_moment) keeps_nonces (server []) (snd after_two, [Done (fst after_one); Done (fst after_two)]).
Proof.
  assert (request toy_moment sent_once) as Hreq by (by eexists _, _, _, _, _).
  refine (alone_reachable _ _ _ (snd after_one) [Done (fst after_one)] sent_once _ _ _ Hreq two_runs).
  exact (alone_reachable _ _ _ (server []) [] sent_once _ _ (sys_start _ _ _) Hreq one_runs).
Qed.

Lemma no_replay_witness :
  sys_reachable (request toy_moment) keeps_nonces (server []) (snd after_two, [Done (fst after_one); Done (fst after_two)])
  /\ forall j, [Done (fst after_one); Done (fst after_two)] !! j
               = Some (Done (A := option (string * string)) (W := FedWorld (list WireResponse)) (Some ("fpr:yorg", "n0")))
      -> j = 0%nat.
Proof.
  split; [exact two_requests|]. intros j Hj. symmetry.
  refine (no_replay toy_moment (server []) (snd after_two) _ 0 j ("fpr:yorg", "n0") two_requests _ Hj).
  cbn. by rewrite first_accepted.
Defined.

(** A clock that stands still. *)
Definition still (i : nat) : Moment := mk_moment 1000 "u" ("n" +:+ pretty (Z.of_nat i)) 0.
Definition sync_target : Url (FedCrates := toy_crates) := ("example.org", sync_path).
Definition pinned_yorg : PeerServer := mk_peer_server "y.org" "https://y.org" (bytes_of (cl_cert yorg)) "fpr:yorg" 2.

Lemma yorg_pinned : pinned_client yorg (caldb (server [])) pinned_yorg.
Proof. split; [by vm_compute|]. split; [by vm_compute|]. eexists. by vm_compute. Qed.

Lemma signed_request_accepted_witness :
  exists headers ws',
    run (verify_request still here "GET" (canonical_path_str (target_text sync_target)) (header_of headers) [])
      (server []) = (Ok (mk_verified "y.org" "fpr:yorg"), ws').
Proof.
  destruct (signed_request_accepted (M := list WireResponse) still still yorg here "GET" ("https://example.org" +:+ sync_path) None (Some "secret")
    sync_target sync_target subscriber) as (t & nonce & headers & wc' & _ & (i & ->) & (j & ->) & Hall).
  - by vm_compute.
  - intros i. unfold in_i64. simpl. lia.
  - by vm_compute.
  - by vm_compute.
  - reflexivity.
  - reflexivity.
  - split; [by left|]. split; [reflexivity|]. split; [reflexivity|]. right.
    exists "example.org", [V4 203 0 114 7]. split; [reflexivity|]. split; [reflexivity|]. split; [done|by vm_compute].
  - by left.
  - intros msg. eexists. reflexivity.
  - destruct (Hall (server []) pinned_yorg yorg_pinned) as (ws' & Hrun & _).
    + by vm_compute.
    + unfold seen. assert (nonces (caldb (server [])) = []) as -> by (by vm_compute). reflexivity.
    + exists headers, ws'. exact Hrun.
Defined.

(** *** Pages and pins *)

Definition served_db : CalDb := caldb (server []).
Lemma served_rows :
  map (fun e => (ev_id e, ev_calendar e, ev_updated_at e)) (events served_db) = [("e1", "cal", 5%Z); ("e2", "cal", 6%Z)].
Proof. vm_compute. reflexivity. Qed.
Lemma served_listing : map ev_id (listing "cal" served_db) = ["e1"; "e2"].
Proof. vm_compute. reflexivity. Qed.
#[local] Opaque served_db.

Lemma served_ids : map ev_id (events served_db) = ["e1"; "e2"].
Proof.
  transitivity (map (fun p : string * string * Z => p.1.1)
    (map (fun e => (ev_id e, ev_calendar e, ev_updated_at e)) (events served_db))).
  - by rewrite map_map.
  - by rewrite served_rows.
Qed.
Lemma served_event e : e ∈ events served_db -> (0 <= ev_updated_at e)%Z /\ ev_id e <> "".
Proof.
  intros He.
  assert ((ev_id e, ev_calendar e, ev_updated_at e)
    ∈ map (fun e => (ev_id e, ev_calendar e, ev_updated_at e)) (events served_db)) as Hin by (apply elem_of_map; by exists e).
  rewrite served_rows, !elem_of_cons in Hin. destruct Hin as [[= -> _ ->]|[[= -> _ ->]|Hin]]; [done..|by apply elem_of_nil in Hin].
Qed.

Lemma pages_list_everything_witness :
  exists l m, follow any_id (fun _ => served_db) 1 0 "cal" 0 "" = Some (map view l, m)
    /\ forall e, e ∈ events served_db -> ev_calendar e = "cal" -> ev_origin e = None -> e ∈ l.
Proof.
  destruct (pages_list_everything any_id "cal" (fun _ => served_db)) as [_ Hconst].
  - intros k. split; [|split; [|exact served_event]].
    + intros e _. done.
    + rewrite served_ids. apply NoDup_cons. split; [|apply NoDup_singleton].
      intros Hin%list_elem_of_singleton. done.
  - intros k e He. left. exact He.
  - destruct (Hconst served_db 1%nat (fun _ => eq_refl)) as (l & m & Hf & _ & _ & Hl).
    + rewrite <- (length_map ev_id), served_listing. simpl. lia.
    + exists l, m. split; [exact Hf|]. intros e He Hc Ho. apply Hl. by rewrite Ho.
Defined.

(** A well-known document with another key for a pinned server. *)
Definition impostor : ServerMetadata := mk_metadata "https://evil" [] "" None (Some "mallory") None.
Definition discovered : result DiscoveryError PeerServer * FedWorld (list WireResponse) :=
  run (discover_and_pin toy_moment (mk_fed_config true false ∅ None) yorg "y.org")
    (server [mk_wire_response 200 (metadata_json impostor)]).

Example impostor_refused : fst discovered = Err (InvalidMetadata "peer cert fingerprint changed").
Proof. vm_compute. reflexivity. Qed.

Lemma yorg_is_pinned net : pinned "y.org" (caldb (server net)) = Some pinned_yorg.
Proof. vm_compute. reflexivity. Qed.
Lemma discovered_runs :
  run (discover_and_pin toy_moment (mk_fed_config true false ∅ None) yorg "y.org")
    (server [mk_wire_response 200 (metadata_json impostor)]) = (fst discovered, snd discovered).
Proof. exact (surjective_pairing discovered). Qed.
#[local] Opaque discovered.

Lemma discovery_keeps_pins_witness :
  exists p, pinned "y.org" (caldb (snd discovered)) = Some p /\ ps_fingerprint p = "fpr:yorg".
Proof.
  exact (discovery_keeps_pins toy_moment (mk_fed_config true false ∅ None) yorg "y.org"
    (server [mk_wire_response 200 (metadata_json impostor)]) (fst discovered) (snd discovered)
    discovered_runs "y.org" pinned_yorg (yorg_is_pinned _)).
Defined.
