(* ===== verification/JmapCalWitness.v ===== *)
(** Concrete calls of the calendar methods: Alice shares a calendar with an account of
    another server, which is discovered and pinned on the way; and a booking to its
    end, with its two mails. *)
From S2P Require Import Prelude Text Bytes Ident Json JmapEnvelope Store StoreFacts Mail MailFacts Pgp Interleave Calendars Sharing FedStore Scheduling Limiter Slots CalHistory BookFacts CalWitness FedSig FedSync FedVerify FedSyncFacts Queue Delivery JmapMail Ics Confirm IcsFacts JmapCalendar JmapCalendarFacts Blob BlobFacts MailWitness JmapWitness PgpWitness FedWitness.

Open Scope string_scope.

#[local] Instance availability_text : Serde Availability :=
  @CalWitness.serde_countable Availability _ CalWitness.availability_countable.
#[local] Instance availability_text_laws : SerdeLaws Availability :=
  @CalWitness.serde_countable_laws Availability _ CalWitness.availability_countable.
#[local] Instance numbers_text : Serde (list Z) := @CalWitness.serde_countable (list Z) _ _.
#[local] Instance numbers_text_laws : SerdeLaws (list Z) := @CalWitness.serde_countable_laws (list Z) _ _.
#[local] Instance permissions_text_laws : SerdeLaws Permissions.
Proof. split. by intros [[] [] [] [] [] []]. Qed.

#[local] Instance invitation_text : InvitationJson := {| invitation_json i := bytes_of (fi_calendar_name i) |}.
#[local] Instance share_args : FromValue CalendarShareArgs := {| from_value v :=
  a <-? text_field "accountId" v ;; c <-? text_field "calendarId" v ;;
  m <-? text_field "inviteeEmail" v ;; t <-? text_field "sharingType" v ;; Ok (mk_share_args a c m t) |}.
#[local] Instance invitation_args : FromValue CalendarInvitationSetArgs := {| from_value v :=
  a <-? text_field "accountId" v ;; x <-? text_field "action" v ;; i <-? text_field "invitationId" v ;;
  Ok (mk_invitation_args a x i) |}.
#[local] Instance get_args : FromValue CalendarGetArgs := {| from_value v :=
  a <-? text_field "accountId" v ;; Ok (mk_calendar_get a None) |}.
#[local] Instance no_availability : FromValue Availability := {| from_value _ := Err "no availability" |}.
#[local] Instance no_numbers : FromValue (list Z) := {| from_value _ := Err "no numbers" |}.

Definition her_calendar : CalDb :=
  snd (create_calendar "cal" 1 "alice" "Work" None (empty_cal_db (db after_account))).
(** The network: y.org's metadata, then its answer to the invitation. *)
Definition yorg_metadata : WireResponse :=
  mk_wire_response 200 (metadata_json (mk_metadata "https://y.org" [] "" None (Some (cl_cert yorg)) None)).
Definition before_sharing : FedWorld (list WireResponse) :=
  mk_fed_world (mk_pgp_world after_account (mk_pgp_db [] [])) her_calendar
    [yorg_metadata; mk_wire_response 200 "ok"] 0.

Definition alice_view : Account := mk_account_view "alice" "alice@example.org" None 1.
Definition here_config : FederationConfig := mk_fed_config true false ∅ None.
Abbreviation toy_share := (calendar_share any_id same toy_moment alice_view here here_config).
Definition share_request : Value :=
  json_object [("accountId", Str "alice"); ("calendarId", Str "cal"); ("inviteeEmail", Str "bob@y.org");
    ("sharingType", Str "sharing")].
Definition sharing_run := run (toy_share share_request) before_sharing.

Lemma sharing_runs : run (toy_share share_request) before_sharing = (fst sharing_run, snd sharing_run).
Proof. apply surjective_pairing. Qed.
Lemma sharing_succeeds : length (federations (caldb (snd sharing_run))) = 1%nat.
Proof. vm_compute. reflexivity. Qed.
#[local] Opaque sharing_run.

Lemma world_tables (p : PgpWorld) d (n : list WireResponse) i : CalHistory.same_tables d (caldb (mk_fed_world p d n i)).
Proof. done. Qed.
Lemma her_calendar_ok : cal_ok any_id any_zone (caldb before_sharing).
Proof.
  apply (cal_ok_same any_id any_zone her_calendar (caldb before_sharing) (world_tables _ _ _ _)).
  apply (cal_reachable_run any_id any_zone (db after_account)). eapply reach_step; [apply reach_start|].
  apply step_writes, w_calendar.
Qed.

Lemma calendar_methods_isolate_witness :
  own_only "alice" (caldb before_sharing) (caldb (snd sharing_run))
  /\ length (federations (caldb (snd sharing_run))) = 1%nat.
Proof.
  split; [|exact sharing_succeeds].
  refine (proj1 (calendar_methods_isolate any_id same any_zone same same (fun _ => Null) toy_moment alice_view here
    here_config "Calendar/share" CALENDAR_CAPABILITY toy_share share_request before_sharing (fst sharing_run)
    (snd sharing_run) _ her_calendar_ok sharing_runs)).
  do 4 right. left.
Defined.

(** * The booking of [CalWitness] to its end, with its two mails. *)

#[local] Existing Instances toy_chrono serde_countable window_eq window_countable availability_eq availability_countable gregorian.
Definition plain : @Tz toy_chrono := Plain.
#[local] Instance plain_label : ChronoLabel := {| local_label _ t := Some (pretty t) |}.

Definition breaks (s : string) : bool := negb (no_breaks s).
Lemma no_break_is_spacing s : no_breaks s = false -> breaks s = true.
Proof. unfold breaks. by intros ->. Qed.

(** A visitor whose name is two header fields and the start of a body. *)
Definition mallory : BookBody := mk_body (nine + 3600) 30 ("Bob" +:+ crlf +:+ "Bcc: all@y.org" +:+ crlf +:+ crlf) "bob@y.org" None.
Definition booked_by (body : BookBody) : Booking :=
  mk_booking "bk1" "page1" "ann" "ev1" (bb_name body) (bb_email body) (bb_note body) (bb_start body)
    (bb_start body + bb_duration body * 60) "confirmed" 3.
Definition ann_account : Account := mk_account_view "ann" "ann@x.org" (Some "Ann") 0.
Definition ann_page : SchedulingPage :=
  mk_page "page1" "ann" "meet-ann" "Meet Ann" None "cal1" "UTC" (mk_availability 1 ∅ ∅) [30] 0 0 0 None None None Active 0 0.

Lemma confirmation_headers_witness :
  exists raw1 raw2,
    compose "b" "m" 0 (visitor_mail "x.org" ann_page ann_account (booked_by mallory) plain) = Some raw1
    /\ compose "c" "n" 0 (owner_mail "x.org" ann_page ann_account (booked_by mallory) plain) = Some raw2
    /\ server_header raw1 "bob@y.org" /\ server_header raw2 "ann@x.org".
Proof.
  destruct (compose_total "b" "m" 0 (visitor_mail "x.org" ann_page ann_account (booked_by mallory) plain)) as [raw1 H1].
  destruct (compose_total "c" "n" 0 (owner_mail "x.org" ann_page ann_account (booked_by mallory) plain)) as [raw2 H2].
  exists raw1, raw2. split; [exact H1|]. split; [exact H2|].
  refine (confirmation_headers breaks mallory "x.org" ann_page ann_account (booked_by mallory) plain "b" "m" "c" "n" 0
    raw1 raw2 no_break_is_spacing _ eq_refl eq_refl eq_refl eq_refl eq_refl eq_refl eq_refl H1 H2).
  vm_compute. reflexivity.
Defined.

(** The submitter's queue is full; the visitor is told that the slot is booked. *)
Definition full_queue : ConfirmCtx :=
  mk_confirm_ctx "https://x.org" (Some (fun _ _ _ _ => fail "queue is full")) (fun n => pretty (Z.of_nat n)) fresh_1 4.

Lemma ten_is_booked_once :
  option_map (fun x => (is_ok x.1, length (bookings x.2)))
    (book CalWitness.any_id no_spacing "ev1" "bk1" "t1" nine 3 "meet-ann" (visit (nine + 3600)) after_page)
  = Some (true, 1%nat).
Proof. by vm_compute. Qed.

Lemma booking_stands_witness :
  exists booking page s', book_and_confirm CalWitness.any_id toy_message no_spacing full_queue "ev1" "bk1" "t1" nine 3 "meet-ann"
      (visit (nine + 3600)) (mk_book_state after_page ∅ []) = Some (book_reply booking page, s')
    /\ length (bookings (bs_tables s')) = 1%nat.
Proof.
  destruct (option_map_some _ _ _ ten_is_booked_once) as ([[[[booking page] owner]|e] d] & Hb & Hr); [|discriminate Hr].
  exists booking, page.
  destruct (booking_stands CalWitness.any_id toy_message no_spacing full_queue "ev1" "bk1" "t1" nine 3 "meet-ann"
    (visit (nine + 3600)) (mk_book_state after_page ∅ []) booking page owner d Hb) as (s' & Hrun & _ & Hbookings & _).
  exists s'. split; [exact Hrun|]. rewrite Hbookings. by injection Hr.
Defined.
